(* ===== verification/_CoqProject ===== *)
-Q . S2P
Prelude.v
Machine.v
Buffer.v
Exceptions.v
Message.v
BufferRaw.v
BufferXdr.v
AccessPoint.v
ObjectDescription.v
Discovery.v
ExceptionProtocol.v
Utils.v
Factories.v
Broker.v
SearchNode.v
JobMgr.v
JobConfig.v
Network.v
Transport.v
CoreCalls.v
References.v
Services.v
Effects.v
Throwing.v
Placement.v
Launch.v
StripMetadata.v
StripManager.v
StripFile.v
StripSessions.v
ComboxSocket.v
UdsBox.v
Interconnector.v
Sockets.v
Interface.v
Binding.v
Types.v
Generated.v
Typing.v
Stubs.v
Compiler.v
Invocation.v
