(* ===== verification/Prelude.v ===== *)
(** * A verification library for the POP-C++ runtime

    POP-C++ runs C++ objects in remote processes. Its compiler turns a parallel class into a stub
    for the callers and a broker for the process of the object. A caller marshals a method call into
    a message buffer and sends it over a communication box; the broker of the object receives it,
    queues it by the semantics of the method (concurrent, sequential or mutex), serves it and sends
    back the results or the exception. Where an object runs is decided by the grid: job managers
    match object descriptions against their resources, search nodes flood requests to their
    neighbours and collect the answers, and services of the application keep its code and objects.

    ** Files

    Foundations:
    - Prelude.v: results, state computations, record updates, lists and finite sums.
    - Machine.v: the C++ fundamental types on an LP64 little-endian host, bytes, IEEE numbers with
      their bit patterns, strings, vectors with the bounds of [memcpy].
    - Effects.v: computations that may not have ended, with a program logic ([wp]).
    - Throwing.v: computations whose exceptions keep the state.

    Messages:
    - Buffer.v: the message header and the abstract class [pop_buffer] (lib/core/buffer.cc,
      include/core/pop_buffer.h) as the class [PopBuffer], its laws [PopBufferLaws], strings,
      vectors and [packarray] on top of it. [codec w x r a] says that what the writer [w] appends
      is what the reader [r] takes, and that they end with [x] and [a].
    - Exceptions.v, ExceptionProtocol.v: [pop_exception] (lib/core/exception.cc), [SendException]
      and [CheckAndThrow] (lib/core/buffer.cc).
    - Message.v: the byte vector, header stamp and receive loops shared by the two buffers; the
      interface of a communication box ([combox], [ComboxStream], [ComboxChannel]); the class
      [PopTransport] and the lemma [call_transport] that carries any codec across a connection.
    - BufferRaw.v, BufferXdr.v: [pop_buffer_raw] and [pop_buffer_xdr]
      (lib/dynamic/buffer_raw.cc, lib/dynamic/buffer_xdr.cc), instances of both classes.
    - AccessPoint.v, ObjectDescription.v: [pop_accesspoint] and [pop_od] (lib/core/accesspoint.cc,
      lib/core/od.cc).
    - Discovery.v: way back, exploration list, node information, requests and responses
      (lib/core/popwayback.cc, lib/dynamic/explorationList.cc, popc_search_node_info.cc,
      request.cc, response.cc).
    - Transport.v: the objects of the protocols crossing the wire.

    Connections:
    - ComboxSocket.v: [pop_combox_socket] (lib/core/combox.cc, combox_socket.cc); UdsBox.v:
      [popc_combox_uds] (lib/dynamic/popc_combox_uds.cpp). Both are written against the system calls.
    - Sockets.v: that two connected sockets implement the [combox] of Message.v, and what their
      callbacks do to the count of the object.
    - Interconnector.v: the processes that carry the messages of a node over MPI
      (interconnector/popc_mpi_interconnector.cpp), and any number of nodes.

    Objects and their callers:
    - Broker.v: request queue and serving of the broker as a transition system (lib/core/broker.cc,
      broker_serve.cc, lib/dynamic/broker_receive.cc, object.cc).
    - CoreCalls.v: the calls every object answers; References.v: the count of references through
      the life of the interfaces of an object.
    - Interface.v: [pop_interface] (lib/dynamic/interface.cc); Binding.v: its methods against the
      broker of CoreCalls.v.
    - Factories.v: encodings, protocols and classes by name (lib/core/*_factory*.cc).
    - Utils.v: command lines, wildcards, contacts (lib/dynamic/utils.cc).

    The grid and the services:
    - SearchNode.v, JobMgr.v: the two services of the grid (services/lib/popc_search_node.cc,
      services/lib/jobmgr.cc); Network.v: any number of them exchanging calls in any order.
    - JobConfig.v, Placement.v, Launch.v: the configuration of a job manager, [AllocResource],
      [CreateObject] and [Forward], and [ExecObj].
    - Services.v: the services of an application (services/lib/service_base.cc, codemgr.cc,
      objectmonitor.cc, batchmgr.cc, appservice.cc).

    Parallel files:
    - StripMetadata.v: what the metadata of a file hold and their document
      (dev/popfile/popfile_metadata.cpp); StripManager.v: the manager of the strips of a node
      (services/lib/popfilemanager.cc) and the calls on their way between the nodes.
    - StripFile.v: [POPFStream] with its buffers, readers and grips (dev/popfile/popfile.cpp,
      popfilebuffer.cpp, popfilereader.cc, popfile_grip.cpp), the definition of striping, and what
      every operation does to it; StripSessions.v: a file over any number of sessions.

    The compiler:
    - Types.v: the types of parser/type*.cc and the statements they generate; Generated.v: what the
      statements do; Typing.v: the types of the variables they write.
    - Stubs.v, Compiler.v: parameters, methods and classes (parser/classmember.cc, class.cc,
      codefile.cc); Invocation.v: a generated stub against a generated wrapper.

    Definitions keep the names of the code, in a Module where two classes share one. A constructor
    is [<class>_new], an assignment operator [_assign].

    ** Conventions

    [result] has three cases: a value, a thrown [pop_exception], and [Stuck], where the C++ is
    undefined (a read or write outside an object, a signed overflow, an indeterminate value, an
    invalidated iterator). A member no constructor writes is an [option]. Integers are [Z] with
    their wrap-around or overflow test written out, floats are [spec_float] rounded to 24 or 53
    bits. Methods are functions on their state; the broker, the grid and the interconnectors, where
    threads and nodes interleave, are steps and reachability. A remote call is an output of the
    method that makes it and its answer an input. The XDR routines of the C library, the system
    calls, MPI and what plugins contain are parameters with their documented laws.

    ** What the theorems show

    - Messages: a call or exception is rebuilt from the bytes as it was sent, whatever the pieces
      the connection delivers; unpacking arbitrary bytes never leaves the vector; requests,
      responses and descriptions survive, with the exact fields that do not; an XDR buffer loses
      its place after five booleans.
    - Connections: no operation of a socket box uses a connection that was deleted or leaves its
      array; the connections the poll marked are served in turn; sockets carry the messages as
      Message.v supposes; what [Wait] of a Unix domain socket box answers, and that its full array
      is overrun; a call and its answer pass through two interconnectors, whose tags stay apart,
      and where answers are swapped.
    - Broker: a mutex method runs alone, the counters are exact, the order of service, and the
      request that keeps a terminating broker alive.
    - References: the calls every object answers do to the count what their stubs are for; the count
      is the number of connections and of references in messages; an interface that was sent is
      bound to the same object; an interface has one box at most, and [Bind] tries protocols and
      addresses in order.
    - Search nodes: which requests a node accepts, what it sends and why, that it serves a request
      once, which answers a discovery returns; a discovery ends in a grid of any shape and order of
      delivery; and where the code does not do what it means to (way back, removal of jobs, dead
      neighbours).
    - Job managers: what a reservation takes, the bound on jobs, the order of slots and contacts,
      the partition of [Forward], traces and pauses; the loops of allocation end and ask the nodes
      in turn, a creation accounts for every object it started; what a configuration file means; and
      the reservations that leak, cannot be cancelled or are never freed.
    - Compiler: generated code reads what generated code wrote, leaves values of their types whatever
      the message holds, and a call through a stub, a connection and a wrapper is the call of the
      method; methods have distinct numbers, a stub reaches its wrapper in a broker of a derived
      class, and the search for base classes ends.
    - Parallel files: writing deals the blocks to the strips as the definition of striping says; what
      any number of sessions wrote is there when the file is gathered, in whatever order the calls
      for different strips are executed; and the readings that repeat or never return.
    - Tools and registries: wildcards, options, contacts; the least metric wins.

    ** Bounds and fuel

    A loop of the code that is not structural has fuel: [recv_loop] one turn per byte
    ([recv_loop_fuel]), [checkremove_loop] one per argument, [CheckPauseList_fuel] one per entry,
    [reserve_loop] one per object and node, [FindAllBaseClass] one per class,
    [write_loop], [gather_loop] one per character; then a theorem says that this is enough, or that no
    fuel is when the code does not return (the readings of [created_file_never_read]). Loops around a system
    call (poll, send, receive, the attempts of [Bind]) may run for ever in the code; without fuel
    left they have no outcome, and what is said of them holds for all fuel. A blocked receive of MPI
    has no outcome either. Lengths are bounded by [int_max] where the code counts in [int]. Arrays
    of characters that hold pieces of text the compiler writes are taken to be long enough; others
    are not, and writing behind them is [Stuck].

    ** Not modelled

    The process start of the allocators, signals, the environment, SSH tunnels and the Windows
    functions; the MPI box and the pseudo-dynamic library, which are the same protocol over MPI;
    [SelfRegister] of the job manager; collective classes and constructors in threads; the grammar,
    the driver and the text around the marshalling code of the compiler; the XML reader of the
    parallel files, which is vendored, the remote log, and the main functions of the tools. *)

From stdpp Require Export prelude strings gmap list sorting.
From Stdlib Require Export ZArith Lia.
From Stdlib Require Export Init.Byte.
From Stdlib Require Strings.Byte.

Open Scope Z_scope.

Declare Scope pop_scope.
Delimit Scope pop_scope with pop.
Open Scope pop_scope.

(** ** Results

    A C++ computation that can throw: [Ok] is a normal return, [Throw] carries the code and
    the text of a [pop_exception], and [Stuck] is the end of what the language defines: a read or
    write outside an object, a signed overflow, the use of an indeterminate value or of an
    invalidated iterator. *)
Inductive result (A : Type) : Type :=
  | Ok (a : A)
  | Throw (code : Z) (info : string)
  | Stuck.
Arguments Ok {A} a.
Arguments Throw {A} code info.
Arguments Stuck {A}.

Definition rbind {A B : Type} (m : result A) (k : A → result B) : result B :=
  match m with
  | Ok a => k a
  | Throw c i => Throw c i
  | Stuck => Stuck
  end.

Notation "'let!' x := m 'in' k" := (rbind m (λ x, k))
  (at level 10, x pattern, m at level 100, k at level 200) : pop_scope.

Definition is_Ok {A : Type} (r : result A) : Prop := ∃ a, r = Ok a.
Definition is_Stuck {A : Type} (r : result A) : bool :=
  match r with Stuck => true | _ => false end.

Lemma rbind_Ok {A B : Type} (m : result A) (k : A → result B) (b : B) :
  rbind m k = Ok b ↔ ∃ a, m = Ok a ∧ k a = Ok b.
Proof.
  destruct m as [x|c i|]; simpl; split; intros H; try discriminate.
  - by exists x.
  - destruct H as (a & [= ->] & H). exact H.
  - destruct H as (a & ? & _); discriminate.
  - destruct H as (a & ? & _); discriminate.
Qed.

Lemma rbind_assoc {A B C : Type} (m : result A) (k : A → result B) (h : B → result C) :
  rbind (rbind m k) h = rbind m (λ a, rbind (k a) h).
Proof. by destruct m. Qed.

(** ** Record update

    [r <| f := v |>] is [r] with its field [f] replaced.  A record type opts in with an instance
    of [Eta] that rebuilds a value from its fields. *)
Class Eta (R : Type) := eta : R → R.
Class Upd {R T : Type} (p : R → T) := upd : (T → T) → R → R.
Arguments upd {R T} p {Upd} _ _.

Ltac solve_upd p :=
  lazymatch type of p with
  | ?R → _ =>
      let e := eval hnf in (ltac:(let x := constr:(_ : Eta R) in exact x)) in
      let e := eval cbv beta in e in
      match eval pattern p in e with
      | ?g _ => exact (λ f, g (λ r, f (p r)))
      end
  end.
#[export] Hint Extern 1 (Upd ?p) => solve_upd p : typeclass_instances.

Notation "r <| p := v |>" := (upd p (λ _, v) r)
  (at level 1, left associativity, p at level 99) : pop_scope.

(** ** Tactics *)

Ltac deex :=
  repeat match goal with
         | H : ∃ (name : _), _ |- _ => let name' := fresh name in destruct H as [name' H]
         | H : _ ∧ _ |- _ => destruct H
         end.

(** Splits the [let!] chain of an [Ok] hypothesis into its steps. *)
Ltac inv_ok :=
  repeat match goal with
         | H : rbind _ _ = Ok _ |- _ => apply rbind_Ok in H; deex
         | H : Ok _ = Ok _ |- _ => injection H as H; subst
         | H : Throw _ _ = Ok _ |- _ => discriminate H
         | H : Stuck = Ok _ |- _ => discriminate H
         end.

Ltac case_if :=
  match goal with
  | |- context [if ?b then _ else _] => destruct b eqn:?
  | H : context [if ?b then _ else _] |- _ => destruct b eqn:?
  end.

(** Boolean tests of the code turned into arithmetic. *)
Ltac reflect_bools :=
  repeat match goal with
         | H : (_ <=? _) = true |- _ => apply Z.leb_le in H
         | H : (_ <=? _) = false |- _ => apply Z.leb_gt in H
         | H : (_ <? _) = true |- _ => apply Z.ltb_lt in H
         | H : (_ <? _) = false |- _ => apply Z.ltb_ge in H
         | H : (_ =? _) = true |- _ => apply Z.eqb_eq in H
         | H : (_ =? _) = false |- _ => apply Z.eqb_neq in H
         | H : (_ >? _) = _ |- _ => rewrite Z.gtb_ltb in H
         | H : (_ >=? _) = _ |- _ => rewrite Z.geb_leb in H
         | H : (_ && _)%bool = true |- _ => apply andb_true_iff in H; destruct H
         | H : (_ || _)%bool = false |- _ => apply orb_false_iff in H; destruct H
         | H : negb _ = true |- _ => apply negb_true_iff in H
         | H : negb _ = false |- _ => apply negb_false_iff in H
         end.

Create HintDb pop discriminated.
Create Rewrite HintDb pop_len.

(** ** Lists *)

(** The length of a buffer as the integer the code computes with. *)
Abbreviation zlen l := (Z.of_nat (length l)).

Lemma zlen_app {A : Type} (l k : list A) : zlen (l ++ k) = zlen l + zlen k.
Proof. rewrite length_app. lia. Qed.

Lemma zlen_nonneg {A : Type} (l : list A) : 0 ≤ zlen l.
Proof. lia. Qed.

Lemma take_app_len {A : Type} (l k : list A) (n : nat) : n = length l → take n (l ++ k) = l.
Proof. intros ->. apply take_app_length. Qed.

Lemma drop_app_len {A : Type} (l k : list A) (n : nat) : n = length l → drop n (l ++ k) = k.
Proof. intros ->. apply drop_app_length. Qed.

Lemma take_length_take {A : Type} (n : nat) (l : list A) :
  take (length (take n l)) l = take n l ∧ drop (length (take n l)) l = drop n l.
Proof.
  rewrite length_take. destruct (Nat.le_ge_cases n (length l)).
  - by rewrite Nat.min_l.
  - by rewrite Nat.min_r, !take_ge, !drop_ge by lia.
Qed.

(** Splitting a list into [k] rows of [w] elements. *)
Fixpoint chunks {A : Type} (w k : nat) (l : list A) : list (list A) :=
  match k with
  | O => []
  | S k' => take w l :: chunks w k' (drop w l)
  end.

Lemma chunks_length {A : Type} (w k : nat) (l : list A) : length (chunks w k l) = k.
Proof. revert l; induction k as [|k IH]; intros l; simpl; [done | by rewrite IH]. Qed.

Lemma chunks_concat {A : Type} (w : nat) (ls : list (list A)) (rest : list A) :
  Forall (λ l, length l = w) ls → chunks w (length ls) (concat ls ++ rest) = ls.
Proof.
  induction 1 as [|l ls Hl Hls IH]; simpl; [done |].
  rewrite <- app_assoc, take_app_len, drop_app_len by done. by rewrite IH.
Qed.

Lemma concat_length_uniform {A : Type} (w : nat) (ls : list (list A)) :
  Forall (λ l, length l = w) ls → length (concat ls) = (w * length ls)%nat.
Proof. induction 1; simpl; [lia |]. rewrite length_app. lia. Qed.

Lemma Forall_map_len {A B : Type} (f : A → list B) (w : nat) (l : list A) :
  (∀ a, length (f a) = w) → Forall (λ x, length x = w) (f <$> l).
Proof. intros H. apply Forall_fmap, Forall_true. intros a; apply H. Qed.

Lemma StronglySorted_rev {A : Type} (R : A → A → Prop) (l : list A) :
  StronglySorted R l → StronglySorted (λ x y, R y x) (rev l).
Proof.
  induction 1 as [|x l Hl IH Hx]; simpl; [constructor |].
  apply StronglySorted_app. split_and!; [| done | repeat constructor].
  intros y z Hy ->%list_elem_of_singleton. rewrite Forall_forall in Hx. apply Hx.
  by apply list_elem_of_In, in_rev, list_elem_of_In.
Qed.

(** Replacing an element. *)
Lemma insert_Permutation {A : Type} (l : list A) (i : nat) (x : A) :
  (i < length l)%nat → <[i:=x]> l ≡ₚ x :: delete i l.
Proof.
  intros Hi. rewrite insert_take_drop, delete_take_drop by done.
  by rewrite Permutation_middle.
Qed.

(** Exchanging two elements. *)
Lemma swap_Permutation {A : Type} (l : list A) (i k : nat) (x y : A) :
  i ≠ k → l !! i = Some x → l !! k = Some y → <[k:=x]> (<[i:=y]> l) ≡ₚ l.
Proof.
  intros Hik Hi Hk. pose proof (lookup_lt_Some _ _ _ Hi). pose proof (lookup_lt_Some _ _ _ Hk).
  assert (Hd : delete k (<[i:=y]> l) ≡ₚ delete i l).
  { apply (Permutation_cons_inv (a := y)). rewrite <- (insert_Permutation l i y) by done. symmetry.
    apply delete_Permutation. by rewrite list_lookup_insert_ne. }
  rewrite (insert_Permutation (<[i:=y]> l) k x) by (by rewrite length_insert). rewrite Hd.
  symmetry. by apply delete_Permutation.
Qed.

(** Reading every element of a list, failing when one element fails. *)
Fixpoint map_option {A B : Type} (f : A → option B) (l : list A) : option (list B) :=
  match l with
  | [] => Some []
  | x :: l' =>
      match f x, map_option f l' with
      | Some y, Some ys => Some (y :: ys)
      | _, _ => None
      end
  end.

Lemma map_option_fmap {A B : Type} (f : A → B) (g : B → option A) (l : list A) :
  Forall (λ a, g (f a) = Some a) l → map_option g (f <$> l) = Some l.
Proof. induction 1 as [|a l Ha Hl IH]; csimpl; [done |]. by rewrite Ha, IH. Qed.

Lemma map_option_Some {A : Type} (l : list A) : map_option Some l = Some l.
Proof. induction l as [|x l IH]; simpl; [done | by rewrite IH]. Qed.

Lemma map_option_length {A B : Type} (f : A → option B) (l : list A) (k : list B) :
  map_option f l = Some k → length k = length l.
Proof.
  revert k; induction l as [|x l IH]; simpl; intros k H; [by simplify_eq |].
  destruct (f x), (map_option f l) eqn:E; simplify_eq; simpl. f_equal. by apply IH.
Qed.
