(* ===== verification/Machine.v ===== *)
(** * Machine values

    The C++ fundamental types the runtime marshals, on an LP64 little-endian host: integers as
    [Z] with their width, bytes as [byte], [float] and [double] as IEEE 754 numbers
    ([SpecFloat]) with their bit patterns, [std::string] as [string] and C strings as byte lists.
    A NaN keeps no payload. *)

From S2P Require Import Prelude.
From Stdlib Require Export Floats.SpecFloat.
From Stdlib Require Import Strings.Byte.

(** ** Integers of a fixed width *)

Definition in_sint (w z : Z) : bool := (- 2 ^ (w - 1) <=? z) && (z <? 2 ^ (w - 1)).
Definition in_uint (w z : Z) : bool := (0 <=? z) && (z <? 2 ^ w).
Definition swrap (w z : Z) : Z := (z + 2 ^ (w - 1)) mod 2 ^ w - 2 ^ (w - 1).
Definition uwrap (w z : Z) : Z := z mod 2 ^ w.

(** Arithmetic on [int]: an overflow is undefined behaviour. *)
Definition int_max : Z := 2147483647.
Definition check_int (z : Z) : result Z := if in_sint 32 z then Ok z else Stuck.

Lemma check_int_Ok z : in_sint 32 z = true → check_int z = Ok z.
Proof. unfold check_int. by intros ->. Qed.

Lemma in_sint32 z : in_sint 32 z = true ↔ -2147483648 ≤ z ≤ 2147483647.
Proof. unfold in_sint. rewrite andb_true_iff, Z.leb_le, Z.ltb_lt. simpl. lia. Qed.

Lemma swrap_mod w z : 0 < w → in_sint w z = true → swrap w (z mod 2 ^ w) = z.
Proof.
  intros Hw H. unfold in_sint in H. apply andb_true_iff in H as [H1 H2]. reflect_bools.
  assert (E : 2 ^ w = 2 * 2 ^ (w - 1)) by (rewrite <- Z.pow_succ_r by lia; f_equal; lia).
  unfold swrap. rewrite Zplus_mod_idemp_l, Z.mod_small by lia. lia.
Qed.

Lemma swrap_small w z : 0 < w → in_sint w z = true → swrap w z = z.
Proof.
  intros Hw H. rewrite <- (swrap_mod w z Hw H) at 2. unfold swrap.
  by rewrite Zplus_mod_idemp_l.
Qed.

Lemma swrap_range w z : 0 < w → in_sint w (swrap w z) = true.
Proof.
  intros Hw. unfold in_sint, swrap.
  assert (E : 2 ^ w = 2 * 2 ^ (w - 1)) by (rewrite <- Z.pow_succ_r by lia; f_equal; lia).
  pose proof (Z.mod_pos_bound (z + 2 ^ (w - 1)) (2 ^ w) ltac:(lia)).
  apply andb_true_iff. rewrite Z.leb_le, Z.ltb_lt. lia.
Qed.

(** ** Bytes *)

#[export] Instance byte_eq_decision : EqDecision byte := Byte.byte_eq_dec.

Definition byte_val (b : byte) : Z := Z.of_N (Byte.to_N b).
Definition byte_of (z : Z) : byte :=
  match Byte.of_N (Z.to_N (z mod 256)) with Some b => b | None => x00 end.

Lemma byte_val_range b : 0 ≤ byte_val b < 256.
Proof. unfold byte_val. pose proof (Byte.to_N_bounded b). lia. Qed.

Lemma byte_of_val b : byte_of (byte_val b) = b.
Proof.
  unfold byte_of. rewrite Z.mod_small by apply byte_val_range.
  unfold byte_val. by rewrite N2Z.id, Byte.of_to_N.
Qed.

Lemma byte_val_of z : byte_val (byte_of z) = z mod 256.
Proof.
  unfold byte_of. pose proof (Z.mod_pos_bound z 256 ltac:(lia)) as Hz.
  destruct (Byte.of_N (Z.to_N (z mod 256))) as [b|] eqn:E.
  - apply Byte.to_of_N in E. unfold byte_val. rewrite E. lia.
  - apply Byte.of_N_None_iff in E. lia.
Qed.

(** The bytes of an integer in memory, least significant first. *)
Fixpoint le_bytes (n : nat) (z : Z) : list byte :=
  match n with
  | O => []
  | S n' => byte_of z :: le_bytes n' (z / 256)
  end.

Fixpoint le_value (bs : list byte) : Z :=
  match bs with
  | [] => 0
  | b :: bs' => byte_val b + 256 * le_value bs'
  end.

Lemma le_bytes_length n z : length (le_bytes n z) = n.
Proof. revert z; induction n as [|n IH]; intros z; simpl; [done | by rewrite IH]. Qed.

Lemma le_value_bytes n z : le_value (le_bytes n z) = z mod 256 ^ Z.of_nat n.
Proof.
  revert z; induction n as [|n IH]; intros z; [simpl; by rewrite Z.mod_1_r |].
  cbn [le_bytes le_value]. rewrite IH, byte_val_of, Nat2Z.inj_succ, Z.pow_succ_r by lia.
  by rewrite Z.rem_mul_r by lia.
Qed.

Definition be_bytes (n : nat) (z : Z) : list byte := reverse (le_bytes n z).
Definition be_value (bs : list byte) : Z := le_value (reverse bs).

Lemma be_bytes_length n z : length (be_bytes n z) = n.
Proof. unfold be_bytes. by rewrite length_reverse, le_bytes_length. Qed.

Lemma be_value_bytes n z : be_value (be_bytes n z) = z mod 256 ^ Z.of_nat n.
Proof. unfold be_value, be_bytes. by rewrite reverse_involutive, le_value_bytes. Qed.

(** Network order ([popc_htonl], [popc_ntohl]): the four bytes of an [int], most significant
    first; reading gives the signed value back. *)
Lemma int_le_roundtrip z : in_sint 32 z = true → swrap 32 (le_value (le_bytes 4 z)) = z.
Proof. intros H. rewrite le_value_bytes. by apply swrap_mod. Qed.

Lemma int_be_roundtrip z : in_sint 32 z = true → swrap 32 (be_value (be_bytes 4 z)) = z.
Proof. intros H. rewrite be_value_bytes. by apply swrap_mod. Qed.

(** ** Strings *)

Abbreviation string_bytes := String.list_byte_of_string.
Abbreviation bytes_string := String.string_of_list_byte.

Lemma bytes_string_bytes s : bytes_string (string_bytes s) = s.
Proof. apply String.string_of_list_byte_of_string. Qed.
Lemma string_bytes_string l : string_bytes (bytes_string l) = l.
Proof. apply String.list_byte_of_string_of_list_byte. Qed.

(** A [char*] read as a C string: the bytes before the first NUL; [None] when there is none. *)
Fixpoint c_string (bs : list byte) : option (list byte) :=
  match bs with
  | [] => None
  | b :: bs' => if decide (b = x00) then Some [] else cons b <$> c_string bs'
  end.

Definition nul_free (s : string) : Prop := x00 ∉ string_bytes s.
#[export] Instance nul_free_dec s : Decision (nul_free s) := _.

(** What a character array holds as a C string, the array itself when it is all characters. *)
Definition before_nul (l : list byte) : list byte := default l (c_string l).

Lemma c_string_app bs rest : x00 ∉ bs → c_string (bs ++ x00 :: rest) = Some bs.
Proof.
  induction bs as [|b bs IH]; intros H; [done |]; cbn [c_string app].
  apply not_elem_of_cons in H as [H1 H2].
  rewrite decide_False by congruence. by rewrite (IH H2).
Qed.

Lemma c_string_None bs : c_string bs = None ↔ x00 ∉ bs.
Proof.
  induction bs as [|b bs IH]; [split; [intros; apply not_elem_of_nil | done] |].
  cbn [c_string].
  rewrite not_elem_of_cons. case_decide as E.
  - subst. split; [done | tauto].
  - rewrite fmap_None, IH. split; [intros H; split; [congruence | done] | tauto].
Qed.
Lemma before_nul_plain s : x00 ∉ s → before_nul s = s.
Proof. intros Hs. unfold before_nul. by rewrite (proj2 (c_string_None s) Hs). Qed.

(** [s.c_str()] as a string again. *)
Definition c_str (s : string) : string := bytes_string (before_nul (string_bytes s)).

Lemma c_str_plain s : nul_free s → c_str s = s.
Proof.
  intros H. unfold c_str, before_nul. rewrite (proj2 (c_string_None _)) by done.
  apply bytes_string_bytes.
Qed.

(** ** Floating point

    An IEEE 754 format with [prec] bits of significand and maximal exponent [emax]: [float] is
    (24, 128), [double] is (53, 1024).  Only the sign, exponent and fraction are observable, so the
    bit pattern of a number is computed from its [spec_float]. *)
Section FloatBits.
Variables (prec emax : Z).

Definition fraction_unit : Z := 2 ^ (prec - 1).
Definition sign_unit : Z := 2 * emax * fraction_unit.

Definition float_magnitude (f : spec_float) : Z :=
  match f with
  | S754_zero _ => 0
  | S754_infinity _ => (2 * emax - 1) * fraction_unit
  | S754_nan => (2 * emax - 1) * fraction_unit + fraction_unit / 2
  | S754_finite _ m e =>
      if Z.pos (digits2_pos m) =? prec
      then (e - emin prec emax) * fraction_unit + Z.pos m
      else Z.pos m
  end.

Definition float_sign (f : spec_float) : bool :=
  match f with
  | S754_zero s | S754_infinity s | S754_finite s _ _ => s
  | S754_nan => false
  end.

Definition float_bits (f : spec_float) : Z :=
  (if float_sign f then sign_unit else 0) + float_magnitude f.

Definition float_of_fields (s : bool) (ef fr : Z) : spec_float :=
  if ef =? 0 then
    match fr with
    | Z.pos p => S754_finite s p (emin prec emax)
    | _ => S754_zero s
    end
  else if ef =? 2 * emax - 1 then
    (if fr =? 0 then S754_infinity s else S754_nan)
  else
    match fr + fraction_unit with
    | Z.pos p => S754_finite s p (ef - 1 + emin prec emax)
    | _ => S754_nan
    end.

Definition bits_float (z : Z) : spec_float :=
  let s := sign_unit <=? z in
  let m := if s then z - sign_unit else z in
  float_of_fields s (m / fraction_unit) (m mod fraction_unit).
End FloatBits.

Lemma digits2_log2 (m : positive) : Z.pos (digits2_pos m) = Z.log2 (Z.pos m) + 1.
Proof.
  induction m as [m IH|m IH|]; cbn [digits2_pos]; [| | done].
  - rewrite Pos2Z.inj_succ, IH, Pos2Z.inj_xI, Z.log2_succ_double by lia. lia.
  - rewrite Pos2Z.inj_succ, IH, Pos2Z.inj_xO, Z.log2_double by lia. lia.
Qed.

Lemma digits2_bounds (m : positive) :
  2 ^ (Z.pos (digits2_pos m) - 1) ≤ Z.pos m < 2 ^ Z.pos (digits2_pos m).
Proof.
  rewrite digits2_log2. pose proof (Z.log2_spec (Z.pos m) ltac:(lia)) as [H1 H2].
  replace (Z.log2 (Z.pos m) + 1 - 1) with (Z.log2 (Z.pos m)) by lia.
  by rewrite <- Z.add_1_r in H2.
Qed.

Section FloatRoundTrip.
Variables (prec emax : Z).
Hypotheses (Hprec : 1 < prec) (Hemax : prec < emax).

Lemma fraction_unit_ge : 2 ≤ fraction_unit prec.
Proof. unfold fraction_unit. change 2 with (2 ^ 1) at 1. apply Z.pow_le_mono_r; lia. Qed.

Lemma bits_float_fields (s : bool) (ef fr : Z) :
  0 ≤ ef < 2 * emax → 0 ≤ fr < fraction_unit prec →
  bits_float prec emax ((if s then sign_unit prec emax else 0) + (ef * fraction_unit prec + fr))
  = float_of_fields prec emax s ef fr.
Proof.
  intros Hef Hfr. pose proof fraction_unit_ge as Hu.
  assert (Hm : 0 ≤ ef * fraction_unit prec + fr < sign_unit prec emax)
    by (unfold sign_unit; nia).
  unfold bits_float.
  replace (sign_unit prec emax <=? _) with s
    by (symmetry; destruct s; [apply Z.leb_le | apply Z.leb_gt]; lia).
  replace (if s then _ - sign_unit prec emax else _) with (ef * fraction_unit prec + fr)
    by (destruct s; lia).
  rewrite Z.div_add_l, Z.div_small, Z.add_0_r by lia.
  by rewrite Z.add_comm, Z.mod_add, Z.mod_small by lia.
Qed.

(** What a valid finite number looks like: subnormal at the minimal exponent, or normal. *)
Lemma bounded_cases (m : positive) (e : Z) :
  bounded prec emax m e = true →
  (e = emin prec emax ∧ Z.pos m < fraction_unit prec ∧ Z.pos (digits2_pos m) ≠ prec) ∨
  (emin prec emax ≤ e ≤ emax - prec ∧ fraction_unit prec ≤ Z.pos m < 2 * fraction_unit prec
   ∧ Z.pos (digits2_pos m) = prec).
Proof.
  unfold bounded, canonical_mantissa, fexp. intros H. reflect_bools.
  pose proof (digits2_bounds m) as [Hl Hh].
  assert (E : 2 * fraction_unit prec = 2 ^ prec)
    by (unfold fraction_unit; rewrite <- Z.pow_succ_r by lia; f_equal; lia).
  destruct (Z.eq_dec (Z.pos (digits2_pos m)) prec) as [Hd|Hd].
  - right. rewrite Hd in Hl, Hh. fold (fraction_unit prec) in Hl. lia.
  - left. split; [lia | split; [|done]].
    eapply Z.lt_le_trans; [exact Hh|]. unfold fraction_unit. apply Z.pow_le_mono_r; lia.
Qed.

Lemma bits_float_bits (f : spec_float) :
  valid_binary prec emax f = true → bits_float prec emax (float_bits prec emax f) = f.
Proof.
  pose proof fraction_unit_ge as Hu. unfold float_bits.
  destruct f as [s|s| |s m e]; cbn [float_sign float_magnitude valid_binary]; intros Hv.
  - rewrite <- (Z.add_0_r 0) at 2. change (0 + 0) with (0 * fraction_unit prec + 0).
    by rewrite bits_float_fields by lia.
  - rewrite <- (Z.add_0_r (_ * _)), bits_float_fields by lia.
    unfold float_of_fields. rewrite (proj2 (Z.eqb_neq _ _)) by lia. by rewrite Z.eqb_refl.
  - rewrite (bits_float_fields false)
      by (pose proof (Z.div_pos (fraction_unit prec) 2);
          pose proof (Z.div_lt (fraction_unit prec) 2); lia).
    unfold float_of_fields. rewrite (proj2 (Z.eqb_neq (2 * emax - 1) 0)) by lia.
    rewrite Z.eqb_refl, (proj2 (Z.eqb_neq _ 0)); [done|].
    pose proof (Z.div_le_lower_bound (fraction_unit prec) 2 1). lia.
  - apply bounded_cases in Hv as [(-> & Hm & Hd)|(He & Hm & Hd)].
    + rewrite (proj2 (Z.eqb_neq _ _) Hd).
      change (Z.pos m) with (0 * fraction_unit prec + Z.pos m).
      by rewrite bits_float_fields by lia.
    + rewrite Hd, Z.eqb_refl.
      replace ((e - emin prec emax) * fraction_unit prec + Z.pos m)
        with ((e - emin prec emax + 1) * fraction_unit prec + (Z.pos m - fraction_unit prec)) by lia.
      unfold emin in *. rewrite bits_float_fields by lia. unfold float_of_fields.
      rewrite (proj2 (Z.eqb_neq _ 0)), (proj2 (Z.eqb_neq _ (2 * emax - 1))) by lia.
      replace (Z.pos m - fraction_unit prec + fraction_unit prec) with (Z.pos m) by lia.
      f_equal. unfold emin. lia.
Qed.

Lemma float_bits_range (f : spec_float) :
  valid_binary prec emax f = true → 0 ≤ float_bits prec emax f < 2 * sign_unit prec emax.
Proof.
  pose proof fraction_unit_ge as Hu. intros Hv.
  enough (0 ≤ float_magnitude prec emax f < sign_unit prec emax)
    by (unfold float_bits; destruct (float_sign f); lia).
  assert (Hh : 0 ≤ fraction_unit prec / 2 < fraction_unit prec)
    by (split; [apply Z.div_pos | apply Z.div_lt]; lia).
  unfold sign_unit. destruct f as [s|s| |s m e]; cbn [float_magnitude]; try nia.
  apply bounded_cases in Hv as [(-> & Hm & Hd)|(He & Hm & Hd)].
  - rewrite (proj2 (Z.eqb_neq _ _) Hd). nia.
  - rewrite Hd, Z.eqb_refl. unfold emin in *. nia.
Qed.
End FloatRoundTrip.

Abbreviation float := spec_float.
Abbreviation fvalid := (valid_binary 24 128).
Abbreviation dvalid := (valid_binary 53 1024).

Definition fadd : float → float → float := SFadd 24 128.
Definition fsub : float → float → float := SFsub 24 128.
Definition fdiv : float → float → float := SFdiv 24 128.
Definition flt : float → float → bool := SFltb.
Definition fle : float → float → bool := SFleb.
Definition fgt (x y : float) : bool := SFltb y x.
Definition fge (x y : float) : bool := SFleb y x.
Definition feq : float → float → bool := SFeqb.
Definition fzero : float := S754_zero false.
(** An [int] converted to [float]: rounded to nearest even. *)
Definition float_of_Z (z : Z) : float := binary_normalize 24 128 z 0 false.
Definition fone : float := float_of_Z 1.
Definition fminus_one : float := float_of_Z (-1).

(** The order of the numbers: [SFcompare] compares class, exponent and significand in turn. *)
Definition float_rank (f : float) : Z * Z * Z :=
  match f with
  | S754_infinity true => (-2, 0, 0)
  | S754_finite true m e => (-1, - e, - Z.pos m)
  | S754_zero _ | S754_nan => (0, 0, 0)
  | S754_finite false m e => (1, e, Z.pos m)
  | S754_infinity false => (2, 0, 0)
  end.

Definition rank_lt (x y : Z * Z * Z) : Prop :=
  let '(a, b, c) := x in let '(a', b', c') := y in
  a < a' ∨ (a = a' ∧ (b < b' ∨ (b = b' ∧ c < c'))).

Lemma fle_rank x y :
  x ≠ S754_nan → y ≠ S754_nan → fle x y = true ↔ ¬ rank_lt (float_rank y) (float_rank x).
Proof.
  intros Hx Hy. unfold fle, SFleb, rank_lt.
  destruct x as [sx|[]| |[] mx ex], y as [sy|[]| |[] my ey]; try done; cbn -[Z.lt Z.compare];
    try (split; [intros _; lia | done]); try (split; [done | intros []; lia]).
  all: destruct (Z.compare_spec ex ey) as [->|He|He];
    try (split; [intros _; lia | done]); try (split; [done | intros []; lia]).
  all: change (Pos.compare_cont Eq mx my) with (Pos.compare mx my);
    destruct (Pos.compare_spec mx my) as [->|Hm|Hm]; cbn;
    try (split; [intros _; lia | done]); try (split; [done | intros []; lia]).
Qed.

Lemma fle_trans x y z : y ≠ S754_nan → fle x y = true → fle y z = true → fle x z = true.
Proof.
  intros Hy H1 H2.
  assert (Hx : x ≠ S754_nan) by (intros ->; by destruct y).
  assert (Hz : z ≠ S754_nan) by (intros ->; by destruct y as [|[]| |[]]).
  apply fle_rank in H1, H2; try done. apply fle_rank; try done.
  destruct (float_rank x) as [[??]?], (float_rank y) as [[??]?], (float_rank z) as [[??]?].
  unfold rank_lt in *. lia.
Qed.

Lemma fle_total x y : x ≠ S754_nan → y ≠ S754_nan → fle x y = false → fle y x = true.
Proof.
  intros Hx Hy H. apply fle_rank; try done. intros Hr. revert H.
  apply not_false_iff_true, fle_rank; try done. intros Hr'.
  destruct (float_rank x) as [[??]?], (float_rank y) as [[??]?]. unfold rank_lt in *. lia.
Qed.

Lemma flt_rank x y :
  x ≠ S754_nan → y ≠ S754_nan → flt x y = true ↔ rank_lt (float_rank x) (float_rank y).
Proof.
  intros Hx Hy. unfold flt, SFltb, rank_lt.
  destruct x as [sx|[]| |[] mx ex], y as [sy|[]| |[] my ey]; try done; cbn -[Z.lt Z.compare];
    try (split; [intros _; lia | done]); try (split; [done | intros; exfalso; lia]).
  all: destruct (Z.compare_spec ex ey) as [->|He|He];
    try (split; [intros _; lia | done]); try (split; [done | intros; exfalso; lia]).
  all: change (Pos.compare_cont Eq mx my) with (Pos.compare mx my);
    destruct (Pos.compare_spec mx my) as [->|Hm|Hm]; cbn;
    try (split; [intros _; lia | done]); try (split; [done | intros; exfalso; lia]).
Qed.

Lemma flt_not_nan x y : flt x y = true → x ≠ S754_nan ∧ y ≠ S754_nan.
Proof. intros H. split; intros ->; [done |]. by destruct x as [|[]| |[]]. Qed.

Lemma not_flt_fle x y : x ≠ S754_nan → y ≠ S754_nan → flt x y = false → fle y x = true.
Proof.
  intros Hx Hy H. apply fle_rank; [done | done |]. intros Hr. apply flt_rank in Hr; [|done|done].
  congruence.
Qed.

Lemma flt_irrefl x : flt x x = false.
Proof.
  destruct (flt x x) eqn:E; [|done]. pose proof (flt_not_nan x x E) as [Hx _].
  apply flt_rank in E; [|done|done]. destruct (float_rank x) as [[??]?]. unfold rank_lt in E. lia.
Qed.

Lemma flt_asym x y : flt x y = true → flt y x = false.
Proof.
  intros H. destruct (flt_not_nan x y H) as [Hx Hy]. destruct (flt y x) eqn:E; [|done].
  apply flt_rank in H, E; try done. exfalso.
  destruct (float_rank x) as [[??]?], (float_rank y) as [[??]?]. unfold rank_lt in *. lia.
Qed.

Lemma flt_not_fge x y : flt x y = true → fge x y = false.
Proof.
  intros H. destruct (flt_not_nan x y H) as [Hx Hy]. apply not_true_iff_false. unfold fge.
  fold (fle y x). rewrite fle_rank by done. apply flt_rank in H; tauto.
Qed.

(** The macro [min(a, b)] of jobmgr.cc: [(a) < (b) ? (a) : (b)]. *)
Definition fmin (a b : float) : float := if flt a b then a else b.

(** ** The primitive types of a message *)

Inductive prim : Type :=
  | PInt | PUInt | PLong | PULong | PShort | PUShort
  | PBool | PChar | PUChar | PSChar | PFloat | PDouble.
#[export] Instance prim_eq_dec : EqDecision prim.
Proof. solve_decision. Defined.

Definition val (t : prim) : Type :=
  match t with
  | PBool => bool
  | PChar | PUChar | PSChar => byte
  | PFloat | PDouble => spec_float
  | _ => Z
  end.

(** [sizeof] on the host. *)
Definition psize (t : prim) : nat :=
  match t with
  | PInt | PUInt | PFloat => 4
  | PLong | PULong | PDouble => 8
  | PShort | PUShort => 2
  | PBool | PChar | PUChar | PSChar => 1
  end.

(** The values of a type. *)
Definition val_ok (t : prim) : val t → bool :=
  match t with
  | PInt => in_sint 32
  | PUInt => in_uint 32
  | PLong => in_sint 64
  | PULong => in_uint 64
  | PShort => in_sint 16
  | PUShort => in_uint 16
  | PBool | PChar | PUChar | PSChar => λ _, true
  | PFloat => fvalid
  | PDouble => dvalid
  end.

(** The object representation of a value. *)
Definition host_enc (t : prim) : val t → list byte :=
  match t with
  | PBool => λ b, [if b then x01 else x00]
  | PChar | PUChar | PSChar => λ c, [c]
  | PFloat => λ f, le_bytes 4 (float_bits 24 128 f)
  | PDouble => λ f, le_bytes 8 (float_bits 53 1024 f)
  | PInt | PUInt => λ z, le_bytes 4 z
  | PLong | PULong => λ z, le_bytes 8 z
  | PShort | PUShort => λ z, le_bytes 2 z
  end.

(** The value of an object representation; a [bool] has two of them. *)
Definition host_dec (t : prim) : list byte → option (val t) :=
  match t with
  | PBool => λ bs, match bs with [x00] => Some false | [x01] => Some true | _ => None end
  | PChar | PUChar | PSChar => λ bs, match bs with [c] => Some c | _ => None end
  | PFloat => λ bs, Some (bits_float 24 128 (le_value bs))
  | PDouble => λ bs, Some (bits_float 53 1024 (le_value bs))
  | PInt => λ bs, Some (swrap 32 (le_value bs))
  | PLong => λ bs, Some (swrap 64 (le_value bs))
  | PShort => λ bs, Some (swrap 16 (le_value bs))
  | PUInt | PULong | PUShort => λ bs, Some (le_value bs)
  end.

Lemma host_enc_length (t : prim) (v : val t) : length (host_enc t v) = psize t.
Proof. destruct t; simpl; try done; apply le_bytes_length. Qed.

Lemma concat_singletons (vs : list byte) : concat (host_enc PChar <$> vs) = vs.
Proof. induction vs as [|v vs IH]; csimpl; [done | by f_equal]. Qed.

Lemma in_uint_small w z : in_uint w z = true → z mod 2 ^ w = z.
Proof. unfold in_uint. intros H. reflect_bools. apply Z.mod_small. lia. Qed.

Lemma host_dec_enc (t : prim) (v : val t) :
  val_ok t v = true → host_dec t (host_enc t v) = Some v.
Proof.
  intros H. destruct t; cbn [host_dec host_enc val_ok] in *; rewrite ?le_value_bytes.
  all: try done; try (by destruct v); f_equal.
  all: try (by apply swrap_mod); first [by apply (in_uint_small 32) | by apply (in_uint_small 64)
    | by apply (in_uint_small 16) | idtac].
  - pose proof (float_bits_range 24 128 ltac:(lia) ltac:(lia) v H) as Hr.
    rewrite Z.mod_small by exact Hr. by apply bits_float_bits.
  - pose proof (float_bits_range 53 1024 ltac:(lia) ltac:(lia) v H) as Hr.
    rewrite Z.mod_small by exact Hr. by apply bits_float_bits.
Qed.

#[export] Hint Rewrite host_enc_length le_bytes_length be_bytes_length : pop_len.
#[export] Hint Resolve host_dec_enc : pop.

(** ** Arrays of bytes

    [std::vector<char>] with [resize], and [memcpy] in and out of it with its bounds. *)
Definition resize (n : nat) (l : list byte) : list byte := take n l ++ replicate (n - length l) x00.

Definition memcpy_to (off : Z) (src dst : list byte) : result (list byte) :=
  if (0 <=? off) && (off + zlen src <=? zlen dst)
  then Ok (take (Z.to_nat off) dst ++ src ++ drop (Z.to_nat off + length src) dst)
  else Stuck.

Definition memcpy_from (off n : Z) (src : list byte) : result (list byte) :=
  if (0 <=? off) && (0 <=? n) && (off + n <=? zlen src)
  then Ok (take (Z.to_nat n) (drop (Z.to_nat off) src))
  else Stuck.

(** The four-byte alignment of a block of [n] characters: [((n - 1) / 4 + 1) * 4]. *)
Definition padded (n : Z) : Z := (Z.quot (n - 1) 4 + 1) * 4.

Lemma resize_length n l : length (resize n l) = n.
Proof. unfold resize. rewrite length_app, length_take, length_replicate. lia. Qed.

Lemma resize_ge n l : (length l ≤ n)%nat → resize n l = l ++ replicate (n - length l) x00.
Proof. intros H. unfold resize. by rewrite take_ge. Qed.

Lemma resize_id l : resize (length l) l = l.
Proof. rewrite resize_ge, Nat.sub_diag, app_nil_r; [done | lia]. Qed.

Lemma padded_bounds n : 0 < n → n ≤ padded n < n + 4.
Proof. intros Hn. unfold padded. rewrite Z.quot_div_nonneg by lia. pose proof (Z.div_mod (n - 1) 4).
  pose proof (Z.mod_pos_bound (n - 1) 4). lia. Qed.

Lemma memcpy_to_Ok off src dst :
  0 ≤ off → off + zlen src ≤ zlen dst →
  memcpy_to off src dst
  = Ok (take (Z.to_nat off) dst ++ src ++ drop (Z.to_nat off + length src) dst).
Proof.
  intros H1 H2. unfold memcpy_to.
  by rewrite (proj2 (Z.leb_le _ _) H1), (proj2 (Z.leb_le _ _) H2).
Qed.

Lemma memcpy_to_length off src dst d : memcpy_to off src dst = Ok d → length d = length dst.
Proof.
  unfold memcpy_to. case_if; intros [= <-]. reflect_bools.
  rewrite !length_app, length_take, length_drop. lia.
Qed.

Lemma memcpy_from_Ok off n src :
  0 ≤ off → 0 ≤ n → off + n ≤ zlen src →
  memcpy_from off n src = Ok (take (Z.to_nat n) (drop (Z.to_nat off) src)).
Proof.
  intros H1 H2 H3. unfold memcpy_from.
  by rewrite (proj2 (Z.leb_le _ _) H1), (proj2 (Z.leb_le _ _) H2), (proj2 (Z.leb_le _ _) H3).
Qed.

(** Growing a vector by [n] bytes and writing [bs] at its old end. *)
Lemma memcpy_append (d bs : list byte) (n : Z) :
  zlen bs ≤ n →
  memcpy_to (zlen d) bs (resize (Z.to_nat (n + zlen d)) d)
  = Ok (d ++ bs ++ replicate (Z.to_nat n - length bs) x00).
Proof.
  intros Hn. rewrite memcpy_to_Ok by (rewrite ?resize_length; lia).
  rewrite resize_ge, Nat2Z.id, take_app_length by lia.
  rewrite drop_app_ge, drop_replicate by lia. do 4 f_equal. lia.
Qed.

#[export] Hint Rewrite resize_length : pop_len.
