(* ===== verification/Buffer.v ===== *)
(** * Messages and the buffer interface

    The message header (include/core/pop_buffer.h, lib/core/buffer.cc), the abstract class
    [pop_buffer] as a typeclass, its laws, and what the base class builds on the virtual
    [Pack]/[UnPack]: strings, vectors and [packarray].

    A method that reads or writes a buffer is a computation of type [M B A]: it takes the buffer,
    may throw, and returns its value and the buffer. *)

From S2P Require Import Prelude Machine.

(** ** Message header *)

Definition TYPE_REQUEST : Z := 0.
Definition TYPE_RESPONSE : Z := 1.
Definition TYPE_EXCEPTION : Z := 2.

(** Members a constructor leaves uninitialised are [None]. *)
Record message_header : Type := MkHeader {
  hdr_type : Z;
  hdr_id0 : option Z;
  hdr_id1 : option Z;
  hdr_id2 : option Z;
  hdr_methodname : option string;
  hdr_exception : option Z }.
#[export] Instance message_header_eta : Eta message_header := λ h,
  MkHeader (hdr_type h) (hdr_id0 h) (hdr_id1 h) (hdr_id2 h) (hdr_methodname h) (hdr_exception h).
#[export] Instance message_header_eq_dec : EqDecision message_header.
Proof. solve_decision. Defined.

Definition header_request (classid methodid semantics : Z) (metname : option string) :
    message_header :=
  MkHeader TYPE_REQUEST (Some classid) (Some methodid) (Some semantics) metname None.

Definition header_response (metname : option string) : message_header :=
  MkHeader TYPE_RESPONSE None None None metname None.

Definition header_exception (exceptioncode : Z) (metname : option string) : message_header :=
  MkHeader TYPE_EXCEPTION None None None metname (Some exceptioncode).

Definition header_default : message_header := MkHeader (-1) None None None None None.

(** [operator=]: only the members the type of the message uses are copied. *)
Definition header_assign (self dat : message_header) : message_header :=
  let h := self <| hdr_type := hdr_type dat |> <| hdr_methodname := hdr_methodname dat |> in
  if hdr_type dat =? TYPE_REQUEST then
    h <| hdr_id0 := hdr_id0 dat |> <| hdr_id1 := hdr_id1 dat |> <| hdr_id2 := hdr_id2 dat |>
  else if hdr_type dat =? TYPE_EXCEPTION then
    h <| hdr_exception := hdr_exception dat |>
  else h.

Definition SetType (msgtype : Z) (h : message_header) := h <| hdr_type := msgtype |>.
Definition SetClassID (classid : Z) (h : message_header) := h <| hdr_id0 := Some classid |>.
Definition SetMethodID (methodid : Z) (h : message_header) := h <| hdr_id1 := Some methodid |>.
Definition SetSemantics (semantics : Z) (h : message_header) := h <| hdr_id2 := Some semantics |>.
Definition SetExceptionCode (code : Z) (h : message_header) := h <| hdr_exception := Some code |>.
Definition SetMethodName (name : option string) (h : message_header) :=
  h <| hdr_methodname := name |>.

(** A member that is read must have been written. *)
Definition read_member {A : Type} (m : option A) : result A :=
  match m with Some z => Ok z | None => Stuck end.

(** The five words [h[0..4]] a buffer sends first: its size, the type of the message, and what the
    type needs; [None] when the type is unknown, and then the method returns [false]. *)
Definition header_words (n : Z) (h : message_header) : result (option (list Z)) :=
  let type := hdr_type h in
  if type =? TYPE_REQUEST then
    let! c := read_member (hdr_id0 h) in
    let! m := read_member (hdr_id1 h) in
    let! s := read_member (hdr_id2 h) in
    Ok (Some [n; type; c; m; s])
  else if type =? TYPE_EXCEPTION then
    let! e := read_member (hdr_exception h) in
    Ok (Some [n; type; e; 0; 0])
  else if type =? TYPE_RESPONSE then
    let! c := read_member (hdr_id0 h) in
    let! m := read_member (hdr_id1 h) in
    Ok (Some [n; type; c; m; 0])
  else Ok None.

(** The header a receiver rebuilds from the words; [None] when the type is unknown (the type is
    stored all the same). *)
Definition header_of_words (ws : list Z) (h : message_header) : message_header * bool :=
  match ws with
  | [_; type; a; b; c] =>
      let h := SetType type h in
      if type =? TYPE_REQUEST then (SetSemantics c (SetMethodID b (SetClassID a h)), true)
      else if type =? TYPE_EXCEPTION then (SetExceptionCode a h, true)
      else if type =? TYPE_RESPONSE then (SetMethodID b (SetClassID a h), true)
      else (h, false)
  | _ => (h, false)
  end.

(** What a receiver can observe of a header. *)
Definition header_agree (h h' : message_header) : Prop :=
  hdr_type h = hdr_type h' ∧
  (hdr_type h = TYPE_REQUEST →
     hdr_id0 h = hdr_id0 h' ∧ hdr_id1 h = hdr_id1 h' ∧ hdr_id2 h = hdr_id2 h') ∧
  (hdr_type h = TYPE_RESPONSE → hdr_id0 h = hdr_id0 h' ∧ hdr_id1 h = hdr_id1 h') ∧
  (hdr_type h = TYPE_EXCEPTION → hdr_exception h = hdr_exception h').

Lemma header_words_agree n h ws h0 :
  header_words n h = Ok (Some ws) →
  snd (header_of_words ws h0) = true ∧ header_agree h (fst (header_of_words ws h0)).
Proof.
  destruct h as [ty i0 i1 i2 mn ex], h0. unfold header_words; cbn [hdr_type hdr_id0 hdr_id1 hdr_id2
    hdr_exception]. intros H.
  repeat case_if; reflect_bools; subst; inv_ok;
    repeat match goal with H : read_member ?o = Ok _ |- _ => destruct o; simplify_eq/= end;
    split; try done; unfold header_agree; simpl; repeat split; intros; simplify_eq/=; done.
Qed.

Lemma header_words_length n h ws : header_words n h = Ok (Some ws) → length ws = 5%nat.
Proof. unfold header_words. intros H. repeat case_if; inv_ok; by simplify_eq/=. Qed.

(** ** Computations on a buffer *)

Definition M (B A : Type) : Type := B → result (A * B).
Definition mret {B A : Type} (a : A) : M B A := λ b, Ok (a, b).
Definition mbind {B A C : Type} (m : M B A) (k : A → M B C) : M B C :=
  λ b, let! r := m b in k (fst r) (snd r).
(** An operation that does not touch the buffer. *)
Definition mlift {B A : Type} (r : result A) : M B A := λ b, let! a := r in Ok (a, b).

Notation "'let*' x := m 'in' k" := (mbind m (λ x, k))
  (at level 10, x pattern, m at level 100, k at level 200) : pop_scope.
Notation "m ;;; k" := (mbind m (λ _, k)) (at level 100, k at level 200, right associativity)
  : pop_scope.

(** Running [m] [n] times, collecting the values. *)
Fixpoint mtimes {B A : Type} (n : nat) (m : M B A) : M B (list A) :=
  match n with
  | O => mret []
  | S n' => let* a := m in let* l := mtimes n' m in mret (a :: l)
  end.

Fixpoint mfor {B A : Type} (l : list A) (f : A → M B ()) : M B () :=
  match l with
  | [] => mret ()
  | a :: l' => f a ;;; mfor l' f
  end.

(** ** The abstract class [pop_buffer]

    [Pack t data n] packs the first [n] elements of the array [data]; [UnPack t n] unpacks [n]
    elements. *)
Class PopBuffer (B : Type) := {
  Reset : B → B;
  GetHeader : B → message_header;
  SetHeader : message_header → B → B;
  Pack : ∀ t : prim, list (val t) → Z → M B ();
  UnPack : ∀ t : prim, Z → M B (list (val t)) }.

(** The most bytes an element takes in any encoding. *)
Definition wire_width (t : prim) : Z :=
  match t with
  | PBool | PChar | PUChar | PSChar => 1
  | PLong | PULong | PDouble => 8
  | _ => 4
  end.

Lemma wire_width_pos t : 1 ≤ wire_width t.
Proof. by destruct t. Qed.

(** What the runtime relies on: a buffer holds bytes and a read position; packing appends the
    encoding of the data, unpacking where an encoding starts returns the data and moves past it. *)
Class PopBufferLaws (B : Type) `{PopBuffer B} := {
  buffer_wf : B → Prop;
  content : B → list byte;
  cursor : B → nat;
  encoding : ∀ t : prim, list (val t) → list byte;
  admissible : ∀ t : prim, list (val t) → Prop;
  admissible_intro : ∀ t (vs : list (val t)),
    t ≠ PLong → t ≠ PULong → (t = PBool → (length vs ≤ 4)%nat) →
    wire_width t * zlen vs ≤ int_max →
    Forall (λ v, val_ok t v = true) vs → admissible t vs;
  encoding_size : ∀ t (vs : list (val t)), admissible t vs →
    zlen (encoding t vs) ≤ 8 * zlen vs + 4;
  Pack_none : ∀ t b, Pack t [] 0 b = Ok ((), b);
  Pack_ok : ∀ t (vs : list (val t)) b, admissible t vs →
    zlen (content b) + zlen (encoding t vs) ≤ int_max →
    is_Ok (Pack t vs (zlen vs) b);
  Pack_content : ∀ t (vs : list (val t)) b u b', admissible t vs →
    Pack t vs (zlen vs) b = Ok (u, b') →
    content b' = content b ++ encoding t vs ∧ cursor b' = cursor b ∧ GetHeader b' = GetHeader b ∧
    (buffer_wf b → buffer_wf b');
  UnPack_ok : ∀ t (vs : list (val t)) b rest, admissible t vs →
    buffer_wf b → zlen (content b) ≤ int_max →
    drop (cursor b) (content b) = encoding t vs ++ rest →
    ∃ b', UnPack t (zlen vs) b = Ok (vs, b') ∧ content b' = content b ∧
      drop (cursor b') (content b') = rest ∧ GetHeader b' = GetHeader b ∧ buffer_wf b' }.

Section Derived.
Context {B : Type} `{PopBuffer B}.

(** [Pack(&x, 1)] and [UnPack(&x, 1)]. *)
Definition Pack1 (t : prim) (v : val t) : M B () := Pack t [v] 1.
Definition UnPack1 (t : prim) : M B (val t) :=
  let* vs := UnPack t 1 in
  match vs with [v] => mret v | _ => mlift Stuck end.

(** [pop_buffer::Pack(const std::string*, int)]. *)
Definition PackString1 (s : string) : M B () :=
  let* len := mlift (check_int (zlen (string_bytes s) + 1)) in
  Pack1 PInt len ;;;
  if 0 <? len then Pack PChar (string_bytes s ++ [x00]) len else mret ().

Definition PackString (l : list string) (n : Z) : M B () :=
  if n <=? 0 then mret ()
  else if zlen l <? n then mlift Stuck
  else mfor (take (Z.to_nat n) l) PackString1.

(** [pop_buffer::UnPack(std::string*, int)]: the characters are read up to the first NUL; a
    message without one makes the assignment read past the temporary buffer. *)
Definition UnPackString1 : M B string :=
  let* len := UnPack1 PInt in
  if 0 <? len then
    let* tmpstr := UnPack PChar len in
    match c_string tmpstr with
    | Some s => mret (bytes_string s)
    | None => mlift Stuck
    end
  else mret "".

Definition UnPackString (n : Z) : M B (list string) :=
  if n <=? 0 then mret [] else mtimes (Z.to_nat n) UnPackString1.

(** [Pack]/[UnPack] of a [std::vector]. A negative size makes [vector::resize] throw. *)
Definition PackVector (t : prim) (vect : list (val t)) : M B () :=
  let* s := mlift (check_int (zlen vect)) in
  Pack1 PInt s ;;;
  if 0 <? s then Pack t vect s else mret ().

Definition UnPackVector (t : prim) : M B (list (val t)) :=
  let* s := UnPack1 PInt in
  if s <? 0 then mlift (Throw 10014 "std::length_error")
  else if 0 <? s then UnPack t s else mret [].

Definition FLAG_MARSHAL : Z := 2.
Definition FLAG_INPUT : Z := 1.

(** [packarray]: [param] is [None] for a null pointer; unmarshalling overwrites a prefix of the
    array and may run past its end. *)
Definition packarray (t : prim) (param : option (list (val t))) (size flag : Z) :
    M B (option (list (val t))) :=
  if negb (Z.land flag FLAG_MARSHAL =? 0) then
    let n := match param with Some _ => size | None => 0 end in
    Pack1 PInt n ;;;
    (if 0 <? n then match param with Some p => Pack t p n | None => mlift Stuck end
     else mret ()) ;;;
    mret param
  else
    let* n := UnPack1 PInt in
    if 0 <? n then
      let* vs := UnPack t n in
      match param with
      | Some p => if zlen p <? n then mlift Stuck else mret (Some (vs ++ drop (Z.to_nat n) p))
      | None => mlift Stuck
      end
    else mret param.
End Derived.

(** ** Codecs

    [codec w x r a]: the writer [w] returns [x] and appends some bytes, and the reader [r] placed
    before these bytes returns [a] and stops after them, whatever follows. *)
Section Codec.
Context {B : Type} `{PopBufferLaws B}.

Definition unread (b : B) : list byte := drop (cursor b) (content b).

Definition writes {X : Type} (w : M B X) (bs : list byte) (x : X) : Prop :=
  ∀ b, (zlen (content b) + zlen bs ≤ int_max → is_Ok (w b)) ∧
    (∀ y b', w b = Ok (y, b') →
       y = x ∧ content b' = content b ++ bs ∧ cursor b' = cursor b ∧
       GetHeader b' = GetHeader b ∧ (buffer_wf b → buffer_wf b')).

Definition reads {A : Type} (r : M B A) (bs : list byte) (a : A) : Prop :=
  ∀ b rest, buffer_wf b → zlen (content b) ≤ int_max → unread b = bs ++ rest →
    ∃ b', r b = Ok (a, b') ∧ content b' = content b ∧ unread b' = rest ∧
          GetHeader b' = GetHeader b ∧ buffer_wf b'.

Definition codec {X A : Type} (w : M B X) (x : X) (r : M B A) (a : A) : Prop :=
  ∃ bs, writes w bs x ∧ reads r bs a.

Lemma writes_ret {X : Type} (x : X) : writes (mret x) [] x.
Proof.
  intros b; split; [intros; by eexists |]. intros y b' [= <- <-]. by rewrite app_nil_r.
Qed.

Lemma reads_ret {A : Type} (a : A) : reads (mret a) [] a.
Proof. intros b rest Hwf Hb Hu. by exists b. Qed.

Lemma writes_bind {X Y : Type} (w1 : M B X) (w2 : X → M B Y) bs1 bs2 x y :
  writes w1 bs1 x → writes (w2 x) bs2 y → writes (mbind w1 w2) (bs1 ++ bs2) y.
Proof.
  intros H1 H2 b. unfold mbind. split.
  - intros Hsz. rewrite zlen_app in Hsz. destruct (H1 b) as [[[y1 b1] E1] Hc]; [lia |].
    rewrite E1; simpl. destruct (Hc _ _ E1) as (-> & Hcont & _).
    apply H2. rewrite Hcont, zlen_app. lia.
  - intros y' b' Hb. inv_ok. destruct a as [x' b1]; simpl in *.
    destruct (proj2 (H1 b) _ _ H3) as (-> & C1 & P1 & G1 & F1).
    destruct (proj2 (H2 b1) _ _ H4) as (-> & C2 & P2 & G2 & F2).
    split_and!; [done | by rewrite C2, C1, app_assoc | congruence | congruence | auto].
Qed.

Lemma reads_bind {A C : Type} (r1 : M B A) (r2 : A → M B C) bs1 bs2 a c :
  reads r1 bs1 a → reads (r2 a) bs2 c → reads (mbind r1 r2) (bs1 ++ bs2) c.
Proof.
  intros H1 H2 b rest Hwf Hb Hu. rewrite <- app_assoc in Hu.
  destruct (H1 b _ Hwf Hb Hu) as (b1 & E1 & C1 & U1 & G1 & F1).
  destruct (H2 b1 rest F1 ltac:(by rewrite C1) U1) as (b2 & E2 & C2 & U2 & G2 & F2).
  exists b2. unfold mbind. rewrite E1; simpl. split_and!; try done; congruence.
Qed.

Lemma codec_ret {X A : Type} (x : X) (a : A) : codec (mret x) x (mret a) a.
Proof. exists []. split; [apply writes_ret | apply reads_ret]. Qed.

Lemma codec_bind {X Y A C : Type} (w1 : M B X) (w2 : X → M B Y) (r1 : M B A) (r2 : A → M B C)
    x y a c :
  codec w1 x r1 a → codec (w2 x) y (r2 a) c → codec (mbind w1 w2) y (mbind r1 r2) c.
Proof.
  intros (bs1 & W1 & R1) (bs2 & W2 & R2). exists (bs1 ++ bs2).
  split; [by eapply writes_bind | by eapply reads_bind].
Qed.

(** A pure step on one side only. *)
Lemma codec_lift_w {X Y A : Type} (o : result X) (w2 : X → M B Y) (r : M B A) x y a :
  o = Ok x → codec (w2 x) y r a → codec (mbind (mlift o) w2) y r a.
Proof.
  intros -> (bs & W & R). exists bs. split; [|done]. exact (writes_bind (mret x) w2 [] bs x y
    (writes_ret x) W).
Qed.

Lemma codec_ret_w {X Y A : Type} (w2 : X → M B Y) (r : M B A) x y a :
  codec (w2 x) y r a → codec (mbind (mret x) w2) y r a.
Proof. apply (codec_lift_w (Ok x)). done. Qed.

Lemma codec_prim (t : prim) (vs : list (val t)) n :
  admissible t vs → n = zlen vs → codec (Pack t vs n) () (UnPack t n) vs.
Proof.
  intros Ha ->. exists (encoding t vs). split.
  - intros b; split; [by apply Pack_ok |]. intros [] b' E.
    destruct (Pack_content t vs b () b' Ha E) as (? & ? & ? & ?). done.
  - intros b rest Hf Hb Hu. destruct (UnPack_ok t vs b rest Ha Hf Hb Hu) as (b' & ?).
    by exists b'.
Qed.

Lemma codec_prim1 (t : prim) (v : val t) :
  t ≠ PLong → t ≠ PULong → val_ok t v = true → codec (Pack1 t v) () (UnPack1 t) v.
Proof.
  intros Hl Hul Hv.
  assert (Hc : codec (Pack t [v] 1) () (UnPack t 1) [v])
    by (apply codec_prim; [apply admissible_intro; simpl; auto; by destruct t | done]).
  destruct Hc as (bs & W & R). exists bs. split; [done |].
  rewrite <- (app_nil_r bs). by eapply reads_bind; [apply R | apply reads_ret].
Qed.

(** What a codec gives: pack into a buffer with nothing unread, then unpack. *)
Lemma codec_roundtrip {X A : Type} (w : M B X) x (r : M B A) a :
  codec w x r a →
  ∀ b y b1, buffer_wf b → unread b = [] → w b = Ok (y, b1) → zlen (content b1) ≤ int_max →
    (cursor b ≤ length (content b))%nat →
    ∃ b2, r b1 = Ok (a, b2) ∧ unread b2 = [] ∧ content b2 = content b1.
Proof.
  intros (bs & W & R) b y b1 Hwf Hu Hw Hsz Hcur.
  destruct (proj2 (W b) _ _ Hw) as (_ & Hc & Hp & _ & Hf).
  destruct (R b1 []) as (b2 & E & C & U & _); [by apply Hf | done | | by exists b2].
  unfold unread in *. rewrite Hc, Hp, app_nil_r, drop_app_le by done. by rewrite Hu.
Qed.
End Codec.

(** A string the wire format can carry: no NUL inside, and a length an [int] can count. *)
Definition string_ok (s : string) : Prop := nul_free s ∧ zlen (string_bytes s) + 1 ≤ int_max.
#[export] Instance string_ok_dec s : Decision (string_ok s) := _.

Section DerivedCodec.
Context {B : Type} `{PopBufferLaws B}.

Lemma codec_int (z : Z) : in_sint 32 z = true → codec (Pack1 PInt z) () (UnPack1 PInt) z.
Proof. intros Hz. by apply (codec_prim1 PInt). Qed.

Lemma codec_bool (v : bool) : codec (Pack1 PBool v) () (UnPack1 PBool) v.
Proof. by apply (codec_prim1 PBool). Qed.

Lemma codec_float (f : float) : fvalid f = true → codec (Pack1 PFloat f) () (UnPack1 PFloat) f.
Proof. intros Hf. by apply (codec_prim1 PFloat). Qed.

Lemma codec_prims (t : prim) (vs : list (val t)) n :
  t ≠ PLong → t ≠ PULong → t ≠ PBool → wire_width t * zlen vs ≤ int_max →
  Forall (λ v, val_ok t v = true) vs → n = zlen vs →
  codec (Pack t vs n) () (UnPack t n) vs.
Proof. intros. apply codec_prim; [apply admissible_intro |]; done. Qed.

Lemma codec_string (s : string) : string_ok s → codec (PackString1 s) () UnPackString1 s.
Proof.
  intros [Hn Hl]. pose proof (zlen_nonneg (string_bytes s)) as Hp.
  eapply codec_lift_w; [apply check_int_Ok, in_sint32; unfold int_max in Hl; lia |].
  eapply codec_bind; [apply codec_int, in_sint32; unfold int_max in Hl; lia |]. simpl.
  rewrite (proj2 (Z.ltb_lt _ _)) by lia.
  pose proof (codec_prims PChar (string_bytes s ++ [x00]) (zlen (string_bytes s) + 1)) as Hc.
  destruct Hc as (bs & W & R); try done.
  - rewrite zlen_app. simpl. lia.
  - by apply Forall_true.
  - rewrite zlen_app. done.
  - exists bs. split; [done |]. rewrite <- (app_nil_r bs).
    eapply reads_bind; [apply R |]. simpl.
    rewrite (c_string_app (string_bytes s) []) by done.
    rewrite bytes_string_bytes. apply reads_ret.
Qed.

Lemma codec_mfor {A : Type} (f : A → M B ()) (r : M B A) (l : list A) :
  Forall (λ a, codec (f a) () r a) l → codec (mfor l f) () (mtimes (length l) r) l.
Proof.
  induction 1 as [|a l Ha Hl IH]; cbn [mfor mtimes length]; [apply codec_ret |].
  eapply codec_bind; [exact Ha |]. destruct IH as (bs & W & R). exists bs. split; [done |].
  rewrite <- (app_nil_r bs). eapply reads_bind; [exact R | apply reads_ret].
Qed.

(** [Pack(list, n)] then [UnPack(list, n)] on an array of strings. *)
Lemma codec_strings (l : list string) :
  Forall string_ok l → codec (PackString l (zlen l)) () (UnPackString (zlen l)) l.
Proof.
  intros Hl. unfold PackString, UnPackString. destruct (zlen l <=? 0) eqn:E; reflect_bools.
  - destruct l; [apply codec_ret | simpl in E; lia].
  - rewrite Z.ltb_irrefl, Nat2Z.id, take_ge by done.
    apply codec_mfor. eapply Forall_impl; [exact Hl | apply codec_string].
Qed.

Lemma codec_vector (t : prim) (vect : list (val t)) :
  t ≠ PLong → t ≠ PULong → t ≠ PBool → Forall (λ v, val_ok t v = true) vect →
  wire_width t * zlen vect ≤ int_max → codec (PackVector t vect) () (UnPackVector t) vect.
Proof.
  intros Hl Hu Hb Hv Hsz. pose proof (zlen_nonneg vect) as Hp.
  assert (Hi : in_sint 32 (zlen vect) = true)
    by (apply in_sint32; unfold int_max in Hsz; pose proof (wire_width_pos t); nia).
  eapply codec_lift_w; [by apply check_int_Ok |].
  eapply codec_bind; [by apply codec_int |]. simpl.
  rewrite (proj2 (Z.ltb_ge _ 0)) by lia.
  destruct (0 <? zlen vect) eqn:E; reflect_bools.
  - by apply codec_prims.
  - destruct vect; [apply codec_ret | simpl in E; lia].
Qed.
(** A length, then whatever depends on it. *)
Lemma codec_size {X A C : Type} (l : list C) (w : Z → M B X) (r : Z → M B A) x a :
  zlen l ≤ int_max → codec (w (zlen l)) x (r (zlen l)) a →
  codec (let* n := mlift (check_int (zlen l)) in Pack1 PInt n ;;; w n) x
    (let* n := UnPack1 PInt in r n) a.
Proof.
  intros Hl Hc. unfold int_max in Hl.
  eapply codec_lift_w; [apply check_int_Ok, in_sint32; lia |].
  eapply codec_bind; [apply codec_int, in_sint32; lia | exact Hc].
Qed.

Lemma codec_post {X A A' : Type} (w : M B X) (r : M B A) (f : A → A') x a (a' : A') :
  codec w x r a → f a = a' → codec w x (let* v := r in mret (f v)) a'.
Proof.
  intros (bs & W & R) <-. exists bs. split; [done |]. rewrite <- (app_nil_r bs).
  eapply reads_bind; [exact R | apply reads_ret].
Qed.

Lemma codec_pre {X X' A : Type} (w : M B X) (r : M B A) x (x' : X') a :
  codec w x r a → codec (w ;;; mret x') x' r a.
Proof.
  intros (bs & W & R). exists bs. split; [|done]. rewrite <- (app_nil_r bs).
  by eapply writes_bind; [exact W | apply writes_ret].
Qed.
End DerivedCodec.

(** ** Codecs of a known size *)
Section SizedCodec.
Context {B : Type} `{PopBufferLaws B}.

(** The writer appends at most [k] bytes. *)
Definition codec_within (k : Z) {X A : Type} (w : M B X) (x : X) (r : M B A) (a : A) : Prop :=
  ∃ bs, zlen bs ≤ k ∧ writes w bs x ∧ reads r bs a.

Lemma within_codec k {X A : Type} (w : M B X) x (r : M B A) a :
  codec_within k w x r a → codec w x r a.
Proof. intros (bs & _ & W & R). by exists bs. Qed.

Lemma within_ret {X A : Type} (x : X) (a : A) : codec_within 0 (mret x) x (mret a) a.
Proof. exists []. split_and!; [done | apply writes_ret | apply reads_ret]. Qed.

Lemma within_bind k1 k2 {X Y A C : Type} (w1 : M B X) (w2 : X → M B Y) (r1 : M B A)
    (r2 : A → M B C) x y a c :
  codec_within k1 w1 x r1 a → codec_within k2 (w2 x) y (r2 a) c →
  codec_within (k1 + k2) (mbind w1 w2) y (mbind r1 r2) c.
Proof.
  intros (bs1 & L1 & W1 & R1) (bs2 & L2 & W2 & R2). exists (bs1 ++ bs2).
  split_and!; [rewrite zlen_app; lia | by eapply writes_bind | by eapply reads_bind].
Qed.

Lemma within_post k {X A A' : Type} (w : M B X) (r : M B A) (f : A → A') x a (a' : A') :
  codec_within k w x r a → f a = a' → codec_within k w x (let* v := r in mret (f v)) a'.
Proof.
  intros (bs & L & W & R) <-. exists bs. split_and!; [done | done |].
  rewrite <- (app_nil_r bs). eapply reads_bind; [exact R | apply reads_ret].
Qed.

Lemma within_prim (t : prim) (vs : list (val t)) n :
  admissible t vs → n = zlen vs → codec_within (8 * zlen vs + 4) (Pack t vs n) () (UnPack t n) vs.
Proof.
  intros Ha ->. exists (encoding t vs). split_and!; [by apply encoding_size | |].
  - intros b; split; [by apply Pack_ok |]. intros [] b' E.
    destruct (Pack_content t vs b () b' Ha E) as (? & ? & ? & ?). done.
  - intros b rest Hf Hb Hu. destruct (UnPack_ok t vs b rest Ha Hf Hb Hu) as (b' & ?).
    by exists b'.
Qed.

Lemma within_prim1 (t : prim) (v : val t) :
  t ≠ PLong → t ≠ PULong → val_ok t v = true → codec_within 12 (Pack1 t v) () (UnPack1 t) v.
Proof.
  intros Hl Hul Hv.
  destruct (within_prim t [v] 1) as (bs & L & W & R); [apply admissible_intro; simpl; auto; by destruct t | done |].
  exists bs. split_and!; [exact L | exact W |].
  rewrite <- (app_nil_r bs). by eapply reads_bind; [apply R | apply reads_ret].
Qed.

Lemma within_string (s : string) :
  string_ok s →
  codec_within (8 * zlen (string_bytes s) + 24) (PackString1 s) () UnPackString1 s.
Proof.
  intros [Hn Hl]. pose proof (zlen_nonneg (string_bytes s)) as Hp. unfold int_max in Hl.
  destruct (within_prim1 PInt (zlen (string_bytes s) + 1)) as (bs1 & L1 & W1 & R1);
    [done | done | apply in_sint32; lia |].
  destruct (within_prim PChar (string_bytes s ++ [x00]) (zlen (string_bytes s) + 1))
    as (bs2 & L2 & W2 & R2).
  { apply admissible_intro; try done; [|by apply Forall_true].
    rewrite zlen_app. unfold int_max. simpl. lia. }
  { by rewrite zlen_app. }
  rewrite zlen_app in L2. simpl in L2.
  exists (bs1 ++ bs2). split_and!; [rewrite zlen_app; lia | |].
  - intros b. unfold PackString1. rewrite check_int_Ok by (apply in_sint32; lia).
    apply (writes_bind _ (λ _, if 0 <? zlen (string_bytes s) + 1 then
      Pack PChar (string_bytes s ++ [x00]) (zlen (string_bytes s) + 1) else mret ()) bs1 bs2 () ());
      [exact W1 |]. rewrite (proj2 (Z.ltb_lt _ _)) by lia. exact W2.
  - unfold UnPackString1. eapply reads_bind; [exact R1 |].
    rewrite (proj2 (Z.ltb_lt _ _)) by lia. rewrite <- (app_nil_r bs2).
    eapply reads_bind; [exact R2 |]. rewrite (c_string_app (string_bytes s) []) by done.
    rewrite bytes_string_bytes. apply reads_ret.
Qed.
End SizedCodec.

Create HintDb codec discriminated.
#[export] Hint Resolve codec_int codec_bool codec_float codec_string codec_ret : codec.
#[export] Hint Extern 1 (in_sint _ _ = true) => assumption || reflexivity : codec.
#[export] Hint Extern 1 (fvalid _ = true) => assumption : codec.
#[export] Hint Extern 1 (string_ok _) => assumption : codec.

(** Steps through a writer and a reader in parallel: fields on both sides, conditionals on a known
    flag. *)
Ltac codec_step :=
  first
    [ simple apply codec_ret_w
    | simple eapply codec_lift_w; [reflexivity | cbv beta]
    | simple eapply codec_bind; [solve [eauto with codec] | simpl] ].
Ltac solve_codec := repeat codec_step; eauto with codec.
