(* ===== verification/Exceptions.v ===== *)
(** * The runtime exception

    [pop_exception] (lib/core/exception.cc, include/core/pop_exception.h): error codes, the text a
    code stands for, and marshalling. *)

From S2P Require Import Prelude Machine Buffer.

Definition USER_DEFINE_ERROR : Z := 10000.
Definition OBJECT_NO_RESOURCE : Z := 10001.
Definition OBJECT_BIND_FAIL : Z := 10002.
Definition OBJECT_MISMATCH_METHOD : Z := 10003.
Definition POP_BUFFER_FORMAT : Z := 10007.
Definition POP_JOBSERVICE_FAIL : Z := 10009.
Definition POP_EXEC_FAIL : Z := 10010.
Definition STD_EXCEPTION : Z := 10014.
Definition UNKNOWN_EXCEPTION : Z := 10017.
Definition USER_DEFINE_LASTERROR : Z := 10017.

Definition paroc_errstr : list string := [
  "Out of resource"; "Fail to bind to the remote object broker"; "Mismatch remote method id";
  "Can not access code service"; "Object allocation failed"; "No parallel object executable";
  "Bad paroc package format"; "Local application service failed"; "Job Manager service failed";
  "Execution of object code failed"; "Bad binding reply"; "No support protocol";
  "No support data encoding"; "Standard exception"; "Acknowledgement not received";
  "Network configuration error"; "Unknown exception"].

Record pop_exception : Type := MkException { exc_code : Z; exc_info : string }.
#[export] Instance pop_exception_eta : Eta pop_exception := λ e,
  MkException (exc_code e) (exc_info e).

Section Constructors.
(** The text of a system error, from the C library. *)
Variable strerror : Z → string.

(** [pop_exception(int code)]. *)
Definition exception_of_code (code : Z) : pop_exception :=
  if code =? UNKNOWN_EXCEPTION then MkException code ""
  else if USER_DEFINE_LASTERROR <=? code then MkException code ""
  else if USER_DEFINE_ERROR <? code then
    MkException code (default "" (paroc_errstr !! Z.to_nat (code - USER_DEFINE_ERROR - 1)))
  else MkException code ("System error(" +:+ strerror code +:+ ")").

Definition AddInfo (str : string) (e : pop_exception) : pop_exception :=
  e <| exc_info := (if decide (exc_info e = "") then "" else exc_info e +:+ ": ") +:+ str |>.

(** [pop_exception(int, reason1, reason2)]. *)
Definition exception_make (code : Z) (reason1 reason2 : string) : pop_exception :=
  let e := exception_of_code code in
  let e := if decide (reason1 = "") then e else AddInfo reason1 e in
  if decide (reason2 = "") then e else AddInfo reason2 e.

(** [pop_exception(reason1, reason2)]. *)
Definition exception_reason (reason1 reason2 : string) : pop_exception :=
  let e := exception_of_code UNKNOWN_EXCEPTION in
  let e := if decide (reason1 = "") then e else AddInfo reason1 e in
  if decide (reason2 = "") then e else AddInfo reason2 e.
End Constructors.

(** [pop_exception::pop_throw] with a code of the runtime, whose text needs no [strerror]. *)
Definition pop_throw {A : Type} (code : Z) (reason : string) : result A :=
  let e := exception_make (λ _, "") code reason "" in Throw (exc_code e) (exc_info e).

(** [pop_throw] with a reason only. *)
Definition pop_throw_reason {A : Type} (reason : string) : result A :=
  let e := exception_reason (λ _, "") reason "" in Throw (exc_code e) (exc_info e).

(** A user-defined code has its entry of the table as text. *)
Lemma exception_of_code_user strerror code :
  USER_DEFINE_ERROR < code < USER_DEFINE_LASTERROR →
  ∃ s, paroc_errstr !! Z.to_nat (code - USER_DEFINE_ERROR - 1) = Some s ∧
       exc_info (exception_of_code strerror code) = s.
Proof.
  intros Hc. unfold exception_of_code.
  rewrite (proj2 (Z.eqb_neq _ _)), (proj2 (Z.leb_gt _ _)), (proj2 (Z.ltb_lt _ _))
    by (unfold UNKNOWN_EXCEPTION, USER_DEFINE_LASTERROR in *; lia).
  destruct (lookup_lt_is_Some_2 paroc_errstr (Z.to_nat (code - USER_DEFINE_ERROR - 1))) as [s Hs].
  - unfold USER_DEFINE_ERROR, USER_DEFINE_LASTERROR in *. simpl. lia.
  - exists s. simpl. rewrite Hs. done.
Qed.

Section Serialize.
Context {B : Type} `{PopBuffer B}.

Definition exception_Serialize (pack : bool) (e : pop_exception) : M B pop_exception :=
  if pack then
    Pack1 PInt (exc_code e) ;;;
    PackString1 (exc_info e) ;;;
    mret e
  else
    let* c := UnPack1 PInt in
    let* i := UnPackString1 in
    mret (MkException c i).
End Serialize.

Definition exception_ok (e : pop_exception) : Prop :=
  in_sint 32 (exc_code e) = true ∧ string_ok (exc_info e).

Lemma codec_exception {B : Type} `{PopBufferLaws B} (e e0 : pop_exception) :
  exception_ok e → codec (exception_Serialize true e) e (exception_Serialize false e0) e.
Proof. intros [Hc Hi]. destruct e. unfold exception_Serialize. simpl in *. solve_codec. Qed.
#[export] Hint Resolve codec_exception : codec.
