(* ===== verification/Message.v ===== *)
(** * Packed messages and their transport

    The part the message buffers share (lib/dynamic/buffer_raw.cc, lib/dynamic/buffer_xdr.cc): a
    vector of bytes with a read position, the 20-byte header stamped in front of it when it is
    sent, and the loops that fill a buffer from a communication box (include/core/pop_combox.h)
    that delivers any number of bytes at a time. *)

From S2P Require Import Prelude Machine Buffer Exceptions.

(** ** The members of a buffer *)

Inductive encoding_kind : Type := RAW | XDR.

Record packed (k : encoding_kind) : Type := MkPacked {
  buf_header : message_header;
  buf_unpackpos : Z;
  buf_packeddata : list byte }.
Arguments MkPacked {k} _ _ _.
Arguments buf_header {k} _.
Arguments buf_unpackpos {k} _.
Arguments buf_packeddata {k} _.
#[export] Instance packed_eta k : Eta (packed k) := λ b,
  MkPacked (buf_header b) (buf_unpackpos b) (buf_packeddata b).

(** A buffer as the operations leave it: a read position after the header, a size an [int] can
    count. *)
Definition packed_wf {k : encoding_kind} (b : packed k) : Prop :=
  20 ≤ buf_unpackpos b ∧ 20 ≤ zlen (buf_packeddata b) ≤ int_max.

(** ** Blocks of characters

    Both encodings copy characters as they are and pad the block to four bytes; the read position
    never leaves the vector. *)
Section Chars.
Context {k : encoding_kind} (who : string).

Definition check_unpack (sz : Z) (b : packed k) : result () :=
let! end_ := check_int (sz + buf_unpackpos b) in
if (end_ <? 0) || (zlen (buf_packeddata b) <? end_)
then pop_throw POP_BUFFER_FORMAT who
else Ok ().

Definition pack_chars (data : list byte) (n : Z) : M (packed k) () := λ b,
if n <=? 0 then Ok ((), b)
else
  let! t := check_int (zlen (buf_packeddata b)) in
  let! sz := check_int (t + padded n) in
  let d := resize (Z.to_nat sz) (buf_packeddata b) in
  let! src := memcpy_from 0 n data in
  let! d := memcpy_to t src d in
  Ok ((), b <| buf_packeddata := d |>).

Definition unpack_chars (n : Z) : M (packed k) (list byte) := λ b,
if n <=? 0 then Ok ([], b)
else
  let! _ := check_unpack n b in
  let! data := memcpy_from (buf_unpackpos b) n (buf_packeddata b) in
  let! pos := check_int (buf_unpackpos b + padded n) in
  Ok (data, b <| buf_unpackpos := pos |>).

Definition pad_block (bs : list byte) : list byte :=
match bs with
| [] => []
| _ => bs ++ replicate (Z.to_nat (padded (zlen bs)) - length bs) x00
end.

Lemma pad_block_length bs : bs ≠ [] → zlen (pad_block bs) = padded (zlen bs).
Proof.
intros H. destruct bs as [|c bs]; [done |]. unfold pad_block.
pose proof (padded_bounds (zlen (c :: bs)) ltac:(simpl; lia)).
rewrite length_app, length_replicate. lia.
Qed.

Lemma pad_block_size bs : zlen (pad_block bs) ≤ zlen bs + 4.
Proof.
destruct bs as [|c bs]; [done |]. rewrite pad_block_length by done.
pose proof (padded_bounds (zlen (c :: bs)) ltac:(simpl; lia)). lia.
Qed.

Lemma pack_chars_spec (data : list byte) (b : packed k) :
zlen (buf_packeddata b) + zlen (pad_block data) ≤ int_max →
pack_chars data (zlen data) b
= Ok ((), b <| buf_packeddata := buf_packeddata b ++ pad_block data |>).
Proof.
intros Hsz. unfold pack_chars. destruct data as [|c data].
{ simpl. rewrite app_nil_r. by destruct b. }
remember (c :: data) as l eqn:El.
pose proof (pad_block_length l ltac:(by subst)) as Hlen.
assert (Hpos : 0 < zlen l) by (subst; simpl; lia).
pose proof (padded_bounds _ Hpos) as Hp. unfold int_max in Hsz.
rewrite (proj2 (Z.leb_gt _ 0)), !check_int_Ok by (try apply in_sint32; lia). cbn [rbind].
rewrite check_int_Ok by (apply in_sint32; lia). cbn [rbind].
rewrite memcpy_from_Ok by lia. cbn [rbind].
rewrite Nat2Z.id, drop_0, take_ge by done.
rewrite memcpy_to_Ok by (rewrite ?resize_length; lia). cbn [rbind].
rewrite resize_ge, Nat2Z.id by lia.
match goal with |- Ok ((), b <| _ := ?d |>) = _ =>
  replace d with (buf_packeddata b ++ pad_block l); [done |] end.
rewrite take_app_length. f_equal.
rewrite drop_app_ge, drop_replicate by lia.
rewrite El at 1; unfold pad_block; rewrite <- El. do 2 f_equal. lia.
Qed.

(** When packing returns, the block was appended. *)
Lemma pack_chars_content (data : list byte) (b : packed k) u b' :
pack_chars data (zlen data) b = Ok (u, b') →
b' = b <| buf_packeddata := buf_packeddata b ++ pad_block data |>.
Proof.
intros H. destruct data as [|c data].
{ injection H as _ <-. simpl. rewrite app_nil_r. by destruct b. }
assert (Hpos : 0 < zlen (c :: data)) by (simpl; lia).
assert (Hsz : zlen (buf_packeddata b) + zlen (pad_block (c :: data)) ≤ int_max).
{ unfold pack_chars in H. rewrite (proj2 (Z.leb_gt _ 0)) in H by done. inv_ok.
  rewrite pad_block_length by done. unfold check_int in *. repeat case_if; simplify_eq.
  apply in_sint32 in Heqb0. unfold int_max. lia. }
rewrite pack_chars_spec in H by done. by injection H.
Qed.

Lemma unpack_chars_spec (data rest : list byte) (b : packed k) :
0 ≤ buf_unpackpos b → zlen (buf_packeddata b) ≤ int_max →
drop (Z.to_nat (buf_unpackpos b)) (buf_packeddata b) = pad_block data ++ rest →
unpack_chars (zlen data) b
= Ok (data, b <| buf_unpackpos := buf_unpackpos b + zlen (pad_block data) |>).
Proof.
intros Hpos Hsz Hd. unfold unpack_chars. destruct data as [|c data].
{ simpl. rewrite Z.add_0_r. by destruct b. }
remember (c :: data) as l eqn:El.
pose proof (pad_block_length l ltac:(by subst)) as Hlen.
assert (Hl : 0 < zlen l) by (subst; simpl; lia).
pose proof (padded_bounds _ Hl) as Hp. unfold int_max in Hsz.
pose proof (f_equal length Hd) as Hdl. rewrite length_drop, length_app in Hdl.
rewrite (proj2 (Z.leb_gt _ 0)) by done. unfold check_unpack.
rewrite check_int_Ok by (apply in_sint32; lia). cbn [rbind].
rewrite (proj2 (Z.ltb_ge _ 0)), (proj2 (Z.ltb_ge _ (zlen l + _))) by lia. cbn [orb rbind].
rewrite memcpy_from_Ok by lia. cbn [rbind].
rewrite check_int_Ok by (apply in_sint32; lia). cbn [rbind].
rewrite Hlen, Hd, Nat2Z.id. do 2 f_equal.
rewrite El at 2. unfold pad_block. rewrite <- El, <- app_assoc. by apply take_app_len.
Qed.
End Chars.

(** ** Communication boxes

    [cb_Send dat] and [cb_Recv n] are the virtual methods [Send(dat, n, conn)] and
    [Recv(dat, n, conn)] on one connection; [S] is the state of the box.  [cb_Recv] returns the
    count, the bytes written to [dat] and the new state. *)
Record combox (S : Type) : Type := {
  cb_Send : list byte → S → Z * S;
  cb_Recv : Z → S → Z * list byte * S }.
Arguments cb_Send {S} _ _ _.
Arguments cb_Recv {S} _ _ _.

(** A box that delivers a byte stream in order, cut into pieces at will. *)
Class ComboxStream {S : Type} (cb : combox S) := {
  incoming : S → list byte;
  recv_progress : ∀ s n, 0 < n → incoming s ≠ [] →
    ∃ i s', cb_Recv cb n s = (i, take (Z.to_nat i) (incoming s), s') ∧
            1 ≤ i ≤ n ∧ i ≤ zlen (incoming s) ∧ incoming s' = drop (Z.to_nat i) (incoming s) }.

(** A box whose other end is itself: what is sent is delivered, after what is already there. *)
Class ComboxChannel {S : Type} (cb : combox S) `{!ComboxStream cb} :=
  channel_send : ∀ s dat, ∃ s', cb_Send cb dat s = (zlen dat, s') ∧ incoming s' = incoming s ++ dat.

(** A box that keeps what is sent and delivers at most [w] bytes at a time. *)
Definition loop_box (w : positive) : combox (list byte) := {|
  cb_Send := λ dat s, (zlen dat, s ++ dat);
  cb_Recv := λ n s, let bs := take (Z.to_nat (Z.min n (Z.pos w))) s in
    (zlen bs, bs, drop (Z.to_nat (Z.min n (Z.pos w))) s) |}.

Section Transport.
Context {S : Type} (cb : combox S).

(** The loop [while (n) { i = Recv(dat, n); if (i <= 0) return false; dat += i; n -= i; }]: the
    outcome, the bytes stored, the state of the box. A box that reports more bytes than asked
    for has written past the end of the destination. *)
Fixpoint recv_loop (fuel : nat) (n : Z) (s : S) : result (bool * list byte * S) :=
  if n =? 0 then Ok (true, [], s)
  else
    match fuel with
    | O => Stuck
    | Datatypes.S fuel' =>
        let '(i, bs, s') := cb_Recv cb n s in
        if i <=? 0 then Ok (false, [], s')
        else if (n <? i) || negb (zlen bs =? i) then Stuck
        else
          let! r := recv_loop fuel' (n - i) s' in
          let '(ok, bs', s'') := r in
          Ok (ok, bs ++ bs', s'')
    end.

Definition recv_all (n : Z) (s : S) : result (bool * list byte * S) :=
  recv_loop (Z.to_nat n) n s.

(** Each turn receives at least one byte, so [n] turns are enough. *)
Lemma recv_loop_fuel (fuel : nat) (n : Z) (s : S) :
  0 ≤ n ≤ Z.of_nat fuel → recv_loop fuel n s = recv_all n s.
Proof.
  unfold recv_all. intros Hn. assert (E : ∃ m, m = Z.to_nat n) by eauto.
  destruct E as [m Em]. rewrite <- Em. assert (Hm : 0 ≤ n ≤ Z.of_nat m) by lia. clear Em.
  revert fuel n m s Hn Hm. induction fuel as [|fuel IH]; intros n m s Hn Hm.
  - replace n with 0 by lia. by destruct m.
  - destruct m as [|m]; [by replace n with 0 by lia |].
    cbn [recv_loop]. destruct (n =? 0); [done |].
    destruct (cb_Recv cb n s) as [[i bs] s'].
    destruct (i <=? 0) eqn:Ei; [done |]. destruct ((n <? i) || negb (zlen bs =? i)) eqn:Eo; [done |].
    reflect_bools. by rewrite (IH (n - i) m) by lia.
Qed.

Lemma recv_loop_stream `{!ComboxStream cb} (fuel : nat) :
  ∀ (n : Z) (s : S) bs rest, 0 ≤ n ≤ Z.of_nat fuel → zlen bs = n → incoming s = bs ++ rest →
  ∃ s', recv_loop fuel n s = Ok (true, bs, s') ∧ incoming s' = rest.
Proof.
  induction fuel as [|fuel IH]; intros n s bs rest Hn Hlen Hin.
  - destruct bs; [|simpl in Hlen; lia]. exists s. by replace n with 0 by lia.
  - cbn [recv_loop]. destruct (n =? 0) eqn:En; reflect_bools.
    { destruct bs; [|simpl in Hlen; lia]. by exists s. }
    destruct (recv_progress s n) as (i & s' & E & Hi & Hil & Hs'); [lia | |].
    { rewrite Hin. destruct bs; [simpl in Hlen; lia | done]. }
    rewrite E, (proj2 (Z.leb_gt i 0)), (proj2 (Z.ltb_ge n i)) by lia.
    rewrite length_take, (proj2 (Z.eqb_eq _ i)) by lia. cbn [orb negb].
    destruct (IH (n - i) s' (drop (Z.to_nat i) bs) rest) as (s'' & E2 & Hs'').
    + lia.
    + rewrite length_drop. lia.
    + rewrite Hs', Hin, drop_app_le by lia. done.
    + rewrite E2. simpl. exists s''. split; [|done].
      rewrite Hin, take_app_le by lia. by rewrite take_drop.
Qed.

Lemma recv_all_stream `{!ComboxStream cb} n s bs rest :
  zlen bs = n → incoming s = bs ++ rest →
  ∃ s', recv_all n s = Ok (true, bs, s') ∧ incoming s' = rest.
Proof. intros. apply recv_loop_stream; [pose proof (zlen_nonneg bs); lia | done | done]. Qed.
End Transport.

(** ** Sending and receiving a message

    [enc] and [dec] are how the class writes and reads the words of the header: host order for the
    raw buffer, network order for the XDR buffer. *)
Section Framing.
Context {k : encoding_kind} {S : Type} (cb : combox S).
Variables (enc : Z → list byte) (dec : list byte → Z) (reset : packed k → packed k).

(** The header is written over the first 20 bytes; [None]: the method gives up. *)
Definition stamp (b : packed k) : result (option (packed k)) :=
  if decide (buf_packeddata b = []) then Ok None
  else
    let! n := check_int (zlen (buf_packeddata b)) in
    let! ws := header_words n (buf_header b) in
    match ws with
    | None => Ok None
    | Some ws =>
        let! d := memcpy_to 0 (concat (enc <$> ws)) (buf_packeddata b) in
        Ok (Some (b <| buf_packeddata := d |>))
    end.

Definition send_message (b : packed k) (s : S) : result (bool * packed k * S) :=
  let! r := stamp b in
  match r with
  | None => Ok (false, b, s)
  | Some b' =>
      let '(i, s') := cb_Send cb (buf_packeddata b') s in
      Ok (0 <=? i, b', s')
  end.

(** What the receiver does with the 20 bytes of the header; [false]: it gives up. *)
Definition read_header (h : list byte) (b : packed k) : bool * packed k :=
  let ws := dec <$> chunks 4 5 h in
  if default 0 (ws !! 0%nat) <? 20 then (false, b)
  else
    let '(hd, known) := header_of_words ws (buf_header b) in
    (known, b <| buf_header := hd |>).

Definition recv_message (b : packed k) (s : S) : result (bool * packed k * S) :=
  let! r := recv_all cb 20 s in
  let '(ok, h, s1) := r in
  if negb ok then Ok (false, b, s1)
  else
    let '(known, b) := read_header h (reset b) in
    if negb known then Ok (false, b, s1)
    else
      let n := dec (take 4 h) in
      let b := b <| buf_packeddata := resize (Z.to_nat n) (buf_packeddata b) |> in
      let! r := recv_all cb (n - 20) s1 in
      let '(ok, bs, s2) := r in
      let! d := memcpy_to 20 bs (buf_packeddata b) in
      Ok (ok, b <| buf_packeddata := d |>, s2).

Hypothesis enc_length : ∀ z, length (enc z) = 4%nat.
Hypothesis dec_enc : ∀ z, in_sint 32 z = true → dec (enc z) = z.
Hypothesis reset_spec : ∀ b, buf_header (reset b) = buf_header b ∧ buf_unpackpos (reset b) = 20 ∧
  length (buf_packeddata (reset b)) = 20%nat.

Lemma words_length ws : length ws = 5%nat → length (concat (enc <$> ws)) = 20%nat.
Proof.
  intros H. rewrite (concat_length_uniform 4), length_fmap, H; [done |].
  by apply Forall_map_len.
Qed.

Lemma stamp_spec (b : packed k) ws :
  packed_wf b → header_words (zlen (buf_packeddata b)) (buf_header b) = Ok (Some ws) →
  stamp b = Ok (Some (b <| buf_packeddata :=
                         concat (enc <$> ws) ++ drop 20 (buf_packeddata b) |>)).
Proof.
  intros (_ & Hd) Hw. unfold stamp, int_max in *. rewrite decide_False.
  2: { intros E. rewrite E in Hd. simpl in Hd. lia. }
  rewrite check_int_Ok by (apply in_sint32; lia). cbn [rbind].
  rewrite Hw. cbn [rbind]. apply header_words_length in Hw.
  rewrite memcpy_to_Ok by (rewrite ?words_length by done; lia).
  cbn [rbind]. by rewrite (words_length ws) by done.
Qed.

(** The members that are sent have been written. *)
Definition header_sendable (h : message_header) : Prop := ∀ n, ∃ ws, header_words n h = Ok (Some ws).

Lemma header_words_size n h ws : header_words n h = Ok (Some ws) → ∃ ws', ws = n :: ws'.
Proof. unfold header_words. intros H. repeat case_if; inv_ok; simplify_eq; eauto. Qed.

Lemma decode_words ws : length ws = 5%nat → Forall (λ z, in_sint 32 z = true) ws →
  dec <$> chunks 4 5 (concat (enc <$> ws)) = ws.
Proof.
  intros Hl Hw. rewrite <- (app_nil_r (concat _)).
  replace 5%nat with (length (enc <$> ws)) by (by rewrite length_fmap).
  rewrite chunks_concat by (by apply Forall_map_len).
  rewrite <- list_fmap_compose. clear Hl. induction Hw; csimpl; [done |]. f_equal; auto.
Qed.

(** The words a header is sent with fit in an [int]. *)
Definition header_ranged (h : message_header) : Prop :=
  Forall (λ o, in_sint 32 (default 0 o) = true)
    [Some (hdr_type h); hdr_id0 h; hdr_id1 h; hdr_id2 h; hdr_exception h].

(** The header a receiver rebuilds keeps that. *)
Lemma header_of_words_ranged ws h :
  Forall (λ z, in_sint 32 z = true) ws → header_ranged h → header_ranged (header_of_words ws h).1.
Proof.
  unfold header_ranged, header_of_words. intros Hw Hr.
  destruct ws as [|? [|? [|? [|? [|? [|]]]]]]; try done. destruct h.
  repeat match goal with H : Forall _ (_ :: _) |- _ => inversion H; clear H; subst end.
  simpl in *. repeat case_if; repeat constructor; done.
Qed.

(** What one side sends, the other receives: same header, same content behind it, read position
    at its start, and nothing taken from the rest of the stream. *)
Lemma send_recv `{!ComboxStream cb} (b b0 : packed k) ws s rest :
  packed_wf b → header_words (zlen (buf_packeddata b)) (buf_header b) = Ok (Some ws) →
  Forall (λ z, in_sint 32 z = true) ws →
  incoming s = (concat (enc <$> ws) ++ drop 20 (buf_packeddata b)) ++ rest →
  ∃ b' s', recv_message b0 s = Ok (true, b', s') ∧ incoming s' = rest ∧
    buf_unpackpos b' = 20 ∧ header_agree (buf_header b) (buf_header b') ∧
    length (buf_packeddata b') = length (buf_packeddata b) ∧
    drop 20 (buf_packeddata b') = drop 20 (buf_packeddata b) ∧
    (header_ranged (buf_header b0) → header_ranged (buf_header b')).
Proof.
  intros (_ & Hd) Hw Hws Hin. unfold int_max in Hd.
  pose proof (header_words_length _ _ _ Hw) as Hl. rewrite <- app_assoc in Hin.
  destruct (recv_all_stream cb 20 s _ _ ltac:(by rewrite words_length) Hin) as (s1 & E1 & Hin1).
  unfold recv_message. rewrite E1. cbn [rbind negb].
  destruct (reset_spec b0) as (Rh & Rp & Rl).
  unfold read_header. rewrite decode_words by done.
  destruct (header_words_size _ _ _ Hw) as [ws' Ews].
  replace (default 0 (ws !! 0%nat)) with (zlen (buf_packeddata b)) by (by subst ws).
  rewrite (proj2 (Z.ltb_ge _ 20)) by lia.
  destruct (header_words_agree _ _ _ (buf_header (reset b0)) Hw) as [Hk Ha].
  pose proof (header_of_words_ranged ws (buf_header (reset b0)) Hws) as Hrg. rewrite Rh in *.
  destruct (header_of_words ws _) as [hd known]; simpl in Hk, Ha, Hrg; subst known.
  cbn [negb].
  replace (dec (take 4 (concat (enc <$> ws)))) with (zlen (buf_packeddata b)).
  2: { subst ws. csimpl. rewrite take_app_len by (by rewrite enc_length).
       symmetry. apply dec_enc. by inversion Hws. }
  destruct (recv_all_stream cb (zlen (buf_packeddata b) - 20) s1 (drop 20 (buf_packeddata b)) rest)
    as (s2 & E2 & Hin2); [rewrite length_drop; lia | exact Hin1 |].
  rewrite E2. cbn [rbind]. rewrite memcpy_to_Ok.
  2: lia. 2: { cbn. rewrite resize_length, length_drop. lia. }
  cbn [rbind]. eexists _, s2. split; [done |]. cbn. split_and!; try done.
  - rewrite Nat2Z.id, !length_app, length_take, !length_drop, resize_length. lia.
  - rewrite drop_app_len by (rewrite length_take, resize_length; lia).
    rewrite Nat2Z.id, (drop_ge (resize _ _)) by (rewrite resize_length, length_drop; lia).
    by rewrite app_nil_r.
Qed.

Lemma header_words_ranged n h ws :
  header_words n h = Ok (Some ws) → in_sint 32 n = true → header_ranged h →
  Forall (λ z, in_sint 32 z = true) ws.
Proof.
  intros Hw Hn Hr. unfold header_ranged, header_words in *.
  repeat match goal with H : Forall _ (_ :: _) |- _ => inversion H; clear H; subst end.
  destruct h as [ty [] [] [] mn []]; simpl in *; repeat case_if; inv_ok; simplify_eq/=;
    repeat first [constructor | done].
Qed.

Lemma send_ok_size (b b1 : packed k) s s1 :
  send_message b s = Ok (true, b1, s1) → zlen (buf_packeddata b) ≤ int_max.
Proof.
  unfold send_message, stamp. intros H. apply rbind_Ok in H as (o & Est & H).
  destruct (decide _) as [|]; [by simplify_eq |].
  apply rbind_Ok in Est as (m & En & _). unfold check_int in En. case_if; simplify_eq.
  apply in_sint32 in Heqb0. unfold int_max. lia.
Qed.

Lemma header_assign_ranged h h' :
  header_ranged h → header_ranged h' → header_ranged (header_assign h h').
Proof.
  unfold header_ranged, header_assign. intros H H'.
  repeat match goal with H : Forall _ (_ :: _) |- _ => inversion H; clear H; subst end.
  repeat case_if; repeat constructor; done.
Qed.

Lemma send_ok_words `{!ComboxStream cb} (b b1 : packed k) s s1 :
  packed_wf b → send_message b s = Ok (true, b1, s1) →
  ∃ ws, header_words (zlen (buf_packeddata b)) (buf_header b) = Ok (Some ws) ∧
    b1 = b <| buf_packeddata := concat (enc <$> ws) ++ drop 20 (buf_packeddata b) |>.
Proof.
  intros Hwf Hs. unfold send_message in Hs. apply rbind_Ok in Hs as (o & Est & Hs).
  destruct o as [b'|]; [|by simplify_eq]. pose proof Est as Est'.
  unfold stamp in Est. destruct (decide _) as [|Hne]; [by simplify_eq |].
  apply rbind_Ok in Est as (n & En & Est). unfold check_int in En. case_if; simplify_eq.
  apply rbind_Ok in Est as (ow & Ew & Est). destruct ow as [ws|]; [|by simplify_eq].
  exists ws. split; [done |]. rewrite (stamp_spec b ws) in Est' by done. simplify_eq.
  destruct (cb_Send _ _ _). by simplify_eq.
Qed.

(** A message whose header is complete is sent. *)
Lemma send_message_ok `{!ComboxStream cb} `{!ComboxChannel cb} (b : packed k) s :
  packed_wf b → header_sendable (buf_header b) → ∃ b1 s1, send_message b s = Ok (true, b1, s1).
Proof.
  intros Hwf Hh. destruct (Hh (zlen (buf_packeddata b))) as [ws Hw].
  unfold send_message. rewrite (stamp_spec b ws) by done. cbn [rbind].
  destruct (channel_send s (buf_packeddata (b <| buf_packeddata := concat (enc <$> ws) ++ drop 20 (buf_packeddata b) |>)))
    as (s' & E & _). cbn in E |- *. rewrite E. eexists _, s'.
  by rewrite (proj2 (Z.leb_le 0 _)) by (apply zlen_nonneg).
Qed.

Lemma send_message_header (b b1 : packed k) t s s1 :
  send_message b s = Ok (t, b1, s1) → buf_header b1 = buf_header b.
Proof.
  unfold send_message. intros E. apply rbind_Ok in E as ([b'|] & E1 & E2); [|by simplify_eq].
  destruct (cb_Send cb (buf_packeddata b') s) as [i s']. simplify_eq.
  unfold stamp in E1. destruct (decide (buf_packeddata b = [])); [done |].
  apply rbind_Ok in E1 as (z & _ & E1). apply rbind_Ok in E1 as ([ws|] & _ & E3); [|done].
  apply rbind_Ok in E3 as (d & _ & E3). by simplify_eq.
Qed.

(** Sending then receiving over a channel. *)
Lemma transport `{!ComboxStream cb} `{!ComboxChannel cb} (b b0 b1 : packed k) s s1 :
  packed_wf b → header_ranged (buf_header b) → incoming s = [] →
  send_message b s = Ok (true, b1, s1) →
  ∃ b2 s2, recv_message b0 s1 = Ok (true, b2, s2) ∧ incoming s2 = [] ∧
    buf_unpackpos b2 = 20 ∧ header_agree (buf_header b) (buf_header b2) ∧
    length (buf_packeddata b2) = length (buf_packeddata b) ∧
    drop 20 (buf_packeddata b2) = drop 20 (buf_packeddata b) ∧
    (header_ranged (buf_header b0) → header_ranged (buf_header b2)).
Proof.
  intros Hwf Hr Hin Hs. destruct (send_ok_words b b1 s s1 Hwf Hs) as (ws & Hw & ->).
  apply send_recv with (ws := ws); try done.
  - eapply header_words_ranged; [done | | done]. destruct Hwf as (_ & Hsz).
    unfold int_max in Hsz. apply in_sint32. lia.
  - unfold send_message in Hs. rewrite (stamp_spec b ws) in Hs by done. cbn [rbind] in Hs.
    destruct (channel_send s (concat (enc <$> ws) ++ drop 20 (buf_packeddata b)))
      as (s' & E & Hs').
    cbn in Hs. rewrite E in Hs. simplify_eq. by rewrite Hs', Hin, app_nil_r.
Qed.
End Framing.

#[export] Program Instance loop_box_stream w : ComboxStream (loop_box w) := { incoming := λ s, s }.
Next Obligation.
  intros w s n Hn Hs. cbn. assert (0 < zlen s) by (destruct s; simpl; [done | lia]).
  pose proof (take_length_take (Z.to_nat (Z.min n (Z.pos w))) s) as [Et Ed].
  exists (zlen (take (Z.to_nat (Z.min n (Z.pos w))) s)), (drop (Z.to_nat (Z.min n (Z.pos w))) s).
  rewrite Nat2Z.id, Et, Ed. split_and!; try done; rewrite length_take; lia.
Qed.
#[export] Instance loop_box_channel w : ComboxChannel (loop_box w).
Proof. intros s dat. by eexists. Qed.

(** ** What a buffer class promises about its transport *)
Class PopTransport (B : Type) `{PopBufferLaws B} := {
  Send : ∀ {S : Type}, combox S → B → S → result (bool * B * S);
  Recv : ∀ {S : Type}, combox S → B → S → result (bool * B * S);
  Reset_ok : ∀ b, buffer_wf (Reset b) ∧ cursor (Reset b) = 20%nat ∧
    length (content (Reset b)) = 20%nat;
  SetHeader_ok : ∀ h b, content (SetHeader h b) = content b ∧ cursor (SetHeader h b) = cursor b ∧
    GetHeader (SetHeader h b) = header_assign (GetHeader b) h ∧ GetHeader (Reset b) = GetHeader b ∧
    (buffer_wf b → buffer_wf (SetHeader h b));
  Send_size : ∀ {S : Type} (cb : combox S) b b1 s s1,
    Send cb b s = Ok (true, b1, s1) → zlen (content b) ≤ int_max;
  Send_ok : ∀ {S : Type} (cb : combox S) `{!ComboxStream cb} `{!ComboxChannel cb} b s,
    buffer_wf b → 20 ≤ zlen (content b) ≤ int_max → header_sendable (GetHeader b) →
    ∃ b1 s1, Send cb b s = Ok (true, b1, s1);
  Recv_Send : ∀ {S : Type} (cb : combox S) `{!ComboxStream cb} `{!ComboxChannel cb} b b0 b1 s s1,
    buffer_wf b → 20 ≤ zlen (content b) ≤ int_max → header_ranged (GetHeader b) →
    incoming s = [] → Send cb b s = Ok (true, b1, s1) →
    ∃ b2 s2, Recv cb b0 s1 = Ok (true, b2, s2) ∧ incoming s2 = [] ∧ buffer_wf b2 ∧
      unread b2 = drop 20 (content b) ∧ zlen (content b2) ≤ int_max ∧
      header_agree (GetHeader b) (GetHeader b2) ∧
      (header_ranged (GetHeader b0) → header_ranged (GetHeader b2));
  Send_header : ∀ {S : Type} (cb : combox S) b t b1 s s1,
    Send cb b s = Ok (t, b1, s1) → GetHeader b1 = GetHeader b }.

Section RemoteCall.
Context {B : Type} `{PopTransport B}.
Context {S : Type} (cb : combox S) `{!ComboxStream cb} `{!ComboxChannel cb}.
Context {X A : Type} (w : M B X) (x : X) (r : M B A) (a : A).

(** A message prepared with [Reset] and [SetHeader], filled by [w], sent, received into any
    buffer, and read by [r]: the reader finds what the writer put, and nothing else. *)
Lemma call_transport h (b b0 b1 b2 : B) y s s1 :
  codec w x r a → w (SetHeader h (Reset b)) = Ok (y, b1) →
  header_ranged (GetHeader b1) → incoming s = [] → Send cb b1 s = Ok (true, b2, s1) →
  ∃ b3 s2 b4, Recv cb b0 s1 = Ok (true, b3, s2) ∧ incoming s2 = [] ∧
    header_agree (GetHeader b1) (GetHeader b3) ∧ r b3 = Ok (a, b4) ∧ unread b4 = [].
Proof.
  intros (bs & W & R) Hw Hr Hin Hs. pose proof (Send_size _ _ _ _ _ Hs) as Hsz.
  destruct (Reset_ok b) as (Rw & Rc & Rl). destruct (SetHeader_ok h (Reset b)) as (Hc & Hp & _ & _ & Hwf).
  destruct (proj2 (W _) _ _ Hw) as (_ & C1 & P1 & _ & F1).
  destruct (Recv_Send cb b1 b0 b2 s s1) as (b3 & s2 & E & Hs2 & F3 & U3 & S3 & A3 & _); auto.
  { rewrite C1, Hc, length_app, Rl in Hsz |- *. lia. }
  destruct (R b3 []) as (b4 & E4 & _ & U4 & _); try done.
  { rewrite U3, C1, Hc, app_nil_r. by apply drop_app_len. }
  by exists b3, s2, b4.
Qed.
End RemoteCall.

(** The same on a connection that works: a message of a known size is written, sent and received
    without any further hypothesis. *)
Section Delivery.
Context {B : Type} `{PopTransport B}.
Context {S : Type} (cb : combox S) `{!ComboxStream cb} `{!ComboxChannel cb}.

Lemma message_delivered k {X A : Type} (w : M B X) (x : X) (r : M B A) (a : A) (b b0 : B) s :
  codec_within k w x r a → buffer_wf b → length (content b) = 20%nat → cursor b = 20%nat →
  20 + k ≤ int_max → header_sendable (GetHeader b) → header_ranged (GetHeader b) →
  incoming s = [] →
  ∃ b1 b2 s1 b3 s2 b4, w b = Ok (x, b1) ∧ Send cb b1 s = Ok (true, b2, s1) ∧
    Recv cb b0 s1 = Ok (true, b3, s2) ∧ incoming s2 = [] ∧ buffer_wf b3 ∧
    header_agree (GetHeader b) (GetHeader b3) ∧
    (header_ranged (GetHeader b0) → header_ranged (GetHeader b3)) ∧
    r b3 = Ok (a, b4) ∧ unread b4 = [] ∧ GetHeader b4 = GetHeader b3 ∧ GetHeader b2 = GetHeader b.
Proof.
  intros (bs & Hl & W & R) Hwf Hlen Hcur Hk Hsend Hrg Hin.
  destruct (proj1 (W b)) as [[x' b1] E1]; [rewrite Hlen; simpl; lia |].
  destruct (proj2 (W b) _ _ E1) as (-> & C1 & P1 & G1 & F1).
  assert (Hsz : 20 ≤ zlen (content b1) ≤ int_max).
  { rewrite C1, length_app, Hlen. lia. }
  destruct (Send_ok cb b1 s) as (b2 & s1 & E2); [auto | done | by rewrite G1 |].
  destruct (Recv_Send cb b1 b0 b2 s s1) as (b3 & s2 & E3 & Hs2 & F3 & U3 & S3 & A3 & R3);
    try done; [auto | by rewrite G1 |].
  destruct (R b3 []) as (b4 & E4 & _ & U4 & G4 & _); try done.
  { rewrite U3, C1, app_nil_r. by apply drop_app_len. }
  rewrite G1 in A3. exists b1, b2, s1, b3, s2, b4. rewrite (Send_header _ _ _ _ _ _ E2), G1. by split_and!.
Qed.
End Delivery.
