(* ===== verification/BufferRaw.v ===== *)
(** * The raw buffer

    [pop_buffer_raw] (lib/dynamic/buffer_raw.cc, include/core/pop_buffer_raw.h): values are copied
    in the representation of the host, every block padded to four bytes. *)

From S2P Require Import Prelude Machine Buffer Exceptions Message.

Abbreviation buffer_raw := (packed RAW).

(** [Reset]: the 20 bytes of the header are kept as they are. *)
Definition raw_Reset (b : buffer_raw) : buffer_raw :=
  b <| buf_unpackpos := 20 |> <| buf_packeddata := resize 20 (buf_packeddata b) |>.

(** The constructor. *)
Definition raw_new : buffer_raw := raw_Reset (MkPacked header_default 0 []).

Definition raw_CheckUnPack (sz : Z) (b : buffer_raw) : result () :=
  check_unpack "Wrong buffer format in pop_buffer_raw::CheckUnPack" sz b.

Definition raw_Pack_char (data : list byte) (n : Z) : M buffer_raw () := pack_chars data n.

Definition raw_UnPack_char (n : Z) : M buffer_raw (list byte) :=
  unpack_chars "Wrong buffer format in pop_buffer_raw::CheckUnPack" n.

(** [reinterpret_cast] of an array to its bytes, with [n * sizeof(T)] passed as an [int]. *)
Definition raw_Pack_as (t : prim) (data : list (val t)) (n : Z) : M buffer_raw () :=
  raw_Pack_char (concat (host_enc t <$> data)) (swrap 32 (n * Z.of_nat (psize t))).

Definition raw_UnPack_as (t : prim) (n : Z) : M buffer_raw (list (val t)) :=
  let* bs := raw_UnPack_char (swrap 32 (n * Z.of_nat (psize t))) in
  match map_option (host_dec t) (chunks (psize t) (length bs / psize t)%nat bs) with
  | Some vs => mret vs
  | None => mlift Stuck
  end.

Definition raw_Pack_int (data : list (val PInt)) (n : Z) : M buffer_raw () :=
  raw_Pack_as PInt data n.
Definition raw_UnPack_int (n : Z) : M buffer_raw (list (val PInt)) := raw_UnPack_as PInt n.

Definition raw_Pack_unsigned (data : list (val PUInt)) (n : Z) : M buffer_raw () :=
  raw_Pack_as PUInt data n.
Definition raw_UnPack_unsigned (n : Z) : M buffer_raw (list (val PUInt)) := raw_UnPack_as PUInt n.

Definition raw_Pack_long (data : list (val PLong)) (n : Z) : M buffer_raw () :=
  raw_Pack_as PLong data n.
Definition raw_UnPack_long (n : Z) : M buffer_raw (list (val PLong)) := raw_UnPack_as PLong n.

Definition raw_Pack_ulong (data : list (val PULong)) (n : Z) : M buffer_raw () :=
  raw_Pack_as PULong data n.
Definition raw_UnPack_ulong (n : Z) : M buffer_raw (list (val PULong)) := raw_UnPack_as PULong n.

Definition raw_Pack_short (data : list (val PShort)) (n : Z) : M buffer_raw () :=
  raw_Pack_as PShort data n.
Definition raw_UnPack_short (n : Z) : M buffer_raw (list (val PShort)) := raw_UnPack_as PShort n.

Definition raw_Pack_ushort (data : list (val PUShort)) (n : Z) : M buffer_raw () :=
  raw_Pack_as PUShort data n.
Definition raw_UnPack_ushort (n : Z) : M buffer_raw (list (val PUShort)) := raw_UnPack_as PUShort n.

Definition raw_Pack_bool (data : list (val PBool)) (n : Z) : M buffer_raw () :=
  raw_Pack_as PBool data n.
Definition raw_UnPack_bool (n : Z) : M buffer_raw (list (val PBool)) := raw_UnPack_as PBool n.

Definition raw_Pack_uchar (data : list (val PUChar)) (n : Z) : M buffer_raw () :=
  raw_Pack_as PUChar data n.
Definition raw_UnPack_uchar (n : Z) : M buffer_raw (list (val PUChar)) := raw_UnPack_as PUChar n.

Definition raw_Pack_float (data : list (val PFloat)) (n : Z) : M buffer_raw () :=
  raw_Pack_as PFloat data n.
Definition raw_UnPack_float (n : Z) : M buffer_raw (list (val PFloat)) := raw_UnPack_as PFloat n.

Definition raw_Pack_double (data : list (val PDouble)) (n : Z) : M buffer_raw () :=
  raw_Pack_as PDouble data n.
Definition raw_UnPack_double (n : Z) : M buffer_raw (list (val PDouble)) := raw_UnPack_as PDouble n.

Definition raw_Pack_schar (data : list (val PSChar)) (n : Z) : M buffer_raw () :=
  raw_Pack_as PSChar data n.
Definition raw_UnPack_schar (n : Z) : M buffer_raw (list (val PSChar)) := raw_UnPack_as PSChar n.

Definition raw_Pack (t : prim) : list (val t) → Z → M buffer_raw () :=
  match t with
  | PChar => raw_Pack_char
  | PInt => raw_Pack_int
  | PUInt => raw_Pack_unsigned
  | PLong => raw_Pack_long
  | PULong => raw_Pack_ulong
  | PShort => raw_Pack_short
  | PUShort => raw_Pack_ushort
  | PBool => raw_Pack_bool
  | PUChar => raw_Pack_uchar
  | PFloat => raw_Pack_float
  | PDouble => raw_Pack_double
  | PSChar => raw_Pack_schar
  end.

Definition raw_UnPack (t : prim) : Z → M buffer_raw (list (val t)) :=
  match t with
  | PChar => raw_UnPack_char
  | PInt => raw_UnPack_int
  | PUInt => raw_UnPack_unsigned
  | PLong => raw_UnPack_long
  | PULong => raw_UnPack_ulong
  | PShort => raw_UnPack_short
  | PUShort => raw_UnPack_ushort
  | PBool => raw_UnPack_bool
  | PUChar => raw_UnPack_uchar
  | PFloat => raw_UnPack_float
  | PDouble => raw_UnPack_double
  | PSChar => raw_UnPack_schar
  end.

(** [SetHeader] of the base class: [header = data]. *)
Definition raw_SetHeader (data : message_header) (b : buffer_raw) : buffer_raw :=
  b <| buf_header := header_assign (buf_header b) data |>.

#[export] Instance raw_PopBuffer : PopBuffer buffer_raw := {
  Reset := raw_Reset;
  GetHeader := buf_header;
  SetHeader := raw_SetHeader;
  Pack := raw_Pack;
  UnPack := raw_UnPack }.

(** ** Transport: the words of the header in host order *)

Definition raw_enc (z : Z) : list byte := le_bytes 4 z.
Definition raw_dec (bs : list byte) : Z := swrap 32 (le_value bs).

Definition raw_Send {S : Type} (cb : combox S) (b : buffer_raw) (s : S) :
    result (bool * buffer_raw * S) := send_message cb raw_enc b s.

Definition raw_Recv {S : Type} (cb : combox S) (b : buffer_raw) (s : S) :
    result (bool * buffer_raw * S) := recv_message cb raw_dec raw_Reset b s.

Definition raw_get_size (b : buffer_raw) : result Z := check_int (zlen (buf_packeddata b)).

(** [get_load]: the stamped bytes, [None] for a null pointer. *)
Definition raw_get_load (b : buffer_raw) : result (option (list byte) * buffer_raw) :=
  let! r := stamp raw_enc b in
  match r with
  | None => Ok (None, b)
  | Some b' => Ok (Some (buf_packeddata b'), b')
  end.

(** [load]: [length] bytes are copied over the current vector, which is not resized. *)
Definition raw_load (data : list byte) (length : Z) (b : buffer_raw) : result buffer_raw :=
  let! src := memcpy_from 0 length data in
  let! d := memcpy_to 0 src (buf_packeddata b) in
  Ok (b <| buf_packeddata := d |>).

(** ** The raw buffer keeps the contract of [pop_buffer] *)

Definition raw_encoding (t : prim) (vs : list (val t)) : list byte :=
  pad_block (concat (host_enc t <$> vs)).

Definition raw_admissible (t : prim) (vs : list (val t)) : Prop :=
  Z.of_nat (psize t) * zlen vs ≤ int_max ∧ Forall (λ v, val_ok t v = true) vs.

Lemma host_bytes_length (t : prim) (vs : list (val t)) :
  length (concat (host_enc t <$> vs)) = (psize t * length vs)%nat.
Proof.
  rewrite (concat_length_uniform (psize t)), length_fmap; [done |].
  apply Forall_map_len, host_enc_length.
Qed.

Lemma psize_pos t : (0 < psize t)%nat.
Proof. destruct t; simpl; lia. Qed.

Lemma raw_size_ok (t : prim) (vs : list (val t)) :
  raw_admissible t vs →
  swrap 32 (zlen vs * Z.of_nat (psize t)) = zlen (concat (host_enc t <$> vs)).
Proof.
  intros [H _]. unfold int_max in H. rewrite host_bytes_length, swrap_small; [lia | done |].
  apply in_sint32. lia.
Qed.

Lemma raw_Pack_bytes (t : prim) (vs : list (val t)) b :
  raw_admissible t vs →
  raw_Pack t vs (zlen vs) b
  = raw_Pack_char (concat (host_enc t <$> vs)) (zlen (concat (host_enc t <$> vs))) b.
Proof.
  intros Ha. transitivity (raw_Pack_as t vs (zlen vs) b).
  - destruct t; try done. unfold raw_Pack_as. rewrite (raw_size_ok PChar) by done.
    cbn [raw_Pack val] in *. by rewrite concat_singletons.
  - unfold raw_Pack_as. by rewrite raw_size_ok.
Qed.

Lemma host_rows (t : prim) (vs : list (val t)) :
  Forall (λ v, val_ok t v = true) vs →
  map_option (host_dec t)
    (chunks (psize t) (length (concat (host_enc t <$> vs)) / psize t) (concat (host_enc t <$> vs)))
  = Some vs.
Proof.
  intros Hv. pose proof (psize_pos t) as Hp.
  rewrite host_bytes_length, Nat.mul_comm, Nat.div_mul by lia.
  rewrite <- (app_nil_r (concat _)).
  replace (length vs) with (length (host_enc t <$> vs)) by (by rewrite length_fmap).
  rewrite chunks_concat by (apply Forall_map_len, host_enc_length).
  apply map_option_fmap. eapply Forall_impl; [exact Hv |]. intros v. apply host_dec_enc.
Qed.

Lemma raw_UnPack_bytes (t : prim) (vs : list (val t)) rest (b : buffer_raw) :
  raw_admissible t vs → 0 ≤ buf_unpackpos b → zlen (buf_packeddata b) ≤ int_max →
  drop (Z.to_nat (buf_unpackpos b)) (buf_packeddata b) = raw_encoding t vs ++ rest →
  raw_UnPack t (zlen vs) b
  = Ok (vs, b <| buf_unpackpos := buf_unpackpos b + zlen (raw_encoding t vs) |>).
Proof.
  intros Ha Hpos Hsz Hd. unfold raw_encoding in *.
  assert (HU : raw_UnPack_char (zlen (concat (host_enc t <$> vs))) b
    = Ok (concat (host_enc t <$> vs),
          b <| buf_unpackpos := buf_unpackpos b + zlen (pad_block (concat (host_enc t <$> vs))) |>))
    by (by apply unpack_chars_spec with (rest := rest)).
  destruct (decide (t = PChar)) as [->|Hne].
  - cbn [raw_UnPack]. rewrite concat_singletons in *. exact HU.
  - assert (E : raw_UnPack t (zlen vs) b = raw_UnPack_as t (zlen vs) b) by (by destruct t).
    rewrite E. unfold raw_UnPack_as, mbind. rewrite raw_size_ok, HU by done. cbn [rbind fst snd].
    rewrite host_rows by apply Ha. done.
Qed.

#[export] Program Instance raw_PopBufferLaws : PopBufferLaws buffer_raw := {
  buffer_wf := λ b, 20 ≤ buf_unpackpos b;
  content := buf_packeddata;
  cursor := λ b, Z.to_nat (buf_unpackpos b);
  encoding := raw_encoding;
  admissible := raw_admissible }.
Next Obligation.
  intros t vs _ _ _ Hw Hv. split; [|done]. cbv beta in *.
  enough (Z.of_nat (psize t) ≤ wire_width t) by nia. by destruct t.
Qed.
Next Obligation.
  intros t vs _. cbv beta. unfold raw_encoding.
  etransitivity; [apply pad_block_size |]. rewrite host_bytes_length.
  assert (Z.of_nat (psize t) ≤ 8) by by destruct t. nia.
Qed.
Next Obligation. intros t b. by destruct t. Qed.
Next Obligation.
  intros t vs b Ha Hsz. cbn [Pack raw_PopBuffer]. rewrite raw_Pack_bytes by done.
  unfold raw_Pack_char. rewrite pack_chars_spec by done. by eexists.
Qed.
Next Obligation.
  intros t vs b u b' Ha E. cbn [Pack raw_PopBuffer] in E. rewrite raw_Pack_bytes in E by done.
  by apply pack_chars_content in E as ->.
Qed.
Next Obligation.
  intros t vs b rest Ha Hwf Hsz Hd. cbv beta in *. cbn [UnPack raw_PopBuffer].
  rewrite (raw_UnPack_bytes t vs rest) by (done || lia).
  eexists. split; [done |]. cbn. split_and!; try done; [| lia].
  rewrite Z2Nat.inj_add, Nat2Z.id by lia. rewrite <- drop_drop, Hd. by apply drop_app_len.
Qed.

Lemma raw_enc_length z : length (raw_enc z) = 4%nat.
Proof. apply le_bytes_length. Qed.
Lemma raw_dec_enc z : in_sint 32 z = true → raw_dec (raw_enc z) = z.
Proof. apply int_le_roundtrip. Qed.
Lemma raw_Reset_spec b : buf_header (raw_Reset b) = buf_header b ∧
  buf_unpackpos (raw_Reset b) = 20 ∧ length (buf_packeddata (raw_Reset b)) = 20%nat.
Proof. split_and!; [done | done | apply resize_length]. Qed.

#[export] Program Instance raw_PopTransport : PopTransport buffer_raw := {
  Send := λ S, raw_Send;
  Recv := λ S, raw_Recv }.
Next Obligation. intros b. cbn. split_and!; [done | done | apply resize_length]. Qed.
Next Obligation. done. Qed.
Next Obligation. intros S cb b b1 s s1. apply send_ok_size. Qed.
Next Obligation.
  intros S cb St Ch b s Hwf Hsz Hh. cbn in *.
  apply (send_message_ok cb raw_enc raw_enc_length b s); [by split | done].
Qed.
Next Obligation.
  intros S cb St Ch b b0 b1 s s1 Hwf Hsz Hr Hin Hs. cbn in *.
  edestruct (transport cb raw_enc raw_dec raw_Reset raw_enc_length raw_dec_enc raw_Reset_spec
    b b0 b1 s s1) as (b2 & s2 & E & Hs2 & Hp & Ha & Hl & Hd & Hrg); try done.
  exists b2, s2. unfold unread. cbn. rewrite Hp, Hl. split_and!; try done; lia.
Qed.
Next Obligation. intros S cb b t b1 s s1. apply send_message_header. Qed.

(** ** Unpacking a message of any content *)

Lemma chunks_uniform {A : Type} (w k : nat) (l : list A) :
  length l = (w * k)%nat → Forall (λ c, length c = w) (chunks w k l).
Proof.
  revert l. induction k as [|k IH]; intros l Hl; cbn [chunks]; constructor.
  - rewrite length_take. lia.
  - apply IH. rewrite length_drop. lia.
Qed.

Lemma host_dec_total (t : prim) (bs : list byte) :
  t ≠ PBool → length bs = psize t → is_Some (host_dec t bs).
Proof.
  intros Ht Hl. destruct t; try done; simpl in *; try by eexists.
  all: destruct bs as [|c [|]]; simpl in *; by eauto || lia.
Qed.

Lemma map_option_total {A B : Type} (f : A → option B) (l : list A) :
  Forall (λ a, is_Some (f a)) l → is_Some (map_option f l).
Proof.
  induction 1 as [|a l [b Hb] Hl [k Hk]]; simpl; [by eexists |]. rewrite Hb, Hk. by eexists.
Qed.

Lemma unpack_chars_cases {k : encoding_kind} who (n : Z) (b : packed k) :
  0 ≤ buf_unpackpos b → buf_unpackpos b + n + 4 ≤ int_max → 0 ≤ n →
  unpack_chars who n b = pop_throw POP_BUFFER_FORMAT who ∨
  ∃ bs, unpack_chars who n b = Ok (bs, b <| buf_unpackpos := buf_unpackpos b +
          (if n =? 0 then 0 else padded n) |>) ∧ zlen bs = n.
Proof.
  intros Hp Hn Hn0. unfold unpack_chars, int_max in *. destruct (n <=? 0) eqn:E; reflect_bools.
  { right. exists []. replace n with 0 by lia. split; [|done]. simpl. rewrite Z.add_0_r.
    by destruct b. }
  pose proof (padded_bounds n E). unfold check_unpack.
  rewrite check_int_Ok by (apply in_sint32; lia). cbn [rbind].
  destruct (_ || _) eqn:Ec; [by left | right]. reflect_bools. cbn [rbind].
  rewrite memcpy_from_Ok by lia. cbn [rbind].
  rewrite check_int_Ok by (apply in_sint32; lia). cbn [rbind].
  rewrite (proj2 (Z.eqb_neq n 0)) by lia. eexists. split; [done |].
  rewrite length_take, length_drop. lia.
Qed.

(** C16: [raw_UnPack] on a buffer of arbitrary bytes, wherever its read position stands: it either
    throws POP_BUFFER_FORMAT or returns exactly [n] values, reads nothing outside the vector and
    leaves the bytes alone.  Booleans are excepted: a byte that is neither 0 nor 1 is no [bool]. *)
Theorem raw_UnPack_safe (t : prim) (n : Z) (b : buffer_raw) :
  t ≠ PBool → 0 ≤ n → 0 ≤ buf_unpackpos b →
  buf_unpackpos b + n * Z.of_nat (psize t) + 4 ≤ int_max →
  raw_UnPack t n b = pop_throw POP_BUFFER_FORMAT "Wrong buffer format in pop_buffer_raw::CheckUnPack" ∨
  ∃ vs b', raw_UnPack t n b = Ok (vs, b') ∧ zlen vs = n ∧
    buf_packeddata b' = buf_packeddata b ∧
    buf_unpackpos b + n * Z.of_nat (psize t) ≤ buf_unpackpos b'
      < buf_unpackpos b + n * Z.of_nat (psize t) + 4.
Proof.
  intros Ht Hn Hp Hsz. pose proof (psize_pos t) as Hps.
  set (m := n * Z.of_nat (psize t)) in *.
  assert (Hm : 0 ≤ m) by nia.
  assert (Hpad : m ≤ (if m =? 0 then 0 else padded m) < m + 4).
  { destruct (m =? 0) eqn:E; reflect_bools; [lia |]. apply padded_bounds. lia. }
  destruct (unpack_chars_cases "Wrong buffer format in pop_buffer_raw::CheckUnPack" m b Hp Hsz Hm)
    as [E | (bs & E & Hbs)].
  - left. destruct (decide (t = PChar)) as [->|Hc].
    + cbn [raw_UnPack]. unfold raw_UnPack_char, m in *. simpl in *. by rewrite Z.mul_1_r in E.
    + assert (Eq : raw_UnPack t n b = raw_UnPack_as t n b) by (by destruct t).
      rewrite Eq. unfold raw_UnPack_as, mbind, raw_UnPack_char. fold m.
      unfold int_max in *. rewrite swrap_small by (done || apply in_sint32; lia). by rewrite E.
  - right. destruct (decide (t = PChar)) as [->|Hc].
    + exists bs. eexists. cbn [raw_UnPack]. unfold raw_UnPack_char, m in *. simpl in *.
      rewrite Z.mul_1_r in *. split; [exact E |]. cbn. split_and!; [done | done | lia | lia].
    + assert (Eq : raw_UnPack t n b = raw_UnPack_as t n b) by (by destruct t).
      assert (Hlen : length bs = (psize t * Z.to_nat n)%nat) by (unfold m in *; nia).
      destruct (map_option_total (host_dec t) (chunks (psize t) (Z.to_nat n) bs)) as [vs Hvs].
      { eapply Forall_impl; [by apply chunks_uniform |]. intros c. by apply host_dec_total. }
      exists vs. eexists. rewrite Eq. unfold raw_UnPack_as, mbind, raw_UnPack_char. fold m.
      unfold int_max in *. rewrite swrap_small by (done || apply in_sint32; lia).
      rewrite E. cbn [rbind fst snd]. rewrite Hlen, Nat.mul_comm, Nat.div_mul by lia.
      rewrite Hvs. split; [done |]. apply map_option_length in Hvs.
      rewrite chunks_length in Hvs. cbn. split_and!; [lia | done | lia | lia].
Qed.

(** Two values read from a message of 28 bytes; a third is refused. *)
Lemma raw_UnPack_safe_witness :
  let b := MkPacked header_default 20 (replicate 28 x07) : buffer_raw in
  raw_UnPack PInt 2 b ≠ Stuck ∧
  raw_UnPack PInt 3 b
  = pop_throw POP_BUFFER_FORMAT "Wrong buffer format in pop_buffer_raw::CheckUnPack".
Proof.
  split.
  - destruct (raw_UnPack_safe PInt 2 (MkPacked header_default 20 (replicate 28 x07)))
      as [-> | (vs & b' & -> & _)]; done.
  - destruct (raw_UnPack_safe PInt 3 (MkPacked header_default 20 (replicate 28 x07)))
      as [E | (vs & b' & E & _)]; [done | done | done | done | exact E | discriminate E].
Defined.

(** C15: a call over raw buffers. A message filled by a writer, sent over any connection that
    delivers bytes in order in pieces of any size, received into any buffer and read by the
    matching reader gives back exactly what was written; header, bytes and stream agree. *)
Theorem raw_message_transport {S : Type} (cb : combox S) `{!ComboxStream cb} `{!ComboxChannel cb}
    {X A : Type} (w : M buffer_raw X) (x : X) (r : M buffer_raw A) (a : A) h
    (b b0 b1 b2 : buffer_raw) y s s1 :
  codec w x r a → w (raw_SetHeader h (raw_Reset b)) = Ok (y, b1) →
  header_ranged (buf_header b1) → incoming s = [] → raw_Send cb b1 s = Ok (true, b2, s1) →
  ∃ b3 s2 b4, raw_Recv cb b0 s1 = Ok (true, b3, s2) ∧ incoming s2 = [] ∧
    header_agree (buf_header b1) (buf_header b3) ∧ r b3 = Ok (a, b4) ∧ unread b4 = [].
Proof. exact (call_transport cb w x r a h b b0 b1 b2 y s s1). Qed.

(** A request with an integer and a string, delivered seven bytes at a time. *)
Definition raw_example : buffer_raw :=
  match (Pack1 PInt 42 ;;; PackString1 "pop") 
          (raw_SetHeader (header_request 1 2 3 None) (raw_Reset raw_new)) with
  | Ok (_, b) => b
  | _ => raw_new
  end.

Lemma raw_message_transport_witness :
  ∃ b2 s1 b3 s2 b4, raw_Send (loop_box 7) raw_example [] = Ok (true, b2, s1) ∧
    raw_Recv (loop_box 7) raw_new s1 = Ok (true, b3, s2) ∧
    (let* i := UnPack1 PInt in let* t := UnPackString1 in mret (i, t)) b3 = Ok (42, "pop", b4).
Proof.
  destruct (raw_Send (loop_box 7) raw_example []) as [[[[] b2] s1]| |] eqn:E;
    try (vm_compute in E; discriminate E).
  destruct (raw_message_transport (loop_box 7) (Pack1 PInt 42 ;;; PackString1 "pop") ()
    (let* i := UnPack1 PInt in let* t := UnPackString1 in mret (i, t)) (42, "pop")
    (header_request 1 2 3 None) raw_new raw_new raw_example b2 () [] s1)
    as (b3 & s2 & b4 & E3 & _ & _ & E4 & _).
  - eapply codec_bind; [by apply codec_int |]. cbv beta.
    apply codec_post with (a := "pop"); [|done]. apply codec_string.
    split; [by apply (bool_decide_unpack _) | done].
  - reflexivity.
  - repeat constructor.
  - reflexivity.
  - exact E.
  - exists b2, s1, b3, s2, b4. split; [done |]. split; [exact E3 | exact E4].
Defined.
