(* ===== verification/BufferXdr.v ===== *)
(** * The XDR buffer

    [pop_buffer_xdr] (lib/dynamic/buffer_xdr.cc, include/core/pop_buffer_xdr.h): numbers go through
    the XDR routines of the C library, characters and booleans are copied.

    The XDR routines are a parameter, [XdrLib], with their documented behaviour, [XdrLaws]: an
    element takes no more than its slot, decoding inverts encoding, and encoding a [long] may
    fail. *)

From S2P Require Import Prelude Machine Buffer Exceptions Message.

Abbreviation buffer_xdr := (packed XDR).

(** The room the buffer leaves for an element. *)
Definition xslot (t : prim) : Z :=
  match t with PLong | PULong | PDouble => 8 | _ => 4 end.

Definition vector_type (t : prim) : bool :=
  match t with PBool | PChar | PUChar | PSChar => false | _ => true end.

(** [xdr_int], [xdr_u_int], ... on a memory stream: encoding an element gives its bytes or fails,
    decoding takes it off the front. *)
Class XdrLib := {
  xdr_put : ∀ t : prim, val t → option (list byte);
  xdr_get : ∀ t : prim, list byte → option (val t * list byte) }.

Class XdrLaws (X : XdrLib) : Prop := {
  xdr_put_len : ∀ t v bs, vector_type t = true → xdr_put t v = Some bs → zlen bs ≤ xslot t;
  xdr_get_put : ∀ t v bs rest, vector_type t = true → val_ok t v = true →
    xdr_put t v = Some bs → xdr_get t (bs ++ rest) = Some (v, rest);
  xdr_put_ok : ∀ t v, vector_type t = true → val_ok t v = true → t ≠ PLong → t ≠ PULong →
    is_Some (xdr_put t v) }.

Section Xdr.
Context {X : XdrLib}.

(** [xdr_vector] over a stream of [cap] bytes: it fails when an element fails or does not fit. *)
Fixpoint xdr_vector_put (t : prim) (vs : list (val t)) (cap : Z) : option (list byte) :=
  match vs with
  | [] => Some []
  | v :: vs' =>
      match xdr_put t v with
      | Some bs =>
          if zlen bs <=? cap then (bs ++.) <$> xdr_vector_put t vs' (cap - zlen bs) else None
      | None => None
      end
  end.

Fixpoint xdr_vector_get (t : prim) (n : nat) (mem : list byte) : option (list (val t)) :=
  match n with
  | O => Some []
  | S n' =>
      match xdr_get t mem with
      | Some (v, mem') => cons v <$> xdr_vector_get t n' mem'
      | None => None
      end
  end.

Definition xdr_Reset (b : buffer_xdr) : buffer_xdr :=
  b <| buf_unpackpos := 20 |> <| buf_packeddata := resize 20 [] |>.

Definition xdr_new : buffer_xdr := xdr_Reset (MkPacked header_default 0 []).

Definition xdr_CheckUnPack (sz : Z) (b : buffer_xdr) : result () :=
  check_unpack "Wrong buffer format in pop_buffer_xdr::CheckUnPack" sz b.

(** The common shape of the numeric overloads: [slot] bytes per element, [room] the width in
    which [n * slot + oldsize] is computed, [msg] the text of the exception. *)
Definition xdr_Pack_as (t : prim) (slot : Z) (room : Z → result Z) (msg : string)
    (data : list (val t)) (n : Z) : M buffer_xdr () := λ b,
  if n <=? 0 then Ok ((), b)
  else
    let! oldsize := room (zlen (buf_packeddata b)) in
    let! bytes := check_int (n * slot) in
    let! sz := room (bytes + oldsize) in
    let d := resize (Z.to_nat sz) (buf_packeddata b) in
    if zlen data <? n then Stuck
    else
      match xdr_vector_put t (take (Z.to_nat n) data) bytes with
      | None => pop_throw_reason msg
      | Some bs =>
          let! d := memcpy_to oldsize bs d in
          Ok ((), b <| buf_packeddata := d |>)
      end.

Definition xdr_UnPack_as (t : prim) (slot : Z) (msg : string) (n : Z) :
    M buffer_xdr (list (val t)) := λ b,
  if n <=? 0 then Ok ([], b)
  else
    let! sz := check_int (slot * n) in
    let! _ := xdr_CheckUnPack sz b in
    let! mem := memcpy_from (buf_unpackpos b) sz (buf_packeddata b) in
    match xdr_vector_get t (Z.to_nat n) mem with
    | None => pop_throw_reason msg
    | Some vs =>
        let! pos := check_int (buf_unpackpos b + sz) in
        Ok (vs, b <| buf_unpackpos := pos |>)
    end.

(** [oldsize] is a [size_t] here, an [int] in the other overloads. *)
Definition xdr_Pack_int (data : list (val PInt)) (n : Z) : M buffer_xdr () :=
  xdr_Pack_as PInt 4 Ok "Exception in serialization 1" data n.
Definition xdr_UnPack_int (n : Z) : M buffer_xdr (list (val PInt)) :=
  xdr_UnPack_as PInt 4 "Exception in serialization 2" n.

Definition xdr_Pack_unsigned (data : list (val PUInt)) (n : Z) : M buffer_xdr () :=
  xdr_Pack_as PUInt 4 check_int "Exception in serialization 3" data n.
Definition xdr_UnPack_unsigned (n : Z) : M buffer_xdr (list (val PUInt)) :=
  xdr_UnPack_as PUInt 4 "Exception in serialization 4" n.

Definition xdr_Pack_long (data : list (val PLong)) (n : Z) : M buffer_xdr () :=
  xdr_Pack_as PLong 8 check_int "Exception in serialization 5" data n.
Definition xdr_UnPack_long (n : Z) : M buffer_xdr (list (val PLong)) :=
  xdr_UnPack_as PLong 8 "Exception in serialization 6" n.

Definition xdr_Pack_ulong (data : list (val PULong)) (n : Z) : M buffer_xdr () :=
  xdr_Pack_as PULong 8 check_int "Exception in serialization 7" data n.
Definition xdr_UnPack_ulong (n : Z) : M buffer_xdr (list (val PULong)) :=
  xdr_UnPack_as PULong 8 "Exception in serialization 8" n.

Definition xdr_Pack_short (data : list (val PShort)) (n : Z) : M buffer_xdr () :=
  xdr_Pack_as PShort 4 check_int "Exception in serialization 9" data n.
Definition xdr_UnPack_short (n : Z) : M buffer_xdr (list (val PShort)) :=
  xdr_UnPack_as PShort 4 "Exception in serialization 10" n.

Definition xdr_Pack_ushort (data : list (val PUShort)) (n : Z) : M buffer_xdr () :=
  xdr_Pack_as PUShort 4 check_int "Exception in serialization 11" data n.
Definition xdr_UnPack_ushort (n : Z) : M buffer_xdr (list (val PUShort)) :=
  xdr_UnPack_as PUShort 4 "Exception in serialization 12" n.

Definition xdr_Pack_float (data : list (val PFloat)) (n : Z) : M buffer_xdr () :=
  xdr_Pack_as PFloat 4 check_int "Exception in serialization 13" data n.
Definition xdr_UnPack_float (n : Z) : M buffer_xdr (list (val PFloat)) :=
  xdr_UnPack_as PFloat 4 "Exception in serialization 13" n.

Definition xdr_Pack_double (data : list (val PDouble)) (n : Z) : M buffer_xdr () :=
  xdr_Pack_as PDouble 8 check_int "Exception in serialization 14" data n.
Definition xdr_UnPack_double (n : Z) : M buffer_xdr (list (val PDouble)) :=
  xdr_UnPack_as PDouble 8 "Exception in serialization 15" n.

(** A boolean is a byte, 1 or 0. *)
Definition bool_byte (v : bool) : byte := if v then x01 else x00.

Definition xdr_Pack_bool (data : list (val PBool)) (n : Z) : M buffer_xdr () := λ b,
  if n <=? 0 then Ok ((), b)
  else
    let! t := check_int (zlen (buf_packeddata b)) in
    let! sz := check_int (t + padded n) in
    let d := resize (Z.to_nat sz) (buf_packeddata b) in
    if zlen data <? n then Stuck
    else
      let! d := memcpy_to t (bool_byte <$> take (Z.to_nat n) data) d in
      Ok ((), b <| buf_packeddata := d |>).

(** [while (n-- > 0) *data++ = ( *dat++ != 0)]: the values, and [n] after the loop. *)
Fixpoint bool_loop (dat : list byte) (n : Z) : list bool * Z :=
  match dat with
  | [] => ([], n - 1)
  | c :: dat' =>
      if 0 <? n then
        let '(vs, n') := bool_loop dat' (n - 1) in (bool_decide (c ≠ x00) :: vs, n')
      else ([], n - 1)
  end.

Definition xdr_UnPack_bool (n : Z) : M buffer_xdr (list (val PBool)) := λ b,
  if n <=? 0 then Ok ([], b)
  else
    let! _ := xdr_CheckUnPack n b in
    let! dat := memcpy_from (buf_unpackpos b) n (buf_packeddata b) in
    let '(vs, n) := bool_loop dat n in
    let! pos := check_int (buf_unpackpos b + padded n) in
    Ok (vs, b <| buf_unpackpos := pos |>).

Definition xdr_Pack_char (data : list byte) (n : Z) : M buffer_xdr () := pack_chars data n.
Definition xdr_UnPack_char (n : Z) : M buffer_xdr (list byte) :=
  unpack_chars "Wrong buffer format in pop_buffer_xdr::CheckUnPack" n.

(** Through a cast to [char*]: a byte keeps its bits. *)
Definition char_cast (t : prim) (data : list (val t)) : list byte := concat (host_enc t <$> data).
Definition cast_back (t : prim) (bs : list byte) : M buffer_xdr (list (val t)) :=
  match map_option (λ c, host_dec t [c]) bs with
  | Some vs => mret vs
  | None => mlift Stuck
  end.

Definition xdr_Pack_uchar (data : list (val PUChar)) (n : Z) : M buffer_xdr () :=
  xdr_Pack_char (char_cast PUChar data) n.
Definition xdr_UnPack_uchar (n : Z) : M buffer_xdr (list (val PUChar)) :=
  let* bs := xdr_UnPack_char n in cast_back PUChar bs.

Definition xdr_Pack_schar (data : list (val PSChar)) (n : Z) : M buffer_xdr () :=
  xdr_Pack_char (char_cast PSChar data) n.
Definition xdr_UnPack_schar (n : Z) : M buffer_xdr (list (val PSChar)) :=
  let* bs := xdr_UnPack_char n in cast_back PSChar bs.

Definition xdr_Pack (t : prim) : list (val t) → Z → M buffer_xdr () :=
  match t with
  | PInt => xdr_Pack_int
  | PUInt => xdr_Pack_unsigned
  | PLong => xdr_Pack_long
  | PULong => xdr_Pack_ulong
  | PShort => xdr_Pack_short
  | PUShort => xdr_Pack_ushort
  | PBool => xdr_Pack_bool
  | PChar => xdr_Pack_char
  | PUChar => xdr_Pack_uchar
  | PSChar => xdr_Pack_schar
  | PFloat => xdr_Pack_float
  | PDouble => xdr_Pack_double
  end.

Definition xdr_UnPack (t : prim) : Z → M buffer_xdr (list (val t)) :=
  match t with
  | PInt => xdr_UnPack_int
  | PUInt => xdr_UnPack_unsigned
  | PLong => xdr_UnPack_long
  | PULong => xdr_UnPack_ulong
  | PShort => xdr_UnPack_short
  | PUShort => xdr_UnPack_ushort
  | PBool => xdr_UnPack_bool
  | PChar => xdr_UnPack_char
  | PUChar => xdr_UnPack_uchar
  | PSChar => xdr_UnPack_schar
  | PFloat => xdr_UnPack_float
  | PDouble => xdr_UnPack_double
  end.

Definition xdr_SetHeader (data : message_header) (b : buffer_xdr) : buffer_xdr :=
  b <| buf_header := header_assign (buf_header b) data |>.

#[export] Instance xdr_PopBuffer : PopBuffer buffer_xdr := {
  Reset := xdr_Reset;
  GetHeader := buf_header;
  SetHeader := xdr_SetHeader;
  Pack := xdr_Pack;
  UnPack := xdr_UnPack }.

(** ** Transport: the words of the header in network order *)

Definition popc_htonl (z : Z) : list byte := be_bytes 4 z.
Definition popc_ntohl (bs : list byte) : Z := swrap 32 (be_value bs).

Definition xdr_Send {S : Type} (cb : combox S) (b : buffer_xdr) (s : S) :
    result (bool * buffer_xdr * S) := send_message cb popc_htonl b s.

Definition xdr_Recv {S : Type} (cb : combox S) (b : buffer_xdr) (s : S) :
    result (bool * buffer_xdr * S) := recv_message cb popc_ntohl xdr_Reset b s.

Definition xdr_get_size (b : buffer_xdr) : result Z := check_int (zlen (buf_packeddata b)).

Definition xdr_get_load (b : buffer_xdr) : result (option (list byte) * buffer_xdr) :=
  let! r := stamp popc_htonl b in
  match r with
  | None => Ok (None, b)
  | Some b' => Ok (Some (buf_packeddata b'), b')
  end.

(** [load]: the vector holds 20 bytes when [length] bytes are copied over it. *)
Definition xdr_load (data : list byte) (length : Z) (b : buffer_xdr) : result buffer_xdr :=
  let b := xdr_Reset b in
  let! src := memcpy_from 0 length data in
  let! d := memcpy_to 0 src (buf_packeddata b) in
  let b := b <| buf_packeddata := d |> in
  let! h := memcpy_from 0 20 d in
  let '(known, b) := read_header popc_ntohl h b in
  if known then Ok (b <| buf_packeddata := resize (Z.to_nat length) d |>) else Ok b.
End Xdr.

(** ** The XDR buffer keeps the contract of [pop_buffer] *)
Section XdrLaws.
Context {X : XdrLib} `{!XdrLaws X}.

Definition xdr_region (t : prim) (vs : list (val t)) : list byte :=
  default [] (xdr_vector_put t vs (xslot t * zlen vs)).

Definition xdr_encoding (t : prim) (vs : list (val t)) : list byte :=
  if vector_type t then
    xdr_region t vs ++ replicate (Z.to_nat (xslot t * zlen vs) - length (xdr_region t vs)) x00
  else pad_block (char_cast t vs).

(** Numbers that fit and that XDR accepts; at most four booleans. *)
Definition xdr_admissible (t : prim) (vs : list (val t)) : Prop :=
  xslot t * zlen vs ≤ int_max * (if vector_type t then 1 else 4) ∧
  Forall (λ v, val_ok t v = true) vs ∧
  (vector_type t = true → Forall (λ v, is_Some (xdr_put t v)) vs) ∧
  (t = PBool → (length vs ≤ 4)%nat).

Lemma xslot_pos t : 4 ≤ xslot t ≤ 8.
Proof. destruct t; simpl; lia. Qed.

Lemma xdr_vector_put_ok t (vs : list (val t)) cap :
  vector_type t = true → Forall (λ v, is_Some (xdr_put t v)) vs → xslot t * zlen vs ≤ cap →
  ∃ bs, xdr_vector_put t vs cap = Some bs ∧ zlen bs ≤ xslot t * zlen vs.
Proof.
  intros Ht Hv. revert cap. induction Hv as [|v vs [bs Hb] Hv IH]; intros cap Hcap; simpl.
  { exists []. split; [done | simpl; lia]. }
  simpl in Hcap. pose proof (xdr_put_len t v bs Ht Hb).
  rewrite Hb, (proj2 (Z.leb_le _ _)) by (pose proof (xslot_pos t); nia).
  destruct (IH (cap - zlen bs)) as (bs' & E & Hl); [lia |].
  rewrite E. exists (bs ++ bs'). split; [done |]. rewrite zlen_app. simpl. lia.
Qed.

Lemma xdr_vector_get_put t (vs : list (val t)) cap bs rest :
  vector_type t = true → Forall (λ v, val_ok t v = true) vs →
  xdr_vector_put t vs cap = Some bs → xdr_vector_get t (length vs) (bs ++ rest) = Some vs.
Proof.
  intros Ht Hv. revert cap bs. induction Hv as [|v vs Hv Hvs IH]; intros cap bs; simpl; [done |].
  destruct (xdr_put t v) as [bs1|] eqn:E; [|done]. destruct (zlen bs1 <=? cap); [|done].
  intros H. apply fmap_Some in H as (bs2 & E2 & ->).
  rewrite <- app_assoc, (xdr_get_put t v bs1) by done. by erewrite IH.
Qed.

Lemma xdr_region_spec t (vs : list (val t)) :
  vector_type t = true → xdr_admissible t vs →
  xdr_vector_put t vs (xslot t * zlen vs) = Some (xdr_region t vs) ∧
  zlen (xdr_region t vs) ≤ xslot t * zlen vs ∧ zlen (xdr_encoding t vs) = xslot t * zlen vs.
Proof.
  intros Ht (_ & _ & Hp & _). unfold xdr_encoding. rewrite Ht.
  destruct (xdr_vector_put_ok t vs (xslot t * zlen vs) Ht (Hp Ht)) as (bs & E & Hl); [done |].
  unfold xdr_region. rewrite E. cbn [default from_option id]. split_and!; [done | done |].
  rewrite length_app, length_replicate. pose proof (xslot_pos t). nia.
Qed.

Lemma xdr_Pack_vector t (vs : list (val t)) n b :
  vector_type t = true →
  ∃ room msg, xdr_Pack t vs n b = xdr_Pack_as t (xslot t) room msg vs n b ∧
    (∀ z, in_sint 32 z = true → room z = Ok z) ∧ (∀ z z', room z = Ok z' → z' = z).
Proof.
  assert (H1 : ∀ z, in_sint 32 z = true → check_int z = Ok z) by (apply check_int_Ok).
  assert (H2 : ∀ z z', check_int z = Ok z' → z' = z)
    by (intros z z'; unfold check_int; case_if; by intros [= ->]).
  intros Ht. destruct t; try done; cbn [xdr_Pack xslot].
  all: first [ exists check_int; eexists; split; [reflexivity | by split]
    | exists Ok; eexists; split; [reflexivity | split; [done | by intros ?? [= ->]]] ].
Qed.

Lemma xdr_UnPack_vector t n b :
  vector_type t = true → ∃ msg, xdr_UnPack t n b = xdr_UnPack_as t (xslot t) msg n b.
Proof. intros Ht. destruct t; try done; eexists; reflexivity. Qed.

Lemma char_cast_length t (vs : list (val t)) :
  vector_type t = false → length (char_cast t vs) = length vs.
Proof.
  intros Ht. unfold char_cast.
  rewrite (concat_length_uniform 1), length_fmap; [lia |]. apply Forall_map_len.
  intros v. rewrite host_enc_length. by destruct t.
Qed.

Lemma char_cast_bool (vs : list bool) : bool_byte <$> vs = char_cast PBool vs.
Proof. unfold char_cast. induction vs as [|v vs IH]; csimpl; [done | by f_equal]. Qed.

Lemma char_cast_char (vs : list byte) : char_cast PChar vs = vs.
Proof. apply concat_singletons. Qed.

(** The overloads on characters and booleans append a block of characters. *)
Lemma xdr_Pack_chars t (vs : list (val t)) b :
  vector_type t = false →
  xdr_Pack t vs (zlen vs) b = pack_chars (char_cast t vs) (zlen (char_cast t vs)) b.
Proof.
  intros Ht. rewrite char_cast_length by done. destruct t; try done; cbn [xdr_Pack].
  - unfold xdr_Pack_bool, pack_chars. destruct (zlen vs <=? 0); [done |].
    rewrite Z.ltb_irrefl, Nat2Z.id, take_ge, char_cast_bool by done.
    rewrite memcpy_from_Ok by (rewrite ?(char_cast_length PBool) by done; lia).
    rewrite Nat2Z.id, drop_0, take_ge by (by rewrite (char_cast_length PBool)).
    by destruct (check_int _).
  - by rewrite char_cast_char.
Qed.

Lemma xdr_Pack_spec t (vs : list (val t)) b u b' :
  xdr_admissible t vs → xdr_Pack t vs (zlen vs) b = Ok (u, b') →
  b' = b <| buf_packeddata := buf_packeddata b ++ xdr_encoding t vs |>.
Proof.
  intros Ha H. destruct (vector_type t) eqn:Ht.
  - destruct (xdr_region_spec t vs Ht Ha) as (Hr & Hl & _).
    destruct (xdr_Pack_vector t vs (zlen vs) b Ht) as (room & msg & E & _ & Hroom).
    rewrite E in H. unfold xdr_Pack_as in H. unfold xdr_encoding. rewrite Ht.
    destruct (zlen vs <=? 0) eqn:E0; reflect_bools.
    { destruct vs; [|simpl in E0; lia]. unfold xdr_region. simpl. rewrite Z.mul_0_r. simpl.
      rewrite app_nil_r. injection H as _ <-. by destruct b. }
    rewrite Z.ltb_irrefl, Nat2Z.id, take_ge in H by done.
    apply rbind_Ok in H as (old & Eo & H). apply Hroom in Eo as ->.
    apply rbind_Ok in H as (bytes & Eb & H). unfold check_int in Eb. case_if; simplify_eq.
    apply rbind_Ok in H as (sz & Es & H). apply Hroom in Es as ->.
    rewrite Z.mul_comm, Hr, memcpy_append in H by done. by injection H.
  - rewrite xdr_Pack_chars in H by done. apply pack_chars_content in H as ->.
    unfold xdr_encoding. by rewrite Ht.
Qed.

Lemma xdr_Pack_is_Ok t (vs : list (val t)) b :
  xdr_admissible t vs → zlen (buf_packeddata b) + zlen (xdr_encoding t vs) ≤ int_max →
  is_Ok (xdr_Pack t vs (zlen vs) b).
Proof.
  intros Ha Hsz. destruct (vector_type t) eqn:Ht.
  - destruct (xdr_region_spec t vs Ht Ha) as (Hr & Hl & He).
    destruct (xdr_Pack_vector t vs (zlen vs) b Ht) as (room & msg & E & Hroom & _).
    rewrite He in Hsz. unfold int_max in Hsz. rewrite E. unfold xdr_Pack_as.
    destruct (zlen vs <=? 0); [by eexists |].
    pose proof (xslot_pos t).
    rewrite Z.mul_comm, Hroom by (apply in_sint32; nia). cbn [rbind].
    rewrite check_int_Ok by (apply in_sint32; nia). cbn [rbind].
    rewrite Hroom by (apply in_sint32; nia). cbn [rbind].
    rewrite Z.ltb_irrefl, Nat2Z.id, take_ge, Hr, memcpy_append by done. by eexists.
  - rewrite xdr_Pack_chars by done. unfold xdr_encoding in Hsz. rewrite Ht in Hsz.
    rewrite pack_chars_spec by done. by eexists.
Qed.

Lemma bool_loop_all (dat : list byte) :
  bool_loop dat (zlen dat) = ((λ c, bool_decide (c ≠ x00)) <$> dat, -1).
Proof.
  induction dat as [|c dat IH]; [done |]. cbn [bool_loop length].
  rewrite (proj2 (Z.ltb_lt _ _)) by lia.
  replace (Z.of_nat (S (length dat)) - 1) with (zlen dat) by lia. by rewrite IH.
Qed.

Lemma cast_bool (vs : list bool) : (λ c, bool_decide (c ≠ x00)) <$> char_cast PBool vs = vs.
Proof. rewrite <- char_cast_bool. induction vs as [|[] vs IH]; csimpl; [done | |]; by f_equal. Qed.

(** Up to four booleans the read position moves by one block, as the writer moved. *)
Lemma xdr_UnPack_bool_chars n b dat b' :
  0 < n ≤ 4 → xdr_UnPack_char n b = Ok (dat, b') →
  xdr_UnPack_bool n b = Ok ((λ c, bool_decide (c ≠ x00)) <$> dat, b').
Proof.
  intros Hn H. unfold xdr_UnPack_char, unpack_chars, xdr_UnPack_bool, xdr_CheckUnPack in *.
  rewrite (proj2 (Z.leb_gt n 0)) in * by lia.
  apply rbind_Ok in H as ([] & Ec & H). rewrite Ec. cbn [rbind].
  apply rbind_Ok in H as (d & Ed & H). rewrite Ed. cbn [rbind].
  apply rbind_Ok in H as (p & Ep & [= <- <-]).
  assert (Hd : zlen d = n).
  { unfold memcpy_from in Ed. case_if; simplify_eq. reflect_bools.
    rewrite length_take, length_drop. lia. }
  rewrite <- Hd, bool_loop_all.
  assert (Hp : padded n = padded (-1))
    by (assert (n = 1 ∨ n = 2 ∨ n = 3 ∨ n = 4) as [->|[->|[->| ->]]] by lia; done).
  rewrite <- Hp, Ep. done.
Qed.

Lemma cast_back_chars t (vs : list (val t)) (b : buffer_xdr) :
  vector_type t = false → t ≠ PBool → cast_back t (char_cast t vs) b = Ok (vs, b).
Proof.
  intros Ht Hb. unfold cast_back, char_cast. destruct t; try done; rewrite concat_singletons.
  all: pose proof (@map_option_Some byte vs) as M; cbn [host_dec val] in *.
  all: by change (λ c : byte, Some c) with (@Some byte); rewrite M.
Qed.

Lemma xdr_UnPack_spec t (vs : list (val t)) rest (b : buffer_xdr) :
  xdr_admissible t vs → 0 ≤ buf_unpackpos b → zlen (buf_packeddata b) ≤ int_max →
  drop (Z.to_nat (buf_unpackpos b)) (buf_packeddata b) = xdr_encoding t vs ++ rest →
  xdr_UnPack t (zlen vs) b
  = Ok (vs, b <| buf_unpackpos := buf_unpackpos b + zlen (xdr_encoding t vs) |>).
Proof.
  intros Ha Hpos Hsz Hd. destruct (vector_type t) eqn:Ht.
  - destruct (xdr_region_spec t vs Ht Ha) as (Hr & Hl & He).
    destruct (xdr_UnPack_vector t (zlen vs) b Ht) as [msg E]. rewrite E. unfold xdr_UnPack_as.
    pose proof (xslot_pos t).
    destruct (zlen vs <=? 0) eqn:E0; reflect_bools.
    { rewrite He. destruct vs; [|simpl in E0; lia]. simpl. rewrite Z.mul_0_r, Z.add_0_r.
      by destruct b. }
    pose proof (f_equal length Hd) as Hdl. rewrite length_drop, length_app in Hdl.
    unfold int_max in Hsz.
    rewrite check_int_Ok by (apply in_sint32; nia). cbn [rbind].
    unfold xdr_CheckUnPack, check_unpack.
    rewrite check_int_Ok by (apply in_sint32; nia). cbn [rbind].
    rewrite (proj2 (Z.ltb_ge _ 0)), (proj2 (Z.ltb_ge _ (xslot t * _ + _))) by nia.
    cbn [orb rbind].
    rewrite memcpy_from_Ok by nia. cbn [rbind].
    rewrite Hd, Nat2Z.id. rewrite take_app_len by lia.
    unfold xdr_encoding at 1. rewrite Ht.
    rewrite (xdr_vector_get_put _ _ _ _ _ Ht (proj1 (proj2 Ha)) Hr).
    rewrite check_int_Ok by (apply in_sint32; nia). cbn [rbind]. by rewrite He.
  - unfold xdr_encoding in *. rewrite Ht in *.
    destruct (zlen vs <=? 0) eqn:E0; reflect_bools.
    { destruct vs; [|simpl in E0; lia]. simpl. rewrite Z.add_0_r. by destruct t, b. }
    assert (HU : xdr_UnPack_char (zlen vs) b = Ok (char_cast t vs,
        b <| buf_unpackpos := buf_unpackpos b + zlen (pad_block (char_cast t vs)) |>)).
    { rewrite <- (char_cast_length t vs Ht).
      by apply unpack_chars_spec with (rest := rest). }
    destruct (decide (t = PBool)) as [->|Hb].
    + cbn [xdr_UnPack]. apply xdr_UnPack_bool_chars in HU.
      * by rewrite cast_bool in HU.
      * destruct Ha as (_ & _ & _ & H4). specialize (H4 eq_refl). lia.
    + transitivity (mbind (xdr_UnPack_char (zlen vs)) (cast_back t) b).
      * destruct t; try done. cbn [xdr_UnPack]. unfold mbind. rewrite HU.
        cbn [rbind fst snd]. by rewrite cast_back_chars, char_cast_char.
      * unfold mbind. rewrite HU. cbn [rbind fst snd]. by apply cast_back_chars.
Qed.

#[export] Program Instance xdr_PopBufferLaws : PopBufferLaws buffer_xdr := {
  buffer_wf := λ b, 20 ≤ buf_unpackpos b;
  content := buf_packeddata;
  cursor := λ b, Z.to_nat (buf_unpackpos b);
  encoding := xdr_encoding;
  admissible := xdr_admissible }.
Next Obligation.
  intros t vs Hl Hu Hb Hw Hv. cbv beta in *. unfold xdr_admissible. split_and!.
  - destruct (vector_type t) eqn:Ht.
    + enough (xslot t = wire_width t) by lia. by destruct t.
    + enough (xslot t = 4 * wire_width t) by lia. by destruct t.
  - done.
  - intros Ht. eapply Forall_impl; [exact Hv |]. intros v Hok. by apply xdr_put_ok.
  - done.
Qed.
Next Obligation.
  intros t vs Ha. cbv beta. pose proof (xslot_pos t). destruct (vector_type t) eqn:Ht.
  - destruct (xdr_region_spec t vs Ht Ha) as (_ & _ & ->). nia.
  - unfold xdr_encoding. rewrite Ht. etransitivity; [apply pad_block_size |].
    rewrite char_cast_length by done. lia.
Qed.
Next Obligation. intros t b. by destruct t. Qed.
Next Obligation. intros t vs b Ha Hsz. by apply xdr_Pack_is_Ok. Qed.
Next Obligation. intros t vs b u b' Ha E. by apply xdr_Pack_spec in E as ->. Qed.
Next Obligation.
  intros t vs b rest Ha Hwf Hsz Hd. cbv beta in *. cbn [UnPack xdr_PopBuffer].
  rewrite (xdr_UnPack_spec t vs rest) by (done || lia).
  eexists. split; [done |]. cbn. split_and!; try done; [| lia].
  rewrite Z2Nat.inj_add, Nat2Z.id by lia. rewrite <- drop_drop, Hd. by apply drop_app_len.
Qed.

Lemma popc_htonl_length z : length (popc_htonl z) = 4%nat.
Proof. apply be_bytes_length. Qed.
Lemma popc_ntohl_htonl z : in_sint 32 z = true → popc_ntohl (popc_htonl z) = z.
Proof. apply int_be_roundtrip. Qed.
Lemma xdr_Reset_spec b : buf_header (xdr_Reset b) = buf_header b ∧
  buf_unpackpos (xdr_Reset b) = 20 ∧ length (buf_packeddata (xdr_Reset b)) = 20%nat.
Proof. by split_and!. Qed.

#[export] Program Instance xdr_PopTransport : PopTransport buffer_xdr := {
  Send := λ S, xdr_Send;
  Recv := λ S, xdr_Recv }.
Next Obligation. done. Qed.
Next Obligation. done. Qed.
Next Obligation. intros S cb b b1 s s1. apply send_ok_size. Qed.
Next Obligation.
  intros S cb St Ch b s Hwf Hsz Hh. cbn in *.
  apply (send_message_ok cb popc_htonl popc_htonl_length b s); [by split | done].
Qed.
Next Obligation.
  intros S cb St Ch b b0 b1 s s1 Hwf Hsz Hr Hin Hs. cbn in *.
  edestruct (transport cb popc_htonl popc_ntohl xdr_Reset popc_htonl_length popc_ntohl_htonl
    xdr_Reset_spec b b0 b1 s s1) as (b2 & s2 & E & Hs2 & Hp & Ha & Hl & Hd & Hrg); try done.
  exists b2, s2. unfold unread. cbn. rewrite Hp, Hl. split_and!; try done; lia.
Qed.
Next Obligation. intros S cb b t b1 s s1. apply send_message_header. Qed.
End XdrLaws.

(** ** The XDR routines of a big-endian stream

    What RFC 4506 prescribes, as the GNU C library implements it on a 64-bit host: a [long] is
    encoded on four bytes when it fits and refused otherwise. *)
Definition rfc_put (t : prim) : val t → option (list byte) :=
  match t with
  | PInt | PUInt | PShort | PUShort => λ z, Some (be_bytes 4 z)
  | PLong => λ z, if in_sint 32 z then Some (be_bytes 4 z) else None
  | PULong => λ z, if in_uint 32 z then Some (be_bytes 4 z) else None
  | PFloat => λ f, Some (be_bytes 4 (float_bits 24 128 f))
  | PDouble => λ f, Some (be_bytes 8 (float_bits 53 1024 f))
  | _ => λ _, None
  end.

Definition rfc_take {A : Type} (n : nat) (f : Z → A) (bs : list byte) : option (A * list byte) :=
  if (length bs <? n)%nat then None else Some (f (be_value (take n bs)), drop n bs).

Definition rfc_get (t : prim) : list byte → option (val t * list byte) :=
  match t with
  | PInt | PLong => rfc_take 4 (swrap 32)
  | PUInt | PULong => rfc_take 4 id
  | PShort => rfc_take 4 (swrap 16)
  | PUShort => rfc_take 4 (uwrap 16)
  | PFloat => rfc_take 4 (bits_float 24 128)
  | PDouble => rfc_take 8 (bits_float 53 1024)
  | _ => λ _, None
  end.

#[export] Instance rfc_xdr : XdrLib := { xdr_put := rfc_put; xdr_get := rfc_get }.

Lemma rfc_take_put {A : Type} (n : nat) (f : Z → A) z rest :
  rfc_take n f (be_bytes n z ++ rest) = Some (f (z mod 256 ^ Z.of_nat n), rest).
Proof.
  unfold rfc_take. rewrite (proj2 (Nat.ltb_ge _ _)).
  - rewrite take_app_len, drop_app_len by (by rewrite be_bytes_length). by rewrite be_value_bytes.
  - rewrite length_app, be_bytes_length. lia.
Qed.

Lemma mod_mod_32_16 z : (z mod 2 ^ 32) mod 2 ^ 16 = z mod 2 ^ 16.
Proof. change (2 ^ 32) with (2 ^ 16 * 2 ^ 16). rewrite Z.rem_mul_r by lia.
  rewrite Z.mul_comm, Z_mod_plus_full. by rewrite Zmod_mod. Qed.

Lemma short_of_word z : in_sint 16 z = true → swrap 16 (z mod 2 ^ 32) = z.
Proof.
  intros H. rewrite <- (swrap_mod 16 z) at 2 by done. unfold swrap.
  by rewrite <- Zplus_mod_idemp_l, mod_mod_32_16.
Qed.

Lemma in_sint_mono v w z : 0 < v ≤ w → in_sint v z = true → in_sint w z = true.
Proof.
  intros Hv. unfold in_sint. rewrite !andb_true_iff, !Z.leb_le, !Z.ltb_lt.
  pose proof (Z.pow_le_mono_r 2 (v - 1) (w - 1)). lia.
Qed.

#[export] Instance rfc_laws : XdrLaws rfc_xdr.
Proof.
  split.
  - intros t v bs Ht H. destruct t; try done; cbn [xdr_put rfc_xdr rfc_put] in H; repeat case_if; simplify_eq;
      rewrite be_bytes_length; simpl; lia.
  - intros t v bs rest Ht Hv H. destruct t; try done; cbn [xdr_put xdr_get rfc_xdr rfc_put rfc_get val_ok] in H, Hv |- *; repeat case_if;
      simplify_eq; rewrite rfc_take_put; do 2 f_equal.
    + by apply swrap_mod.
    + by apply (in_uint_small 32).
    + by apply swrap_mod.
    + by apply (in_uint_small 32).
    + by apply short_of_word.
    + unfold uwrap. change (256 ^ Z.of_nat 4) with (2 ^ 32). rewrite mod_mod_32_16.
      by apply (in_uint_small 16).
    + pose proof (float_bits_range 24 128 ltac:(lia) ltac:(lia) v Hv) as Hr.
      rewrite Z.mod_small by exact Hr. by apply bits_float_bits.
    + pose proof (float_bits_range 53 1024 ltac:(lia) ltac:(lia) v Hv) as Hr.
      rewrite Z.mod_small by exact Hr. by apply bits_float_bits.
  - intros t v Ht Hv Hl Hu. destruct t; try done; by eexists.
Qed.
