(* ===== verification/AccessPoint.v ===== *)
(** * Network access points

    [pop_accesspoint] (lib/core/accesspoint.cc, include/core/pop_accesspoint.h). A flag is [None]
    while no constructor or setter wrote it. *)

From S2P Require Import Prelude Machine Buffer.

Definition NONSECURE : Z := 0.
Definition SECURE : Z := 1.

Record pop_accesspoint : Type := MkAccessPoint {
  endpoint : string;
  ap_security : Z;
  ap_service : option bool;
  ap_noaddref : option bool }.
#[export] Instance pop_accesspoint_eta : Eta pop_accesspoint := λ p,
  MkAccessPoint (endpoint p) (ap_security p) (ap_service p) (ap_noaddref p).
#[export] Instance pop_accesspoint_dec : EqDecision pop_accesspoint.
Proof. solve_decision. Defined.

Definition accesspoint_new : pop_accesspoint :=
  MkAccessPoint "" NONSECURE (Some false) (Some false).

Definition SetAccessString (hostport : string) (p : pop_accesspoint) := p <| endpoint := hostport |>.
Definition GetAccessString (p : pop_accesspoint) : string := endpoint p.
Definition ap_IsEmpty (p : pop_accesspoint) : bool := bool_decide (endpoint p = "").
Definition ap_eqb (p q : pop_accesspoint) : bool := bool_decide (endpoint p = GetAccessString q).
Definition IsSecure (p : pop_accesspoint) : bool := ap_security p =? SECURE.
Definition SetSecure (p : pop_accesspoint) := p <| ap_security := SECURE |>.
Definition IsService (p : pop_accesspoint) : result bool := read_member (ap_service p).
Definition SetAsService (p : pop_accesspoint) := p <| ap_service := Some true |>.
Definition GetNoAddRef (p : pop_accesspoint) : result bool := read_member (ap_noaddref p).
Definition SetNoAddRef (p : pop_accesspoint) := p <| ap_noaddref := Some true |>.

(** The copy constructor: [_service] is only written when the source is a service, and
    [_noaddref] is assigned its own indeterminate value. *)
Definition accesspoint_copy (p : pop_accesspoint) : result pop_accesspoint :=
  let! serv := IsService p in
  let q := MkAccessPoint (GetAccessString p) (if IsSecure p then SECURE else NONSECURE) None None in
  Ok (if serv then SetAsService q else q).

(** [operator=]: flags are only ever raised. *)
Definition accesspoint_assign (self p : pop_accesspoint) : result pop_accesspoint :=
  let q := SetAccessString (GetAccessString p) self in
  let q := if IsSecure p then SetSecure q else q in
  let! serv := IsService p in
  Ok (if serv then SetAsService q else q).

Section Serialize.
Context {B : Type} `{PopBuffer B}.

Definition accesspoint_Serialize (pack : bool) (p : pop_accesspoint) : M B pop_accesspoint :=
  if pack then
    PackString1 (endpoint p) ;;;
    Pack1 PInt (ap_security p) ;;;
    let* serv := mlift (read_member (ap_service p)) in
    Pack1 PBool serv ;;;
    let* noadd := mlift (read_member (ap_noaddref p)) in
    Pack1 PBool noadd ;;;
    mret p
  else
    let* s := UnPackString1 in
    let* sec := UnPack1 PInt in
    let* serv := UnPack1 PBool in
    let* noadd := UnPack1 PBool in
    let p := SetAccessString s p in
    let p := if sec =? SECURE then SetSecure p else p in
    let p := if (serv : bool) then SetAsService p else p in
    mret (if (noadd : bool) then SetNoAddRef p else p).
End Serialize.

(** An access point whose flags are all written. *)
Definition accesspoint_ok (p : pop_accesspoint) : Prop :=
  string_ok (endpoint p) ∧ (ap_security p = NONSECURE ∨ ap_security p = SECURE) ∧
  is_Some (ap_service p) ∧ is_Some (ap_noaddref p).

(** A receiver that starts from a fresh access point rebuilds the one that was sent. *)
Lemma codec_accesspoint {B : Type} `{PopBufferLaws B} (p : pop_accesspoint) :
  accesspoint_ok p →
  codec (accesspoint_Serialize true p) p (accesspoint_Serialize false accesspoint_new) p.
Proof.
  destruct p as [e sec sv na]. intros (He & Hs & [v Hv] & [w Hw]); simpl in *; subst.
  unfold accesspoint_Serialize; simpl. destruct Hs as [-> | ->], v, w; solve_codec.
Qed.
#[export] Hint Resolve codec_accesspoint : codec.
