(* ===== verification/ObjectDescription.v ===== *)
(** * Object descriptions

    [pop_od] (lib/core/od.cc, include/core/pop_od.h): the resources a parallel object asks for,
    where it may run, and how the description is marshalled.  [OD_DISCONNECT] is not defined. *)

From S2P Require Import Prelude Machine Buffer.

Record pop_od : Type := MkOd {
  isLocalJob : bool;
  mflops : float; min_mflops : float;
  ram : float; min_ram : float;
  net : float; min_net : float;
  od_time : float;
  isManual : bool;
  node_value : Z;
  core_value : Z;
  cwd : string;
  hostname : string; hostuser : string; hostcore : string; hostarch : string;
  batchSystem : string;
  jobcontact : string;
  codefile : string;
  platforms : string;
  proto : string;
  encode : string;
  keys : list string;
  values : list string;
  max_depth : Z; max_size : Z; wait_time : Z;
  searchSet : bool;
  secureSet : bool;
  serviceSet : bool }.
#[export] Instance pop_od_eta : Eta pop_od := λ o,
  MkOd (isLocalJob o) (mflops o) (min_mflops o) (ram o) (min_ram o) (net o) (min_net o) (od_time o)
    (isManual o) (node_value o) (core_value o) (cwd o) (hostname o) (hostuser o) (hostcore o)
    (hostarch o) (batchSystem o) (jobcontact o) (codefile o) (platforms o) (proto o) (encode o)
    (keys o) (values o) (max_depth o) (max_size o) (wait_time o) (searchSet o) (secureSet o)
    (serviceSet o).

Definition sameDirectory (a : bool) (getcwd : option string) (o : pop_od) : pop_od :=
  if a then match getcwd with Some d => o <| cwd := d |> | None => o end else o.

(** The constructor; [batch] is the value of the variable POPC_BATCH, [getcwd] what the system
    says the working directory is. *)
Definition od_new (defaultLocalJob : bool) (batch getcwd : option string) : pop_od :=
  let o := MkOd defaultLocalJob fminus_one fminus_one fminus_one fminus_one fminus_one fminus_one
    fminus_one false (-1) (-1) "" "" "" "" "" "" "" "" "" "" "" [] [] 100 0 0 false false false in
  let o := match batch with
           | Some tmp => o <| batchSystem := tmp |> <| hostname := tmp |>
           | None => o
           end in
  sameDirectory true getcwd o.

Definition od_node (value : Z) (o : pop_od) := o <| node_value := value |>.
Definition od_core (value : Z) (o : pop_od) := o <| core_value := value |>.
Definition runLocal (isLocal : bool) (o : pop_od) := o <| isLocalJob := isLocal |>.
Definition walltime (t : float) (o : pop_od) := o <| od_time := t |>.
Definition secure (o : pop_od) := o <| secureSet := true |>.
Definition service (serv : bool) (o : pop_od) := o <| serviceSet := serv |>.

(** The larger of the two figures becomes the requirement. *)
Definition order_pair (require min : float) : float * float :=
  if fgt min require then (min, require) else (require, min).

Definition power (require min : float) (o : pop_od) : pop_od :=
  let '(r, m) := order_pair require min in o <| mflops := r |> <| min_mflops := m |>.
Definition memory (require min : float) (o : pop_od) : pop_od :=
  let '(r, m) := order_pair require min in o <| ram := r |> <| min_ram := m |>.
Definition bandwidth (require min : float) (o : pop_od) : pop_od :=
  let '(r, m) := order_pair require min in o <| net := r |> <| min_net := m |>.

Definition search (maxdepth maxsize waittime : Z) (o : pop_od) : pop_od :=
  o <| searchSet := true |> <| max_depth := maxdepth |> <| max_size := maxsize |>
    <| wait_time := waittime |>.

(** [strchr] as a split: the characters before and after the first [c]. *)
Fixpoint strchr (c : byte) (l : list byte) : option (list byte * list byte) :=
  match l with
  | [] => None
  | x :: l' =>
      if decide (x = c) then Some ([], l')
      else match strchr c l' with Some (u, v) => Some (x :: u, v) | None => None end
  end.

(** [url]: [user@host{core}]. The text is copied into 256 characters; the move of the part after
    the '@' to the front of the array is taken to work. *)
Definition url (str : string) (o : pop_od) : result pop_od :=
  let h := before_nul (string_bytes str) in
  if 256 <? zlen h + 1 then Stuck
  else
    let '(h, o) := match strchr x40 h with
                   | Some (user, rest) => (rest, o <| hostuser := bytes_string user |>)
                   | None => (h, o)
                   end in
    let '(h, o) := match strchr x7b h with
                   | Some (host, rest) =>
                       (host, match strchr x7d rest with
                              | Some (core, _) => o <| hostcore := bytes_string core |>
                              | None => o
                              end)
                   | None => (h, o)
                   end in
    let o := o <| hostname := bytes_string h |> in
    Ok (if decide (hostname o = "localhost") then runLocal true o else o).

Definition url_arch (h arch : string) (o : pop_od) : result pop_od :=
  url h (o <| hostarch := arch |>).

Definition manual (a : bool) (o : pop_od) : result pop_od :=
  let! o := url "localhost" o in Ok (o <| isManual := a |>).

(** [operator=], for another object. *)
Definition od_assign (self od : pop_od) : pop_od :=
  runLocal (isLocalJob od)
    (self <| mflops := mflops od |> <| min_mflops := min_mflops od |>
          <| ram := ram od |> <| min_ram := min_ram od |>
          <| net := net od |> <| min_net := min_net od |>
          <| od_time := od_time od |> <| hostname := hostname od |>
          <| jobcontact := jobcontact od |> <| codefile := codefile od |>
          <| proto := proto od |> <| encode := encode od |>).

Definition od_IsEmpty (o : pop_od) : bool :=
  flt (mflops o) fzero && flt (min_mflops o) fzero && flt (ram o) fzero && flt (min_ram o) fzero &&
  flt (net o) fzero && flt (min_net o) fzero && flt (od_time o) fzero &&
  bool_decide (hostname o = "").

Definition setValue (key val : string) (o : pop_od) : pop_od :=
  o <| keys := keys o ++ [key] |> <| values := values o ++ [val] |>.

(** [getValue]: when the key is absent the string is assigned a null pointer. *)
Definition getValue (key : string) (o : pop_od) : result string :=
  (fix go (ks vs : list string) : result string :=
     match ks with
     | [] => Stuck
     | k :: ks' =>
         match vs with
         | [] => Stuck
         | v :: vs' => if decide (k = key) then Ok v else go ks' vs'
         end
     end) (keys o) (values o).

Section Serialize.
Context {B : Type} `{PopBuffer B}.

Definition pair_of (val : list float) : M B (float * float) :=
  match val with [a; b] => mret (a, b) | _ => mlift Stuck end.
Definition UnPackFloats2 : M B (float * float) := let* val := UnPack PFloat 2 in pair_of val.
Definition UnPackInts3 : M B (Z * Z * Z) :=
  let* val := UnPack PInt 3 in
  match val with [a; b; c] => mret (a, b, c) | _ => mlift Stuck end.

Definition od_Pack (o : pop_od) : M B pop_od :=
  Pack PFloat [mflops o; min_mflops o] 2 ;;;
  Pack PFloat [ram o; min_ram o] 2 ;;;
  Pack PFloat [net o; min_net o] 2 ;;;
  Pack1 PFloat (od_time o) ;;;
  Pack1 PInt (if isManual o then 1 else 0) ;;;
  PackString1 (cwd o) ;;;
  Pack PInt [max_depth o; max_size o; wait_time o] 3 ;;;
  PackString1 (hostname o) ;;;
  PackString1 (hostuser o) ;;;
  PackString1 (hostcore o) ;;;
  PackString1 (hostarch o) ;;;
  PackString1 (batchSystem o) ;;;
  PackString1 (jobcontact o) ;;;
  PackString1 (codefile o) ;;;
  PackString1 (platforms o) ;;;
  PackString1 (proto o) ;;;
  PackString1 (encode o) ;;;
  let* count := mlift (check_int (zlen (keys o))) in
  Pack1 PInt count ;;;
  (if (length (values o) <? length (keys o))%nat then mlift Stuck
   else mfor (zip (keys o) (values o)) (λ kv, PackString1 kv.1 ;;; PackString1 kv.2)) ;;;
  mret o.

(** The value read for "manual" is overwritten, never stored. *)
Definition od_UnPack (o : pop_od) : M B pop_od :=
  let* (pr, pm) := UnPackFloats2 in
  let o := power pr pm o in
  let* (mr, mm) := UnPackFloats2 in
  let o := memory mr mm o in
  let* (br, bm) := UnPackFloats2 in
  let o := bandwidth br bm o in
  let* t := UnPack1 PFloat in
  let o := walltime t o in
  let* valInt := UnPack1 PInt in
  let* s := UnPackString1 in
  let o := o <| cwd := s |> in
  let* (d, sz, w) := UnPackInts3 in
  let o := search d sz w o in
  let* s := UnPackString1 in
  let o := o <| hostname := s |> in
  let* s := UnPackString1 in
  let o := o <| hostuser := s |> in
  let* s := UnPackString1 in
  let o := o <| hostcore := s |> in
  let* s := UnPackString1 in
  let o := o <| hostarch := s |> in
  let* s := UnPackString1 in
  let o := o <| batchSystem := s |> in
  let* s := UnPackString1 in
  let o := o <| jobcontact := s |> in
  let* s := UnPackString1 in
  let o := o <| codefile := s |> in
  let* s := UnPackString1 in
  let o := o <| platforms := s |> in
  let* s := UnPackString1 in
  let o := o <| proto := s |> in
  let* s := UnPackString1 in
  let o := o <| encode := s |> in
  let* count := UnPack1 PInt in
  let o := o <| keys := [] |> <| values := [] |> in
  let* kvs := mtimes (Z.to_nat (uwrap 64 count))
                (let* t1 := UnPackString1 in let* t2 := UnPackString1 in mret (t1, t2)) in
  mret (foldl (λ o kv, setValue kv.1 kv.2 o) o kvs).

Definition od_Serialize (pack : bool) (o : pop_od) : M B pop_od :=
  if pack then od_Pack o else od_UnPack o.
End Serialize.

(** What a description must satisfy to be carried: valid floats ordered as [power], [memory] and
    [bandwidth] leave them, strings without NUL, as many values as keys. *)
Definition od_floats (o : pop_od) : list float :=
  [mflops o; min_mflops o; ram o; min_ram o; net o; min_net o; od_time o].
Definition od_strings (o : pop_od) : list string :=
  [cwd o; hostname o; hostuser o; hostcore o; hostarch o; batchSystem o; jobcontact o; codefile o;
   platforms o; proto o; encode o].

Definition od_ok (o : pop_od) : Prop :=
  Forall (λ f, fvalid f = true) (od_floats o) ∧ Forall string_ok (od_strings o) ∧
  Forall (λ z, in_sint 32 z = true) [max_depth o; max_size o; wait_time o] ∧
  fgt (min_mflops o) (mflops o) = false ∧ fgt (min_ram o) (ram o) = false ∧
  fgt (min_net o) (net o) = false ∧
  Forall string_ok (keys o) ∧ Forall string_ok (values o) ∧
  length (values o) = length (keys o) ∧ zlen (keys o) ≤ int_max.

(** What the receiver makes of it: the members that are not sent keep their value. *)
Definition od_received (o o0 : pop_od) : pop_od :=
  o <| isLocalJob := isLocalJob o0 |> <| isManual := isManual o0 |>
    <| node_value := node_value o0 |> <| core_value := core_value o0 |>
    <| searchSet := true |> <| secureSet := secureSet o0 |> <| serviceSet := serviceSet o0 |>.

Lemma foldl_setValue kvs o :
  foldl (λ o kv, setValue kv.1 kv.2 o) o kvs
  = o <| keys := keys o ++ kvs.*1 |> <| values := values o ++ kvs.*2 |>.
Proof.
  revert o; induction kvs as [|[k v] kvs IH]; intros o; csimpl.
  - destruct o. cbn. by rewrite !app_nil_r.
  - rewrite IH. destruct o. cbn. by rewrite <- !app_assoc.
Qed.

Section Codec.
Context {B : Type} `{PopBufferLaws B}.

Lemma codec_floats2 a b :
  fvalid a = true → fvalid b = true → codec (Pack PFloat [a; b] 2) () UnPackFloats2 (a, b).
Proof.
  intros Ha Hb. destruct (codec_prims PFloat [a; b] 2) as (bs & W & R); try done.
  { by repeat constructor. }
  exists bs. split; [done |]. rewrite <- (app_nil_r bs).
  eapply reads_bind; [exact R | apply reads_ret].
Qed.

Lemma codec_ints3 a b c :
  Forall (λ z, in_sint 32 z = true) [a; b; c] →
  codec (Pack PInt [a; b; c] 3) () UnPackInts3 (a, b, c).
Proof.
  intros Hz. destruct (codec_prims PInt [a; b; c] 3) as (bs & W & R); try done.
  exists bs. split; [done |]. rewrite <- (app_nil_r bs).
  eapply reads_bind; [exact R | apply reads_ret].
Qed.

Lemma codec_attributes ks vs :
  Forall string_ok ks → Forall string_ok vs → length vs = length ks →
  codec (mfor (zip ks vs) (λ kv, PackString1 kv.1 ;;; PackString1 kv.2)) ()
    (mtimes (length ks) (let* t1 := UnPackString1 in let* t2 := UnPackString1 in mret (t1, t2)))
    (zip ks vs).
Proof.
  intros Hk Hv Hl. replace (length ks) with (length (zip ks vs)) by (rewrite length_zip; lia).
  apply codec_mfor. revert vs Hv Hl. induction Hk as [|k ks Hk Hks IH]; intros [|v vs] Hv Hl;
    simpl; constructor; try done.
  - inversion Hv; subst. simpl. eapply codec_bind; [by apply codec_string |]. simpl.
    destruct (codec_string v) as (bs & W & R); [done |]. exists bs. split; [done |].
    rewrite <- (app_nil_r bs). eapply reads_bind; [exact R | apply reads_ret].
  - inversion Hv; subst. apply IH; [done | simpl in Hl; lia].
Qed.
End Codec.
#[export] Hint Resolve codec_floats2 codec_ints3 codec_attributes : codec.

Lemma order_pair_ordered r m : fgt m r = false → order_pair r m = (r, m).
Proof. unfold order_pair. by intros ->. Qed.

Lemma codec_od {B : Type} `{PopBufferLaws B} (o o0 : pop_od) :
  od_ok o → codec (od_Pack o) o (od_UnPack o0) (od_received o o0).
Proof.
  intros (Hf & Hs & Hi & Hp & Hm & Hn & Hk & Hv & Hl & Hc). unfold int_max in Hc.
  destruct o; unfold od_floats, od_strings in *; simpl in *.
  repeat match goal with H : Forall _ (_ :: _) |- _ => inversion H; clear H; subst end.
  cbv beta in *. unfold od_Pack, od_UnPack; simpl.
  do 3 (codec_step; unfold power, memory, bandwidth; rewrite order_pair_ordered by done).
  assert (in_sint 32 (if isManual0 then 1 else 0) = true) by by destruct isManual0.
  do 3 codec_step.
  eapply codec_bind; [apply codec_ints3; by repeat constructor |]. simpl.
  do 10 codec_step. eapply codec_lift_w; [apply check_int_Ok, in_sint32; lia |]. simpl.
  eapply codec_bind; [apply codec_int, in_sint32; lia |]. simpl.
  rewrite Hl, Nat.ltb_irrefl. unfold uwrap. rewrite Z.mod_small, Nat2Z.id by lia.
  eapply codec_bind; [by apply codec_attributes |]. simpl.
  rewrite foldl_setValue. unfold od_received. cbn. rewrite fst_zip, snd_zip by lia.
  apply codec_ret.
Qed.
#[export] Hint Resolve codec_od : codec.
