(* ===== verification/Discovery.v ===== *)
(** * Resource discovery messages

    What the search nodes exchange: [POPWayback] (lib/core/popwayback.cc), [ExplorationList]
    (lib/dynamic/explorationList.cc), [POPCSearchNodeInfo] (lib/dynamic/popc_search_node_info.cc),
    [Request] and [Response] (lib/dynamic/request.cc, lib/dynamic/response.cc). A member no
    constructor writes is [None] until it is set. *)

From S2P Require Import Prelude Machine Buffer AccessPoint.

(** ** Way back

    A list of node identifiers; the next node is the last one. *)
Module Wayback.
Definition POPWayback : Type := list string.

Definition assign (self rhs : POPWayback) : POPWayback :=
  match rhs with [] => self | _ => rhs end.

Definition getAsString (wb : POPWayback) : string :=
  bytes_string (before_nul (concat ((λ e, string_bytes e ++ [x2f; x2f]) <$> wb))).

(** [back] and [pop_back] on an empty list are undefined. *)
Definition getNextNode (wb : POPWayback) : result string :=
  match last wb with Some n => Ok n | None => Stuck end.

Definition deleteNextNode (wb : POPWayback) : result POPWayback :=
  match wb with [] => Stuck | _ => Ok (removelast wb) end.

Definition insertNode (nodeId : string) (wb : POPWayback) : result POPWayback :=
  match wb with
  | [] => Ok [nodeId]
  | _ =>
      let! tmp := getNextNode wb in
      Ok (if decide (tmp = nodeId) then wb ++ [nodeId] else wb)
  end.

Definition isLastNode (wb : POPWayback) : bool :=
  (length wb =? 1)%nat || bool_decide (wb = []).

Definition isEmpty (wb : POPWayback) : bool := bool_decide (wb = []).

Section Serialize.
Context {B : Type} `{PopBuffer B}.

(** Packing takes the elements off the list. *)
Definition Serialize (pack : bool) (wb : POPWayback) : M B POPWayback :=
  if pack then
    let* size := mlift (check_int (zlen wb)) in
    Pack1 PInt size ;;;
    mfor wb PackString1 ;;;
    mret []
  else
    let* size := UnPack1 PInt in
    mtimes (Z.to_nat size) UnPackString1.
End Serialize.
End Wayback.

(** ** Exploration list

    A [std::map] from a node to its neighbours: an association list sorted by key, whose [insert]
    keeps an existing entry. *)
Module Exploration.
Definition NEIGHBORSPATH : Z := 5.
Definition ExplorationList : Type := list (string * list string).

Fixpoint map_insert (k : string) (v : list string) (l : ExplorationList) : ExplorationList :=
  match l with
  | [] => [(k, v)]
  | (k', v') :: l' =>
      match String.compare k k' with
      | Eq => l
      | Lt => (k, v) :: l
      | Gt => (k', v') :: map_insert k v l'
      end
  end.

Definition nonempty (e : string * list string) : bool :=
  match e.2 with [] => false | _ => true end.

(** The last non-empty entry a reverse scan meets is the first of the map. *)
Fixpoint clear_first (l : ExplorationList) : ExplorationList :=
  match l with
  | [] => []
  | e :: l' => if nonempty e then (e.1, []) :: l' else e :: clear_first l'
  end.

Definition crtNeighborsPath (l : ExplorationList) : Z := zlen (List.filter nonempty l).

Definition addListNode (nodeId : string) (neighbors : list string) (l : ExplorationList) :
    ExplorationList :=
  let l := map_insert nodeId neighbors l in
  if NEIGHBORSPATH <? crtNeighborsPath l then clear_first l else l.

Definition isIn (nodeId : string) (l : ExplorationList) : bool :=
  existsb (λ e, bool_decide (nodeId = e.1) || existsb (λ n, bool_decide (nodeId = n)) e.2) l.

Section Serialize.
Context {B : Type} `{PopBuffer B}.

Definition PackNode (e : string * list string) : M B () :=
  PackString1 e.1 ;;;
  let* nNeighbors := mlift (check_int (zlen e.2)) in
  Pack1 PInt nNeighbors ;;;
  mfor e.2 PackString1.

Definition UnPackNode : M B (string * list string) :=
  let* nodeId := UnPackString1 in
  let* nNeighbors := UnPack1 PInt in
  let* neighbors := mtimes (Z.to_nat nNeighbors) UnPackString1 in
  mret (nodeId, neighbors).

(** The entries read are added to those the object already has. *)
Definition Serialize (pack : bool) (l : ExplorationList) : M B ExplorationList :=
  if pack then
    let* nElts := mlift (check_int (zlen l)) in
    Pack1 PInt nElts ;;;
    (if 0 <? nElts then mfor l PackNode else mret ()) ;;;
    mret l
  else
    let* nElts := UnPack1 PInt in
    let* es := mtimes (Z.to_nat nElts) UnPackNode in
    mret (foldl (λ l e, addListNode e.1 e.2 l) l es).
End Serialize.
End Exploration.

(** ** Node information

    The access point of the job manager is not marshalled. *)
Module NodeInfo.
Record POPCSearchNodeInfo : Type := MkNodeInfo {
  nodeId : string;
  jobmgr : pop_accesspoint;
  operatingSystem : string;
  power : option float;
  cpuSpeed : option Z;
  memorySize : option float;
  networkBandwidth : option float;
  diskSpace : option Z;
  protocol : string;
  encoding : string;
  pki : string }.
#[global] Instance POPCSearchNodeInfo_eta : Eta POPCSearchNodeInfo := λ i,
  MkNodeInfo (nodeId i) (jobmgr i) (operatingSystem i) (power i) (cpuSpeed i) (memorySize i)
    (networkBandwidth i) (diskSpace i) (protocol i) (encoding i) (pki i).

Definition info_new : POPCSearchNodeInfo :=
  MkNodeInfo "" accesspoint_new "" None None None None None "" "" "".

Definition getPOPCSearchNodeId (i : POPCSearchNodeInfo) : string := nodeId i.
Definition getPKI (i : POPCSearchNodeInfo) : string := pki i.

(** [POPCSearchNodeInfos]: a list of them. *)
Definition POPCSearchNodeInfos : Type := list POPCSearchNodeInfo.
Definition addANodeInfo (node : POPCSearchNodeInfo) (l : POPCSearchNodeInfos) := l ++ [node].
Definition getNodeInfos (l : POPCSearchNodeInfos) : list POPCSearchNodeInfo := l.

Section Serialize.
Context {B : Type} `{PopBuffer B}.

Definition Serialize (pack : bool) (i : POPCSearchNodeInfo) : M B POPCSearchNodeInfo :=
  if pack then
    PackString1 (nodeId i) ;;;
    PackString1 (operatingSystem i) ;;;
    let* v := mlift (read_member (power i)) in
    Pack1 PFloat v ;;;
    let* v := mlift (read_member (cpuSpeed i)) in
    Pack1 PInt v ;;;
    let* v := mlift (read_member (memorySize i)) in
    Pack1 PFloat v ;;;
    let* v := mlift (read_member (networkBandwidth i)) in
    Pack1 PFloat v ;;;
    let* v := mlift (read_member (diskSpace i)) in
    Pack1 PInt v ;;;
    PackString1 (protocol i) ;;;
    PackString1 (encoding i) ;;;
    PackString1 (pki i) ;;;
    mret i
  else
    let* v := UnPackString1 in
    let i := i <| nodeId := v |> in
    let* v := UnPackString1 in
    let i := i <| operatingSystem := v |> in
    let* v := UnPack1 PFloat in
    let i := i <| power := Some v |> in
    let* v := UnPack1 PInt in
    let i := i <| cpuSpeed := Some v |> in
    let* v := UnPack1 PFloat in
    let i := i <| memorySize := Some v |> in
    let* v := UnPack1 PFloat in
    let i := i <| networkBandwidth := Some v |> in
    let* v := UnPack1 PInt in
    let i := i <| diskSpace := Some v |> in
    let* v := UnPackString1 in
    let i := i <| protocol := v |> in
    let* v := UnPackString1 in
    let i := i <| encoding := v |> in
    let* v := UnPackString1 in
    let i := i <| pki := v |> in
    mret i.

Definition SerializeList (pack : bool) (l : POPCSearchNodeInfos) : M B POPCSearchNodeInfos :=
  if pack then
    let* nElts := mlift (check_int (zlen l)) in
    Pack1 PInt nElts ;;;
    mfor l (λ info, Serialize true info ;;; mret ()) ;;;
    mret l
  else
    let* nElts := UnPack1 PInt in
    let* infos := mtimes (Z.to_nat nElts) (Serialize false info_new) in
    mret (l ++ infos).
End Serialize.
End NodeInfo.

(** ** Discovery requests *)
Module Req.
Definition UNLIMITED_HOPS : Z := -20.

Record Request : Type := MkRequest {
  uniqueId : string;
  maxHops : Z;
  wb : Wayback.POPWayback;
  popappid : string;
  pki : string;
  mainPki : string;
  endingSignal : bool;
  nodeId : string;
  hasNodeIdSet : bool;
  operatingSystem : string;
  hasOperatingSystemSet : bool;
  minCpuSpeed : option Z;
  hasMinCpuSpeedSet : bool;
  expectedCpuSpeed : option Z;
  hasExpectedCpuSpeedSet : bool;
  minMemorySize : option float;
  hasMinMemorySizeSet : bool;
  expectedMemorySize : option float;
  hasExpectedMemorySizeSet : bool;
  minNetworkBandwidth : option float;
  hasMinNetworkBandwidthSet : bool;
  expectedNetworkBandwidth : option float;
  hasExpectedNetworkBandwidthSet : bool;
  minDiskSpace : option Z;
  hasMinDiskSpaceSet : bool;
  expectedDiskSpace : option Z;
  hasExpectedDiskSpaceSet : bool;
  minPower : option float;
  hasMinPowerSet : bool;
  expectedPower : option float;
  hasExpectedPowerSet : bool;
  protocol : string;
  hasProtocolSet : bool;
  encoding : string;
  hasEncodingSet : bool;
  explorationList : Exploration.ExplorationList }.
#[global] Instance Request_eta : Eta Request := λ r,
  MkRequest (uniqueId r) (maxHops r) (wb r) (popappid r) (pki r) (mainPki r) (endingSignal r)
    (nodeId r) (hasNodeIdSet r) (operatingSystem r) (hasOperatingSystemSet r) (minCpuSpeed r)
    (hasMinCpuSpeedSet r) (expectedCpuSpeed r) (hasExpectedCpuSpeedSet r) (minMemorySize r)
    (hasMinMemorySizeSet r) (expectedMemorySize r) (hasExpectedMemorySizeSet r)
    (minNetworkBandwidth r) (hasMinNetworkBandwidthSet r) (expectedNetworkBandwidth r)
    (hasExpectedNetworkBandwidthSet r) (minDiskSpace r) (hasMinDiskSpaceSet r)
    (expectedDiskSpace r) (hasExpectedDiskSpaceSet r) (minPower r) (hasMinPowerSet r)
    (expectedPower r) (hasExpectedPowerSet r) (protocol r) (hasProtocolSet r) (encoding r)
    (hasEncodingSet r) (explorationList r).

(** [init] and the default constructor. *)
Definition init : Request :=
  MkRequest "" UNLIMITED_HOPS [] "" "" "" false "" false "" false None false None false None
    false None false None false None false None false None false None false None false ""
    false "" false [].

Definition setNodeId (v : string) (r : Request) : Request :=
  r <| hasNodeIdSet := true |> <| nodeId := v |>.
Definition getNodeId (r : Request) : string := nodeId r.
Definition setOperatingSystem (v : string) (r : Request) : Request :=
  r <| hasOperatingSystemSet := true |> <| operatingSystem := v |>.
Definition getOperatingSystem (r : Request) : string := operatingSystem r.
Definition setMinCpuSpeed (v : Z) (r : Request) : Request :=
  r <| hasMinCpuSpeedSet := true |> <| minCpuSpeed := Some v |>.
Definition getMinCpuSpeed (r : Request) : result Z := read_member (minCpuSpeed r).
Definition setExpectedCpuSpeed (v : Z) (r : Request) : Request :=
  r <| hasExpectedCpuSpeedSet := true |> <| expectedCpuSpeed := Some v |>.
Definition getExpectedCpuSpeed (r : Request) : result Z := read_member (expectedCpuSpeed r).
Definition setMinMemorySize (v : float) (r : Request) : Request :=
  r <| hasMinMemorySizeSet := true |> <| minMemorySize := Some v |>.
Definition getMinMemorySize (r : Request) : result float := read_member (minMemorySize r).
Definition setExpectedMemorySize (v : float) (r : Request) : Request :=
  r <| hasExpectedMemorySizeSet := true |> <| expectedMemorySize := Some v |>.
Definition getExpectedMemorySize (r : Request) : result float :=
  read_member (expectedMemorySize r).
Definition setMinNetworkBandwidth (v : float) (r : Request) : Request :=
  r <| hasMinNetworkBandwidthSet := true |> <| minNetworkBandwidth := Some v |>.
Definition getMinNetworkBandwidth (r : Request) : result float :=
  read_member (minNetworkBandwidth r).
Definition setExpectedNetworkBandwidth (v : float) (r : Request) : Request :=
  r <| hasExpectedNetworkBandwidthSet := true |> <| expectedNetworkBandwidth := Some v |>.
Definition getExpectedNetworkBandwidth (r : Request) : result float :=
  read_member (expectedNetworkBandwidth r).
Definition setMinDiskSpace (v : Z) (r : Request) : Request :=
  r <| hasMinDiskSpaceSet := true |> <| minDiskSpace := Some v |>.
Definition getMinDiskSpace (r : Request) : result Z := read_member (minDiskSpace r).
Definition setExpectedDiskSpace (v : Z) (r : Request) : Request :=
  r <| hasExpectedDiskSpaceSet := true |> <| expectedDiskSpace := Some v |>.
Definition getExpectedDiskSpace (r : Request) : result Z := read_member (expectedDiskSpace r).
Definition setMinPower (v : float) (r : Request) : Request :=
  r <| hasMinPowerSet := true |> <| minPower := Some v |>.
Definition getMinPower (r : Request) : result float := read_member (minPower r).
Definition setExpectedPower (v : float) (r : Request) : Request :=
  r <| hasExpectedPowerSet := true |> <| expectedPower := Some v |>.
Definition getExpectedPower (r : Request) : result float := read_member (expectedPower r).
Definition setProtocol (v : string) (r : Request) : Request :=
  r <| hasProtocolSet := true |> <| protocol := v |>.
Definition getProtocol (r : Request) : string := protocol r.
Definition setEncoding (v : string) (r : Request) : Request :=
  r <| hasEncodingSet := true |> <| encoding := v |>.
Definition getEncoding (r : Request) : string := encoding r.
Definition setUniqueId (v : string) (r : Request) : Request := r <| uniqueId := v |>.
Definition getUniqueId (r : Request) : string := uniqueId r.
Definition setMaxHops (v : Z) (r : Request) : Request := r <| maxHops := v |>.
Definition getMaxHops (r : Request) : Z := maxHops r.
Definition setPKI (v : string) (r : Request) : Request := r <| pki := v |>.
Definition getPKI (r : Request) : string := pki r.
Definition setMainPKI (v : string) (r : Request) : Request := r <| mainPki := v |>.
Definition getMainPKI (r : Request) : string := mainPki r.
Definition setPOPAppId (v : string) (r : Request) : Request := r <| popappid := v |>.
Definition getPOPAppId (r : Request) : string := popappid r.
Definition isEndRequest (r : Request) : bool := endingSignal r.
Definition setAsEndRequest (r : Request) : Request := r <| endingSignal := true |>.
Definition getExplorationList (r : Request) : Exploration.ExplorationList := explorationList r.
Definition getWayBack (r : Request) : Wayback.POPWayback := wb r.
Definition getWbAsString (r : Request) : string := Wayback.getAsString (wb r).

(** Decrements the hops unless they are unlimited. *)
Definition addNodeToExplorationList (nodeId : string) (neighbors : list string) (r : Request) :
    result Request :=
  let r := r <| explorationList :=
                  Exploration.addListNode nodeId neighbors (explorationList r) |> in
  if maxHops r =? UNLIMITED_HOPS then Ok r
  else let! h := check_int (maxHops r - 1) in Ok (r <| maxHops := h |>).

Definition addNodeToWb (nodeId : string) (r : Request) : result Request :=
  let! w := Wayback.insertNode nodeId (wb r) in Ok (r <| wb := w |>).

(** The constructor with all the parameters: an empty string or a zero means "not set". *)
Definition request_new (hops : Z) (nodeId operatingSystem : string)
    (minCpuSpeed expectedCpuSpeed : Z) (minMemorySize expectedMemorySize : float)
    (minNetworkBandwidth expectedNetworkBandwidth minDiskSpace expectedDiskSpace : Z)
    (minPower expectedPower : float) (protocol encoding : string) : Request :=
  let r := init <| maxHops := hops |> in
  let r := if decide (nodeId = "") then r else setNodeId nodeId r in
  let r := if decide (operatingSystem = "") then r else setOperatingSystem operatingSystem r in
  let r := if minCpuSpeed =? 0 then r else setMinCpuSpeed minCpuSpeed r in
  let r := if expectedCpuSpeed =? 0 then r else setExpectedCpuSpeed expectedCpuSpeed r in
  let r := if feq minMemorySize fzero then r else setMinMemorySize minMemorySize r in
  let r := if feq expectedMemorySize fzero then r
           else setExpectedMemorySize expectedMemorySize r in
  let r := if minNetworkBandwidth =? 0 then r
           else setMinNetworkBandwidth (float_of_Z minNetworkBandwidth) r in
  let r := if expectedNetworkBandwidth =? 0 then r
           else setExpectedNetworkBandwidth (float_of_Z expectedNetworkBandwidth) r in
  let r := if minDiskSpace =? 0 then r else setMinDiskSpace minDiskSpace r in
  let r := if expectedDiskSpace =? 0 then r else setExpectedDiskSpace expectedDiskSpace r in
  let r := if feq minPower fzero then r else setMinPower minPower r in
  let r := if feq expectedPower fzero then r else setExpectedPower expectedPower r in
  let r := if decide (protocol = "") then r else setProtocol protocol r in
  let r := if decide (encoding = "") then r else setEncoding encoding r in
  r.

Section Serialize.
Context {B : Type} `{PopBuffer B}.

(** A parameter preceded by its flag. *)
Definition pack_opt {A : Type} (flag : bool) (m : result A) (w : A → M B ()) : M B () :=
  Pack1 PBool flag ;;;
  if flag then let* v := mlift m in w v else mret ().

(** The value of the expected CPU speed is not packed: the flag is, twice. *)
Definition Request_Pack (r : Request) : M B Request :=
  PackString1 (uniqueId r) ;;;
  Pack1 PInt (maxHops r) ;;;
  pack_opt (hasNodeIdSet r) (Ok (nodeId r)) PackString1 ;;;
  pack_opt (hasOperatingSystemSet r) (Ok (operatingSystem r)) PackString1 ;;;
  pack_opt (hasMinCpuSpeedSet r) (read_member (minCpuSpeed r)) (Pack1 PInt) ;;;
  pack_opt (hasExpectedCpuSpeedSet r) (Ok (hasExpectedCpuSpeedSet r)) (Pack1 PBool) ;;;
  pack_opt (hasMinMemorySizeSet r) (read_member (minMemorySize r)) (Pack1 PFloat) ;;;
  pack_opt (hasExpectedMemorySizeSet r) (read_member (expectedMemorySize r)) (Pack1 PFloat) ;;;
  pack_opt (hasMinNetworkBandwidthSet r) (read_member (minNetworkBandwidth r))
    (Pack1 PFloat) ;;;
  pack_opt (hasExpectedNetworkBandwidthSet r) (read_member (expectedNetworkBandwidth r))
    (Pack1 PFloat) ;;;
  pack_opt (hasMinDiskSpaceSet r) (read_member (minDiskSpace r)) (Pack1 PInt) ;;;
  pack_opt (hasExpectedDiskSpaceSet r) (read_member (expectedDiskSpace r)) (Pack1 PInt) ;;;
  pack_opt (hasMinPowerSet r) (read_member (minPower r)) (Pack1 PFloat) ;;;
  pack_opt (hasExpectedPowerSet r) (read_member (expectedPower r)) (Pack1 PFloat) ;;;
  pack_opt (hasProtocolSet r) (Ok (protocol r)) PackString1 ;;;
  pack_opt (hasEncodingSet r) (Ok (encoding r)) PackString1 ;;;
  PackString1 (pki r) ;;;
  PackString1 (mainPki r) ;;;
  PackString1 (popappid r) ;;;
  Pack1 PBool (endingSignal r) ;;;
  let* w := Wayback.Serialize true (wb r) in
  let r := r <| wb := w |> in
  let* l := Exploration.Serialize true (explorationList r) in
  mret (r <| explorationList := l |>).

(** A parameter read when its flag is set, left as it was otherwise. *)
Definition unpack_opt {A : Type} (rd : M B A) (old : A) : M B (bool * A) :=
  let* flag := UnPack1 PBool in
  if (flag : bool) then let* v := rd in mret (flag, v) else mret (flag, old).
Definition some_of {A : Type} (rd : M B A) : M B (option A) := let* v := rd in mret (Some v).

(** The flag of the expected CPU speed; when it is set, it is read once more. *)
Definition unpack_flag_twice : M B bool :=
  let* flag := UnPack1 PBool in
  if (flag : bool) then UnPack1 PBool else mret flag.

Definition Request_UnPack (r : Request) : M B Request :=
  let* v := UnPackString1 in
  let r := r <| uniqueId := v |> in
  let* v := UnPack1 PInt in
  let r := r <| maxHops := v |> in
  let* (flag, v) := unpack_opt UnPackString1 (nodeId r) in
  let r := r <| hasNodeIdSet := flag |> <| nodeId := v |> in
  let* (flag, v) := unpack_opt UnPackString1 (operatingSystem r) in
  let r := r <| hasOperatingSystemSet := flag |> <| operatingSystem := v |> in
  let* (flag, v) := unpack_opt (some_of (UnPack1 PInt)) (minCpuSpeed r) in
  let r := r <| hasMinCpuSpeedSet := flag |> <| minCpuSpeed := v |> in
  let* flag := unpack_flag_twice in
  let r := r <| hasExpectedCpuSpeedSet := flag |> in
  let* (flag, v) := unpack_opt (some_of (UnPack1 PFloat)) (minMemorySize r) in
  let r := r <| hasMinMemorySizeSet := flag |> <| minMemorySize := v |> in
  let* (flag, v) := unpack_opt (some_of (UnPack1 PFloat)) (expectedMemorySize r) in
  let r := r <| hasExpectedMemorySizeSet := flag |> <| expectedMemorySize := v |> in
  let* (flag, v) := unpack_opt (some_of (UnPack1 PFloat)) (minNetworkBandwidth r) in
  let r := r <| hasMinNetworkBandwidthSet := flag |> <| minNetworkBandwidth := v |> in
  let* (flag, v) := unpack_opt (some_of (UnPack1 PFloat)) (expectedNetworkBandwidth r) in
  let r := r <| hasExpectedNetworkBandwidthSet := flag |> <| expectedNetworkBandwidth := v |> in
  let* (flag, v) := unpack_opt (some_of (UnPack1 PInt)) (minDiskSpace r) in
  let r := r <| hasMinDiskSpaceSet := flag |> <| minDiskSpace := v |> in
  let* (flag, v) := unpack_opt (some_of (UnPack1 PInt)) (expectedDiskSpace r) in
  let r := r <| hasExpectedDiskSpaceSet := flag |> <| expectedDiskSpace := v |> in
  let* (flag, v) := unpack_opt (some_of (UnPack1 PFloat)) (minPower r) in
  let r := r <| hasMinPowerSet := flag |> <| minPower := v |> in
  let* (flag, v) := unpack_opt (some_of (UnPack1 PFloat)) (expectedPower r) in
  let r := r <| hasExpectedPowerSet := flag |> <| expectedPower := v |> in
  let* (flag, v) := unpack_opt UnPackString1 (protocol r) in
  let r := r <| hasProtocolSet := flag |> <| protocol := v |> in
  let* (flag, v) := unpack_opt UnPackString1 (encoding r) in
  let r := r <| hasEncodingSet := flag |> <| encoding := v |> in
  let* v := UnPackString1 in
  let r := r <| pki := v |> in
  let* v := UnPackString1 in
  let r := r <| mainPki := v |> in
  let* v := UnPackString1 in
  let r := r <| popappid := v |> in
  let* v := UnPack1 PBool in
  let r := r <| endingSignal := v |> in
  let* w := Wayback.Serialize false (wb r) in
  let r := r <| wb := w |> in
  let* l := Exploration.Serialize false (explorationList r) in
  mret (r <| explorationList := l |>).

Definition Serialize (pack : bool) (r : Request) : M B Request :=
  if pack then Request_Pack r else Request_UnPack r.
End Serialize.
End Req.

(** ** Discovery responses *)
Module Resp.
Record Response : Type := MkResponse {
  reqUniqueId : string;
  appid : string;
  foundNodeInfo : NodeInfo.POPCSearchNodeInfo;
  finalExplorationList : Exploration.ExplorationList }.
#[global] Instance Response_eta : Eta Response := λ r,
  MkResponse (reqUniqueId r) (appid r) (foundNodeInfo r) (finalExplorationList r).

Definition response_new : Response := MkResponse "" "" NodeInfo.info_new [].

Definition getReqUniqueId (r : Response) : string := reqUniqueId r.
Definition getFoundNodeInfo (r : Response) : NodeInfo.POPCSearchNodeInfo := foundNodeInfo r.
Definition getPOPAppId (r : Response) : string := appid r.

Section Serialize.
Context {B : Type} `{PopBuffer B}.

Definition Serialize (pack : bool) (r : Response) : M B Response :=
  if pack then
    PackString1 (reqUniqueId r) ;;;
    PackString1 (appid r) ;;;
    let* i := NodeInfo.Serialize true (foundNodeInfo r) in
    let* l := Exploration.Serialize true (finalExplorationList r) in
    mret (r <| foundNodeInfo := i |> <| finalExplorationList := l |>)
  else
    let* v := UnPackString1 in
    let r := r <| reqUniqueId := v |> in
    let* v := UnPackString1 in
    let r := r <| appid := v |> in
    let* i := NodeInfo.Serialize false (foundNodeInfo r) in
    let r := r <| foundNodeInfo := i |> in
    let* l := Exploration.Serialize false (finalExplorationList r) in
    mret (r <| finalExplorationList := l |>).
End Serialize.
End Resp.

(** ** What survives the wire *)
Section Codec.
Context {B : Type} `{PopBufferLaws B}.

Lemma codec_strings_counted (l : list string) :
  Forall string_ok l → codec (mfor l PackString1) () (mtimes (length l) UnPackString1) l.
Proof. intros Hl. apply codec_mfor. eapply Forall_impl; [exact Hl | apply codec_string]. Qed.

(** *** Way back *)
Definition wayback_ok (wb : Wayback.POPWayback) : Prop :=
  Forall string_ok wb ∧ zlen wb ≤ int_max.

Lemma codec_wayback wb wb0 :
  wayback_ok wb → codec (Wayback.Serialize true wb) [] (Wayback.Serialize false wb0) wb.
Proof.
  intros [Hs Hl]. apply codec_size; [done |]. rewrite Nat2Z.id.
  by apply codec_pre with (x := ()), codec_strings_counted.
Qed.

(** *** Exploration list *)
Definition entry_ok (e : string * list string) : Prop :=
  string_ok e.1 ∧ Forall string_ok e.2 ∧ zlen e.2 ≤ int_max.
Definition key_lt (e e' : string * list string) : Prop := String.compare e.1 e'.1 = Lt.

Definition exploration_ok (l : Exploration.ExplorationList) : Prop :=
  StronglySorted key_lt l ∧ Exploration.crtNeighborsPath l ≤ Exploration.NEIGHBORSPATH ∧
  Forall entry_ok l ∧ zlen l ≤ int_max.

Lemma codec_entry e : entry_ok e → codec (Exploration.PackNode e) () Exploration.UnPackNode e.
Proof.
  intros (Hk & Hs & Hl). eapply codec_bind; [by apply codec_string |]. cbv beta.
  apply codec_size; [done |]. rewrite Nat2Z.id.
  apply codec_post with (a := e.2); [by apply codec_strings_counted | by destruct e].
Qed.

Lemma map_insert_last l e :
  Forall (λ e', key_lt e' e) l → Exploration.map_insert e.1 e.2 l = l ++ [e].
Proof.
  induction 1 as [|e' l He Hl IH]; [by destruct e |]. destruct e' as [k' v']. simpl.
  unfold key_lt in He. simpl in He. rewrite String.compare_antisym, He. simpl. by rewrite IH.
Qed.

(** Adding the entries of a list to it in order rebuilds it: no path is dropped on the way. *)
Lemma foldl_addListNode l l0 :
  StronglySorted key_lt (l0 ++ l) →
  Exploration.crtNeighborsPath (l0 ++ l) ≤ Exploration.NEIGHBORSPATH →
  foldl (λ l e, Exploration.addListNode e.1 e.2 l) l0 l = l0 ++ l.
Proof.
  revert l0. induction l as [|e l IH]; intros l0 Hs Hn; [by rewrite app_nil_r |].
  cbn [foldl]. unfold Exploration.addListNode at 2. rewrite map_insert_last.
  - rewrite (proj2 (Z.ltb_ge _ _)).
    + rewrite (cons_middle e l0 l), (assoc_L (++)).
      apply IH; by rewrite <- (assoc_L (++)).
    + unfold Exploration.crtNeighborsPath in *. rewrite !List.filter_app, !length_app in *.
      simpl in *. destruct (Exploration.nonempty e); simpl in *; lia.
  - apply StronglySorted_app in Hs as (Hlt & _ & _).
    apply Forall_forall. intros e' He'. apply Hlt; [done | by left].
Qed.

Lemma codec_exploration l :
  exploration_ok l → codec (Exploration.Serialize true l) l (Exploration.Serialize false []) l.
Proof.
  intros (Hs & Hn & He & Hl). apply codec_size; [done |]. rewrite Nat2Z.id.
  apply codec_pre with (x := ()). apply codec_post with (a := l); [|by apply foldl_addListNode].
  destruct (0 <? zlen l) eqn:E; reflect_bools.
  - apply codec_mfor. eapply Forall_impl; [exact He | apply codec_entry].
  - destruct l; [apply codec_ret | simpl in E; lia].
Qed.

(** *** Node information *)
Definition number_ok {A : Type} (valid : A → bool) (o : option A) : Prop :=
  ∃ v, o = Some v ∧ valid v = true.

Definition info_ok (i : NodeInfo.POPCSearchNodeInfo) : Prop :=
  Forall string_ok [NodeInfo.nodeId i; NodeInfo.operatingSystem i; NodeInfo.protocol i;
                    NodeInfo.encoding i; NodeInfo.pki i] ∧
  Forall (number_ok fvalid)
    [NodeInfo.power i; NodeInfo.memorySize i; NodeInfo.networkBandwidth i] ∧
  Forall (number_ok (in_sint 32)) [NodeInfo.cpuSpeed i; NodeInfo.diskSpace i].

Definition info_received (i : NodeInfo.POPCSearchNodeInfo) : NodeInfo.POPCSearchNodeInfo :=
  i <| NodeInfo.jobmgr := accesspoint_new |>.

Lemma codec_info i :
  info_ok i →
  codec (NodeInfo.Serialize true i) i (NodeInfo.Serialize false NodeInfo.info_new)
    (info_received i).
Proof.
  intros (Hs & Hf & Hz). destruct i; simpl in *.
  repeat match goal with
         | H : Forall _ (_ :: _) |- _ => inversion H; clear H; subst
         | H : number_ok _ _ |- _ => destruct H as (? & -> & ?)
         end.
  unfold NodeInfo.Serialize, info_received; simpl. solve_codec.
Qed.

Lemma codec_infos l :
  Forall info_ok l → zlen l ≤ int_max →
  codec (NodeInfo.SerializeList true l) l (NodeInfo.SerializeList false []) (info_received <$> l).
Proof.
  intros Hl Hn. apply codec_size; [done |]. rewrite Nat2Z.id. apply codec_pre with (x := ()).
  apply codec_post with (a := info_received <$> l); [|done]. clear Hn.
  induction Hl as [|i l Hi Hl IH]; csimpl; [apply codec_ret |].
  eapply codec_bind; [apply codec_pre with (x := i); by apply codec_info |]. cbv beta.
  by apply codec_post with (a := info_received <$> l).
Qed.

(** *** Requests *)
Lemma codec_opt_string flag s :
  (flag = false → s = "") → string_ok s →
  codec (Req.pack_opt flag (Ok s) PackString1) () (Req.unpack_opt UnPackString1 "") (flag, s).
Proof.
  intros Hf Hs. unfold Req.pack_opt, Req.unpack_opt.
  eapply codec_bind; [apply codec_bool |]. cbv beta. destruct flag; [|rewrite Hf by done].
  - eapply codec_lift_w; [done |]. by apply codec_post with (a := s); [apply codec_string |].
  - apply codec_ret.
Qed.

Definition param_ok {A : Type} (valid : A → bool) (p : bool * option A) : Prop :=
  match p.2 with Some v => p.1 = true ∧ valid v = true | None => p.1 = false end.

Lemma codec_opt_val (t : prim) flag (o : option (val t)) :
  t ≠ PLong → t ≠ PULong → param_ok (val_ok t) (flag, o) →
  codec (Req.pack_opt flag (read_member o) (Pack1 t)) ()
    (Req.unpack_opt (Req.some_of (UnPack1 t)) None) (flag, o).
Proof.
  intros H1 H2 Hp. unfold Req.pack_opt, Req.unpack_opt, param_ok, Req.some_of in *. simpl in Hp.
  eapply codec_bind; [apply codec_bool |]. cbv beta. destruct o as [v|]; [|rewrite Hp].
  - destruct Hp as [-> Hv]. eapply codec_lift_w; [done |].
    apply codec_post with (a := Some v); [|done].
    by apply codec_post with (a := v); [apply codec_prim1 |].
  - apply codec_ret.
Qed.

Lemma codec_flag_twice (flag : bool) :
  codec (Req.pack_opt flag (Ok flag) (Pack1 PBool)) () Req.unpack_flag_twice flag.
Proof.
  unfold Req.pack_opt, Req.unpack_flag_twice. eapply codec_bind; [apply codec_bool |]. cbv beta.
  destruct flag; [|apply codec_ret]. eapply codec_lift_w; [done |]. apply codec_bool.
Qed.
End Codec.
#[export] Hint Resolve codec_wayback codec_exploration codec_info codec_opt_string
  codec_flag_twice : codec.
#[export] Hint Extern 1 (codec (Req.pack_opt _ (read_member _) (Pack1 ?t)) _ _ _) =>
  apply (codec_opt_val t) : codec.
#[export] Hint Extern 1 (param_ok _ _) => assumption : codec.
Arguments Wayback.Serialize : simpl never.
Arguments Exploration.Serialize : simpl never.
Arguments NodeInfo.Serialize : simpl never.


(** A request as [init] and the setters leave it: a parameter has a value when its flag is set. *)
Definition request_ok (r : Req.Request) : Prop :=
  Forall string_ok [Req.uniqueId r; Req.popappid r; Req.pki r; Req.mainPki r; Req.nodeId r;
    Req.operatingSystem r; Req.protocol r; Req.encoding r] ∧
  in_sint 32 (Req.maxHops r) = true ∧
  Forall (λ p, p.1 = false → p.2 = "") [(Req.hasNodeIdSet r, Req.nodeId r);
    (Req.hasOperatingSystemSet r, Req.operatingSystem r); (Req.hasProtocolSet r, Req.protocol r);
    (Req.hasEncodingSet r, Req.encoding r)] ∧
  Forall (param_ok (in_sint 32)) [(Req.hasMinCpuSpeedSet r, Req.minCpuSpeed r);
    (Req.hasExpectedCpuSpeedSet r, Req.expectedCpuSpeed r);
    (Req.hasMinDiskSpaceSet r, Req.minDiskSpace r);
    (Req.hasExpectedDiskSpaceSet r, Req.expectedDiskSpace r)] ∧
  Forall (param_ok fvalid) [(Req.hasMinMemorySizeSet r, Req.minMemorySize r);
    (Req.hasExpectedMemorySizeSet r, Req.expectedMemorySize r);
    (Req.hasMinNetworkBandwidthSet r, Req.minNetworkBandwidth r);
    (Req.hasExpectedNetworkBandwidthSet r, Req.expectedNetworkBandwidth r);
    (Req.hasMinPowerSet r, Req.minPower r); (Req.hasExpectedPowerSet r, Req.expectedPower r)] ∧
  wayback_ok (Req.wb r) ∧ exploration_ok (Req.explorationList r).

(** The receiver has everything but the expected CPU speed. *)
Definition request_received (r : Req.Request) : Req.Request := r <| Req.expectedCpuSpeed := None |>.

Lemma codec_request {B : Type} `{PopBufferLaws B} (r : Req.Request) :
  request_ok r →
  codec (Req.Serialize true r) (r <| Req.wb := [] |>) (Req.Serialize false Req.init)
    (request_received r).
Proof.
  intros (Hs & Hh & He & Hz & Hf & Hw & Hx). destruct r; simpl in *.
  repeat match goal with H : Forall _ (_ :: _) |- _ => inversion H; clear H; subst end.
  simpl in *. unfold Req.Serialize, Req.Request_Pack, Req.Request_UnPack; simpl.
  solve_codec.
Qed.

(** *** Responses *)
Definition response_ok (r : Resp.Response) : Prop :=
  string_ok (Resp.reqUniqueId r) ∧ string_ok (Resp.appid r) ∧ info_ok (Resp.foundNodeInfo r) ∧
  exploration_ok (Resp.finalExplorationList r).

Lemma codec_response {B : Type} `{PopBufferLaws B} (r : Resp.Response) :
  response_ok r →
  codec (Resp.Serialize true r) r (Resp.Serialize false Resp.response_new)
    (r <| Resp.foundNodeInfo := info_received (Resp.foundNodeInfo r) |>).
Proof.
  intros (Hi & Ha & Hn & Hx). destruct r; simpl in *. unfold Resp.Serialize; simpl. solve_codec.
Qed.
