(* ===== verification/ExceptionProtocol.v ===== *)
(** * Exceptions across the network

    [pop_buffer::SendException] and [pop_buffer::CheckAndThrow] (lib/core/buffer.cc): the value a
    remote method throws is sent in a message of type TYPE_EXCEPTION whose code names the type of
    the value, and thrown again by the caller.

    The marshalling of an interface object is a parameter, as it is a virtual method of
    [pop_base]. *)

From S2P Require Import Prelude Machine Buffer Exceptions Message.

Definition EXCEPTION_INT : Z := 1.
Definition EXCEPTION_UINT : Z := 2.
Definition EXCEPTION_LONG : Z := 3.
Definition EXCEPTION_ULONG : Z := 4.
Definition EXCEPTION_SHORT : Z := 5.
Definition EXCEPTION_USHORT : Z := 6.
Definition EXCEPTION_BOOL : Z := 7.
Definition EXCEPTION_CHAR : Z := 8.
Definition EXCEPTION_UCHAR : Z := 9.
Definition EXCEPTION_FLOAT : Z := 11.
Definition EXCEPTION_DOUBLE : Z := 12.
Definition EXCEPTION_STRING : Z := 10.
Definition EXCEPTION_OBJECT : Z := 13.
Definition EXCEPTION_POPC_STD : Z := 14.

(** The values a method can throw: those of the types above, C strings ([None] is a null pointer),
    runtime exceptions and interface objects. *)
Inductive thrown (I : Type) : Type :=
  | ThrPrim (t : prim) (v : val t)
  | ThrString (s : option (list byte))
  | ThrStd (e : pop_exception)
  | ThrObject (o : I).
Arguments ThrPrim {I} t v.
Arguments ThrString {I} s.
Arguments ThrStd {I} e.
Arguments ThrObject {I} o.

Section Protocol.
Context {B : Type} `{PopTransport B}.
Context {I : Type} (interface_Serialize : bool → I → M B I) (interface_new : I).

(** ** Sending *)
Section Sending.
Context {S : Type} (cb : combox S).

(** The macro SEND_EXCEPTION, with what is packed as a parameter. *)
Definition SEND_EXCEPTION {X : Type} (x : Z) (w : M B X) (except : B) (s : S) :
    result (bool * B * S) :=
  let tmp := header_exception x (hdr_methodname (GetHeader except)) in
  let! r := w (SetHeader tmp (Reset except)) in
  Send cb r.2 s.

Definition SendException_int (code : val PInt) : B → S → result (bool * B * S) :=
  SEND_EXCEPTION EXCEPTION_INT (Pack1 PInt code).
Definition SendException_uint (code : val PUInt) : B → S → result (bool * B * S) :=
  SEND_EXCEPTION EXCEPTION_UINT (Pack1 PUInt code).
Definition SendException_long (code : val PLong) : B → S → result (bool * B * S) :=
  SEND_EXCEPTION EXCEPTION_LONG (Pack1 PLong code).
Definition SendException_ulong (code : val PULong) : B → S → result (bool * B * S) :=
  SEND_EXCEPTION EXCEPTION_ULONG (Pack1 PULong code).
Definition SendException_short (code : val PShort) : B → S → result (bool * B * S) :=
  SEND_EXCEPTION EXCEPTION_SHORT (Pack1 PShort code).
Definition SendException_ushort (code : val PUShort) : B → S → result (bool * B * S) :=
  SEND_EXCEPTION EXCEPTION_USHORT (Pack1 PUShort code).
Definition SendException_bool (code : val PBool) : B → S → result (bool * B * S) :=
  SEND_EXCEPTION EXCEPTION_BOOL (Pack1 PBool code).
Definition SendException_char (code : val PChar) : B → S → result (bool * B * S) :=
  SEND_EXCEPTION EXCEPTION_CHAR (Pack1 PChar code).
Definition SendException_uchar (code : val PUChar) : B → S → result (bool * B * S) :=
  SEND_EXCEPTION EXCEPTION_UCHAR (Pack1 PUChar code).
Definition SendException_float (code : val PFloat) : B → S → result (bool * B * S) :=
  SEND_EXCEPTION EXCEPTION_FLOAT (Pack1 PFloat code).
Definition SendException_double (code : val PDouble) : B → S → result (bool * B * S) :=
  SEND_EXCEPTION EXCEPTION_DOUBLE (Pack1 PDouble code).

(** A C string, with its NUL; a null pointer is an empty array. *)
Definition pack_c_string (code : option (list byte)) : M B () :=
  let* len := mlift (match code with
                     | None => Ok 0
                     | Some str =>
                         match c_string str with
                         | Some cs => check_int (zlen cs + 1)
                         | None => Stuck
                         end
                     end) in
  Pack1 PInt len ;;;
  Pack PChar (default [] code) len.

Definition SendException_string (code : option (list byte)) : B → S → result (bool * B * S) :=
  SEND_EXCEPTION EXCEPTION_STRING (pack_c_string code).
Definition SendException_std (code : pop_exception) : B → S → result (bool * B * S) :=
  SEND_EXCEPTION EXCEPTION_POPC_STD (exception_Serialize true code).
Definition SendException_object (code : I) : B → S → result (bool * B * S) :=
  SEND_EXCEPTION EXCEPTION_OBJECT (interface_Serialize true code).

(** Overload resolution; there is no overload for [signed char]. *)
Definition SendException (x : thrown I) : option (B → S → result (bool * B * S)) :=
  match x with
  | ThrPrim PInt v => Some (SendException_int v)
  | ThrPrim PUInt v => Some (SendException_uint v)
  | ThrPrim PLong v => Some (SendException_long v)
  | ThrPrim PULong v => Some (SendException_ulong v)
  | ThrPrim PShort v => Some (SendException_short v)
  | ThrPrim PUShort v => Some (SendException_ushort v)
  | ThrPrim PBool v => Some (SendException_bool v)
  | ThrPrim PChar v => Some (SendException_char v)
  | ThrPrim PUChar v => Some (SendException_uchar v)
  | ThrPrim PFloat v => Some (SendException_float v)
  | ThrPrim PDouble v => Some (SendException_double v)
  | ThrPrim PSChar _ => None
  | ThrString s => Some (SendException_string s)
  | ThrStd e => Some (SendException_std e)
  | ThrObject o => Some (SendException_object o)
  end.
End Sending.

(** ** Receiving *)
Definition rethrow (t : prim) : M B (option (thrown I)) :=
  let* v := UnPack1 t in mret (Some (ThrPrim t v)).

(** The [switch]: how the value of a message of code [code] is read. *)
Definition throw_case (code : Z) : M B (option (thrown I)) :=
  if code =? EXCEPTION_INT then rethrow PInt
  else if code =? EXCEPTION_UINT then rethrow PUInt
  else if code =? EXCEPTION_LONG then rethrow PLong
  else if code =? EXCEPTION_ULONG then rethrow PULong
  else if code =? EXCEPTION_SHORT then rethrow PShort
  else if code =? EXCEPTION_USHORT then rethrow PUShort
  else if code =? EXCEPTION_BOOL then rethrow PBool
  else if code =? EXCEPTION_CHAR then rethrow PChar
  else if code =? EXCEPTION_UCHAR then rethrow PUChar
  else if code =? EXCEPTION_STRING then
    let* len := UnPack1 PInt in
    if len <=? 0 then mret (Some (ThrString None))
    else let* t := UnPack PChar len in mret (Some (ThrString (Some t)))
  else if code =? EXCEPTION_FLOAT then rethrow PFloat
  else if code =? EXCEPTION_DOUBLE then rethrow PDouble
  else if code =? EXCEPTION_POPC_STD then
    let* t := exception_Serialize false (MkException 0 "") in mret (Some (ThrStd t))
  else if code =? EXCEPTION_OBJECT then
    let* t := interface_Serialize false interface_new in mret (Some (ThrObject t))
  else mlift (pop_throw_reason "Unknown exception in pop_buffer::CheckAndThrow").

(** The value thrown, [None] when the message is no exception and the method returns. *)
Definition CheckAndThrow : M B (option (thrown I)) := λ except,
  let h := GetHeader except in
  if negb (hdr_type h =? TYPE_EXCEPTION) then Ok (None, except)
  else
    let! code := read_member (hdr_exception h) in
    throw_case code except.
End Protocol.

(** ** What is thrown on one side is thrown on the other *)
Section RoundTrip.
Context {B : Type} `{PopTransport B}.
Context {I : Type} (interface_Serialize : bool → I → M B I) (interface_new : I).

(** A C string as [strlen] delimits it. *)
Definition c_string_ok (str : list byte) : Prop :=
  ∃ cs, str = cs ++ [x00] ∧ (x00 ∉ cs) ∧ zlen str ≤ int_max.

(** Values of the exception types, with the restrictions of the encodings. *)
Definition deliverable (x : thrown I) : Prop :=
  match x with
  | ThrPrim t v => t ≠ PLong ∧ t ≠ PULong ∧ t ≠ PSChar ∧ val_ok t v = true
  | ThrString None => True
  | ThrString (Some str) => c_string_ok str
  | ThrStd e => exception_ok e
  | ThrObject o =>
      ∃ o', codec (interface_Serialize true o) o' (interface_Serialize false interface_new) o
  end.

Lemma codec_rethrow t (v : val t) :
  t ≠ PLong → t ≠ PULong → val_ok t v = true →
  codec (Pack1 t v) () (rethrow (I := I) t) (Some (ThrPrim t v)).
Proof. intros. by apply codec_post with (a := v); [apply codec_prim1 |]. Qed.

Lemma codec_c_string o :
  deliverable (ThrString o) →
  codec (pack_c_string o) ()
    (throw_case interface_Serialize interface_new EXCEPTION_STRING) (Some (ThrString o)).
Proof.
  intros Ho. destruct o as [str|].
  - destruct Ho as (cs & -> & Hcs & Hl). unfold pack_c_string, throw_case; simpl.
    rewrite zlen_app in Hl. unfold int_max in Hl. simpl in Hl.
    rewrite (c_string_app cs []) by done.
    eapply codec_lift_w; [apply check_int_Ok, in_sint32; lia |].
    eapply codec_bind; [apply codec_int, in_sint32; lia |]. cbv beta.
    rewrite (proj2 (Z.leb_gt _ 0)) by lia.
    apply codec_post with (a := cs ++ [x00]); [|done].
    apply (codec_prims PChar); try done.
    + rewrite zlen_app. unfold int_max. simpl. lia.
    + by apply Forall_true.
    + by rewrite zlen_app.
  - unfold pack_c_string, throw_case; simpl. eapply codec_lift_w; [done |].
    eapply codec_bind; [by apply codec_int |]. cbv beta. simpl.
    exists []. split; [|apply reads_ret]. intros b. rewrite Pack_none.
    exact (writes_ret () b).
Qed.

(** The message [SendException] prepares and the case that reads it. *)
Lemma codec_thrown {S : Type} (cb : combox S) x send :
  deliverable x → SendException interface_Serialize cb x = Some send →
  ∃ X (w : M B X) y code, send = SEND_EXCEPTION cb code w ∧ in_sint 32 code = true ∧
    codec w y (throw_case interface_Serialize interface_new code) (Some x).
Proof.
  intros Hx Hs. destruct x as [t v|o|e|o].
  - destruct Hx as (Hl & Hu & Hn & Hv). pose proof (codec_rethrow t v Hl Hu Hv) as Hc.
    destruct t; try done; simplify_eq/=; eexists _, _, (), _; (split; [reflexivity |]);
      (split; [reflexivity |]); exact Hc.
  - simplify_eq/=. eexists _, _, (), _. split; [reflexivity |]. split; [done |].
    by apply codec_c_string.
  - simplify_eq/=. eexists _, _, e, _. split; [reflexivity |]. split; [done |].
    apply codec_post with (a := e); [by apply codec_exception | done].
  - destruct Hx as [o' Ho]. simplify_eq/=. eexists _, _, o', _. split; [reflexivity |].
    split; [done |]. by apply codec_post with (a := o).
Qed.

Lemma exception_transport {S : Type} (cb : combox S) `{!ComboxStream cb} `{!ComboxChannel cb}
    x send (except except' b0 : B) s s1 :
  deliverable x → SendException interface_Serialize cb x = Some send →
  header_ranged (GetHeader except) → incoming s = [] → send except s = Ok (true, except', s1) →
  ∃ b s2 b', Recv cb b0 s1 = Ok (true, b, s2) ∧ incoming s2 = [] ∧
    CheckAndThrow interface_Serialize interface_new b = Ok (Some x, b') ∧ unread b' = [].
Proof.
  intros Hx Hs Hr Hin Hsend.
  destruct (codec_thrown cb x send Hx Hs) as (X & w & y & code & -> & Hc & Hcodec).
  unfold SEND_EXCEPTION in Hsend. apply rbind_Ok in Hsend as ([y' b1] & Hw & Hsend).
  simpl in Hsend. set (h := header_exception _ _) in Hw.
  assert (Hh : GetHeader b1 = header_assign (GetHeader except) h).
  { destruct Hcodec as (bs & W & _). destruct (proj2 (W _) _ _ Hw) as (_ & _ & _ & -> & _).
    destruct (SetHeader_ok h (Reset except)) as (_ & _ & -> & _ & _).
    by destruct (SetHeader_ok h except) as (_ & _ & _ & -> & _). }
  assert (Hb1 : header_ranged (GetHeader b1)).
  { rewrite Hh. apply header_assign_ranged; [done |]. repeat constructor; done. }
  destruct (call_transport cb w y (throw_case interface_Serialize interface_new code) (Some x) h except b0 b1 except' y' s s1) as
    (b & s2 & b' & E & Hs2 & Ha & Hread & Hu); try done.
  exists b, s2, b'. split_and!; try done. unfold CheckAndThrow.
  destruct Ha as (Ht & _ & _ & He). rewrite Hh in Ht, He. cbn in Ht, He.
  rewrite <- Ht, <- He by done. done.
Qed.
End RoundTrip.
