(* ===== verification/Utils.v ===== *)
(** * Common tools

    The string functions of [pop_utils] (lib/dynamic/utils.cc): command line options, comparisons,
    wildcards, contacts and names. A C string is the list of its characters, without the NUL. *)

From S2P Require Import Prelude Machine.

Abbreviation chars := (list byte).

(** ** Command line

    [strncmp(arg, opt, strlen(opt)) == 0] and what follows the option. *)
Fixpoint strip_prefix (opt arg : chars) : option chars :=
  match opt, arg with
  | [], _ => Some arg
  | o :: opt', a :: arg' => if decide (o = a) then strip_prefix opt' arg' else None
  | _ :: _, [] => None
  end.

Definition starts_with (opt arg : chars) : bool :=
  match strip_prefix opt arg with Some _ => true | None => false end.

(** [checkremove]: the arguments that start with [opt] are taken out of [argv]; the result is the
    rest of the last of them. [fuel] bounds the turns of the loop, one per argument. *)
Fixpoint checkremove_loop (fuel i : nat) (argv : list chars) (opt : chars) (ret : option chars) :
    list chars * option chars :=
  match fuel with
  | O => (argv, ret)
  | S fuel' =>
      match argv !! i with
      | None => (argv, ret)
      | Some a =>
          match strip_prefix opt a with
          | Some rest => checkremove_loop fuel' i (delete i argv) opt (Some rest)
          | None => checkremove_loop fuel' (S i) argv opt ret
          end
      end
  end.

Definition checkremove (argv : list chars) (opt : chars) : list chars * option chars :=
  checkremove_loop (length argv) 0 argv opt None.

Definition check_remove (argv : list chars) (opt : chars) : list chars * bool :=
  let '(argv, ret) := checkremove argv opt in
  (argv, match ret with Some _ => true | None => false end).

(** ** Comparisons

    [isEqual] on two pointers, [None] for a null one. *)
Fixpoint isEqual_loop (s1 s2 : chars) : bool :=
  match s1, s2 with
  | c1 :: s1', c2 :: s2' => if decide (c1 = c2) then isEqual_loop s1' s2' else false
  | [], [] => true
  | _, _ => false
  end.

Definition isEqual (s1 s2 : option chars) : bool :=
  match s1, s2 with
  | None, None => true
  | Some s1, Some s2 => isEqual_loop s1 s2
  | _, _ => false
  end.

Definition upper (c : byte) : byte :=
  let v := byte_val c in if (97 <=? v) && (v <=? 122) then byte_of (v - 32) else c.

Fixpoint isncaseEqual_loop (s1 s2 : chars) : bool :=
  match s1, s2 with
  | c1 :: s1', c2 :: s2' =>
      if decide (upper c1 = upper c2) then isncaseEqual_loop s1' s2' else false
  | [], [] => true
  | _, _ => false
  end.

(** Two distinct string objects. *)
Definition isncaseEqual (s1 s2 : chars) : bool :=
  match s1, s2 with
  | [], _ | _, [] => false
  | _, _ => isncaseEqual_loop s1 s2
  end.

(** ** Wildcards *)

Definition star : byte := x2a.
Definition question : byte := x3f.

(** The first loop: a common prefix is skipped, up to a '*' of the pattern. *)
Fixpoint skip_prefix (pstr pwil : chars) : chars * chars :=
  match pstr, pwil with
  | s :: pstr', w :: pwil' =>
      if decide (s = w ∨ w = question) then
        if decide (w = star) then (pstr, pwil) else skip_prefix pstr' pwil'
      else (pstr, pwil)
  | _, _ => (pstr, pwil)
  end.

Fixpoint skip_stars (pwil : chars) : chars :=
  match pwil with
  | w :: pwil' => if decide (w = star) then skip_stars pwil' else pwil
  | [] => []
  end.

(** The second loop tries every place where the next character of the pattern occurs;
    [match_rest] is the recursive call. *)
Fixpoint try_places (match_rest : chars → chars → bool) (w : byte) (pwil : chars) (t : chars) :
    bool :=
  match t with
  | [] => false
  | c :: t' =>
      if decide (c = w ∨ w = question) then
        if match_rest t' pwil then true else try_places match_rest w pwil t'
      else try_places match_rest w pwil t'
  end.

(** The recursive calls are on shorter strings: [fuel] counts them down. *)
Fixpoint MatchWildcard_fuel (fuel : nat) (str wildcard : chars) : bool :=
  match fuel with
  | O => false
  | S fuel' =>
      if decide (str = wildcard) then true
      else if decide (str = [] ∨ wildcard = []) then false
      else
        let '(pstr, pwil) := skip_prefix str wildcard in
        match pwil with
        | [] => bool_decide (pstr = [])
        | w :: _ =>
            if decide (w = star) then
              match skip_stars pwil with
              | [] => true
              | w' :: pwil' => try_places (MatchWildcard_fuel fuel') w' pwil' pstr
              end
            else false
        end
  end.

Definition MatchWildcard (str wildcard : chars) : bool :=
  MatchWildcard_fuel (S (length str)) str wildcard.

(** ** Contacts, addresses, names *)

(** [strstr]: whether [needle] occurs in [hay]. *)
Fixpoint strstr (hay needle : chars) : bool :=
  match strip_prefix needle hay with
  | Some _ => true
  | None => match hay with [] => false | _ :: hay' => strstr hay' needle end
  end.

(** [popc_tokenize_r]: the non-empty pieces between separators. *)
Fixpoint tokens (seps : list byte) (s cur : chars) : list chars :=
  match s with
  | [] => match cur with [] => [] | _ => [cur] end
  | c :: s' =>
      if decide (c ∈ seps) then
        match cur with [] => tokens seps s' [] | _ => cur :: tokens seps s' [] end
      else tokens seps s' (cur ++ [c])
  end.

Definition SameContact (contact1 contact2 : chars) : bool :=
  strstr contact1 contact2 || strstr contact2 contact1 ||
  existsb (λ token, strstr contact1 token) (tokens [x20; x0a; x0d; x09] contact2 []).

Definition isdigit (c : byte) : bool := (48 <=? byte_val c) && (byte_val c <=? 57).
Definition isalpha (c : byte) : bool :=
  ((65 <=? byte_val c) && (byte_val c <=? 90)) || ((97 <=? byte_val c) && (byte_val c <=? 122)).

(** [ip.find(".", pos)]. *)
Fixpoint find_from (c : byte) (s : chars) (pos : nat) : option nat :=
  match s with
  | [] => None
  | x :: s' =>
      match pos with
      | O => if decide (x = c) then Some O else S <$> find_from c s' O
      | S pos' => S <$> find_from c s' pos'
      end
  end.

(** [find] of a text: the first position. *)
Fixpoint find_str (needle hay : chars) : option nat :=
  match strip_prefix needle hay with
  | Some _ => Some O
  | None => match hay with [] => None | _ :: hay' => S <$> find_str needle hay' end
  end.

(** [dot + 1] wraps to 0 when [dot] is [npos]. *)
Definition after (dot : option nat) : nat := match dot with Some d => S d | None => O end.

Definition isIPv4Address (ip : chars) : bool :=
  if 15 <? zlen ip then false
  else
    let dot1 := find_from x2e ip 0 in
    let dot2 := find_from x2e ip (after dot1) in
    let dot3 := find_from x2e ip (after dot2) in
    match dot1, dot2, dot3 with
    | Some _, Some _, Some _ => forallb (λ c, bool_decide (c = x2e) || isdigit c) ip
    | _, _, _ => false
    end.

Definition isValidName (checked : chars) : bool :=
  forallb (λ c, bool_decide (c = x5f) || isdigit c || isalpha c) checked.

(** [atoi]: blanks, a sign, digits; out of the range of [int] it is undefined. *)
Fixpoint digits_value (acc : Z) (s : chars) : Z :=
  match s with
  | c :: s' => if isdigit c then digits_value (10 * acc + (byte_val c - 48)) s' else acc
  | [] => acc
  end.

Fixpoint skip_blanks (s : chars) : chars :=
  match s with
  | c :: s' => if decide (c ∈ [x20; x09; x0a; x0b; x0c; x0d]) then skip_blanks s' else s
  | [] => []
  end.

(** The number at the start of a text, as [strtol] reads it; [atoi] and [atol] give it as an [int]
    and as a [long]. *)
Definition number_of (s : chars) : Z :=
  match skip_blanks s with
  | c :: s' => if decide (c = x2d) then - digits_value 0 s' else if decide (c = x2b) then digits_value 0 s' else digits_value 0 (c :: s')
  | [] => 0
  end.
Definition atoi (s : chars) : result Z := check_int (number_of s).
Definition atol (s : chars) : result Z := if in_sint 64 (number_of s) then Ok (number_of s) else Stuck.

(** What follows the last ':' of the URL, all of it when there is none. *)
Fixpoint after_last (c : byte) (s : chars) : chars :=
  match s with
  | [] => []
  | x :: s' => if decide (c ∈ s') then after_last c s' else if decide (x = c) then s' else s
  end.

Definition GetPortFromURL (url : chars) : result Z := atoi (after_last x3a url).

(** [snprintf("%s:%d")] into 256 characters; a port of no more than zero is left out. *)
Fixpoint digits_of (fuel : nat) (n : Z) (acc : chars) : chars :=
  match fuel with
  | O => acc
  | S fuel' =>
      let acc := byte_of (48 + n mod 10) :: acc in
      if n / 10 =? 0 then acc else digits_of fuel' (n / 10) acc
  end.
(** The text of an [int], as [%d]. *)
Definition decimal (n : Z) : chars :=
  if n <? 0 then x2d :: digits_of 10 (- n) [] else digits_of 10 n [].
(** The text of a [long]. *)
Definition decimal_long (n : Z) : chars :=
  if n <? 0 then x2d :: digits_of 19 (- n) [] else digits_of 19 n [].

Definition MakeContact (host : chars) (port : Z) : chars :=
  if port <=? 0 then host
  else take 255 (host ++ x3a :: digits_of 10 port []).

(** ** What a wildcard means *)

Inductive glob : chars → chars → Prop :=
  | glob_nil : glob [] []
  | glob_char c s p : c ≠ star → glob s p → glob (c :: s) (c :: p)
  | glob_any c s p : glob s p → glob (c :: s) (question :: p)
  | glob_star s p : glob s p → glob s (star :: p)
  | glob_star_more c s p : glob s (star :: p) → glob (c :: s) (star :: p).

Lemma glob_refl s : glob s s.
Proof.
  induction s as [|c s IH]; [constructor |]. destruct (decide (c = star)) as [->|Hc].
  - by apply glob_star_more, glob_star.
  - by apply glob_char.
Qed.

(** A character of the pattern that is no star takes one character. *)
Lemma glob_cons w s p : w ≠ star →
  glob s (w :: p) ↔ ∃ c s', s = c :: s' ∧ (c = w ∨ w = question) ∧ glob s' p.
Proof.
  intros Hw. split.
  - intros H. inversion H; subst; try done; eauto 6.
  - intros (c & s' & -> & Hc & H). destruct (decide (w = question)) as [->|Hq].
    + by apply glob_any.
    + destruct Hc as [-> |]; [by apply glob_char | done].
Qed.

Lemma glob_star_suffix s p : glob s (star :: p) ↔ ∃ u v, s = u ++ v ∧ glob v p.
Proof.
  split.
  - remember (star :: p) as q eqn:Eq. intros H. revert Eq. induction H; intros; simplify_eq/=.
    + by exists [], s.
    + destruct IHglob as (u & v & -> & Hv); [done |]. by exists (c :: u), v.
  - intros (u & v & -> & Hv). induction u as [|c u IH]; simpl; by constructor.
Qed.

Lemma skip_prefix_spec s w s' w' :
  skip_prefix s w = (s', w') →
  (glob s w ↔ glob s' w') ∧ (∃ v, w = v ++ w') ∧ (∃ u, s = u ++ s') ∧
  (w' = [] ∨ s' = [] ∨ ∃ c x y z, s' = c :: y ∧ w' = x :: z ∧
     (x = star ∨ ¬ (c = x ∨ x = question))).
Proof.
  revert w. induction s as [|c s IH]; intros w H.
  { destruct w; simplify_eq/=; split_and!; eauto; by exists []. }
  destruct w as [|x w]; [simplify_eq/=; split_and!; eauto; by exists [] |].
  simpl in H. destruct (decide (c = x ∨ x = question)) as [Hm|Hm].
  - destruct (decide (x = star)) as [->|Hx].
    + simplify_eq/=. split_and!; [done | by exists [] | by exists [] | right; right].
      exists c, star, s, w. auto.
    + destruct (IH w H) as (Hg & [v ->] & [u ->] & Hend). split_and!; [| | |done].
      * rewrite <- Hg, glob_cons by done. split; [|intros Ht; by exists c, (u ++ s')].
        intros (c' & t & [= <- <-] & _ & Ht). exact Ht.
      * by exists (x :: v).
      * by exists (c :: u).
  - simplify_eq/=. split_and!; [done | by exists [] | by exists [] | right; right].
    exists c, x, s, w. auto.
Qed.

Lemma skip_stars_spec p :
  (∀ s, glob s (star :: p) ↔ glob s (star :: skip_stars p)) ∧ (∃ v, p = v ++ skip_stars p) ∧
  head (skip_stars p) ≠ Some star.
Proof.
  induction p as [|w p (Hg & [v Hv] & Hh)]; simpl; [split_and!; [done | by exists [] | done] |].
  case_decide as Hw; [subst w | split_and!; [done | by exists [] | by intros [= ->]]].
  split_and!; [| exists (star :: v); simpl; by f_equal | done].
  intros s. rewrite <- Hg. rewrite !glob_star_suffix. split.
  - intros (u & t & -> & Ht). apply glob_star_suffix in Ht as (u' & t' & -> & Ht).
    exists (u ++ u'), t'. by rewrite <- app_assoc.
  - intros (u & t & -> & Ht). exists u, t. split; [done | by apply glob_star].
Qed.

Lemma try_places_spec f w p t :
  try_places f w p t = true ↔
  ∃ u c v, t = u ++ c :: v ∧ (c = w ∨ w = question) ∧ f v p = true.
Proof.
  induction t as [|x t IH]; simpl.
  { split; [done |]. intros ([] & ? & ? & ? & _); done. }
  assert (Hx : try_places f w p t = true →
    ∃ u c v, x :: t = u ++ c :: v ∧ (c = w ∨ w = question) ∧ f v p = true).
  { intros H. apply IH in H as (u & c & v & -> & H). by exists (x :: u), c, v. }
  split.
  - case_decide; [destruct (f t p) eqn:E; [intros _; by exists [], x, t | exact Hx] | exact Hx].
  - intros (u & c & v & E & Hc & Hf). destruct u as [|y u]; simplify_eq/=.
    + by rewrite decide_True, Hf by done.
    + assert (try_places f w p (u ++ c :: v) = true) as -> by (apply IH; by exists u, c, v).
      by repeat case_match.
Qed.

Lemma glob_nil_r s : glob s [] ↔ s = [].
Proof. split; [by inversion 1 | intros ->; constructor]. Qed.

(** A pattern that matches the empty string is made of stars. *)
Lemma glob_nil_l p : glob [] p → p = [] ∨ last p = Some star.
Proof.
  remember [] as s eqn:Es. induction 1; simplify_eq/=; [by left | right].
  destruct IHglob as [-> | Hl]; [done | done |]. destruct p; [done | exact Hl].
Qed.

Lemma last_suffix {A : Type} (v p : list A) : p ≠ [] → last (v ++ p) = last p.
Proof.
  intros Hp. rewrite last_app. destruct (last p) eqn:E; [done |]. by apply last_None in E.
Qed.

Lemma MatchWildcard_fuel_sound fuel s w : MatchWildcard_fuel fuel s w = true → glob s w.
Proof.
  revert s w. induction fuel as [|fuel IH]; intros s w; [done |]. simpl.
  case_decide; [intros _; subst; apply glob_refl |]. case_decide; [done |].
  destruct (skip_prefix s w) as [s' w'] eqn:E. destruct (skip_prefix_spec _ _ _ _ E) as (-> & _).
  destruct w' as [|x w']; [intros Hb; apply bool_decide_eq_true in Hb as ->; constructor |].
  case_decide as Hx; [subst x | done]. simpl. rewrite ?decide_True by done.
  destruct (skip_stars_spec w') as (-> & _ & Hh). destruct (skip_stars w') as [|y p].
  - intros _. apply glob_star_suffix. exists s', []. rewrite app_nil_r. split; [done | constructor].
  - intros Ht. apply try_places_spec in Ht as (u & c & v & -> & Hc & Hf).
    apply glob_star_suffix. exists u, (c :: v). split; [done |].
    apply glob_cons; [by intros -> |]. eauto 6.
Qed.

Lemma MatchWildcard_fuel_complete fuel s w :
  (length s < fuel)%nat → last w ≠ Some star → glob s w → MatchWildcard_fuel fuel s w = true.
Proof.
  revert s w. induction fuel as [|fuel IH]; intros s w Hfuel Hl Hg; [lia |]. simpl.
  case_decide as Heq; [done |]. case_decide as He.
  { exfalso. destruct He as [-> | ->].
    - by apply glob_nil_l in Hg as [-> | ].
    - by apply glob_nil_r in Hg as ->. }
  destruct (skip_prefix s w) as [s' w'] eqn:E.
  destruct (skip_prefix_spec _ _ _ _ E) as (Hg' & [v ->] & [u ->] & Hend).
  apply Hg' in Hg. clear Hg' E. destruct w' as [|x w'].
  { apply glob_nil_r in Hg as ->. done. }
  assert (x = star) as ->.
  { destruct (decide (x = star)) as [|Hx]; [done | exfalso].
    apply glob_cons in Hg as (c & t & -> & Hc & _); [|done].
    destruct Hend as [| [| (? & ? & ? & ? & ? & ? & [|])]]; simplify_eq; tauto. }
  rewrite ?decide_True by done. simpl. rewrite ?decide_True by done.
  destruct (skip_stars_spec w') as (Hs & [v' Hv'] & Hh). apply Hs in Hg.
  destruct (skip_stars w') as [|y p]; [done |].
  apply glob_star_suffix in Hg as (u' & t & -> & Ht).
  apply glob_cons in Ht as (c & t' & -> & Hc & Ht); [|by intros ->].
  apply try_places_spec. exists u', c, t'. split_and!; [done | done |]. apply IH; [| | done].
  - rewrite !length_app in Hfuel. simpl in Hfuel. lia.
  - destruct p as [|z p]; [done |]. intros Hp. apply Hl. rewrite Hv'.
    rewrite (last_suffix v) by done. change (star :: v' ++ y :: z :: p) with ((star :: v') ++ [y] ++ z :: p).
    by rewrite !last_suffix.
Qed.

(** [MatchWildcard] never accepts a string its pattern does not describe ('*' any characters,
    '?' one), and accepts every one it does describe when the pattern does not end in a star. *)
Theorem MatchWildcard_correct (s w : chars) :
  (MatchWildcard s w = true → glob s w) ∧
  (last w ≠ Some star → glob s w → MatchWildcard s w = true).
Proof.
  split; [apply MatchWildcard_fuel_sound |].
  intros. apply MatchWildcard_fuel_complete; [lia | done | done].
Qed.

(** After a first star, a final star must take a character: "ab" is described by "*b*" and
    refused, although "ab*" accepts it. *)
Theorem MatchWildcard_final_star :
  glob [x61; x62] [star; x62; star] ∧ MatchWildcard [x61; x62] [star; x62; star] = false ∧
  MatchWildcard [x61; x62] [x61; x62; star] = true.
Proof.
  split_and!; [| by vm_compute | by vm_compute].
  apply glob_star_more, glob_star, glob_char; [done |]. apply glob_star. constructor.
Qed.

Lemma checkremove_loop_spec fuel i argv opt ret :
  (i ≤ length argv ≤ i + fuel)%nat →
  checkremove_loop fuel i argv opt ret
  = (take i argv ++ List.filter (λ a, negb (starts_with opt a)) (drop i argv),
     match last (omap (strip_prefix opt) (drop i argv)) with Some r => Some r | None => ret end).
Proof.
  revert i argv ret. induction fuel as [|fuel IH]; intros i argv ret Hi.
  - rewrite drop_ge, take_ge by lia. simpl. by rewrite app_nil_r.
  - cbn [checkremove_loop]. destruct (argv !! i) as [a|] eqn:Ea.
    + pose proof (lookup_lt_Some _ _ _ Ea) as Hlt.
      rewrite (drop_S _ a i) by done. cbn [List.filter omap list_omap].
      assert (Hs : starts_with opt a = bool_decide (is_Some (strip_prefix opt a)))
        by (unfold starts_with; by destruct (strip_prefix opt a)).
      rewrite Hs. clear Hs. destruct (strip_prefix opt a) as [r|]; cbn [negb bool_decide].
      * assert (Ed : delete i argv = take i argv ++ drop (S i) argv) by apply delete_take_drop.
        assert (Hlen : length (take i argv) = i) by (rewrite length_take; lia).
        rewrite IH by (rewrite Ed, length_app, length_drop; lia).
        rewrite Ed, take_app_len, drop_app_len by done.
        rewrite last_cons. by destruct (last _).
      * rewrite IH by lia. by rewrite (take_S_r _ _ a), <- app_assoc.
    + apply lookup_ge_None in Ea. rewrite drop_ge, take_ge by lia. simpl. by rewrite app_nil_r.
Qed.

(** [checkremove] ends with exactly the arguments that do not start with the option, in their
    order, and returns what follows the option in the last argument that did. *)
Theorem checkremove_correct argv opt :
  checkremove argv opt
  = (List.filter (λ a, negb (starts_with opt a)) argv,
     last (omap (strip_prefix opt) argv)).
Proof.
  unfold checkremove. rewrite checkremove_loop_spec by lia. rewrite drop_0, take_0. simpl.
  by destruct (last _).
Qed.

Lemma isEqual_loop_correct s1 s2 : isEqual_loop s1 s2 = true ↔ s1 = s2.
Proof.
  revert s2. induction s1 as [|c s1 IH]; intros [|d s2]; simpl; try done.
  case_decide; [subst; rewrite IH; split; congruence | split; congruence].
Qed.

Lemma isncaseEqual_loop_correct s1 s2 :
  isncaseEqual_loop s1 s2 = true ↔ upper <$> s1 = upper <$> s2.
Proof.
  revert s2. induction s1 as [|c s1 IH]; intros [|d s2]; csimpl; try done.
  case_decide as E; [rewrite IH, E; split; congruence | split; congruence].
Qed.

(** *** Contacts *)

Lemma digit_byte d : 0 ≤ d < 10 → byte_val (byte_of (48 + d)) = 48 + d.
Proof. intros Hd. rewrite byte_val_of. apply Z.mod_small. lia. Qed.

Lemma isdigit_digit d : 0 ≤ d < 10 → isdigit (byte_of (48 + d)) = true.
Proof. intros Hd. unfold isdigit. rewrite digit_byte by done. apply andb_true_iff. lia. Qed.

Lemma digits_value_app acc s t : Forall (λ c, isdigit c = true) s →
  digits_value acc (s ++ t) = digits_value (digits_value acc s) t.
Proof.
  intros Hs. revert acc. induction Hs as [|c s Hc Hs IH]; intros acc; [done |]. simpl.
  rewrite Hc. apply IH.
Qed.

Lemma digits_of_app fuel n acc : ∃ l, digits_of fuel n acc = l ++ acc.
Proof.
  revert n acc. induction fuel as [|fuel IH]; intros n acc; cbn [digits_of]; [by exists [] |].
  destruct (n / 10 =? 0); [by eexists [_] |]. destruct (IH (n / 10) (byte_of (48 + n mod 10) :: acc)) as [l ->].
  exists (l ++ [byte_of (48 + n mod 10)]). by rewrite <- app_assoc.
Qed.
Lemma digits_of_length fuel n acc : (length acc < length (digits_of (S fuel) n acc))%nat.
Proof.
  cbn [digits_of]. destruct (n / 10 =? 0); [cbn; lia |].
  destruct (digits_of_app fuel (n / 10) (byte_of (48 + n mod 10) :: acc)) as [l ->]. rewrite length_app. cbn. lia.
Qed.
(** The digits of [n], then the accumulator. *)
Lemma digits_of_spec fuel n acc :
  0 ≤ n < 10 ^ Z.of_nat fuel →
  ∃ s, digits_of fuel n acc = s ++ acc ∧ Forall (λ c, isdigit c = true) s ∧
       digits_value 0 s = n ∧ (0 < fuel → s ≠ [])%nat ∧ (length s ≤ fuel)%nat.
Proof.
  revert n acc. induction fuel as [|fuel IH]; intros n acc Hn.
  { exists []. simpl in Hn. split_and!; [done | constructor | simpl; lia | lia | done]. }
  pose proof (Z.mod_pos_bound n 10 ltac:(lia)) as Hm. pose proof (Z.div_mod n 10 ltac:(lia)) as Hd.
  cbn [digits_of]. destruct (n / 10 =? 0) eqn:E; reflect_bools.
  - exists [byte_of (48 + n mod 10)]. pose proof (isdigit_digit _ Hm) as Hi.
    split_and!; [done | by repeat constructor | | done | simpl; lia].
    simpl. rewrite Hi, digit_byte by done. lia.
  - destruct (IH (n / 10) (byte_of (48 + n mod 10) :: acc)) as (s & -> & Hs & Hv & Hne & Hl).
    { rewrite Nat2Z.inj_succ, Z.pow_succ_r in Hn by lia. split; [apply Z.div_pos; lia |].
      apply Z.div_lt_upper_bound; lia. }
    exists (s ++ [byte_of (48 + n mod 10)]). rewrite <- app_assoc. split_and!; [done | | | |].
    + apply Forall_app. split; [done |]. repeat constructor. by apply isdigit_digit.
    + rewrite digits_value_app, Hv by done. simpl.
      rewrite isdigit_digit, digit_byte by done. lia.
    + intros _ H. by apply app_eq_nil in H as [_ ?].
    + rewrite length_app. simpl. lia.
Qed.

Lemma after_last_app c s t : c ∉ t → after_last c (s ++ c :: t) = t.
Proof.
  intros Ht. induction s as [|x s IH]; cbn [after_last app].
  - rewrite decide_False, decide_True by done. done.
  - rewrite decide_True; [done |]. apply elem_of_app. right. by left.
Qed.

(** [atoi] stops at the first character that is no digit. *)
Lemma digits_value_stop acc s t :
  Forall (λ c, isdigit c = true) s → match t with c :: _ => isdigit c = false | [] => True end →
  digits_value acc (s ++ t) = digits_value acc s.
Proof. intros Hs Ht. rewrite digits_value_app by done. destruct t as [|c t]; [done |]. simpl. by rewrite Ht. Qed.

Lemma number_prefix s t n :
  Forall (λ c, isdigit c = true) s → s ≠ [] → match t with c :: _ => isdigit c = false | [] => True end →
  digits_value 0 s = n → number_of (s ++ t) = n.
Proof.
  intros Hs Hne Ht Hv. unfold number_of. pose proof (digits_value_stop 0 s t Hs Ht) as E. rewrite Hv in E.
  destruct s as [|c s]; [done |]. cbn [app] in E |- *.
  assert (Hc : 48 ≤ byte_val c ≤ 57).
  { inversion Hs; subst. unfold isdigit in *. reflect_bools. lia. }
  assert (Hb : ∀ d, byte_val d < 48 → c ≠ d) by (intros d Hd ->; lia).
  cbn [skip_blanks].
  rewrite decide_False by (rewrite !elem_of_cons, elem_of_nil; intros H;
    destruct H as [H|[H|[H|[H|[H|[H|[]]]]]]]; revert H; by apply Hb).
  rewrite !decide_False by (by apply Hb). done.
Qed.
Lemma atoi_prefix s t n :
  Forall (λ c, isdigit c = true) s → s ≠ [] → match t with c :: _ => isdigit c = false | [] => True end →
  digits_value 0 s = n → in_sint 32 n = true → atoi (s ++ t) = Ok n.
Proof. intros Hs Hne Ht Hv Hn. unfold atoi. rewrite (number_prefix s t n) by done. by apply check_int_Ok. Qed.

Lemma atoi_digits s n :
  Forall (λ c, isdigit c = true) s → s ≠ [] → digits_value 0 s = n → in_sint 32 n = true →
  atoi s = Ok n.
Proof. intros Hs Hne Hv Hn. rewrite <- (app_nil_r s). by apply atoi_prefix. Qed.

(** A number that was printed is read back. *)
Lemma number_signed_text fuel n : - 10 ^ Z.of_nat fuel < n < 10 ^ Z.of_nat fuel →
  number_of (if n <? 0 then x2d :: digits_of fuel (- n) [] else digits_of fuel n []) = n.
Proof.
  intros Hn. destruct fuel as [|fuel]; [cbn in Hn; assert (n = 0) as -> by lia; done |]. destruct (n <? 0) eqn:E; reflect_bools.
  - destruct (digits_of_spec (S fuel) (- n) []) as (s & -> & Hs & Hv & _); [lia |].
    unfold number_of. cbn [skip_blanks]. rewrite decide_False by set_solver by done. rewrite decide_True by done.
    rewrite app_nil_r. lia.
  - destruct (digits_of_spec (S fuel) n []) as (s & -> & Hs & Hv & Hne & _); [lia |].
    apply number_prefix; [done | apply Hne; lia | done | done].
Qed.
Lemma atoi_decimal n : in_sint 32 n = true → atoi (decimal n) = Ok n.
Proof.
  intros Hn. unfold atoi, decimal. rewrite number_signed_text; [by apply check_int_Ok |].
  apply in_sint32 in Hn. cbn. lia.
Qed.
Lemma atol_decimal_long n : in_sint 64 n = true → atol (decimal_long n) = Ok n.
Proof.
  intros Hn. unfold atol, decimal_long. rewrite number_signed_text; [by rewrite Hn |].
  unfold in_sint in Hn. reflect_bools. cbn in *. lia.
Qed.

(** The value of digits behind others. *)
Lemma digits_value_scale acc t :
  Forall (λ c, isdigit c = true) t → digits_value acc t = acc * 10 ^ zlen t + digits_value 0 t.
Proof.
  intros Ht. revert acc. induction Ht as [|c t Hc Ht IH]; intros acc; cbn [digits_value length]; [lia |].
  rewrite Hc, IH, (IH (10 * 0 + _)), Nat2Z.inj_succ, Z.pow_succ_r by lia. lia.
Qed.
Lemma digits_value_nonneg s : Forall (λ c, isdigit c = true) s → 0 ≤ digits_value 0 s.
Proof.
  intros Hs. assert (H : ∀ acc, 0 ≤ acc → 0 ≤ digits_value acc s); [|by apply H].
  induction Hs as [|c s Hc Hs IH]; intros acc Ha; cbn [digits_value]; [done |]. rewrite Hc. apply IH.
  unfold isdigit in Hc. reflect_bools. lia.
Qed.

(** The port of a contact [MakeContact] builds is the port it was given. *)
Theorem GetPort_MakeContact (host : chars) (port : Z) :
  0 < port ≤ int_max → zlen host ≤ 244 → GetPortFromURL (MakeContact host port) = Ok port.
Proof.
  intros Hp Hh. unfold int_max in Hp. unfold MakeContact, GetPortFromURL.
  rewrite (proj2 (Z.leb_gt port 0)) by lia.
  destruct (digits_of_spec 10 port []) as (s & -> & Hs & Hv & Hne & Hl); [simpl; lia |].
  rewrite app_nil_r, take_ge by (rewrite length_app; simpl; lia).
  rewrite after_last_app.
  - apply atoi_digits; [done | apply Hne; lia | done | apply in_sint32; lia].
  - intros Hin. rewrite Forall_forall in Hs. by apply Hs in Hin.
Qed.

Lemma GetPort_MakeContact_witness :
  (0 < 2711 ≤ int_max ∧ zlen (string_bytes "grid.hefr.ch") ≤ 244) ∧
  GetPortFromURL (MakeContact (string_bytes "grid.hefr.ch") 2711) = Ok 2711.
Proof. split; [by vm_compute | apply GetPort_MakeContact; by vm_compute]. Defined.
