(* ===== verification/Factories.v ===== *)
(** * Registries of the runtime

    The singletons that map names to constructors: [pop_buffer_factory_finder]
    (lib/core/buffer_factory_finder.cc) for encodings, [pop_combox_factory]
    (lib/core/combox_factory.cc) for protocols, [pop_broker_factory] (lib/core/broker_factory.cc)
    for parallel classes.

    What a plugin file yields when it is loaded is an input: a handle and the factory it creates, or
    nothing. *)

From S2P Require Import Prelude Machine Utils.

(** ** Encodings *)
Module BufferFactory.
Definition MAX_FACTORY : Z := 10.

Section Finder.
(** A factory is known by what its [GetBufferName] answers. *)
Context {F : Type} (GetBufferName : F → chars).

(** One slot of the arrays [bfArray], [metrics] and [plugins] ([None] is a null handle). *)
Record slot : Type := MkSlot { bf : F; metric : Z; plugin : option Z }.

(** A plugin tried at slot [size]: kept when it loads and its handle is not already there. *)
Definition try_plugin (m : Z) (loaded : option (Z * F)) (slots : list slot) : list slot :=
  if MAX_FACTORY <=? zlen slots then slots
  else
    match loaded with
    | None => slots
    | Some (h, f) =>
        if existsb (λ s, bool_decide (plugin s = Some h)) slots then slots
        else slots ++ [MkSlot f m (Some h)]
    end.

(** The inner loop of the sort, on the slots from [i] on: [j] goes down from the last one and
    exchanges neighbours out of order. The metric and the factory move, the plugin handle stays
    where it is. *)
Definition exchange (a b : slot) : slot * slot :=
  (MkSlot (bf b) (metric b) (plugin a), MkSlot (bf a) (metric a) (plugin b)).

Fixpoint bubble (l : list slot) : list slot :=
  match l with
  | [] => []
  | a :: l' =>
      match bubble l' with
      | [] => [a]
      | b :: l'' => if metric b <? metric a then let '(a', b') := exchange a b in a' :: b' :: l''
                    else a :: b :: l''
      end
  end.

(** The outer loop: [n] slots remain to be placed. *)
Fixpoint sort_slots (n : nat) (l : list slot) : list slot :=
  match n with
  | O => l
  | S n' => match bubble l with [] => [] | a :: l' => a :: sort_slots n' l' end
  end.

(** The constructor: the XDR factory, the plugins, then the sort. *)
Definition finder_new (xdr : F) (plugins : list (Z * option (Z * F))) : list slot :=
  let slots := foldl (λ l p, try_plugin p.1 p.2 l) [MkSlot xdr 0 None] plugins in
  sort_slots (length slots) slots.

Definition GetFactoryCount (slots : list slot) : Z := zlen slots.
Definition bufferName (slots : list slot) (index : Z) : option chars :=
  if (index <? 0) || (zlen slots <=? index) then None
  else (λ s, GetBufferName (bf s)) <$> slots !! Z.to_nat index.

Fixpoint FindFactory (slots : list slot) (name : chars) : option F :=
  match slots with
  | [] => None
  | s :: slots' =>
      if isEqual (Some (GetBufferName (bf s))) (Some name) then Some (bf s)
      else FindFactory slots' name
  end.

(** What the sort moves together. *)
Definition ranked (s : slot) : Z * F := (metric s, bf s).

Lemma bubble_perm l : ranked <$> bubble l ≡ₚ ranked <$> l.
Proof.
  induction l as [|a l IH]; csimpl; [done |]. destruct (bubble l) as [|b l''].
  - by rewrite <- IH.
  - rewrite <- IH. destruct (metric b <? metric a); csimpl; [apply perm_swap | done].
Qed.

Lemma bubble_length l : length (bubble l) = length l.
Proof.
  pose proof (Permutation_length (bubble_perm l)) as H. by rewrite !length_fmap in H.
Qed.

Lemma sort_slots_perm n l : ranked <$> sort_slots n l ≡ₚ ranked <$> l.
Proof.
  revert l. induction n as [|n IH]; intros l; [done |]. cbn [sort_slots].
  rewrite <- (bubble_perm l). destruct (bubble l); csimpl; [done | by rewrite IH].
Qed.

(** A pass brings a slot of least metric to the front. *)
Lemma bubble_min l a l' : bubble l = a :: l' → Forall (λ s, metric a ≤ metric s) l'.
Proof.
  revert a l'. induction l as [|x l IH]; intros a l'; simpl; [done |].
  destruct (bubble l) as [|b l'']; [intros [= <- <-]; constructor |].
  specialize (IH _ _ eq_refl).
  destruct (metric b <? metric x) eqn:E; reflect_bools; intros [= <- <-]; constructor; simpl;
    try lia; eapply Forall_impl; eauto; simpl; intros; lia.
Qed.

Definition by_metric (s s' : slot) : Prop := metric s ≤ metric s'.

Lemma sort_slots_sorted n l : (length l ≤ n)%nat → StronglySorted by_metric (sort_slots n l).
Proof.
  revert l. induction n as [|n IH]; intros l Hl.
  { destruct l; [constructor | simpl in Hl; lia]. }
  cbn [sort_slots]. pose proof (bubble_length l) as Hb. pose proof (bubble_min l) as Hm.
  destruct (bubble l) as [|a l'] eqn:E; [constructor |]. simpl in Hb.
  constructor; [apply IH; lia |].
  assert (Hf : Forall (λ p, metric a ≤ p.1) (ranked <$> l')) by (apply Forall_fmap; exact (Hm _ _ eq_refl)).
  rewrite <- (sort_slots_perm n l') in Hf.
  apply Forall_forall. intros s Hs. rewrite Forall_forall in Hf.
  exact (Hf (ranked s) (list_elem_of_fmap_2 _ _ _ Hs)).
Qed.

Lemma FindFactory_first slots name f :
  FindFactory slots name = Some f → StronglySorted by_metric slots →
  ∃ s, s ∈ slots ∧ bf s = f ∧ GetBufferName f = name ∧
    ∀ s', s' ∈ slots → GetBufferName (bf s') = name → metric s ≤ metric s'.
Proof.
  induction slots as [|s slots IH]; intros H Hs; [done |].
  cbn [FindFactory isEqual] in H. inversion Hs as [|? ? Hs' Hf]; subst.
  destruct (isEqual_loop (GetBufferName (bf s)) name) eqn:E.
  - simplify_eq. apply isEqual_loop_correct in E. exists s. split_and!; [by left | done | done |].
    intros s' [-> | Hin]%elem_of_cons _; [done |]. rewrite Forall_forall in Hf. by apply Hf.
  - destruct (IH H Hs') as (s0 & Hin & Hb & Hn & Hmin). exists s0.
    split_and!; [by right | done | done |]. intros s' [-> | Hin']%elem_of_cons Hn'; [|by apply Hmin].
    exfalso. apply isEqual_loop_correct in Hn'. congruence.
Qed.

Lemma FindFactory_None slots name :
  FindFactory slots name = None ↔ ∀ s, s ∈ slots → GetBufferName (bf s) ≠ name.
Proof.
  induction slots as [|s slots IH]; cbn [FindFactory isEqual].
  - split; [intros _ s []%elem_of_nil | done].
  - destruct (isEqual_loop (GetBufferName (bf s)) name) eqn:E.
    + apply isEqual_loop_correct in E. split; [done |]. intros H. by destruct (H s); [left |].
    + rewrite IH. split.
      * intros H s' [-> | Hin]%elem_of_cons; [|by apply H].
        intros Hn. apply isEqual_loop_correct in Hn. congruence.
      * intros H s' Hin. apply H. by right.
Qed.

Lemma finder_sorted xdr plugins : StronglySorted by_metric (finder_new xdr plugins).
Proof. by apply sort_slots_sorted. Qed.
End Finder.
End BufferFactory.

(** ** Protocols *)
Module ComboxFactory.
Section Registry.
Context {C : Type}.

Record combox_factory_struct : Type := MkCombox { name : chars; metrics : Z; creator : C }.

Definition Create (n : option chars) (list : list combox_factory_struct) : option C :=
  match n with
  | None => None
  | Some n => creator <$> List.find (λ t, bool_decide (n = name t)) list
  end.

Definition Create_index (index : Z) (list : list combox_factory_struct) : option C :=
  if (index <? 0) || (zlen list <=? index) then None
  else creator <$> list !! Z.to_nat index.

Definition GetNames (list : list combox_factory_struct) : chars :=
  foldl (λ res t, res ++ x20 :: name t) [] list.

Definition GetCount (list : list combox_factory_struct) : Z := zlen list.

(** [find_if] and [emplace]: before the first entry of a greater metric. *)
Fixpoint emplace (t : combox_factory_struct) (list : list combox_factory_struct) :=
  match list with
  | [] => [t]
  | u :: list' => if metrics t <? metrics u then t :: list else u :: emplace t list'
  end.

Definition Register (n : option chars) (m : Z) (c : option C) (list : list combox_factory_struct) :
    bool * Datatypes.list combox_factory_struct :=
  match n, c with
  | Some n, Some c =>
      if existsb (λ t, bool_decide (name t = n)) list then (false, list)
      else (true, emplace (MkCombox n m c) list)
  | _, _ => (false, list)
  end.

(** The registry: names are distinct, entries are ordered by metric. *)
Definition by_metrics (t u : combox_factory_struct) : Prop := metrics t ≤ metrics u.
Definition registry_ok (list : list combox_factory_struct) : Prop :=
  NoDup (name <$> list) ∧ StronglySorted by_metrics list.

Lemma emplace_perm t list : emplace t list ≡ₚ t :: list.
Proof.
  induction list as [|u list IH]; simpl; [done |]. destruct (metrics t <? metrics u); [done |].
  rewrite IH. constructor.
Qed.

Lemma emplace_sorted t list :
  StronglySorted by_metrics list → StronglySorted by_metrics (emplace t list).
Proof.
  unfold by_metrics. induction 1 as [|u list Hs IH Hu]; simpl; [by repeat constructor |].
  destruct (metrics t <? metrics u) eqn:E; reflect_bools.
  - constructor; [by constructor |]. constructor; [lia |].
    eapply Forall_impl; [exact Hu |]. simpl; intros; lia.
  - constructor; [done |]. rewrite emplace_perm. by constructor.
Qed.

Lemma find_perm (p : combox_factory_struct → bool) l l' :
  (∀ t u, t ∈ l → u ∈ l → p t = true → p u = true → t = u) → l ≡ₚ l' →
  List.find p l = List.find p l'.
Proof.
  intros Hu Hp. destruct (List.find p l) as [t|] eqn:E, (List.find p l') as [u|] eqn:E'; try done.
  - apply List.find_some in E as [Ht Hpt], E' as [Hu' Hpu]. rewrite <- !list_elem_of_In in *.
    f_equal. apply Hu; [done | by rewrite Hp | done | done].
  - apply List.find_some in E as [Ht Hpt]. rewrite <- list_elem_of_In in *.
    rewrite Hp, list_elem_of_In in Ht. by rewrite (List.find_none _ _ E' _ Ht) in Hpt.
  - apply List.find_some in E' as [Ht Hpt]. rewrite <- list_elem_of_In in *.
    rewrite <- Hp, list_elem_of_In in Ht. by rewrite (List.find_none _ _ E _ Ht) in Hpt.
Qed.
End Registry.
Arguments combox_factory_struct : clear implicits.
End ComboxFactory.

(** ** Parallel classes *)
Module BrokerFactory.
Section Registry.
Context {B : Type}.

(** [brokerlist] is null until a first class registers. *)
Definition registry : Type := option (list (chars * B)).

Definition test (objname : chars) (r : registry) : bool :=
  match r with
  | None => false
  | Some l => existsb (λ t, isEqual (Some objname) (Some t.1)) l
  end.

(** The constructor [pop_broker_factory(func, name)]. *)
Definition register (func : option B) (name : option chars) (r : registry) : registry :=
  let l := default [] r in
  match name, func with
  | Some n, Some f => if test n (Some l) then Some l else Some (l ++ [(n, f)])
  | _, _ => Some l
  end.

Definition Create (objname : option chars) (r : registry) : option B :=
  match r, objname with
  | Some l, Some n => snd <$> List.find (λ t, isEqual (Some n) (Some t.1)) l
  | _, _ => None
  end.

Definition List_names (r : registry) (objlist : list chars) : list chars :=
  objlist ++ match r with None => [] | Some l => fst <$> l end.
End Registry.
End BrokerFactory.

(** ** What the registries guarantee *)

(** Whatever plugins load, the encodings end up ordered by metric, the sort loses and
    invents none, and [FindFactory] answers with a factory of that name of least metric, or with
    null exactly when there is none. *)
Theorem finder_picks_least {F : Type} (GetBufferName : F → chars) (xdr : F) plugins name :
  let slots := BufferFactory.finder_new xdr plugins in
  let loaded := foldl (λ l p, BufferFactory.try_plugin p.1 p.2 l)
                  [BufferFactory.MkSlot xdr 0 None] plugins in
  StronglySorted BufferFactory.by_metric slots ∧
  BufferFactory.ranked <$> slots ≡ₚ BufferFactory.ranked <$> loaded ∧
  match BufferFactory.FindFactory GetBufferName slots name with
  | Some f => ∃ s, s ∈ slots ∧ BufferFactory.bf s = f ∧ GetBufferName f = name ∧
      ∀ s', s' ∈ slots → GetBufferName (BufferFactory.bf s') = name →
            BufferFactory.metric s ≤ BufferFactory.metric s'
  | None => ∀ s, s ∈ slots → GetBufferName (BufferFactory.bf s) ≠ name
  end.
Proof.
  intros slots loaded. split_and!; [by apply BufferFactory.finder_sorted
    | apply BufferFactory.sort_slots_perm |].
  destruct (BufferFactory.FindFactory GetBufferName slots name) as [f|] eqn:E.
  - eapply BufferFactory.FindFactory_first; [exact E | apply BufferFactory.finder_sorted].
  - by apply BufferFactory.FindFactory_None.
Qed.

(** [Register] keeps the registry of protocols ordered by metric and its names distinct;
    a null argument or a known name changes nothing; otherwise the new protocol is created by its
    name and every other name gives what it gave before. *)
Theorem Register_correct {C : Type} (n : option chars) m (c : option C) list :
  ComboxFactory.registry_ok list →
  let '(ok, list') := ComboxFactory.Register n m c list in
  ComboxFactory.registry_ok list' ∧
  (ok = false → list' = list) ∧
  (ok = true → ComboxFactory.Create n list' = c ∧
     ∀ n', Some n' ≠ n → ComboxFactory.Create (Some n') list' = ComboxFactory.Create (Some n') list).
Proof.
  intros [Hn Hs]. unfold ComboxFactory.Register. destruct n as [n|], c as [c|]; try done.
  destruct (existsb _ list) eqn:E; [done |].
  set (t := ComboxFactory.MkCombox n m c).
  assert (Hnew : n ∉ ComboxFactory.name <$> list).
  { intros (u & -> & Hu)%list_elem_of_fmap. apply not_true_iff_false in E. apply E.
    apply existsb_exists. exists u. rewrite <- list_elem_of_In. split; [done |].
    by apply bool_decide_eq_true. }
  assert (Hnd : NoDup (ComboxFactory.name <$> t :: list)) by (csimpl; by constructor).
  pose proof (ComboxFactory.emplace_perm t list) as Hp.
  split; [split |]. 
  - by rewrite Hp.
  - by apply ComboxFactory.emplace_sorted.
  - split; [done |]. intros _.
    assert (Hu : ∀ k u v, u ∈ ComboxFactory.emplace t list → v ∈ ComboxFactory.emplace t list →
      bool_decide (k = ComboxFactory.name u) = true →
      bool_decide (k = ComboxFactory.name v) = true → u = v).
    { intros k u v Hu Hv Eu Ev. rewrite Hp in Hu, Hv.
      apply bool_decide_eq_true in Eu, Ev. subst k.
      apply list_elem_of_lookup in Hu as [i Hi], Hv as [j Hj].
      assert (i = j) as ->; [|congruence].
      eapply NoDup_lookup; [exact Hnd | |]; rewrite list_lookup_fmap.
      - by rewrite Hi.
      - by rewrite Hj, Ev. }
    unfold ComboxFactory.Create. split.
    + rewrite (ComboxFactory.find_perm _ _ (t :: list)); [|by apply Hu | done]. simpl.
      by rewrite bool_decide_eq_true_2.
    + intros n' Hn'. rewrite (ComboxFactory.find_perm _ _ (t :: list)); [|by apply Hu | done].
      simpl. by rewrite bool_decide_eq_false_2 by congruence.
Qed.

(** A third protocol next to the built-in ones. *)
Lemma Register_correct_witness :
  let list := [ComboxFactory.MkCombox (string_bytes "socket") 0 1;
               ComboxFactory.MkCombox (string_bytes "uds") 0 2] in
  let '(ok, list') := ComboxFactory.Register (Some (string_bytes "mpi")) 0 (Some 3) list in
  ok = true ∧ ComboxFactory.registry_ok list' ∧
  ComboxFactory.Create (Some (string_bytes "mpi")) list' = Some 3.
Proof.
  assert (H : ComboxFactory.registry_ok [ComboxFactory.MkCombox (string_bytes "socket") 0 1;
                                        ComboxFactory.MkCombox (string_bytes "uds") 0 2]).
  { split; [by apply (bool_decide_unpack _) |].
    repeat constructor; unfold ComboxFactory.by_metrics; simpl; lia. }
  pose proof (Register_correct (Some (string_bytes "mpi")) 0 (Some 3) _ H) as HR.
  destruct (ComboxFactory.Register _ _ _ _) as [ok list'] eqn:E.
  destruct HR as (H1 & H2 & H3). 
  assert (Hok : ok = true) by (vm_compute in E; congruence).
  split; [reflexivity |]. vm_compute in E. injection E as Eo El.
  subst list'. split; [exact H1 | exact (proj1 (H3 Hok))].
Defined.
