(* ===== verification/Broker.v ===== *)
(** * The broker of a parallel object

    [pop_broker] (lib/core/broker.cc, lib/core/broker_serve.cc, lib/dynamic/broker_receive.cc,
    include/core/pop_broker.h): requests are received by the threads of the communication boxes,
    queued, and served by the main thread ([Run]) or by threads of their own.

    The locks are those of the code: [execCond] protects the queue and the count of instances, and
    its critical sections are single actions below; [mutexCond] can be held across several actions,
    so it is part of the state. An action is a function from a state to the next one, [None] when
    the thread is blocked. *)

From S2P Require Import Prelude Machine Buffer.

Definition INVOKE_SYNC : Z := 1.
Definition INVOKE_CONSTRUCTOR : Z := 4.
Definition INVOKE_CONC : Z := 8.
Definition INVOKE_MUTEX : Z := 16.
Definition POP_STATE_RUNNING : Z := 0.
Definition POP_STATE_EXIT : Z := 1.
Definition POP_STATE_ABORT : Z := 2.

(** A request: where it comes from, the method and its semantics, the message it came in. *)
Record pop_request : Type := MkPopRequest {
  from : option Z;
  classId : Z;
  methodId : Z;
  semantics : Z;
  data : Z }.
#[export] Instance pop_request_eta : Eta pop_request := λ r,
  MkPopRequest (from r) (classId r) (methodId r) (semantics r) (data r).
#[export] Instance pop_request_dec : EqDecision pop_request.
Proof. solve_decision. Defined.

(** [type & flag]. *)
Definition has_flag (flag : Z) (r : pop_request) : bool := negb (Z.land (semantics r) flag =? 0).
Definition is_conc : pop_request → bool := has_flag INVOKE_CONC.
Definition is_mutex : pop_request → bool := has_flag INVOKE_MUTEX.

(** Where the main thread stands in [Run]. *)
Inductive serving : Type :=
  | Looping                      (* at the head of the loop *)
  | Idle                         (* in GetRequest *)
  | WaitMutex (r : pop_request)  (* in GetRequest, waiting for the instances to end *)
  | Got (r : pop_request)        (* GetRequest returned r *)
  | Exec (r : pop_request)       (* in DoInvoke *)
  | Draining                     (* left the loop, waiting to exit *)
  | Exited.

(** [mutexCond]: free, or held by a receive thread that queues a concurrent request, before and
    after the request is in the queue. *)
Inductive mutex_lock : Type :=
  | Free
  | Held (r : pop_request) (queued : bool).

Record pop_broker : Type := MkBroker {
  obj : option Z;                  (* the reference count of the object *)
  state : Z;
  instanceCount : Z;
  mutexCount : Z;
  concPendings : Z;
  request_fifo : list pop_request;
  main : serving;
  running : list pop_request;      (* the invocation threads *)
  mutexCond : mutex_lock;
  arriving : list pop_request }.   (* mutex requests counted and not yet queued *)
#[export] Instance pop_broker_eta : Eta pop_broker := λ b,
  MkBroker (obj b) (state b) (instanceCount b) (mutexCount b) (concPendings b) (request_fifo b)
    (main b) (running b) (mutexCond b) (arriving b).

Definition broker_new : pop_broker :=
  MkBroker None POP_STATE_RUNNING 0 0 0 [] Looping [] Free [].

(** ** Queueing a request *)

(** The constructor of [pop_invokethread]: one more instance. *)
Definition start_instance (r : pop_request) (b : pop_broker) : pop_broker :=
  b <| instanceCount := instanceCount b + 1 |> <| running := r :: running b |>.

Definition push_back (r : pop_request) (b : pop_broker) : pop_broker :=
  b <| request_fifo := request_fifo b ++ [r] |>.

(** A synchronous call keeps its connection. *)
Definition keep_connection (r : pop_request) : pop_request :=
  if has_flag INVOKE_SYNC r then r else r <| from := None |>.

(** [RegisterRequest], up to the lock of [execCond]. A concurrent request is served at once unless
    a mutex request is pending, with [mutexCond] held. *)
Definition register_enter (r : pop_request) (b : pop_broker) : option pop_broker :=
  let r := keep_connection r in
  if is_conc r then
    match mutexCond b with
    | Free => if mutexCount b <=? 0 then Some (start_instance r b)
              else Some (b <| mutexCond := Held r false |>)
    | Held _ _ => None
    end
  else if is_mutex r then
    match mutexCond b with
    | Free => Some (b <| mutexCount := mutexCount b + 1 |> <| arriving := r :: arriving b |>)
    | Held _ _ => None
    end
  else Some (push_back r b).

(** [request_fifo.push_back(req)] under [execCond], for a request that went through
    [mutexCond]. *)
Definition register_push_mutex (i : nat) (b : pop_broker) : option pop_broker :=
  match arriving b !! i with
  | Some r => Some (push_back r b <| arriving := delete i (arriving b) |>)
  | None => None
  end.

Definition register_push_conc (b : pop_broker) : option pop_broker :=
  match mutexCond b with
  | Held r false => Some (push_back r b <| mutexCond := Held r true |>)
  | _ => None
  end.

(** [concPendings++; mutexCond.unlock()]. *)
Definition register_leave (b : pop_broker) : option pop_broker :=
  match mutexCond b with
  | Held r true => Some (b <| concPendings := concPendings b + 1 |> <| mutexCond := Free |>)
  | _ => None
  end.

(** ** Serving *)

(** The scan of [GetRequest]: the first concurrent request of the queue, unless a mutex request
    comes before it. *)
Fixpoint first_conc (l : list pop_request) : option (pop_request * list pop_request) :=
  match l with
  | [] => None
  | tmp :: l' =>
      if is_conc tmp then Some (tmp, l')
      else if is_mutex tmp then None
      else match first_conc l' with Some (r, rest) => Some (r, tmp :: rest) | None => None end
  end.

(** The request taken, the queue and the count left, and whether the scan found it. *)
Definition take_request (pendings : Z) (fifo : list pop_request) :
    option (pop_request * list pop_request * Z * bool) :=
  match (if pendings =? 0 then None else first_conc fifo) with
  | Some (r, rest) => Some (r, rest, pendings - 1, true)
  | None => match fifo with r :: rest => Some (r, rest, pendings, false) | [] => None end
  end.

(** [while (state == POP_STATE_RUNNING)]. *)
Definition enter_loop (b : pop_broker) : option pop_broker :=
  match main b with
  | Looping => if state b =? POP_STATE_RUNNING then Some (b <| main := Idle |>) else None
  | _ => None
  end.

(** [GetRequest] on a non-empty queue. *)
Definition GetRequest (b : pop_broker) : option pop_broker :=
  match main b with
  | Idle =>
      match take_request (concPendings b) (request_fifo b) with
      | Some (r, rest, pendings, scanned) =>
          let b := b <| request_fifo := rest |> <| concPendings := pendings |> in
          Some (b <| main := if negb scanned && is_mutex r then WaitMutex r else Got r |>)
      | None => None
      end
  | _ => None
  end.

(** [while (instanceCount > 0) execCond.wait()]. *)
Definition mutex_ready (b : pop_broker) : option pop_broker :=
  match main b with
  | WaitMutex r => if 0 <? instanceCount b then None else Some (b <| main := Got r |>)
  | _ => None
  end.

(** The end of an iteration of [Run]: a constructor that made no object ends the loop. *)
Definition after_serve (r : pop_request) (b : pop_broker) : pop_broker :=
  if has_flag INVOKE_CONSTRUCTOR r && bool_decide (obj b = None)
  then b <| main := Draining |> else b <| main := Looping |>.

(** [ServeRequest]: a thread for a concurrent request, [DoInvoke] for the others. *)
Definition ServeRequest (b : pop_broker) : option pop_broker :=
  match main b with
  | Got r => if is_conc r then Some (after_serve r (start_instance r b))
             else Some (b <| main := Exec r |>)
  | _ => None
  end.

(** [UnhandledException], when the application service is known. *)
Definition set_abort (abort : bool) (b : pop_broker) : pop_broker :=
  if abort then b <| state := POP_STATE_ABORT |> else b.

(** [DoInvoke] returns to [ServeRequest]: [created] tells that the method was a constructor that
    made the object, [abort] that an exception could not be sent back. *)
Definition finish (created abort : bool) (b : pop_broker) : option pop_broker :=
  match main b with
  | Exec r =>
      let b := set_abort abort b in
      let b := if created && has_flag INVOKE_CONSTRUCTOR r then b <| obj := Some 1 |> else b in
      if is_mutex r then
        match mutexCond b with
        | Free => Some (after_serve r (b <| mutexCount := mutexCount b - 1 |>))
        | Held _ _ => None
        end
      else Some (after_serve r b)
  | _ => None
  end.

(** The destructor of [pop_invokethread]. *)
Definition instance_end (i : nat) (abort : bool) (b : pop_broker) : option pop_broker :=
  match running b !! i with
  | Some _ => Some (set_abort abort b <| instanceCount := instanceCount b - 1 |>
                      <| running := delete i (running b) |>)
  | None => None
  end.

(** ** References and termination *)

Definition AddRef (b : pop_broker) : option pop_broker :=
  match obj b with Some n => Some (b <| obj := Some (n + 1) |>) | None => None end.
Definition DecRef (b : pop_broker) : option pop_broker :=
  match obj b with Some n => Some (b <| obj := Some (n - 1) |>) | None => None end.

Definition unreferenced (b : pop_broker) : bool :=
  match obj b with Some n => n <=? 0 | None => false end.

(** The main loop ends when the state changes, or when [GetRequest] finds the queue empty and no
    reference left. *)
Definition leave_loop (b : pop_broker) : option pop_broker :=
  match main b with
  | Looping => if state b =? POP_STATE_RUNNING then None else Some (b <| main := Draining |>)
  | Idle =>
      if bool_decide (request_fifo b = []) &&
         (unreferenced b || negb (state b =? POP_STATE_RUNNING))
      then Some (b <| main := Draining |>) else None
  | _ => None
  end.

(** [while (instanceCount > 0 || !request_fifo.empty()) execCond.wait()], for a broker that has an
    object and is running; then the state is set. *)
Definition exit_run (b : pop_broker) : option pop_broker :=
  match main b with
  | Draining =>
      if bool_decide (obj b ≠ None) && (state b =? POP_STATE_RUNNING) &&
         ((0 <? instanceCount b) || negb (bool_decide (request_fifo b = [])))
      then None
      else Some (b <| state := POP_STATE_EXIT |> <| main := Exited |>)
  | _ => None
  end.

(** ** The broker as a transition system *)

Inductive action : Type :=
  | ARegister (r : pop_request) | APushMutex (i : nat) | APushConc | ALeave
  | AEnter | AGet | AReady | AServe | AFinish (created abort : bool) | AEnd (i : nat) (abort : bool)
  | AAddRef | ADecRef | ALeaveLoop | AExit.

Definition perform (a : action) : pop_broker → option pop_broker :=
  match a with
  | ARegister r => register_enter r
  | APushMutex i => register_push_mutex i
  | APushConc => register_push_conc
  | ALeave => register_leave
  | AEnter => enter_loop
  | AGet => GetRequest
  | AReady => mutex_ready
  | AServe => ServeRequest
  | AFinish created abort => finish created abort
  | AEnd i abort => instance_end i abort
  | AAddRef => AddRef
  | ADecRef => DecRef
  | ALeaveLoop => leave_loop
  | AExit => exit_run
  end.

Inductive reachable : pop_broker → Prop :=
  | reach_new : reachable broker_new
  | reach_step a b b' : reachable b → perform a b = Some b' → reachable b'.

Fixpoint run (l : list action) (b : pop_broker) : option pop_broker :=
  match l with
  | [] => Some b
  | a :: l' => match perform a b with Some b' => run l' b' | None => None end
  end.

Lemma run_reachable l b b' : reachable b → run l b = Some b' → reachable b'.
Proof.
  revert b. induction l as [|a l IH]; intros b Hb; simpl; [by intros [= <-] |].
  destruct (perform a b) as [b1|] eqn:E; [|done]. apply IH. by eapply reach_step.
Qed.

(** ** Invariant *)

(** Requests that are counted by [mutexCount]. *)
Definition exclusive (r : pop_request) : bool := is_mutex r && negb (is_conc r).
Definition count (p : pop_request → bool) (l : list pop_request) : Z := zlen (List.filter p l).

(** The request in the hands of the main thread. *)
Definition in_hand (m : serving) : list pop_request :=
  match m with WaitMutex r | Got r | Exec r => [r] | _ => [] end.

Record broker_inv (b : pop_broker) : Prop := {
  inv_instances : instanceCount b = zlen (running b);
  inv_mutex : mutexCount b = count exclusive (arriving b) + count exclusive (request_fifo b) +
                             count exclusive (in_hand (main b));
  inv_arriving : Forall (λ r, exclusive r = true) (arriving b);
  inv_conc : 0 ≤ concPendings b ∧ count is_conc (request_fifo b) ≤ concPendings b +
               match mutexCond b with Held _ true => 1 | _ => 0 end;
  inv_held : match mutexCond b with Held r _ => is_conc r = true | Free => True end;
  inv_main : match main b with
             | Got r => exclusive r = true → running b = []
             | Exec r => is_conc r = false ∧ (exclusive r = true → running b = [])
             | _ => True
             end }.

Lemma count_app p l k : count p (l ++ k) = count p l + count p k.
Proof. unfold count. rewrite List.filter_app, length_app. lia. Qed.
Lemma count_cons p r l : count p (r :: l) = (if p r then 1 else 0) + count p l.
Proof. unfold count. simpl. destruct (p r); simpl; lia. Qed.
Lemma count_nil p : count p [] = 0.
Proof. done. Qed.
Lemma count_nonneg p l : 0 ≤ count p l.
Proof. unfold count. lia. Qed.
Lemma count_delete p i l r :
  l !! i = Some r → count p l = (if p r then 1 else 0) + count p (delete i l).
Proof.
  intros Hi. rewrite <- (take_drop_middle l i r Hi) at 1. rewrite delete_take_drop.
  rewrite !count_app, count_cons. lia.
Qed.
Create Rewrite HintDb broker_count.
#[export] Hint Rewrite count_app count_cons count_nil : broker_count.

Lemma keep_connection_flag flag r : has_flag flag (keep_connection r) = has_flag flag r.
Proof. unfold keep_connection. by destruct (has_flag INVOKE_SYNC r). Qed.

Lemma first_conc_spec l r rest :
  first_conc l = Some (r, rest) →
  ∃ pre post, l = pre ++ r :: post ∧ rest = pre ++ post ∧ is_conc r = true ∧
    Forall (λ q, is_conc q = false ∧ is_mutex q = false) pre.
Proof.
  revert rest. induction l as [|q l IH]; intros rest; simpl; [done |].
  destruct (is_conc q) eqn:Ec; [intros [= <- <-]; by exists [], l |].
  destruct (is_mutex q) eqn:Em; [done |].
  destruct (first_conc l) as [[r' rest']|]; [|done]. intros [= <- <-].
  destruct (IH _ eq_refl) as (pre & post & -> & -> & Hr & Hp). exists (q :: pre), post.
  split_and!; try done. by constructor.
Qed.

Lemma first_conc_None l :
  first_conc l = None →
  Forall (λ q, is_conc q = false) l ∨
  ∃ pre m post, l = pre ++ m :: post ∧ is_mutex m = true ∧ Forall (λ q, is_conc q = false) (pre ++ [m]).
Proof.
  induction l as [|q l IH]; simpl; [by left |].
  destruct (is_conc q) eqn:Ec; [done |]. destruct (is_mutex q) eqn:Em.
  - intros _. right. exists [], q, l. split_and!; [done | done |]. by repeat constructor.
  - destruct (first_conc l) as [[]|]; [done |]. intros _.
    destruct (IH eq_refl) as [H | (pre & m & post & -> & Hm & H)]; [left; by constructor |].
    right. exists (q :: pre), m, post. split_and!; [done | done |]. by constructor.
Qed.

Lemma take_request_spec n l r rest n' scanned :
  take_request n l = Some (r, rest, n', scanned) →
  ∃ pre post, l = pre ++ r :: post ∧ rest = pre ++ post ∧
    (if scanned then is_conc r = true ∧ n' = n - 1 ∧ n ≠ 0 ∧
                     Forall (λ q, is_conc q = false ∧ is_mutex q = false) pre
     else pre = [] ∧ n' = n).
Proof.
  unfold take_request. destruct (n =? 0) eqn:En; reflect_bools.
  - destruct l; [done |]. intros [= <- <- <- <-]. by exists [], l.
  - destruct (first_conc l) as [[q k]|] eqn:E.
    + intros [= <- <- <- <-]. destruct (first_conc_spec _ _ _ E) as (pre & post & -> & -> & Hq & Hp).
      by exists pre, post.
    + destruct l; [done |]. intros [= <- <- <- <-]. by exists [], l.
Qed.

(** ** Every action keeps the invariant *)

Lemma register_enter_inv r b b' : broker_inv b → register_enter r b = Some b' → broker_inv b'.
Proof.
  intros [Hi Hm Ha Hc Hh Hs]. unfold register_enter. set (q := keep_connection r).
  destruct (is_conc q) eqn:Ec.
  - destruct (mutexCond b) eqn:El; [|done]. destruct (mutexCount b <=? 0) eqn:E0; reflect_bools.
    + intros [= <-]. pose proof (count_nonneg exclusive (arriving b)).
      pose proof (count_nonneg exclusive (request_fifo b)).
      assert (Hx : count exclusive (in_hand (main b)) ≤ 0) by lia.
      split; cbn; rewrite ?El; try done; [lia |].
      destruct (main b); simpl in *; rewrite ?count_cons, ?count_nil in Hx; try done.
      * intros Hr. rewrite Hr in Hx. lia.
      * split; [apply Hs |]. intros Hr. rewrite Hr in Hx. lia.
    + intros [= <-]. split; cbn; rewrite ?El in *; try done; lia.
  - destruct (is_mutex q) eqn:Em.
    + destruct (mutexCond b) eqn:El; [|done]. intros [= <-].
      assert (Hq : exclusive q = true) by (unfold exclusive; by rewrite Ec, Em).
      split; cbn; rewrite ?El in *; try done; [| by constructor].
      autorewrite with broker_count. rewrite Hq. lia.
    + intros [= <-]. assert (Hq : exclusive q = false) by (unfold exclusive; by rewrite Em).
      split; cbn; try done; autorewrite with broker_count; rewrite ?Hq, ?Ec; lia.
Qed.

Lemma register_push_mutex_inv i b b' :
  broker_inv b → register_push_mutex i b = Some b' → broker_inv b'.
Proof.
  intros [Hi Hm Ha Hc Hh Hs]. unfold register_push_mutex.
  destruct (arriving b !! i) as [r|] eqn:Er; [|done]. intros [= <-].
  pose proof (proj1 (Forall_lookup _ _) Ha _ _ Er) as Hx. simpl in Hx.
  assert (Hc' : is_conc r = false)
    by (unfold exclusive in Hx; apply andb_true_iff in Hx as [_ Hx]; by apply negb_true_iff in Hx).
  rewrite (count_delete exclusive i (arriving b) r Er), Hx in Hm.
  split; cbn; try done; autorewrite with broker_count; rewrite ?Hx, ?Hc'; try lia.
  by apply Forall_delete.
Qed.

Lemma register_push_conc_inv b b' :
  broker_inv b → register_push_conc b = Some b' → broker_inv b'.
Proof.
  intros [Hi Hm Ha Hc Hh Hs]. unfold register_push_conc.
  destruct (mutexCond b) as [|r []] eqn:El; try done. intros [= <-].
  assert (Hx : exclusive r = false) by (unfold exclusive; rewrite Hh; apply andb_false_r).
  split; cbn; rewrite ?El in *; try done; autorewrite with broker_count; rewrite ?Hx, ?Hh; lia.
Qed.

Lemma register_leave_inv b b' : broker_inv b → register_leave b = Some b' → broker_inv b'.
Proof.
  intros [Hi Hm Ha Hc Hh Hs]. unfold register_leave.
  destruct (mutexCond b) as [|r []] eqn:El; try done. intros [= <-].
  split; cbn; rewrite ?El in *; try done; lia.
Qed.

Lemma GetRequest_inv b b' : broker_inv b → GetRequest b = Some b' → broker_inv b'.
Proof.
  intros [Hi Hm Ha Hc Hh Hs]. unfold GetRequest. destruct (main b) eqn:Em; try done.
  destruct (take_request _ _) as [[[[r rest] n'] scanned]|] eqn:Et; [|done]. intros [= <-].
  destruct (take_request_spec _ _ _ _ _ _ Et) as (pre & post & El & -> & Hr).
  rewrite El in Hm, Hc. autorewrite with broker_count in Hm, Hc.
  assert (Hx : is_conc r = true → exclusive r = false)
    by (unfold exclusive; intros ->; apply andb_false_r).
  pose proof (count_nonneg is_conc pre). pose proof (count_nonneg is_conc post).
  assert (Hq : concPendings b = 0 → match mutexCond b with Held _ true => 1 | _ => 0 end = 0 →
               is_conc r = false) by (destruct (is_conc r); [lia | done]).
  split; cbn; try done.
  - destruct scanned; cbn [negb andb in_hand] in *; autorewrite with broker_count.
    + destruct Hr as (Hrc & _). rewrite Hx in * by done. simpl in *. rewrite ?count_nil in *. lia.
    + destruct (is_mutex r); cbn [in_hand]; autorewrite with broker_count; simpl in Hm;
        rewrite ?count_nil in Hm; lia.
  - autorewrite with broker_count. destruct scanned.
    + destruct Hr as (Hrc & -> & Hn & _). rewrite Hrc in Hc. lia.
    + destruct Hr as (-> & ->). destruct (is_conc r); lia.
  - destruct scanned; cbn [negb andb].
    + destruct Hr as (Hrc & _). intros He. rewrite Hx in He by done. done.
    + destruct (is_mutex r) eqn:Emx; [done |]. unfold exclusive. by rewrite Emx.
Qed.

Lemma mutex_ready_inv b b' : broker_inv b → mutex_ready b = Some b' → broker_inv b'.
Proof.
  intros [Hi Hm Ha Hc Hh Hs]. unfold mutex_ready. destruct (main b) eqn:Em; try done.
  destruct (0 <? instanceCount b) eqn:E0; [done |]. reflect_bools. intros [= <-].
  split; cbn; try done. intros _. destruct (running b); [done | simpl in Hi; lia].
Qed.

(** The end of an iteration only moves the main thread. *)
Lemma after_serve_inv r b :
  broker_inv (b <| main := Looping |>) → broker_inv (after_serve r b).
Proof.
  intros [Hi Hm Ha Hc Hh Hs]. unfold after_serve. destruct (_ && _); by split.
Qed.

Lemma ServeRequest_inv b b' : broker_inv b → ServeRequest b = Some b' → broker_inv b'.
Proof.
  intros [Hi Hm Ha Hc Hh Hs]. unfold ServeRequest. destruct (main b) as [| | | r | | |] eqn:Em;
    try done. destruct (is_conc r) eqn:Ec; intros [= <-].
  - assert (Hx : exclusive r = false) by (unfold exclusive; rewrite Ec; apply andb_false_r).
    simpl in Hm. autorewrite with broker_count in Hm. rewrite Hx in Hm.
    apply after_serve_inv. split; cbn; try done; autorewrite with broker_count; lia.
  - by split.
Qed.

Lemma finish_inv created abort b b' :
  broker_inv b → finish created abort b = Some b' → broker_inv b'.
Proof.
  intros [Hi Hm Ha Hc Hh Hs]. unfold finish. destruct (main b) as [| | | | r | |] eqn:Em; try done.
  simpl in Hm. autorewrite with broker_count in Hm. destruct Hs as [Hrc Hrx].
  assert (Hx : exclusive r = is_mutex r) by (unfold exclusive; rewrite Hrc; apply andb_true_r).
  rewrite Hx in Hm.
  set (b1 := set_abort abort b).
  set (b2 := if created && has_flag INVOKE_CONSTRUCTOR r then b1 <| obj := Some 1 |> else b1).
  assert (E : instanceCount b2 = instanceCount b ∧ mutexCount b2 = mutexCount b ∧
    concPendings b2 = concPendings b ∧ request_fifo b2 = request_fifo b ∧
    running b2 = running b ∧ mutexCond b2 = mutexCond b ∧ arriving b2 = arriving b).
  { unfold b2, b1, set_abort. by destruct (created && _), abort. }
  destruct E as (E1 & E2 & E3 & E4 & E5 & E6 & E7).
  destruct (is_mutex r) eqn:Emx.
  - destruct (mutexCond b2) eqn:El; [|done]. intros [= <-]. apply after_serve_inv.
    split; cbn; rewrite ?E1, ?E2, ?E3, ?E4, ?E5, ?E7, ?El in *; try done.
    + rewrite Hm, count_nil. lia.
    + rewrite <- E6 in Hc. done.
  - intros [= <-]. apply after_serve_inv.
    split; cbn; rewrite ?E1, ?E2, ?E3, ?E4, ?E5, ?E6, ?E7; try done.
Qed.

Lemma instance_end_inv i abort b b' :
  broker_inv b → instance_end i abort b = Some b' → broker_inv b'.
Proof.
  intros [Hi Hm Ha Hc Hh Hs]. unfold instance_end. destruct (running b !! i) as [r|] eqn:Er; [|done].
  intros [= <-]. pose proof (lookup_lt_Some _ _ _ Er) as Hlt.
  assert (Hl : zlen (delete i (running b)) = zlen (running b) - 1)
    by (rewrite length_delete by done; lia).
  assert (Hnil : running b = [] → delete i (running b) = []) by (intros E; by rewrite E in Er).
  unfold set_abort. split; destruct abort; cbn; try done; try lia.
  all: destruct (main b); try done; [auto | destruct Hs; auto].
Qed.

Lemma perform_inv a b b' : broker_inv b → perform a b = Some b' → broker_inv b'.
Proof.
  intros Hb. destruct a; simpl.
  - by apply register_enter_inv.
  - by apply register_push_mutex_inv.
  - by apply register_push_conc_inv.
  - by apply register_leave_inv.
  - destruct Hb as [Hi Hm Ha Hc Hh Hs]. unfold enter_loop. destruct (main b) eqn:Em; try done.
    destruct (state b =? _); [|done]. intros [= <-]. by split.
  - by apply GetRequest_inv.
  - by apply mutex_ready_inv.
  - by apply ServeRequest_inv.
  - by apply finish_inv.
  - by apply instance_end_inv.
  - destruct Hb. unfold AddRef. destruct (obj b); [|done]. intros [= <-]. by split.
  - destruct Hb. unfold DecRef. destruct (obj b); [|done]. intros [= <-]. by split.
  - destruct Hb as [Hi Hm Ha Hc Hh Hs]. unfold leave_loop. destruct (main b) eqn:Em; try done.
    + destruct (state b =? _); [done |]. intros [= <-]. by split.
    + destruct (_ && _); [|done]. intros [= <-]. by split.
  - destruct Hb as [Hi Hm Ha Hc Hh Hs]. unfold exit_run. destruct (main b) eqn:Em; try done.
    destruct (_ && _); [done |]. intros [= <-]. by split.
Qed.

Lemma reachable_inv b : reachable b → broker_inv b.
Proof.
  induction 1 as [|a b b' Hb IH E]; [by split | by eapply perform_inv].
Qed.

(** C17: a mutex call runs alone. In every state the broker can reach, whatever the order in which
    the threads run, while the main thread executes a mutex method no invocation thread exists and
    the count of instances is zero. *)
Theorem mutex_runs_alone (b : pop_broker) r :
  reachable b → main b = Exec r → is_mutex r = true → running b = [] ∧ instanceCount b = 0.
Proof.
  intros Hb Hr Hm. destruct (reachable_inv b Hb) as [Hi _ _ _ _ Hs]. rewrite Hr in Hs.
  destruct Hs as [Hc Hx]. assert (E : running b = []) by (apply Hx; unfold exclusive; by rewrite Hm, Hc).
  split; [done |]. by rewrite Hi, E.
Qed.

(** A concurrent call starts, a mutex call arrives and waits, another concurrent call is queued
    behind it, the first one ends and the mutex call runs. *)
Definition call (flags n : Z) : pop_request := MkPopRequest (Some n) 1 10 flags n.
Definition mutex_scenario : list action :=
  [ARegister (call 9 1); ARegister (call 17 2); APushMutex 0; ARegister (call 9 3); APushConc; ALeave;
   AEnter; AGet; AEnd 0 false; AReady; AServe].

Lemma mutex_runs_alone_witness :
  ∃ b, run mutex_scenario broker_new = Some b ∧ main b = Exec (call 17 2) ∧
    request_fifo b = [call 9 3] ∧ running b = [] ∧ instanceCount b = 0.
Proof.
  destruct (run mutex_scenario broker_new) as [b|] eqn:E; [|vm_compute in E; discriminate E].
  assert (Hb : reachable b) by (eapply run_reachable; [apply reach_new | exact E]).
  exists b. split; [done |].
  assert (Hm : main b = Exec (call 17 2)) by (vm_compute in E; by injection E as <-).
  split; [exact Hm |]. split; [vm_compute in E; by injection E as <- |].
  exact (mutex_runs_alone b (call 17 2) Hb Hm eq_refl).
Defined.



(** What [GetRequest] takes from the queue. It takes the oldest request, or a concurrent one
    that only overtakes requests that are neither concurrent nor mutex; the others keep their
    order; and a queue that is not empty always yields a request. *)
Theorem take_request_order (n : Z) (fifo : list pop_request) :
  match take_request n fifo with
  | None => fifo = []
  | Some (r, rest, n', scanned) =>
      ∃ pre post, fifo = pre ++ r :: post ∧ rest = pre ++ post ∧
        (if scanned then is_conc r = true ∧ n' = n - 1 ∧ n ≠ 0 ∧
                         Forall (λ q, is_conc q = false ∧ is_mutex q = false) pre
         else pre = [] ∧ n' = n)
  end.
Proof.
  destruct (take_request n fifo) as [[[[r rest] n'] scanned]|] eqn:E.
  - by eapply take_request_spec.
  - unfold take_request in E. destruct fifo as [|q fifo]; [done |].
    destruct (if n =? 0 then None else first_conc (q :: fifo)) as [[]|]; done.
Qed.

(** ** A request that comes too late *)

(** Actions in which no method ends with an exception nobody can be told of. *)
Definition quiet (a : action) : bool :=
  match a with AFinish _ true | AEnd _ true => false | _ => true end.

Definition stuck_draining (b : pop_broker) : Prop :=
  main b = Draining ∧ obj b ≠ None ∧ state b = POP_STATE_RUNNING ∧ request_fifo b ≠ [].

Lemma push_back_fifo r b : request_fifo (push_back r b) ≠ [].
Proof. unfold push_back; cbn. by destruct (request_fifo b). Qed.

Lemma perform_draining a b b' :
  quiet a = true → stuck_draining b → perform a b = Some b' → stuck_draining b'.
Proof.
  intros Hq (Hm & Ho & Hs & Hf) E. unfold stuck_draining.
  destruct a as [r|i| | | | | | |created abort|i abort| | | |]; simpl in *;
    try (unfold enter_loop, GetRequest, mutex_ready, ServeRequest, finish, leave_loop in E;
         by rewrite Hm in E).
  - unfold register_enter in E. destruct (is_conc _); [|destruct (is_mutex _)].
    + destruct (mutexCond b); [|done]. destruct (_ <=? _); by simplify_eq.
    + destruct (mutexCond b); by simplify_eq.
    + simplify_eq. split_and!; try done. apply push_back_fifo.
  - unfold register_push_mutex in E. destruct (arriving b !! i); simplify_eq.
    split_and!; try done. apply push_back_fifo.
  - unfold register_push_conc in E. destruct (mutexCond b) as [|? []]; simplify_eq.
    split_and!; try done. apply push_back_fifo.
  - unfold register_leave in E. destruct (mutexCond b) as [|? []]; by simplify_eq.
  - unfold instance_end in E. destruct abort; [done |]. destruct (running b !! i); by simplify_eq.
  - unfold AddRef in E. destruct (obj b) as [n|]; by simplify_eq.
  - unfold DecRef in E. destruct (obj b) as [n|]; by simplify_eq.
  - unfold exit_run in E. rewrite Hm, Hs in E. rewrite bool_decide_eq_true_2 in E by done.
    rewrite (bool_decide_eq_false_2 (_ = [])) in E by done. simpl in E.
    by rewrite orb_true_r in E.
Qed.

(** A request queued after the main loop has ended is never served and keeps the process
    alive: from such a state no sequence of actions ends [Run], unless a method ends with an
    exception that cannot be sent back. *)
Theorem late_request_blocks_exit (b b' : pop_broker) (l : list action) :
  stuck_draining b → forallb quiet l = true → run l b = Some b' →
  stuck_draining b' ∧ main b' ≠ Exited.
Proof.
  intros Hb Hl Hr. enough (H : stuck_draining b') by (split; [done | by rewrite (proj1 H)]).
  revert b Hb Hr. induction l as [|a l IH]; simpl in *; intros b Hb; [by intros [= <-] |].
  apply andb_true_iff in Hl as [Ha Hl]. destruct (perform a b) as [b1|] eqn:E; [|done].
  apply (IH Hl). by eapply perform_draining.
Qed.

(** The last reference goes, the loop ends, and only then a call arrives. *)
Definition late_scenario : list action :=
  [ARegister (call 5 1); AEnter; AGet; AServe; AFinish true false; ADecRef; AEnter; ALeaveLoop;
   ARegister (call 1 2)].

Lemma late_request_blocks_exit_witness :
  ∃ b, run late_scenario broker_new = Some b ∧ stuck_draining b ∧
    run [AAddRef; ADecRef] b ≠ None ∧
    ∀ b', run [AAddRef; ADecRef] b = Some b' → stuck_draining b' ∧ main b' ≠ Exited.
Proof.
  destruct (run late_scenario broker_new) as [b|] eqn:E; [|vm_compute in E; discriminate E].
  exists b. split; [done |].
  assert (Hb : stuck_draining b) by (vm_compute in E; by injection E as <-).
  split; [exact Hb |]. split; [vm_compute in E; by injection E as <- |].
  intros b' Hr. exact (late_request_blocks_exit b b' [AAddRef; ADecRef] Hb eq_refl Hr).
Defined.
