(* ===== verification/SearchNode.v ===== *)
(** * Search nodes

    [POPCSearchNode] (services/lib/popc_search_node.cc): the state of one node of the grid and its
    methods. A method runs against the rest of the grid ([peers]: what the synchronous calls to
    other objects return) and leaves asynchronous calls behind ([msg]). An exception keeps the
    changes made before it, as in the code. *)

From S2P Require Import Prelude Machine Buffer AccessPoint Discovery Utils.

Definition MAXREQTOSAVE : Z := 10.
Definition MAXREQUNIQUEIDLENGTH : Z := 100.

(** ** State *)

Record SearchNode : Type := MkSearchNode {
  self : string;                                 (* GetAccessPoint() *)
  nodeInfo : NodeInfo.POPCSearchNodeInfo;
  logicalClock : Z;
  sem_logicalClock : Z;
  psn_currentJobs : Z;
  psn_maxjobs : option Z;
  neighborsList : list string;                   (* the access points of the interfaces *)
  knownRequests : list string;
  actualReq : list (string * NodeInfo.POPCSearchNodeInfos);
  reqsem : gmap string (option Z);               (* a semaphore, or a null pointer *)
  sems : gmap Z Z }.                             (* the values of the semaphores *)
#[export] Instance SearchNode_eta : Eta SearchNode := λ n,
  MkSearchNode (self n) (nodeInfo n) (logicalClock n) (sem_logicalClock n) (psn_currentJobs n)
    (psn_maxjobs n) (neighborsList n) (knownRequests n) (actualReq n) (reqsem n) (sems n).

Definition search_node_new (ap : string) : SearchNode :=
  MkSearchNode ap NodeInfo.info_new 0 0 0 None [] [] [] ∅ ∅.

(** Asynchronous calls to the search node or the job manager at an access point. *)
Inductive msg : Type :=
  | Ask (dst : string) (req : Req.Request) (node_ap sender : string)
  | Callback (dst : string) (resp : Resp.Response)
  | Reroute (dst : string) (resp : Resp.Response) (wb : Wayback.POPWayback)
  | Unregister (jm url : string)
  | AppEnd (jm popAppId : string).

(** The synchronous calls to other nodes: they throw when the node cannot be reached. *)
Record peers : Type := MkPeers {
  peer_id : string → result string;         (* getPOPCSearchNodeId() *)
  peer_jobmgr : string → result string;     (* getJobMgrRef() *)
  connect_psn : string → result ();         (* the constructor of an interface *)
  connect_jm : string → result () }.

(** ** Method bodies *)

Definition N (A : Type) : Type := SearchNode → SearchNode * list msg * result A.
Definition nret {A : Type} (a : A) : N A := λ n, (n, [], Ok a).
Definition nlift {A : Type} (r : result A) : N A := λ n, (n, [], r).
Definition nbind {A B : Type} (m : N A) (k : A → N B) : N B := λ n,
  match m n with
  | (n1, out1, Ok a) => let '(n2, out2, r) := k a n1 in (n2, out1 ++ out2, r)
  | (n1, out1, Throw c i) => (n1, out1, Throw c i)
  | (n1, out1, Stuck) => (n1, out1, Stuck)
  end.
Definition nget {A : Type} (f : SearchNode → A) : N A := λ n, (n, [], Ok (f n)).
Definition nset (f : SearchNode → SearchNode) : N () := λ n, (f n, [], Ok ()).
Definition nsend (m : msg) : N () := λ n, (n, [m], Ok ()).
(** [try { m } catch (std::exception&) { log }]. *)
Definition ntry (m : N ()) : N () := λ n,
  match m n with
  | (n1, out1, Throw _ _) => (n1, out1, Ok ())
  | r => r
  end.

Notation "'do!' x := m 'in' k" := (nbind m (λ x, k))
  (at level 10, x pattern, m at level 100, k at level 200) : pop_scope.
Notation "m >>> k" := (nbind m (λ _, k)) (at level 60, right associativity) : pop_scope.

Fixpoint nfor {A : Type} (l : list A) (f : A → N ()) : N () :=
  match l with
  | [] => nret ()
  | x :: l' => f x >>> nfor l' f
  end.

(** ** Attributes *)

Definition setPOPCSearchNodeId (v : string) (n : SearchNode) :=
  n <| nodeInfo := (nodeInfo n) <| NodeInfo.nodeId := v |> |>.
Definition getPOPCSearchNodeId (n : SearchNode) : string := NodeInfo.nodeId (nodeInfo n).
Definition setOperatingSystem (v : string) (n : SearchNode) :=
  n <| nodeInfo := (nodeInfo n) <| NodeInfo.operatingSystem := v |> |>.
Definition getOperatingSystem (n : SearchNode) : string := NodeInfo.operatingSystem (nodeInfo n).
Definition setPower (p : float) (n : SearchNode) :=
  n <| nodeInfo := (nodeInfo n) <| NodeInfo.power := Some p |> |>.
Definition getPower (n : SearchNode) : result float := read_member (NodeInfo.power (nodeInfo n)).
Definition setCpuSpeed (v : Z) (n : SearchNode) :=
  n <| nodeInfo := (nodeInfo n) <| NodeInfo.cpuSpeed := Some v |> |>.
Definition getCpuSpeed (n : SearchNode) : result Z := read_member (NodeInfo.cpuSpeed (nodeInfo n)).
Definition setMemorySize (v : float) (n : SearchNode) :=
  n <| nodeInfo := (nodeInfo n) <| NodeInfo.memorySize := Some v |> |>.
Definition memory_size (n : SearchNode) : result float :=
  read_member (NodeInfo.memorySize (nodeInfo n)).
Definition setNetworkBandwidth (v : float) (n : SearchNode) :=
  n <| nodeInfo := (nodeInfo n) <| NodeInfo.networkBandwidth := Some v |> |>.
Definition getNetworkBandwidth (n : SearchNode) : result float :=
  read_member (NodeInfo.networkBandwidth (nodeInfo n)).
Definition setDiskSpace (v : Z) (n : SearchNode) :=
  n <| nodeInfo := (nodeInfo n) <| NodeInfo.diskSpace := Some v |> |>.
Definition getDiskSpace (n : SearchNode) : result Z := read_member (NodeInfo.diskSpace (nodeInfo n)).
Definition setProtocol (v : string) (n : SearchNode) :=
  n <| nodeInfo := (nodeInfo n) <| NodeInfo.protocol := v |> |>.
Definition getProtocol (n : SearchNode) : string := NodeInfo.protocol (nodeInfo n).
Definition setEncoding (v : string) (n : SearchNode) :=
  n <| nodeInfo := (nodeInfo n) <| NodeInfo.encoding := v |> |>.
Definition getEncoding (n : SearchNode) : string := NodeInfo.encoding (nodeInfo n).
Definition setJobMgrRef (v : pop_accesspoint) (n : SearchNode) : result SearchNode :=
  let! ap := accesspoint_assign (NodeInfo.jobmgr (nodeInfo n)) v in
  Ok (n <| nodeInfo := (nodeInfo n) <| NodeInfo.jobmgr := ap |> |>).
Definition getJobMgrRef (n : SearchNode) : pop_accesspoint := NodeInfo.jobmgr (nodeInfo n).
Definition setPKI (v : string) (n : SearchNode) :=
  n <| nodeInfo := (nodeInfo n) <| NodeInfo.pki := v |> |>.
Definition getPKI (n : SearchNode) : string := NodeInfo.pki (nodeInfo n).
Definition setMaxJobs (v : Z) (n : SearchNode) := n <| psn_maxjobs := Some v |>.
Definition getMaxJobs (n : SearchNode) : result Z := read_member (psn_maxjobs n).

(** A [float] converted to [int]: truncated, undefined outside its range. *)
Definition trunc_float (f : float) : result Z :=
  match f with
  | S754_zero _ => Ok 0
  | S754_finite s m e =>
      let a := if 0 <=? e then Z.pos m * 2 ^ e else Z.pos m / 2 ^ (- e) in
      check_int (if s then - a else a)
  | _ => Stuck
  end.
Definition getMemorySize (n : SearchNode) : result Z :=
  let! m := memory_size n in trunc_float m.

(** ** Jobs *)

Definition addJob (p m b : float) (n : SearchNode) : result SearchNode :=
  let! mem := memory_size n in
  let! pow := getPower n in
  let! ban := getNetworkBandwidth n in
  let! jobs := check_int (psn_currentJobs n + 1) in
  Ok (setNetworkBandwidth (fsub ban b) (setPower (fsub pow p) (setMemorySize (fsub mem m) n))
        <| psn_currentJobs := jobs |>).

(** The figures of the node are replaced, not increased. *)
Definition removeJob (p m b : float) (nbJob : Z) (n : SearchNode) : result SearchNode :=
  let! jobs := check_int (psn_currentJobs n - nbJob) in
  Ok (setNetworkBandwidth b (setPower p (setMemorySize m n)) <| psn_currentJobs := jobs |>).

(** ** Neighbours *)

Definition addNeighbor (node : string) (n : SearchNode) : SearchNode :=
  n <| neighborsList := neighborsList n ++ [node] |>.

(** The first interface to the access point is taken out; the comparison stops at a NUL. *)
Fixpoint remove_first (node : string) (l : list string) : list string :=
  match l with
  | [] => []
  | x :: l' => if decide (x = c_str node) then l' else x :: remove_first node l'
  end.

Definition removeNeighbor (node : string) (n : SearchNode) : SearchNode :=
  n <| neighborsList := remove_first node (neighborsList n) |>.

Definition deleteNeighbors (n : SearchNode) : SearchNode := n <| neighborsList := [] |>.

(** [getUID]: [snprintf("%s__%d")] into 100 characters. *)
Definition uid_text (id : string) (clock : Z) : list byte :=
  before_nul (string_bytes id) ++ [x5f; x5f] ++ digits_of 10 clock [].

Definition getUID : N string :=
  do! n := nget id in
  let uniqueId := bytes_string
    (take (Z.to_nat (MAXREQUNIQUEIDLENGTH - 1)) (uid_text (getPOPCSearchNodeId n) (logicalClock n))) in
  do! c := nlift (check_int (logicalClock n + 1)) in
  nset (λ n, n <| logicalClock := c |>) >>>
  nret uniqueId.

Definition getNextSemCounter : N Z :=
  do! c := nget sem_logicalClock in
  do! c' := nlift (check_int (c + 1)) in
  nset (λ n, n <| sem_logicalClock := c' |>) >>>
  nret c.

(** ** Local resources *)

(** One comparison: a request without the parameter is not refused. *)
Definition refuse (flag : bool) (test : result bool) : result bool :=
  if flag then test else Ok false.

Definition compare {A : Type} (refused : A → A → bool) (wanted has : result A) : result bool :=
  let! w := wanted in let! h := has in Ok (refused w h).

(** The comparisons, in order, up to the first that refuses. *)
Fixpoint first_refusal (l : list (result bool)) : result bool :=
  match l with
  | [] => Ok false
  | test :: l' => let! b := test in if (b : bool) then Ok true else first_refusal l'
  end.

Definition half : float := binary_normalize 24 128 1 (-1) false.

Definition checkResource (req : Req.Request) (n : SearchNode) : result bool :=
  let! maxjobs := getMaxJobs n in
  if maxjobs <=? psn_currentJobs n then Ok false else
  let! refused := first_refusal [
    refuse (Req.hasMinCpuSpeedSet req) (compare Z.gtb (Req.getMinCpuSpeed req) (getCpuSpeed n));
    refuse (Req.hasExpectedCpuSpeedSet req)
      (compare Z.leb (Req.getExpectedCpuSpeed req) (getCpuSpeed n));
    refuse (Req.hasMinMemorySizeSet req)
      (compare fgt (Req.getMinMemorySize req) (memory_size n));
    refuse (Req.hasExpectedMemorySizeSet req)
      (compare fge (Req.getExpectedMemorySize req) (memory_size n))] in
  if (refused : bool) then Ok false else
  let! ban := getNetworkBandwidth n in
  let! refused := if fgt ban half then first_refusal [
      refuse (Req.hasMinNetworkBandwidthSet req)
        (compare fgt (Req.getMinNetworkBandwidth req) (Ok ban));
      refuse (Req.hasExpectedNetworkBandwidthSet req)
        (compare fge (Req.getExpectedNetworkBandwidth req) (Ok ban))]
    else Ok false in
  if (refused : bool) then Ok false else
  let! refused := first_refusal [
    refuse (Req.hasMinDiskSpaceSet req) (compare Z.gtb (Req.getMinDiskSpace req) (getDiskSpace n));
    refuse (Req.hasMinPowerSet req) (compare fgt (Req.getMinPower req) (getPower n));
    refuse (Req.hasExpectedPowerSet req) (compare fgt (Req.getExpectedPower req) (getPower n))] in
  Ok (negb refused).

(** ** Discovery *)

Section Discovery.
Variable P : peers.

(** [getNeighbors]: asks every neighbour for its identifier. *)
Fixpoint getNeighbors_of (l : list string) : result (list string) :=
  match l with
  | [] => Ok []
  | i :: l' => let! nid := peer_id P i in let! ids := getNeighbors_of l' in Ok (nid :: ids)
  end.

Definition getNeighbors : N (list string) :=
  do! l := nget neighborsList in nlift (getNeighbors_of l).

Definition getNeighborsAsString : N string :=
  do! l := nget neighborsList in
  do! ids := nlift (getNeighbors_of l) in
  nret (c_str (bytes_string (concat ((λ i, before_nul (string_bytes i) ++ [x3b]) <$> ids)))).

Definition more_hops (req : Req.Request) : bool :=
  (0 <=? Req.getMaxHops req) || (Req.getMaxHops req =? Req.UNLIMITED_HOPS).

(** The neighbours that the received exploration list does not name are asked. *)
Definition propagate (oldEL : Exploration.ExplorationList) (req : Req.Request) (node_ap : string) :
    N () :=
  do! l := nget neighborsList in
  do! me := nget self in
  nfor l (λ i,
    do! nid := nlift (peer_id P i) in
    if Exploration.isIn nid oldEL then nret ()
    else do! nid := nlift (peer_id P i) in nsend (Ask i req node_ap me)).

(** [req.addNodeToExplorationList(getPOPCSearchNodeId(), getNeighbors())]. *)
Definition add_to_exploration (req : Req.Request) : N Req.Request :=
  do! me := nget getPOPCSearchNodeId in
  do! ns := getNeighbors in
  nlift (Req.addNodeToExplorationList me ns req).

(** [rerouteResponse]. *)
Definition rerouteResponse (resp : Resp.Response) (wb : Wayback.POPWayback) : N () :=
  ntry (
    if Wayback.isLastNode wb then
      do! next := nlift (Wayback.getNextNode wb) in
      nlift (connect_psn P (c_str next)) >>>
      nsend (Callback (c_str next) resp)
    else
      do! next := nlift (Wayback.getNextNode wb) in
      do! wb := nlift (Wayback.deleteNextNode wb) in
      nlift (connect_psn P (c_str next)) >>>
      nsend (Reroute (c_str next) resp wb)).

(** A request to forget what an application reserved. *)
Definition ask_end (req : Req.Request) (node_ap : string) : N () :=
  let oldEL := Req.getExplorationList req in
  do! req := add_to_exploration req in
  (if more_hops req then propagate oldEL req node_ap else nret ()) >>>
  do! jm := nget getJobMgrRef in
  do! jm := nlift (accesspoint_copy jm) in
  nlift (connect_jm P (GetAccessString jm)) >>>
  nsend (AppEnd (GetAccessString jm) (Req.getPOPAppId req)).

Definition is_known (uid : string) (n : SearchNode) : bool :=
  existsb (λ k, bool_decide (c_str k = c_str uid)) (knownRequests n).

(** A request seen before: the link it came through is removed on both sides. *)
Definition refuse_known (sender : string) : N () :=
  nlift (connect_psn P sender) >>>
  do! jm := nlift (peer_jobmgr P sender) in
  nlift (connect_jm P jm) >>>
  do! me := nget self in
  nsend (Unregister jm me) >>>
  nset (removeNeighbor sender).

(** The identifier enters the history, which keeps the last ten. *)
Definition remember (uid : string) (n : SearchNode) : SearchNode :=
  let l := knownRequests n ++ [uid] in
  n <| knownRequests := if MAXREQTOSAVE <? zlen l then drop 1 l else l |>.

(** The answer of a node whose resources are enough. *)
Definition answer (req : Req.Request) (node_ap : string) : N () :=
  do! info := nget nodeInfo in
  let resp := Resp.MkResponse (Req.getUniqueId req) (Req.getPOPAppId req) info
                (Req.getExplorationList req) in
  if Wayback.isLastNode (Req.getWayBack req) then
    ntry (nlift (connect_psn P node_ap) >>> nsend (Callback node_ap resp))
  else rerouteResponse resp (Req.getWayBack req).

Definition ask_request (req : Req.Request) (node_ap sender : string) : N () :=
  do! known := nget (is_known (Req.getUniqueId req)) in
  if (known : bool) then refuse_known sender
  else
    nset (remember (Req.getUniqueId req)) >>>
    let oldEL := Req.getExplorationList req in
    do! req := add_to_exploration req in
    do! ok := nget (checkResource req) in
    do! isResourcesOk := nlift ok in
    (if (isResourcesOk : bool) then answer req node_ap else nret ()) >>>
    if more_hops req then
      do! me := nget getPOPCSearchNodeId in
      do! req := nlift (Req.addNodeToWb me req) in
      propagate oldEL req node_ap
    else nret ().

Definition askResourcesDiscovery (req : Req.Request) (node_ap sender : string) : N () :=
  ntry (if Req.isEndRequest req then ask_end req node_ap else ask_request req node_ap sender).
End Discovery.

(** ** Answers *)

(** [actualReq[id] = infos] on a [std::map]: sorted by key. *)
Fixpoint map_assign {V : Type} (k : string) (v : V) (l : list (string * V)) : list (string * V) :=
  match l with
  | [] => [(k, v)]
  | (k', v') :: l' =>
      match String.compare k k' with
      | Eq => (k, v) :: l'
      | Lt => (k, v) :: l
      | Gt => (k', v') :: map_assign k v l'
      end
  end.

(** The first entry whose key is the same C string. *)
Fixpoint update_first {V : Type} (k : string) (f : V → V) (l : list (string * V)) :
    list (string * V) :=
  match l with
  | [] => []
  | (k', v) :: l' => if decide (c_str k' = c_str k) then (k', f v) :: l'
                     else (k', v) :: update_first k f l'
  end.

Fixpoint find_first {V : Type} (k : string) (l : list (string * V)) : option V :=
  match l with
  | [] => None
  | (k', v) :: l' => if decide (c_str k' = c_str k) then Some v else find_first k l'
  end.

Definition map_erase {V : Type} (k : string) (l : list (string * V)) : list (string * V) :=
  List.filter (λ e, negb (bool_decide (e.1 = k))) l.

(** [sem_post]. *)
Definition sem_post (sem : option Z) : N () :=
  match sem with
  | Some c => nset (λ n, n <| sems := alter (Z.add 1) c (sems n) |>)
  | None => nlift Stuck
  end.

(** [reqsem[id]]: a null pointer is inserted when there is no entry. *)
Definition reqsem_at (id : string) : N (option Z) :=
  do! m := nget reqsem in
  match m !! id with
  | Some p => nret p
  | None => nset (λ n, n <| reqsem := <[id := None]> (reqsem n) |>) >>> nret None
  end.

Definition callbackResult (resp : Resp.Response) : N () :=
  let id := Resp.getReqUniqueId resp in
  nset (λ n, n <| actualReq :=
    update_first id (NodeInfo.addANodeInfo (Resp.getFoundNodeInfo resp)) (actualReq n) |>) >>>
  do! sem := reqsem_at (c_str id) in
  match sem with Some _ => sem_post sem | None => nret () end.

(** The timer of a discovery that waits for its first answer. *)
Definition unlockDiscovery (reqid : string) : N () :=
  do! sem := reqsem_at (c_str reqid) in sem_post sem.

(** ** Discoveries of the node itself

    [launchDiscovery] up to the point where it blocks, the wait, and the rest: the method is
    concurrent, and answers arrive in between. The semaphore waited for is the result of the first
    part, [None] when the wait is a delay. *)
Section Launch.
Variable P : peers.

Definition launch_begin (req : Req.Request) (timeout : Z) : N (option Z) :=
  let timeout := if Req.isEndRequest req then 1 else timeout in
  let uid := Req.getUniqueId req in
  nset (λ n, n <| actualReq := map_assign uid [] (actualReq n) |>) >>>
  do! me := nget self in
  if timeout =? 0 then
    do! c := getNextSemCounter in
    nset (λ n, n <| sems := <[c := 0]> (sems n) |>) >>>
    nset (λ n, n <| reqsem := match reqsem n !! c_str uid with
                              | Some _ => reqsem n
                              | None => <[c_str uid := Some c]> (reqsem n)
                              end |>) >>>
    askResourcesDiscovery P req me me >>>
    nret (Some c)
  else
    askResourcesDiscovery P req me me >>>
    nret None.

(** [sem_wait]: [None] while the semaphore is zero. *)
Definition sem_wait (c : Z) (n : SearchNode) : option SearchNode :=
  match sems n !! c with
  | Some v => if 0 <? v then Some (n <| sems := <[c := v - 1]> (sems n) |>) else None
  | None => None
  end.

Definition launch_end (req : Req.Request) (sem : option Z) : N NodeInfo.POPCSearchNodeInfos :=
  let uid := Req.getUniqueId req in
  match sem with
  | Some _ => nset (λ n, n <| reqsem := delete (c_str uid) (reqsem n) |>)
  | None => nret ()
  end >>>
  do! l := nget actualReq in
  nset (λ n, n <| actualReq := map_erase uid (actualReq n) |>) >>>
  nret (default [] (find_first uid l)).
End Launch.

(** ** What the methods do *)

(** Splits the run of a method into the runs of its steps. *)
Lemma nbind_run {A B : Type} (m : N A) (k : A → N B) n n' out r :
  nbind m k n = (n', out, r) →
  (∃ n1 out1 out2 a, m n = (n1, out1, Ok a) ∧ k a n1 = (n', out2, r) ∧ out = out1 ++ out2) ∨
  (m n = (n', out, Throw (A := A) (match r with Throw c _ => c | _ => 0 end)
                     (match r with Throw _ i => i | _ => "" end)) ∧ ∃ c i, r = Throw c i) ∨
  (m n = (n', out, Stuck) ∧ r = Stuck).
Proof.
  unfold nbind. destruct (m n) as [[n1 out1] [a|c i|]] eqn:E; intros H.
  - left. destruct (k a n1) as [[n2 out2] r2] eqn:E2. simplify_eq. eauto 10.
  - right; left. simplify_eq. eauto.
  - right; right. by simplify_eq.
Qed.

(** A step that only reads. *)
Lemma nget_bind {A B : Type} (f : SearchNode → A) (k : A → N B) n :
  nbind (nget f) k n = k (f n) n.
Proof. unfold nbind, nget. by destruct (k (f n) n) as [[??] ?]. Qed.
Lemma nset_bind {B : Type} f (k : () → N B) n : nbind (nset f) k n = k () (f n).
Proof. unfold nbind, nset. by destruct (k () (f n)) as [[??] ?]. Qed.
Lemma nret_bind {A B : Type} (a : A) (k : A → N B) n : nbind (nret a) k n = k a n.
Proof. unfold nbind, nret. by destruct (k a n) as [[??] ?]. Qed.
Lemma nlift_bind {A B : Type} (r : result A) (k : A → N B) n :
  nbind (nlift r) k n = match r with
                        | Ok a => k a n
                        | Throw c i => (n, [], Throw c i)
                        | Stuck => (n, [], Stuck)
                        end.
Proof. unfold nbind, nlift. destruct r as [a| |]; [by destruct (k a n) as [[??] ?] | done | done]. Qed.
Lemma nsend_bind {B : Type} m (k : () → N B) n :
  nbind (nsend m) k n = (let '(n2, out2, r) := k () n in (n2, m :: out2, r)).
Proof. unfold nbind, nsend. by destruct (k () n) as [[??] ?]. Qed.
Create Rewrite HintDb nrun.
#[export] Hint Rewrite @nget_bind @nset_bind @nret_bind @nlift_bind @nsend_bind : nrun.

Lemma ntry_run (m : N ()) n n' out r :
  ntry m n = (n', out, r) → ∃ r', m n = (n', out, r').
Proof. unfold ntry. destruct (m n) as [[n1 out1] [a|c i|]]; intros; simplify_eq; eauto. Qed.

Section Behaviour.
Variable P : peers.

Lemma propagate_loop_run (EL : Exploration.ExplorationList) req nap me l n n' out r :
  nfor l (λ i,
    do! nid := nlift (peer_id P i) in
    if Exploration.isIn nid EL then nret ()
    else do! nid := nlift (peer_id P i) in nsend (Ask i req nap me)) n = (n', out, r) →
  n' = n ∧ ∃ l', l' `sublist_of` l ∧ out = (λ i, Ask i req nap me) <$> l' ∧
    Forall (λ i, ∃ nid, peer_id P i = Ok nid ∧ Exploration.isIn nid EL = false) l'.
Proof.
  revert n' out r. induction l as [|i l IH]; intros n' out r H; cbn [nfor] in H.
  { unfold nret in H. simplify_eq. split; [done |]. exists []. split_and!; [done | done | constructor]. }
  apply nbind_run in H as [(n1 & out1 & out2 & [] & H1 & H2 & ->)|[[H1 _]|[H1 _]]];
    rewrite nlift_bind in H1; destruct (peer_id P i) as [nid|c e|] eqn:Ei; simplify_eq/=;
    try (split; [done |]; exists []; split_and!; [apply sublist_nil_l | done | constructor]).
  - destruct (Exploration.isIn nid EL) eqn:El.
    + unfold nret in H1. simplify_eq. apply IH in H2 as (-> & l' & Hl & -> & Hf).
      split; [done |]. exists l'. split_and!; [by constructor | done | done].
    + rewrite nlift_bind in H1. unfold nsend in H1. simplify_eq.
      apply IH in H2 as (-> & l' & Hl & -> & Hf). split; [done |]. exists (i :: l').
      split_and!; [by constructor | done | constructor; eauto].
  - destruct (Exploration.isIn nid EL); [done |]. by rewrite nlift_bind in H1.
  - destruct (Exploration.isIn nid EL); [done |]. by rewrite nlift_bind in H1.
Qed.

Lemma propagate_run EL req nap n n' out r :
  propagate P EL req nap n = (n', out, r) →
  n' = n ∧ ∃ l', l' `sublist_of` neighborsList n ∧ out = (λ i, Ask i req nap (self n)) <$> l' ∧
    Forall (λ i, ∃ nid, peer_id P i = Ok nid ∧ Exploration.isIn nid EL = false) l'.
Proof.
  unfold propagate. rewrite !nget_bind. apply propagate_loop_run.
Qed.

(** The request a node passes on: the node is in its exploration list. *)
Definition passed_on (n : SearchNode) (req req' : Req.Request) : Prop :=
  (∃ ns, Req.explorationList req' =
         Exploration.addListNode (getPOPCSearchNodeId n) ns (Req.explorationList req)) ∧
  (Req.wb req' = Req.wb req ∨
   Wayback.insertNode (getPOPCSearchNodeId n) (Req.wb req) = Ok (Req.wb req')) ∧
  Req.endingSignal req' = Req.endingSignal req ∧ Req.uniqueId req' = Req.uniqueId req.

Definition asks (n : SearchNode) (req : Req.Request) (nap : string) (l : list msg) : Prop :=
  ∃ req' l', passed_on n req req' ∧ l' `sublist_of` neighborsList n ∧
    l = (λ i, Ask i req' nap (self n)) <$> l' ∧
    Forall (λ i, ∃ nid, peer_id P i = Ok nid ∧
                        Exploration.isIn nid (Req.explorationList req) = false) l'.

(** An answer goes to the node that asked, unless the way back has two nodes or more. *)
Definition reply (n : SearchNode) (req : Req.Request) (nap : string) (m : msg) : Prop :=
  checkResource req n = Ok true ∧
  ∃ resp, Resp.reqUniqueId resp = Req.uniqueId req ∧ Resp.foundNodeInfo resp = nodeInfo n ∧
    ((m = Callback nap resp ∧ Wayback.isLastNode (Req.wb req) = true) ∨
     (Wayback.isLastNode (Req.wb req) = false ∧
      ∃ next wb, m = Reroute next resp wb ∧ length (Req.wb req) = S (length wb))).

(** What [askResourcesDiscovery] leaves: at most one answer, requests to neighbours that the
    received exploration list does not name, and the end of the application for an end request. *)
Definition ask_output (n : SearchNode) (req : Req.Request) (nap : string) (out : list msg) : Prop :=
  ∃ rep al fin, out = rep ++ al ++ fin ∧
    (rep = [] ∨ ∃ m, rep = [m] ∧ reply n req nap m ∧ Req.endingSignal req = false) ∧
    (al = [] ∨ asks n req nap al) ∧
    (fin = [] ∨ ∃ jm, fin = [AppEnd jm (Req.popappid req)] ∧ Req.endingSignal req = true).

Lemma add_to_exploration_run req n n' out r :
  add_to_exploration P req n = (n', out, r) →
  n' = n ∧ out = [] ∧
  match r with
  | Ok req' => ∃ ns h, getNeighbors_of P (neighborsList n) = Ok ns ∧
      (req' = req <| Req.explorationList :=
        Exploration.addListNode (getPOPCSearchNodeId n) ns (Req.explorationList req) |>
        <| Req.maxHops := h |>)
  | _ => True
  end.
Proof.
  unfold add_to_exploration, getNeighbors. rewrite nget_bind. intros H.
  apply nbind_run in H as [(n1 & out1 & out2 & ns & H1 & H2 & ->)|[[H1 (c & i & ->)]|[H1 ->]]].
  - rewrite nget_bind in H1. unfold nlift in *. simplify_eq. split_and!; [done | done |].
    unfold Req.addNodeToExplorationList. simpl. case_if; simpl.
    + eexists ns, _. split; [done |]. by destruct req.
    + destruct (check_int _) as [h| |]; simpl; [|done|done]. exists ns, h. done.
  - rewrite nget_bind in H1. unfold nlift in *. by simplify_eq.
  - rewrite nget_bind in H1. unfold nlift in *. by simplify_eq.
Qed.

Lemma passed_on_exploration n req ns h :
  passed_on n req (req <| Req.explorationList :=
    Exploration.addListNode (getPOPCSearchNodeId n) ns (Req.explorationList req) |>
    <| Req.maxHops := h |>).
Proof. unfold passed_on. simpl. eauto 10. Qed.

Lemma insertNode_cases id w w' : Wayback.insertNode id w = Ok w' → w' = w ∨ w' = w ++ [id].
Proof.
  unfold Wayback.insertNode. destruct w as [|x w]; [intros [= <-]; by right |].
  intros H. apply rbind_Ok in H as (t & _ & H). case_decide; simplify_eq; auto.
Qed.

Lemma deleteNextNode_length w w' : Wayback.deleteNextNode w = Ok w' → length w = S (length w').
Proof.
  destruct w as [|x w]; [done |]. intros [= <-].
  rewrite (app_removelast_last (l := x :: w) x) at 1 by done. rewrite length_app. simpl. lia.
Qed.

Lemma rerouteResponse_run resp wb n n' out r :
  rerouteResponse P resp wb n = (n', out, r) → Wayback.isLastNode wb = false →
  n' = n ∧ (out = [] ∨ ∃ next wb', out = [Reroute next resp wb'] ∧ length wb = S (length wb')).
Proof.
  intros H Hl. unfold rerouteResponse in H. rewrite Hl in H. apply ntry_run in H as [r' H].
  rewrite nlift_bind in H. destruct (Wayback.getNextNode wb) as [nx|c i|]; simplify_eq; auto.
  rewrite nlift_bind in H.
  destruct (Wayback.deleteNextNode wb) as [wb'|c i|] eqn:Ed; simplify_eq; auto.
  rewrite nlift_bind in H. destruct (connect_psn P (c_str nx)) as [[]|c i|]; simplify_eq; auto.
  unfold nsend in H. simplify_eq. split; [done |]. right. eexists _, _. split; [done |].
  by apply deleteNextNode_length.
Qed.

Lemma answer_run req nap n n' out r :
  answer P req nap n = (n', out, r) → checkResource req n = Ok true →
  n' = n ∧ (out = [] ∨ ∃ m, out = [m] ∧ reply n req nap m).
Proof.
  intros H Hc. unfold answer in H. rewrite nget_bind in H. cbv zeta in H.
  destruct (Wayback.isLastNode _) eqn:Hl.
  - apply ntry_run in H as [r' H]. rewrite nlift_bind in H.
    destruct (connect_psn P nap) as [[]|c i|]; simplify_eq; auto.
    unfold nsend in H. simplify_eq. split; [done |]. right. eexists. split; [done |].
    split; [done |]. eexists. split_and!; [| |left; split; [done | exact Hl]]; done.
  - apply rerouteResponse_run in H as (-> & [-> | (nx & wb' & -> & Hw)]); [|auto |done].
    + auto.
    + split; [done |]. right. eexists. split; [done |]. split; [done |].
      eexists. split_and!; [| | right; split; [exact Hl | exists nx, wb'; split; [done | exact Hw]]]; done.
Qed.

Lemma ask_output_nil n req nap : ask_output n req nap [].
Proof. exists [], [], []. auto 10. Qed.

Lemma asks_of_propagate n n' req req' nap out r :
  propagate P (Req.explorationList req) req' nap n = (n', out, r) →
  passed_on n req req' → n' = n ∧ asks n req nap out.
Proof.
  intros H Hp. apply propagate_run in H as (-> & l' & Hs & -> & Hf). split; [done |].
  by exists req', l'.
Qed.

Lemma ask_end_run req nap n n' out r :
  ask_end P req nap n = (n', out, r) → Req.endingSignal req = true →
  n' = n ∧ ask_output n req nap out.
Proof.
  intros H He. unfold ask_end in H.
  apply nbind_run in H as [(n1 & o1 & o2 & req' & H1 & H2 & ->)|[[H1 _]|[H1 _]]];
    apply add_to_exploration_run in H1 as (-> & -> & Hr); simpl;
    [| by split; [|apply ask_output_nil] | by split; [|apply ask_output_nil]].
  destruct Hr as (ns & h & _ & ->).
  pose proof (passed_on_exploration n req ns h) as Hp.
  set (req' := req <| Req.explorationList := _ |> <| Req.maxHops := h |>) in *.
  assert (Hprop : ∀ n1 o1 r1,
    (if more_hops req' then propagate P (Req.getExplorationList req) req' nap else nret ()) n
    = (n1, o1, r1) → n1 = n ∧ (o1 = [] ∨ asks n req nap o1)).
  { intros n1 o1 r1 E. destruct (more_hops req').
    - destruct (asks_of_propagate _ _ _ _ _ _ _ E Hp). auto.
    - unfold nret in E. simplify_eq. auto. }
  apply nbind_run in H2 as [(n1 & o1 & o3 & [] & H1 & H2 & ->)|[[H1 _]|[H1 _]]];
    apply Hprop in H1 as [-> Ho]; (split; [|exists []]).
  - rewrite nget_bind, nlift_bind in H2. destruct (accesspoint_copy _) as [jm|c i|];
      simplify_eq; try done.
    rewrite nlift_bind in H2. destruct (connect_jm P _) as [[]|c i|]; unfold nsend in *;
      by simplify_eq.
  - rewrite nget_bind, nlift_bind in H2.
    exists o1, o3. split_and!; [done | by left | done |].
    destruct (accesspoint_copy _) as [jm|c i|]; simplify_eq; auto.
    rewrite nlift_bind in H2. destruct (connect_jm P _) as [[]|c i|]; unfold nsend in *;
      simplify_eq; auto. right. eexists. by split.
  - done.
  - exists o2, []. rewrite app_nil_r. auto 10.
  - done.
  - exists o2, []. rewrite app_nil_r. auto 10.
Qed.

Lemma refuse_known_run sender n n' out r :
  refuse_known P sender n = (n', out, r) →
  (n' = n ∨ n' = removeNeighbor sender n) ∧ (out = [] ∨ ∃ jm, out = [Unregister jm (self n)]).
Proof.
  intros H. unfold refuse_known in H. rewrite nlift_bind in H.
  destruct (connect_psn P sender) as [[]|c i|]; simplify_eq; auto.
  rewrite nlift_bind in H. destruct (peer_jobmgr P sender) as [jm|c i|]; simplify_eq; auto.
  rewrite nlift_bind in H. destruct (connect_jm P jm) as [[]|c i|]; simplify_eq; auto.
  rewrite nget_bind, nsend_bind in H. unfold nset in H. simplify_eq. split; eauto.
Qed.

Lemma ask_request_run req nap sender n n' out r :
  ask_request P req nap sender n = (n', out, r) →
  is_known (Req.uniqueId req) n = false → Req.endingSignal req = false →
  n' = remember (Req.uniqueId req) n ∧ ask_output n req nap out.
Proof.
  intros H Hk He. unfold ask_request in H. rewrite nget_bind in H. unfold Req.getUniqueId in H.
  rewrite Hk, nset_bind in H. set (n0 := remember (Req.uniqueId req) n) in *.
  apply nbind_run in H as [(n1 & o1 & o2 & req' & H1 & H2 & ->)|[[H1 _]|[H1 _]]];
    apply add_to_exploration_run in H1 as (-> & -> & Hr); simpl;
    [| by split; [|apply ask_output_nil] | by split; [|apply ask_output_nil]].
  destruct Hr as (ns & h & _ & ->). pose proof (passed_on_exploration n req ns h) as Hp.
  change (getPOPCSearchNodeId n0) with (getPOPCSearchNodeId n) in *.
  set (req' := req <| Req.explorationList := _ |> <| Req.maxHops := h |>) in *.
  rewrite nget_bind, nlift_bind in H2.
  change (checkResource req' n0) with (checkResource req n) in H2.
  destruct (checkResource req n) as [ok|c i|] eqn:Hc; simplify_eq;
    [| by split; [|apply ask_output_nil] | by split; [|apply ask_output_nil]].
  assert (Hans : ∀ n1 o1 r1, (if ok then answer P req' nap else nret ()) n0 = (n1, o1, r1) →
    n1 = n0 ∧ (o1 = [] ∨ ∃ m, o1 = [m] ∧ reply n req nap m ∧ Req.endingSignal req = false)).
  { intros n1 o1 r1 E. destruct ok; [|unfold nret in E; simplify_eq; auto].
    apply answer_run in E as (-> & [-> | (m & -> & Hm)]); [auto | | exact Hc].
    split; [done |]. right. exists m. split_and!; [done | exact Hm | done]. }
  apply nbind_run in H2 as [(n1 & o1 & o3 & [] & H1 & H2 & ->)|[[H1 _]|[H1 _]]];
    apply Hans in H1 as [-> Ho].
  2, 3: split; [done |]; exists o2, [], []; rewrite !app_nil_r; auto 10.
  assert (Hprop : n' = n0 ∧ (o3 = [] ∨ asks n req nap o3)).
  { destruct (more_hops req'); [|unfold nret in H2; simplify_eq; auto].
    rewrite nget_bind, nlift_bind in H2.
    destruct (Req.addNodeToWb _ req') as [req2|c i|] eqn:Ew; simplify_eq; auto.
    unfold Req.addNodeToWb in Ew. apply rbind_Ok in Ew as (w & Ew & [= <-]).
    apply asks_of_propagate in H2 as [-> Ha]; [by auto |].
    destruct Hp as (Hl & _ & Hs & Hu). split_and!; [exact Hl | right; exact Ew | exact Hs | exact Hu]. }
  destruct Hprop as [-> Ha]. split; [done |]. exists o1, o3, []. rewrite app_nil_r. auto 10.
Qed.

(** The whole method. *)
Lemma askResourcesDiscovery_run req nap sender n n' out r :
  askResourcesDiscovery P req nap sender n = (n', out, r) →
  (Req.endingSignal req = false ∧ is_known (Req.uniqueId req) n = true ∧
   (n' = n ∨ n' = removeNeighbor sender n) ∧ (out = [] ∨ ∃ jm, out = [Unregister jm (self n)])) ∨
  ((n' = n ∧ Req.endingSignal req = true ∨
    n' = remember (Req.uniqueId req) n ∧ Req.endingSignal req = false ∧
    is_known (Req.uniqueId req) n = false) ∧ ask_output n req nap out).
Proof.
  intros H. apply ntry_run in H as [r' H]. unfold Req.isEndRequest in H.
  destruct (Req.endingSignal req) eqn:He.
  - apply ask_end_run in H as [-> Ho]; [right; split; auto | done].
  - destruct (is_known (Req.uniqueId req) n) eqn:Hk.
    + unfold ask_request in H. rewrite nget_bind in H. unfold Req.getUniqueId in H.
      rewrite Hk in H. apply refuse_known_run in H as [Hn Ho]. by left.
    + apply ask_request_run in H as [-> Ho]; [right; split; auto | done | done].
Qed.
End Behaviour.

(** ** Local resources *)

Lemma refuse_Ok flag test b :
  refuse flag test = Ok b ↔ (flag = false ∧ b = false) ∨ (flag = true ∧ test = Ok b).
Proof. unfold refuse. destruct flag; intuition congruence. Qed.

Lemma compare_Ok {A : Type} (R : A → A → bool) w h b :
  compare R w h = Ok b ↔ ∃ x y, w = Ok x ∧ h = Ok y ∧ R x y = b.
Proof.
  unfold compare. rewrite rbind_Ok. split.
  - intros (x & -> & H). apply rbind_Ok in H as (y & -> & [= <-]). eauto.
  - intros (x & y & -> & -> & <-). eauto.
Qed.

Lemma first_refusal_false l : first_refusal l = Ok false ↔ Forall (eq (Ok false)) l.
Proof.
  induction l as [|t l IH]; simpl; [split; [constructor | done] |].
  rewrite Forall_cons, <- IH. destruct t as [[|]| |]; simpl; intuition congruence.
Qed.

(** A parameter that the request sets must stand in the relation to what the node has. *)
Definition meets {A : Type} (flag : bool) (wanted has : result A) (R : A → A → bool) : Prop :=
  flag = true → ∃ w h, wanted = Ok w ∧ has = Ok h ∧ R w h = false.

Lemma refuse_meets {A : Type} flag (w h : result A) R :
  Ok false = refuse flag (compare R w h) ↔ meets flag w h R.
Proof.
  unfold meets. split.
  - intros H. symmetry in H. apply refuse_Ok in H as [[-> _]|[-> H]]; [done |].
    intros _. by apply compare_Ok in H.
  - intros H. symmetry. apply refuse_Ok. destruct flag; [right | by left]. split; [done |].
    by apply compare_Ok, H.
Qed.

Ltac inv_tests :=
  repeat match goal with
         | H : Forall _ (_ :: _) |- _ => apply Forall_cons in H as [? H]
         | H : Ok false = refuse _ (compare _ _ _) |- _ => apply refuse_meets in H
         end.

(** C18: a node accepts a request exactly when it has a free job slot, at least the minima, more
    memory and bandwidth than expected and the expected power. The expected CPU speed is the other
    way round: the node must be slower than it. The bandwidth of a node that has at most 0.5 is not
    looked at. *)
Theorem checkResource_correct (req : Req.Request) (n : SearchNode) :
  checkResource req n = Ok true ↔
  ∃ maxjobs ban, psn_maxjobs n = Some maxjobs ∧ psn_currentJobs n < maxjobs ∧
    getNetworkBandwidth n = Ok ban ∧
    meets (Req.hasMinCpuSpeedSet req) (Req.getMinCpuSpeed req) (getCpuSpeed n) (λ w h, h <? w) ∧
    meets (Req.hasExpectedCpuSpeedSet req) (Req.getExpectedCpuSpeed req) (getCpuSpeed n)
      (λ w h, w <=? h) ∧
    meets (Req.hasMinMemorySizeSet req) (Req.getMinMemorySize req) (memory_size n)
      (λ w h, flt h w) ∧
    meets (Req.hasExpectedMemorySizeSet req) (Req.getExpectedMemorySize req) (memory_size n)
      (λ w h, fle h w) ∧
    (flt half ban = true →
      meets (Req.hasMinNetworkBandwidthSet req) (Req.getMinNetworkBandwidth req) (Ok ban)
        (λ w h, flt h w) ∧
      meets (Req.hasExpectedNetworkBandwidthSet req) (Req.getExpectedNetworkBandwidth req) (Ok ban)
        (λ w h, fle h w)) ∧
    meets (Req.hasMinDiskSpaceSet req) (Req.getMinDiskSpace req) (getDiskSpace n)
      (λ w h, h <? w) ∧
    meets (Req.hasMinPowerSet req) (Req.getMinPower req) (getPower n) (λ w h, flt h w) ∧
    meets (Req.hasExpectedPowerSet req) (Req.getExpectedPower req) (getPower n) (λ w h, flt h w).
Proof.
  assert (Hgt : ∀ flag w h, meets flag w h Z.gtb ↔ meets flag w h (λ w h, h <? w)).
  { intros flag w h. unfold meets. by setoid_rewrite Z.gtb_ltb. }
  unfold checkResource, getMaxJobs, read_member. split.
  - intros H. apply rbind_Ok in H as (m & Hm & H). destruct (psn_maxjobs n) as [m'|]; simplify_eq.
    destruct (m <=? psn_currentJobs n) eqn:Ej; [done |]. reflect_bools.
    apply rbind_Ok in H as (b1 & H1 & H). destruct b1; [done |].
    apply rbind_Ok in H as (ban & Hb & H).
    apply rbind_Ok in H as (b2 & H2 & H). destruct b2; [done |].
    apply rbind_Ok in H as (b3 & H3 & H). destruct b3; [done |].
    apply first_refusal_false in H1, H3. inv_tests. exists m, ban.
    split_and!; try done; try (by apply Hgt). intros Eb. unfold fgt in H2. unfold flt in Eb.
    rewrite Eb in H2. apply first_refusal_false in H2. by inv_tests.
  - intros (m & ban & -> & Hj & Hb & H1 & H2 & H3 & H4 & H5 & H6 & H7 & H8). cbn [rbind].
    rewrite (proj2 (Z.leb_gt _ _)) by done.
    rewrite (proj2 (first_refusal_false [_; _; _; _])) by
      (repeat first [apply Forall_cons; split; [by rewrite refuse_meets, ?Hgt |] | constructor]).
    cbn [rbind]. rewrite Hb. cbn [rbind].
    assert (E : (if fgt ban half then first_refusal [
      refuse (Req.hasMinNetworkBandwidthSet req)
        (compare fgt (Req.getMinNetworkBandwidth req) (Ok ban));
      refuse (Req.hasExpectedNetworkBandwidthSet req)
        (compare fge (Req.getExpectedNetworkBandwidth req) (Ok ban))] else Ok false) = Ok false).
    { unfold fgt at 1. destruct (SFltb half ban) eqn:Eb; [|done]. destruct (H5 Eb).
      apply first_refusal_false. repeat constructor; by apply refuse_meets. }
    rewrite E. cbn [rbind].
    rewrite (proj2 (first_refusal_false [_; _; _])) by
      (repeat first [apply Forall_cons; split; [by rewrite refuse_meets, ?Hgt |] | constructor]).
    done.
Qed.

(** ** History *)

(** The history names each of its requests once, and at most ten. *)
Definition history_ok (n : SearchNode) : Prop :=
  NoDup (c_str <$> knownRequests n) ∧ zlen (knownRequests n) ≤ MAXREQTOSAVE.

Lemma is_known_spec uid n : is_known uid n = true ↔ c_str uid ∈ c_str <$> knownRequests n.
Proof.
  unfold is_known. rewrite existsb_exists, list_elem_of_fmap. split.
  - intros (k & Hk & E). apply bool_decide_eq_true in E. exists k. split; [done |].
    by apply list_elem_of_In.
  - intros (k & E & Hk). exists k. split; [by apply list_elem_of_In |].
    by apply bool_decide_eq_true.
Qed.

Lemma remember_ok uid n :
  history_ok n → is_known uid n = false →
  history_ok (remember uid n) ∧ is_known uid (remember uid n) = true.
Proof.
  intros [Hd Hl] Hk.
  assert (Hu : c_str uid ∉ c_str <$> knownRequests n).
  { rewrite <- is_known_spec. by rewrite Hk. }
  assert (Hall : NoDup (c_str <$> knownRequests n ++ [uid])).
  { rewrite fmap_app. apply NoDup_app. split_and!; [done | | apply NoDup_singleton].
    intros x Hx. by intros ->%list_elem_of_singleton. }
  unfold history_ok. rewrite is_known_spec. unfold remember. simpl.
  destruct (knownRequests n) as [|k l]; simpl in *.
  { split_and!; [done | done | by left]. }
  case_if; reflect_bools; simpl in *.
  - apply NoDup_cons in Hall as [_ Hall]. rewrite ?drop_0 in *. split; [split; [done |] |].
    + rewrite length_app in *. simpl in *. lia.
    + rewrite fmap_app. apply elem_of_app. right. by left.
  - split; [split; [done | lia] |]. right. rewrite fmap_app. apply elem_of_app. right. by left.
Qed.


Lemma getNeighbors_dead P l :
  Forall (λ i, peer_id P i ≠ Stuck) l → Exists (λ i, ∃ c e, peer_id P i = Throw c e) l →
  ∃ c e, getNeighbors_of P l = Throw c e.
Proof.
  intros Hs He. induction He as [i l (c & e & E)|i l He IH]; simpl.
  - rewrite E. eauto.
  - apply Forall_cons in Hs as [Hi Hs]. destruct (peer_id P i); simpl; [|eauto|done].
    destruct (IH Hs) as (c & e & ->). eauto.
Qed.

(** A node with one neighbour that cannot be reached answers no request and forwards none: the
    exception ends the method before the local resources are looked at. *)
Theorem dead_neighbour_silences P req node_ap sender n :
  Forall (λ i, peer_id P i ≠ Stuck) (neighborsList n) →
  Exists (λ i, ∃ c e, peer_id P i = Throw c e) (neighborsList n) →
  Req.isEndRequest req = true ∨ is_known (Req.uniqueId req) n = false →
  askResourcesDiscovery P req node_ap sender n
  = ((if Req.isEndRequest req then n else remember (Req.uniqueId req) n), [], Ok ()).
Proof.
  intros Hs He Hk. destruct (getNeighbors_dead P _ Hs He) as (c & e & E).
  unfold askResourcesDiscovery, ntry. destruct (Req.isEndRequest req) eqn:Hend.
  - unfold ask_end, nbind, add_to_exploration, getNeighbors, nbind, nget, nlift. by rewrite E.
  - destruct Hk as [|Hk]; [done |].
    unfold ask_request. rewrite nget_bind. unfold Req.getUniqueId. rewrite Hk, nset_bind.
    unfold nbind, add_to_exploration, getNeighbors, nbind, nget, nlift.
    change (neighborsList (remember _ n)) with (neighborsList n). by rewrite E.
Qed.

(** ** Identifiers of requests *)

Lemma uid_text_inj id1 id2 c1 c2 :
  0 ≤ c1 ≤ int_max → 0 ≤ c2 ≤ int_max → uid_text id1 c1 = uid_text id2 c2 →
  before_nul (string_bytes id1) = before_nul (string_bytes id2) ∧ c1 = c2.
Proof.
  unfold int_max, uid_text. intros H1 H2 E.
  destruct (digits_of_spec 10 c1 []) as (d1 & E1 & Hd1 & Hv1 & _); [simpl; lia |].
  destruct (digits_of_spec 10 c2 []) as (d2 & E2 & Hd2 & Hv2 & _); [simpl; lia |].
  rewrite app_nil_r in E1, E2. rewrite E1, E2 in E.
  assert (Hno : ∀ d, Forall (λ c, isdigit c = true) d → x5f ∉ d).
  { intros d Hd Hin. rewrite Forall_forall in Hd. by apply Hd in Hin. }
  assert (Ed : d1 = d2).
  { apply (f_equal (after_last x5f)) in E.
    change ([x5f; x5f] ++ d1) with ([x5f] ++ x5f :: d1) in E.
    change ([x5f; x5f] ++ d2) with ([x5f] ++ x5f :: d2) in E.
    rewrite !(assoc_L (++)), !after_last_app in E by auto. done. }
  rewrite Ed in E. apply app_inv_tail in E. split; [done | congruence].
Qed.

Lemma uid_text_length id c :
  0 ≤ c ≤ int_max → zlen (before_nul (string_bytes id)) ≤ 87 → zlen (uid_text id c) ≤ 99.
Proof.
  unfold int_max, uid_text. intros Hc Hl.
  destruct (digits_of_spec 10 c []) as (d & -> & _ & _ & _ & Hd); [simpl; lia |].
  rewrite !length_app. simpl. lia.
Qed.

Lemma getUID_run n n' out u :
  getUID n = (n', out, Ok u) → 0 ≤ logicalClock n →
  zlen (before_nul (string_bytes (getPOPCSearchNodeId n))) ≤ 87 →
  string_bytes u = uid_text (getPOPCSearchNodeId n) (logicalClock n) ∧
  logicalClock n ≤ int_max ∧ n' = n <| logicalClock := logicalClock n + 1 |>.
Proof.
  intros H Hc Hl. unfold getUID in H. rewrite nget_bind, nlift_bind in H. cbv zeta in H.
  destruct (check_int _) as [c| |] eqn:Ec; [|done|done].
  unfold check_int in Ec. case_if; [|done]. simplify_eq.
  rewrite nset_bind in H. unfold nret in H. simplify_eq.
  assert (logicalClock n ≤ int_max)
    by (match goal with E : in_sint 32 _ = true |- _ => apply in_sint32 in E; unfold id in E end;
        unfold int_max; lia).
  rewrite take_ge by (pose proof (uid_text_length (getPOPCSearchNodeId n) (logicalClock n) ltac:(lia) Hl);
                      unfold MAXREQUNIQUEIDLENGTH; lia).
  by rewrite String.list_byte_of_string_of_list_byte.
Qed.

(** Two identifiers are equal only when the same node made them at the same clock, for node
    identifiers of at most 87 characters: a longer one pushes the clock out of the buffer. *)
Theorem getUID_unique n1 n2 n1' n2' out1 out2 u1 u2 :
  0 ≤ logicalClock n1 → 0 ≤ logicalClock n2 →
  zlen (before_nul (string_bytes (getPOPCSearchNodeId n1))) ≤ 87 →
  zlen (before_nul (string_bytes (getPOPCSearchNodeId n2))) ≤ 87 →
  getUID n1 = (n1', out1, Ok u1) → getUID n2 = (n2', out2, Ok u2) → u1 = u2 →
  c_str (getPOPCSearchNodeId n1) = c_str (getPOPCSearchNodeId n2) ∧
  logicalClock n1 = logicalClock n2 ∧
  logicalClock n1' = logicalClock n1 + 1.
Proof.
  intros H1 H2 L1 L2 E1 E2 ->.
  apply getUID_run in E1 as (E1 & M1 & ->), E2 as (E2 & M2 & ->); try done.
  rewrite E1 in E2. apply uid_text_inj in E2 as [Eb Ec]; [|lia|lia].
  split_and!; [unfold c_str; by rewrite Eb | done | done].
Qed.

(** ** Results of a discovery *)

Section Results.
Context {V : Type}.
Implicit Types (l : list (string * V)) (k : string).

Definition keys_plain l : Prop := Forall (λ e, c_str e.1 = e.1) l.

Lemma find_first_plain k v l :
  keys_plain ((k, v) :: l) → ∀ k', c_str k' = k' →
  find_first k' ((k, v) :: l) = if decide (k = k') then Some v else find_first k' l.
Proof.
  intros H k' Hk'. apply Forall_cons in H as [Hk _]. simpl in *. rewrite Hk, Hk'. done.
Qed.

Lemma find_first_assign k v l :
  keys_plain l → c_str k = k → find_first k (map_assign k v l) = Some v.
Proof.
  intros Hl Hk. induction Hl as [|[k' v'] l Hk' Hl IH]; simpl; [by rewrite decide_True |].
  destruct (String.compare k k') eqn:E; simpl; try (by rewrite decide_True).
  simpl in Hk'. rewrite decide_False; [done |]. rewrite Hk', Hk. intros ->.
  pose proof (String.compare_antisym k k) as Ha. rewrite E in Ha. simpl in Ha. congruence.
Qed.

Lemma keys_assign k v l : keys_plain l → c_str k = k → keys_plain (map_assign k v l).
Proof.
  intros Hl Hk. induction Hl as [|[k' v'] l Hk' Hl IH]; simpl; [by constructor |].
  destruct (String.compare k k'); repeat constructor; done.
Qed.

Lemma find_first_update k k' f l :
  find_first k (update_first k' f l)
  = if decide (c_str k = c_str k') then f <$> find_first k l else find_first k l.
Proof.
  induction l as [|[x v] l IH]; simpl; [by case_decide |].
  destruct (decide (c_str x = c_str k')) as [Ex|Ex]; simpl.
  - destruct (decide (c_str x = c_str k)); [by rewrite decide_True by congruence |].
    by rewrite decide_False by congruence.
  - destruct (decide (c_str x = c_str k)); [by rewrite decide_False by congruence | done].
Qed.

Lemma keys_update k f l : keys_plain l → keys_plain (update_first k f l).
Proof.
  induction 1 as [|[x v] l Hx Hl IH]; simpl; [constructor |]. case_decide; by constructor.
Qed.

Lemma find_first_erase k l : keys_plain l → c_str k = k → find_first k (map_erase k l) = None.
Proof.
  intros Hl Hk. induction Hl as [|[x v] l Hx Hl IH]; [done |]. unfold map_erase in *.
  cbn [List.filter fst]. simpl in Hx. case_bool_decide; cbn [negb]; [done |].
  simpl. by rewrite decide_False by congruence.
Qed.
End Results.

(** The arrival of an answer. *)
Definition receive (n : SearchNode) (resp : Resp.Response) : SearchNode :=
  (callbackResult resp n).1.1.

Lemma receive_actualReq n resp :
  actualReq (receive n resp)
  = update_first (Resp.getReqUniqueId resp)
      (NodeInfo.addANodeInfo (Resp.getFoundNodeInfo resp)) (actualReq n).
Proof.
  unfold receive, callbackResult. cbv zeta. rewrite nset_bind.
  unfold reqsem_at, nbind, nget. simpl.
  destruct (reqsem n !! _) as [[c|]|]; simpl; done.
Qed.

Definition answers_to (uid : string) (resp : Resp.Response) : bool :=
  bool_decide (c_str uid = c_str (Resp.reqUniqueId resp)).

Lemma receive_all uid rs n l :
  find_first uid (actualReq n) = Some l →
  find_first uid (actualReq (foldl receive n rs))
  = Some (l ++ (Resp.foundNodeInfo <$> List.filter (answers_to uid) rs)).
Proof.
  revert n l. induction rs as [|resp rs IH]; intros n l Hl; [simpl; by rewrite app_nil_r |].
  cbn [foldl List.filter].
  destruct (answers_to uid resp) eqn:E; unfold answers_to in E;
    [apply bool_decide_eq_true in E | apply bool_decide_eq_false in E].
  - rewrite (IH _ (l ++ [Resp.foundNodeInfo resp])).
    + csimpl. by rewrite <- app_assoc.
    + rewrite receive_actualReq, find_first_update, Hl. unfold Resp.getReqUniqueId.
      by rewrite decide_True by done.
  - apply IH. rewrite receive_actualReq, find_first_update, Hl. unfold Resp.getReqUniqueId.
    by rewrite decide_False by done.
Qed.

Lemma receive_keys rs n :
  keys_plain (actualReq n) → keys_plain (actualReq (foldl receive n rs)).
Proof.
  revert n. induction rs as [|resp rs IH]; intros n Hn; simpl; [done |].
  apply IH. rewrite receive_actualReq. by apply keys_update.
Qed.

Lemma ask_actualReq P req nap sender n n' out r :
  askResourcesDiscovery P req nap sender n = (n', out, r) → actualReq n' = actualReq n.
Proof.
  intros H. apply askResourcesDiscovery_run in H as [(_ & _ & [-> | ->] & _)|[[[-> _]|[-> _]] _]];
    done.
Qed.

Lemma launch_begin_actualReq P req timeout n n' out sem :
  launch_begin P req timeout n = (n', out, Ok sem) →
  actualReq n' = map_assign (Req.uniqueId req) [] (actualReq n).
Proof.
  unfold launch_begin. cbv zeta. rewrite nset_bind, nget_bind. intros H.
  destruct (_ =? 0) in H.
  - apply nbind_run in H as [(n1 & o1 & o2 & c & H1 & H & _)|[[_ (? & ? & ?)]|[_ ?]]]; try done.
    unfold getNextSemCounter in H1. rewrite nget_bind, nlift_bind in H1.
    destruct (check_int _); [|done|done]. rewrite nset_bind in H1. unfold nret in H1.
    simplify_eq. rewrite !nset_bind in H.
    apply nbind_run in H as [(n2 & o3 & o4 & [] & H1 & H & _)|[[_ (? & ? & ?)]|[_ ?]]]; try done.
    apply ask_actualReq in H1. unfold nret in H. by simplify_eq.
  - apply nbind_run in H as [(n2 & o3 & o4 & [] & H1 & H & _)|[[_ (? & ? & ?)]|[_ ?]]]; try done.
    apply ask_actualReq in H1. unfold nret in H. by simplify_eq.
Qed.

(** A discovery returns the answers to its request that arrived between its start and its end,
    all of them and in the order they arrived, and forgets the request. *)
Theorem launch_collects P req timeout rs n n1 out1 sem n2 out2 res :
  Forall (λ e, nul_free e.1) (actualReq n) → nul_free (Req.uniqueId req) →
  launch_begin P req timeout n = (n1, out1, Ok sem) →
  launch_end req sem (foldl receive n1 rs) = (n2, out2, res) →
  res = Ok (Resp.foundNodeInfo <$> List.filter (answers_to (Req.uniqueId req)) rs) ∧
  find_first (Req.uniqueId req) (actualReq n2) = None ∧ out2 = [].
Proof.
  intros Hn Hu%c_str_plain H1 H2. apply launch_begin_actualReq in H1.
  assert (Hk : keys_plain (actualReq n))
    by (eapply Forall_impl; [exact Hn | intros e; apply c_str_plain]).
  assert (Hf : find_first (Req.uniqueId req) (actualReq n1) = Some [])
    by (rewrite H1; by apply find_first_assign).
  assert (Hk1 : keys_plain (actualReq n1)) by (rewrite H1; by apply keys_assign).
  apply (receive_all _ rs) in Hf. apply (receive_keys rs) in Hk1.
  unfold launch_end in H2. cbv zeta in H2.
  assert (E : ∃ f, (∀ n, actualReq (f n) = actualReq n) ∧
    match sem with
    | Some _ => nset (λ n, n <| reqsem := delete (c_str (Req.getUniqueId req)) (reqsem n) |>)
    | None => nret ()
    end = nset f).
  { destruct sem; [eexists; split; [|reflexivity]; done | by exists (λ n, n)]. }
  destruct E as (f & Ef & E). rewrite E, nset_bind, nget_bind, nset_bind in H2.
  unfold nret in H2. simplify_eq. simpl. rewrite !Ef. unfold Req.getUniqueId. rewrite Hf. simpl.
  split_and!; [done | | done]. by apply find_first_erase.
Qed.

(** ** Jobs *)

(** [removeJob] is not the reverse of [addJob]: whatever the node had left, its figures are
    afterwards those of the job that ended, and only the count of jobs is restored. *)
Theorem removeJob_overwrites (p m b : float) (n n1 n2 : SearchNode) :
  addJob p m b n = Ok n1 → removeJob p m b 1 n1 = Ok n2 →
  psn_currentJobs n2 = psn_currentJobs n ∧
  getPower n2 = Ok p ∧ memory_size n2 = Ok m ∧ getNetworkBandwidth n2 = Ok b.
Proof.
  unfold addJob, removeJob. intros H1 H2. inv_ok. cbn. split_and!; try done.
  repeat match goal with
         | H : check_int _ = Ok _ |- _ => unfold check_int in H; case_if; simplify_eq/=
         end.
  lia.
Qed.

(** ** What a request makes a node send *)

(** A call that a node may send for a request. *)
Definition justified (P : peers) (n : SearchNode) (req : Req.Request) (node_ap : string) (m : msg) :
    Prop :=
  match m with
  | Ask dst req' node_ap' sender' =>
      dst ∈ neighborsList n ∧ node_ap' = node_ap ∧ sender' = self n ∧
      Req.uniqueId req' = Req.uniqueId req ∧
      ∃ nid, peer_id P dst = Ok nid ∧ Exploration.isIn nid (Req.explorationList req) = false
  | Callback dst resp =>
      dst = node_ap ∧ checkResource req n = Ok true ∧
      Resp.reqUniqueId resp = Req.uniqueId req ∧ Resp.foundNodeInfo resp = nodeInfo n ∧
      Wayback.isLastNode (Req.wb req) = true
  | Reroute _ resp wb =>
      checkResource req n = Ok true ∧ Resp.reqUniqueId resp = Req.uniqueId req ∧
      Resp.foundNodeInfo resp = nodeInfo n ∧ length (Req.wb req) = S (length wb)
  | Unregister _ url =>
      url = self n ∧ Req.endingSignal req = false ∧ is_known (Req.uniqueId req) n = true
  | AppEnd _ appid => appid = Req.popappid req ∧ Req.endingSignal req = true
  end.

(** C19: everything a request makes a node send is justified: an answer only when its resources are
    enough, with the identifier of the request and the information of the node; a request only to
    a neighbour that the exploration list does not name; an order to break the link only for a
    request it knew. *)
Theorem sent_justified P req node_ap sender n n' out r :
  askResourcesDiscovery P req node_ap sender n = (n', out, r) →
  Forall (justified P n req node_ap) out.
Proof.
  intros H.
  apply askResourcesDiscovery_run in H as [(He & Hk & _ & Ho)|[_ (rep & al & fin & -> & H1 & H2 & H3)]].
  { destruct Ho as [-> | [jm ->]]; [constructor | by repeat constructor]. }
  apply Forall_app. split; [|apply Forall_app; split].
  - destruct H1 as [-> | (m & -> & (Hc & resp & Hu & Hi & Hm) & _)]; [constructor |].
    constructor; [|constructor]. destruct Hm as [[-> Hl]|[_ (nx & wb & -> & Hl)]]; by split_and!.
  - destruct H2 as [-> | (req' & l' & (_ & _ & _ & Hu) & Hs & -> & Hf)]; [constructor |].
    apply Forall_fmap, Forall_forall. intros i Hi. rewrite Forall_forall in Hf.
    split_and!; [by eapply elem_of_sublist | done | done | exact Hu | by apply Hf].
  - destruct H3 as [-> | (jm & -> & He)]; [constructor |]. by repeat constructor.
Qed.

(** ** A node at work *)

Definition grid_up : peers :=
  MkPeers (λ a, Ok a) (λ a, Ok ("jm-" +:+ a)%string) (λ _, Ok ()) (λ _, Ok ()).
Definition grid_without (dead : string) : peers :=
  MkPeers (λ a, if decide (a = dead) then Throw 110 "" else Ok a)
    (λ a, Ok ("jm-" +:+ a)%string) (λ _, Ok ()) (λ _, Ok ()).
Definition sample_node : SearchNode :=
  let n := setPOPCSearchNodeId "a" (search_node_new "a") in
  let n := setMaxJobs 2 (setPower (float_of_Z 100) (setMemorySize (float_of_Z 512) n)) in
  addNeighbor "c" (addNeighbor "b" (setNetworkBandwidth (float_of_Z 0) n)).
Definition sample_request : Req.Request :=
  Req.setUniqueId "a__0" (Req.setMinPower (float_of_Z 10) (Req.setMaxHops 3 Req.init)).
Definition served : SearchNode * list msg * result () :=
  askResourcesDiscovery grid_up sample_request "a" "a" sample_node.


Lemma sent_justified_witness :
  length served.1.2 = 3%nat ∧
  Forall (justified grid_up sample_node sample_request "a") served.1.2.
Proof.
  split; [by vm_compute |]. destruct served as [[n' out] r] eqn:E.
  exact (sent_justified grid_up sample_request "a" "a" sample_node n' out r E).
Defined.

Lemma dead_neighbour_silences_witness :
  (Forall (λ i, peer_id (grid_without "c") i ≠ Stuck) (neighborsList sample_node) ∧
   Exists (λ i, ∃ c e, peer_id (grid_without "c") i = Throw c e) (neighborsList sample_node) ∧
   is_known (Req.uniqueId sample_request) sample_node = false) ∧
  askResourcesDiscovery (grid_without "c") sample_request "a" "a" sample_node
  = (remember "a__0" sample_node, [], Ok ()).
Proof.
  assert (H1 : Forall (λ i, peer_id (grid_without "c") i ≠ Stuck) (neighborsList sample_node))
    by (repeat constructor; by vm_compute).
  assert (H2 : Exists (λ i, ∃ c e, peer_id (grid_without "c") i = Throw c e)
                 (neighborsList sample_node))
    by (right; left; exists 110, ""; by vm_compute).
  split; [split; [exact H1 | split; [exact H2 | by vm_compute]] |].
  exact (dead_neighbour_silences (grid_without "c") sample_request "a" "a" sample_node H1 H2
           (or_intror eq_refl)).
Defined.

Lemma getUID_unique_witness :
  let n := sample_node in
  (0 ≤ logicalClock n ∧ zlen (before_nul (string_bytes (getPOPCSearchNodeId n))) ≤ 87) ∧
  ∃ n1 out1, getUID n = (n1, out1, Ok "a__0") ∧
    (c_str (getPOPCSearchNodeId n) = c_str (getPOPCSearchNodeId n) ∧
     logicalClock n = logicalClock n ∧ logicalClock n1 = logicalClock n + 1).
Proof.
  cbv zeta. assert (H1 : 0 ≤ logicalClock sample_node) by (by vm_compute).
  assert (H2 : zlen (before_nul (string_bytes (getPOPCSearchNodeId sample_node))) ≤ 87)
    by (by vm_compute).
  split; [by split |]. destruct (getUID sample_node) as [[n1 out1] r] eqn:E.
  assert (Er : r = Ok "a__0") by (by vm_compute in E; simplify_eq). subst r.
  exists n1, out1. split; [done |].
  exact (getUID_unique sample_node sample_node n1 n1 out1 out1 "a__0" "a__0" H1 H1 H2 H2 E E
           eq_refl).
Defined.

Definition sample_answer (uid who : string) : Resp.Response :=
  Resp.MkResponse uid "" (NodeInfo.info_new <| NodeInfo.nodeId := who |>) [].

Lemma launch_collects_witness :
  (Forall (λ e : string * _, nul_free e.1) (actualReq sample_node) ∧
   nul_free (Req.uniqueId sample_request)) ∧
  let '(n1, _, sem) := launch_begin grid_up sample_request 0 sample_node in
  let rs := [sample_answer "a__0" "x"; sample_answer "b__0" "y"; sample_answer "a__0" "z"] in
  ∃ s n2 out2 res, sem = Ok s ∧
    launch_end sample_request s (foldl receive n1 rs) = (n2, out2, res) ∧
    (res = Ok (Resp.foundNodeInfo <$> List.filter (answers_to "a__0") rs) ∧
     find_first "a__0" (actualReq n2) = None ∧ out2 = []).
Proof.
  assert (H1 : Forall (λ e : string * NodeInfo.POPCSearchNodeInfos, nul_free e.1)
                 (actualReq sample_node)) by constructor.
  assert (H2 : nul_free (Req.uniqueId sample_request))
    by (apply (bool_decide_eq_true_1 _); by vm_compute).
  split; [by split |].
  destruct (launch_begin grid_up sample_request 0 sample_node) as [[n1 out1] sem] eqn:E1.
  assert (Es : sem = Ok (Some 0)) by (by vm_compute in E1; simplify_eq). subst sem. cbv zeta.
  set (rs := [sample_answer "a__0" "x"; sample_answer "b__0" "y"; sample_answer "a__0" "z"]).
  destruct (launch_end sample_request (Some 0) (foldl receive n1 rs)) as [[n2 out2] res] eqn:E2.
  exists (Some 0), n2, out2, res. split; [done |]. split; [exact E2 |].
  exact (launch_collects grid_up sample_request 0 rs sample_node n1 out1 (Some 0) n2 out2 res
           H1 H2 E1 E2).
Defined.

Lemma removeJob_overwrites_witness :
  let ten := float_of_Z 10 in
  ∃ n1 n2, addJob ten ten ten sample_node = Ok n1 ∧ removeJob ten ten ten 1 n1 = Ok n2 ∧
    (psn_currentJobs n2 = psn_currentJobs sample_node ∧ getPower n2 = Ok ten ∧
     memory_size n2 = Ok ten ∧ getNetworkBandwidth n2 = Ok ten) ∧
    getPower sample_node = Ok (float_of_Z 100).
Proof.
  cbv zeta. destruct (addJob _ _ _ sample_node) as [n1| |] eqn:E1; [|done|done].
  destruct (removeJob (float_of_Z 10) (float_of_Z 10) (float_of_Z 10) 1 n1) as [n2| |] eqn:E2.
  2, 3: exfalso; vm_compute in E1; simplify_eq.
  exists n1, n2. split; [done |]. split; [exact E2 |]. split; [|done].
  exact (removeJob_overwrites _ _ _ sample_node n1 n2 E1 E2).
Defined.
