(* ===== verification/JobMgr.v ===== *)
(** * The job manager

    [JobMgr] and [NodeInfoMap] (services/lib/jobmgr.cc, services/lib/jobmgr.ph): the resources of a
    node, the reservations made on them, the list of paused applications, the trace of requests and
    the neighbours. The methods below run under the mutex of the object, so each is one step. What
    they ask of the local search node, and the clocks, are outputs and inputs.

    Of the access points of a job only the access string is kept: the flags, which copying leaves
    indeterminate (see AccessPoint), are never used here. A figure that the configuration does not
    give is indeterminate ([None]). *)

From S2P Require Import Prelude Machine Buffer ObjectDescription Utils.

Definition MAX_HOPS : Z := 20.
Definition MAX_HEURISTICS : Z := 200.
Definition PAUSE_FORWARD_TIMEOUT : Z := 300.
Definition NODE_STATIC : Z := -1.
Definition NODE_LEARNT : Z := 0.

(** ** Double precision *)

Definition dadd : float → float → float := SFadd 53 1024.
Definition dsub : float → float → float := SFsub 53 1024.
Definition ddiv : float → float → float := SFdiv 53 1024.
Definition double_of_Z (z : Z) : float := binary_normalize 53 1024 z 0 false.
(** A [float] as a [double]: the same number, in the canonical form of the format. *)
Definition double_of_float (f : float) : float :=
  match f with
  | S754_finite s m e => binary_normalize 53 1024 (if s then Z.neg m else Z.pos m) e s
  | f => f
  end.

(** ** State *)

Record Resources : Type := MkResources {
  Id : Z;
  flops : float;
  mem : float;
  band : float;
  job_walltime : float;
  popAppId : string;
  reqID : string;
  start : Z;
  contact : string;
  appservice : string }.
#[export] Instance Resources_eta : Eta Resources := λ t,
  MkResources (Id t) (flops t) (mem t) (band t) (job_walltime t) (popAppId t) (reqID t) (start t)
    (contact t) (appservice t).

(** The figures of [available], [limit] and [total]. *)
Record Figures : Type := MkFigures {
  total_flops : float;
  total_mem : option float;
  total_band : option float }.

(** [heuristic] and [stoptime] are [double]s. *)
Record NodeInfo : Type := MkNodeInfo {
  heuristic : float;
  stoptime : float;
  nodetype : Z }.
#[export] Instance NodeInfo_eta : Eta NodeInfo := λ i,
  MkNodeInfo (heuristic i) (stoptime i) (nodetype i).

Record JobMgr : Type := MkJobMgr {
  my_contact : string;
  platform : string;
  host : string;
  info : list (string * string);
  neighbors : gmap string NodeInfo;
  tracelist : list (list Z * float);
  jobs : list Resources;
  maxjobs : Z;
  available : Figures;
  limit : Figures;
  total : Figures;
  counter : Z;
  reserve_timeout : Z;
  pause_apps : list (float * string);
  modelearn : bool;
  localPSN : string;
  localPSM : string;
  parents : list string;
  maxdynamicnodes : Z;
  alloc_timeout : Z;
  serviceID : list Z;
  requestCounter : Z }.
#[export] Instance JobMgr_eta : Eta JobMgr := λ j,
  MkJobMgr (my_contact j) (platform j) (host j) (info j) (neighbors j) (tracelist j)
    (jobs j) (maxjobs j) (available j) (limit j) (total j) (counter j)
    (reserve_timeout j) (pause_apps j) (modelearn j) (localPSN j) (localPSM j) (parents j)
    (maxdynamicnodes j) (alloc_timeout j) (serviceID j) (requestCounter j).

(** What the job manager tells the search node. *)
Inductive psn_call : Type :=
  | AddJob (p m b : float)
  | RemoveJob (p m b : float) (nbJob : Z).

(** ** Neighbours

    [NodeInfoMap]: entries are looked up under the whole contact and written under the characters
    before its first NUL. *)

Definition Map_Add (c : string) (i : NodeInfo) (m : gmap string NodeInfo) :
    gmap string NodeInfo * bool :=
  match m !! c with Some _ => (m, false) | None => (<[c_str c := i]> m, true) end.

Definition Map_Update (c : string) (i : NodeInfo) (m : gmap string NodeInfo) :
    gmap string NodeInfo * bool :=
  match m !! c with Some _ => (<[c_str c := i]> m, true) | None => (m, false) end.

Definition Map_Remove (c : string) (m : gmap string NodeInfo) : gmap string NodeInfo * bool :=
  (delete c m, bool_decide (is_Some (m !! c))).

Definition Map_GetInfo (c : string) (m : gmap string NodeInfo) : option NodeInfo :=
  match m !! c with Some _ => Some (default (MkNodeInfo fzero fzero 0) (m !! c_str c)) | None => None end.

Definition Map_GetCount (m : gmap string NodeInfo) : Z := Z.of_nat (size m).

Definition Map_HasContact (c : string) (m : gmap string NodeInfo) : bool :=
  existsb (λ e, SameContact (string_bytes e.1) (string_bytes c)) (map_to_list m).

(** The scan of [GetContacts]: a contact goes before the first one that is not better. *)
Fixpoint insert_contact (c : string) (h : float) (l : list (string * float)) :
    option (list (string * float)) :=
  match l with
  | [] => None
  | (c', tmp) :: l' =>
      if fge tmp h then Some ((c, h) :: l)
      else match insert_contact c h l' with Some k => Some ((c', tmp) :: k) | None => None end
  end.

(** After an insertion [cpos] is an invalidated iterator, which the code compares with the end:
    [stale] is the outcome. *)
Definition place_contact (stale : bool) (acc : list (string * float)) (e : string * NodeInfo) :
    list (string * float) :=
  match insert_contact e.1 (heuristic e.2) acc with
  | Some acc' => if stale then acc' ++ [(e.1, heuristic e.2)] else acc'
  | None => acc ++ [(e.1, heuristic e.2)]
  end.

(** [order] is the map in the order the hash table gives. *)
Definition GetContacts (stale : bool) (order : list (string * NodeInfo)) : list string :=
  fst <$> foldl (place_contact stale) [] order.

(** ** Queries *)

Definition decimal (n : Z) : list byte := digits_of 20 n [].

(** [fmt_g] is the conversion "%g" of the system. *)
Definition Query (fmt_g : float → string) (type : string) (j : JobMgr) : option string :=
  if decide (type = "platform") then Some (platform j)
  else if decide (type = "host") then Some (host j)
  else if decide (type = "jobs") then
    Some (bytes_string (decimal (zlen (jobs j)) ++ x2f :: decimal (maxjobs j)))
  else if decide (type = "joblist") then
    Some (bytes_string (concat ((λ r : Resources,
      if decide (contact r = "" ∨ appservice r = "") then []
      else take 1023 (string_bytes "APP=" ++ before_nul (string_bytes (appservice r)) ++
             string_bytes "/JOB=" ++ before_nul (string_bytes (contact r)) ++ [x0a])) <$> jobs j)))
  else if decide (type = "pausejobs") then Some (bytes_string (decimal (zlen (pause_apps j))))
  else if decide (type = "power_available") then
    Some (fmt_g (total_flops (available j)) +:+ "/" +:+ fmt_g (total_flops (total j)))
  else snd <$> find (λ t, bool_decide (type = t.1)) (info j).

(** ** Reservations *)

(** [sscanf("%d:%d:%d:%d")]: the numbers read, at most four. *)
Definition scan_sign (s : chars) : bool * chars :=
  match s with
  | c :: s' => if decide (c = x2d) then (true, s') else if decide (c = x2b) then (false, s')
               else (false, s)
  | [] => (false, [])
  end.

Fixpoint skip_digits (s : chars) : chars :=
  match s with c :: s' => if isdigit c then skip_digits s' else s | [] => [] end.

Fixpoint scan_ints (n : nat) (s : chars) : result (list Z) :=
  match n with
  | O => Ok []
  | S n' =>
      let '(neg, s) := scan_sign (skip_blanks s) in
      match s with
      | c :: _ =>
          if isdigit c then
            let! v := check_int (let a := digits_value 0 s in if neg then - a else a) in
            match skip_digits s with
            | d :: s' => if decide (d = x3a) then let! l := scan_ints n' s' in Ok (v :: l)
                         else Ok [v]
            | [] => Ok [v]
            end
          else Ok []
      | [] => Ok []
      end
  end.

(** The numbers moved to the end of the array of four, zeroes in front; [None] when there is none. *)
Definition max_walltime (s : chars) : result (option float) :=
  let! l := scan_ints 4 s in
  match l with
  | [] => Ok None
  | _ =>
      match replicate (4 - length l) 0 ++ l with
      | [d; h; m; s] =>
          let! m := check_int (60 * m) in
          let! a := check_int (s + m) in
          let! d := check_int (24 * d) in
          let! h := check_int (h + d) in
          let! h := check_int (3600 * h) in
          let! w := check_int (a + h) in
          Ok (Some (float_of_Z w))
      | _ => Stuck
      end
  end.

(** The power: what the job gets and how it fits, [None] when it does not. [check_min] tells
    [MatchAndReserve] from [Reserve], which does not look at the minimum. *)
Definition match_power (check_min : bool) (od : pop_od) (inoutfitness : float) (j : JobMgr) :
    option (float * float) :=
  let require := mflops od in
  let avail := total_flops (available j) in
  let lim := total_flops (limit j) in
  if fgt require fzero then
    let min := if flt (min_mflops od) fzero then require else min_mflops od in
    if check_min && (fgt min avail || fgt min lim) then None
    else
      let '(f, fitness) :=
        if fgt require avail || fgt require lim
        then let f := fmin avail lim in (f, fdiv f require)
        else (require, fdiv (fmin avail lim) require) in
      if flt fitness inoutfitness then None else Some (f, fitness)
  else Some (fzero, fone).

(** The memory, with the fitness found for the power. *)
Definition match_memory (od : pop_od) (inoutfitness fitness : float) (j : JobMgr) :
    result (option (float * float)) :=
  let require := ram od in
  if fgt require fzero then
    let min := if flt (min_ram od) fzero then require else min_ram od in
    let! avail := read_member (total_mem (available j)) in
    if fgt min avail then Ok None
    else
      let '(m, fitness1) :=
        if fgt require avail then (avail, fdiv avail require)
        else (require, fdiv require avail) in
      if flt fitness1 fitness then
        if flt fitness1 inoutfitness then Ok None else Ok (Some (m, fitness1))
      else Ok (Some (m, fitness))
  else Ok (Some (fzero, fitness)).

Definition match_walltime (od : pop_od) (j : JobMgr) : result (option float) :=
  let w := if flt (od_time od) fzero then fzero else od_time od in
  match find (λ t : string * string, bool_decide ("walltime" = t.1)) (info j) with
  | None => Ok (Some w)
  | Some (_, s) =>
      let! mw := max_walltime (before_nul (string_bytes s)) in
      match mw with
      | None => Ok (Some w)
      | Some mw => if (fle w fzero && fgt mw fzero) || fgt w mw then Ok None else Ok (Some w)
      end
  end.

(** Fitness, power, memory and time of a job that fits, [None] for one that does not. *)
Definition match_local (check_min : bool) (od : pop_od) (inoutfitness : float) (j : JobMgr) :
    result (option (float * float * float * float)) :=
  if uwrap 64 (maxjobs j) <=? zlen (jobs j) then Ok None
  else if od_IsEmpty od then Ok (Some (fone, fzero, fzero, fzero))
  else
    match match_power check_min od inoutfitness j with
    | None => Ok None
    | Some (f, fitness) =>
        let! r := match_memory od inoutfitness fitness j in
        match r with
        | None => Ok None
        | Some (m, fitness) =>
            let! r := match_walltime od j in
            match r with
            | None => Ok None
            | Some w => Ok (Some (fitness, f, m, w))
            end
        end
    end.

(** The record pushed on the list: no application yet. *)
Definition new_job (f m w : float) (now : Z) (j : JobMgr) : Resources :=
  MkResources (counter j) f m fzero w "" "" now "" "".

Definition push_job (t : Resources) (j : JobMgr) : JobMgr := j <| jobs := jobs j ++ [t] |>.

(** [available -= ...; counter = (counter % 1000000000) + 1]. *)
Definition take_resources (t : Resources) (j : JobMgr) : result JobMgr :=
  let a := available j in
  let! am := read_member (total_mem a) in
  let! ab := read_member (total_band a) in
  Ok (j <| available := MkFigures (fsub (total_flops a) (flops t)) (Some (fsub am (mem t)))
                          (Some (fsub ab (band t))) |>
        <| counter := Z.rem (counter j) 1000000000 + 1 |>).

Definition give_resources (t : Resources) (j : JobMgr) : result JobMgr :=
  let a := available j in
  let! am := read_member (total_mem a) in
  let! ab := read_member (total_band a) in
  Ok (j <| available := MkFigures (fadd (total_flops a) (flops t)) (Some (fadd am (mem t)))
                          (Some (fadd ab (band t))) |>).

(** [Reserve]: the new state, the fitness, the identifier (0: refused) and the calls to the search
    node; [psn_up] tells whether it answers. The application and the request are written to the
    local record after the copy was pushed on the list. *)
Definition Reserve (od : pop_od) (inoutfitness : float) (popAppId reqID : string) (now : Z)
    (psn_up : bool) (j : JobMgr) : result (JobMgr * float * Z * list psn_call) :=
  let! r := match_local false od inoutfitness j in
  match r with
  | None => Ok (j, inoutfitness, 0, [])
  | Some (fitness, f, m, w) =>
      let t := new_job f m w now j in
      let j := push_job t j in
      let t := t <| JobMgr.popAppId := popAppId |> <| JobMgr.reqID := reqID |> in
      if psn_up then
        let! j := take_resources t j in
        Ok (j, fitness, Id t, [AddJob (flops t) (mem t) (band t)])
      else Ok (j, fitness, 0, [])
  end.

(** [MatchAndReserve] for one object. *)
Definition MatchAndReserve (od : pop_od) (inoutfitness : float) (now : Z) (j : JobMgr) :
    result (JobMgr * float * Z) :=
  let! r := match_local true od inoutfitness j in
  match r with
  | None => Ok (j, inoutfitness, 0)
  | Some (fitness, f, m, w) =>
      let t := new_job f m w now j in
      let! j := take_resources t (push_job t j) in
      Ok (j, fitness, Id t)
  end.

(** ** Several objects at once

    The arrays [fitness], [jobcontacts] and [reserveIDs] as one list of slots. *)

Record slot : Type := MkSlot { fit : float; job_contact : string; reserve_id : Z }.

(** One pass of the sort on the indices: from the end, an index with a greater fitness goes
    before its neighbour. *)
Definition fit_of (slots : list slot) (i : nat) : float :=
  match slots !! i with Some s => fit s | None => fzero end.

Fixpoint bubble_index (slots : list slot) (index : list nat) : list nat :=
  match index with
  | a :: index' =>
      match bubble_index slots index' with
      | b :: l => if fgt (fit_of slots b) (fit_of slots a) then b :: a :: l else a :: b :: l
      | [] => [a]
      end
  | [] => []
  end.

(** After [n] passes the first [n] places are final. *)
Fixpoint sort_index (slots : list slot) (n : nat) (index : list nat) : list nat :=
  match n with
  | O => index
  | S n' =>
      match bubble_index slots index with
      | a :: l => a :: sort_index slots n' l
      | [] => []
      end
  end.

Definition order_of (slots : list slot) : list nat :=
  sort_index slots (length slots) (seq 0 (length slots)).

(** Cancellations sent to other job managers. *)
Definition remote_cancel : Type := string * Z.

(** The loop over the slots, the worst first; a slot that already fits ends it. *)
Fixpoint reserve_slots (od : pop_od) (now : Z) (index : list nat) (slots : list slot) (ret : bool)
    (j : JobMgr) : result (JobMgr * list slot * bool * list remote_cancel) :=
  match index with
  | [] => Ok (j, slots, ret, [])
  | pos :: index' =>
      match slots !! pos with
      | None => Stuck
      | Some s =>
          let t := fit s in
          if fge t fone then Ok (j, slots, ret, [])
          else
            let! (j1, f, id) := MatchAndReserve od t now j in
            if id <=? 0 then
              Ok (j1, <[pos := MkSlot f (job_contact s) (reserve_id s)]> slots, ret, [])
            else
              let cancel := if fgt t fzero && negb (bool_decide (job_contact s = ""))
                            then [(job_contact s, reserve_id s)] else [] in
              let! (j2, slots, ret, cs) :=
                reserve_slots od now index' (<[pos := MkSlot f (my_contact j1) id]> slots) true j1 in
              Ok (j2, slots, ret, cancel ++ cs)
      end
  end.

Definition MatchAndReserve_all (od : pop_od) (now : Z) (slots : list slot) (j : JobMgr) :
    result (JobMgr * list slot * bool * list remote_cancel) :=
  match slots with
  | [] => Ok (j, slots, false, [])
  | _ => reserve_slots od now (rev (order_of slots)) slots false j
  end.

(** The objects that [Forward] leaves to a neighbour: the slots that fit are moved to the front.
    [find_good] is the scan for a slot that fits, from the end down to [j]. *)
Fixpoint find_good (slots : list slot) (j k : nat) : option nat :=
  match k with
  | O => None
  | S k' =>
      if (k <=? j)%nat then None
      else match slots !! k with
           | Some s => if fge (fit s) fone then Some k else find_good slots j k'
           | None => None
           end
  end.

Definition swap_slots (j k : nat) (slots : list slot) : list slot :=
  match slots !! j, slots !! k with
  | Some sj, Some sk => <[k := sj]> (<[j := sk]> slots)
  | _, _ => slots
  end.

(** [n] counts the places left: the index is [length slots - n]. *)
Fixpoint partition_loop (n nswap : nat) (slots : list slot) (good : nat) : list slot * nat :=
  match n with
  | O => (slots, good)
  | S n' =>
      let j := (length slots - n)%nat in
      match slots !! j with
      | None => (slots, good)
      | Some s =>
          if flt (fit s) fone then
            match find_good slots j (length slots - 1 - nswap) with
            | None => (slots, good)
            | Some k => partition_loop n' (S nswap) (swap_slots j k slots) (S good)
            end
          else partition_loop n' nswap slots (S good)
      end
  end.

Definition partition_slots (slots : list slot) : list slot * nat :=
  partition_loop (length slots) 0 slots 0.

(** The heuristic of a neighbour after it was asked: the time it took over what it brought. *)
Fixpoint sum_fitness (slots old : list slot) (acc : float) : float :=
  match slots, old with
  | s :: slots', o :: old' =>
      sum_fitness slots' old' (if feq (fit s) (fit o) then acc else fadd acc (fit s))
  | _, _ => acc
  end.

Definition one_point_nine : float := ddiv (double_of_Z 19) (double_of_Z 10).

Definition cap_heuristic (h : float) : float :=
  if fgt h (double_of_Z MAX_HEURISTICS) then double_of_Z MAX_HEURISTICS else h.

Definition heuristic_after (ok : bool) (seconds : float) (slots old : list slot) (i : NodeInfo) :
    NodeInfo :=
  let sum := sum_fitness slots old fzero in
  let h := if ok then
             if fgt sum fzero
             then ddiv (dadd (heuristic i) (ddiv seconds (double_of_float sum))) one_point_nine
             else dadd (heuristic i) seconds
           else dadd (heuristic i) seconds in
  i <| heuristic := cap_heuristic h |>.

(** A neighbour that failed is left alone for a while. *)
Definition may_forward (elapsed : float) (i : NodeInfo) : option NodeInfo :=
  if fge (stoptime i) fzero then
    if flt (dsub elapsed (stoptime i)) (double_of_Z PAUSE_FORWARD_TIMEOUT) then None
    else Some (i <| stoptime := double_of_Z (-1) |>)
  else Some i.

(** A neighbour that cannot be reached: a static one is paused, the others are forgotten. *)
Definition forward_failed (elapsed : float) (c : string) (i : NodeInfo) (j : JobMgr) : JobMgr :=
  if nodetype i =? NODE_STATIC then
    j <| neighbors := (Map_Update c (i <| heuristic := double_of_Z (2 * MAX_HEURISTICS) |>
                                       <| stoptime := elapsed |>) (neighbors j)).1 |>
  else j <| neighbors := (Map_Remove c (neighbors j)).1 |>.

(** The job managers that took objects become neighbours. *)
Definition learn_slot (j : JobMgr) (s : slot) : JobMgr :=
  if fle (fit s) fzero then j
  else if decide (job_contact s = "" ∨ job_contact s = my_contact j) then j
  else j <| neighbors := (Map_Add (job_contact s)
                            (MkNodeInfo fzero (double_of_Z (-1)) NODE_LEARNT) (neighbors j)).1 |>.

Definition learn (slots : list slot) (j : JobMgr) : JobMgr :=
  if modelearn j then foldl learn_slot j slots else j.

(** ** The end of a job

    The local search node is taken to answer the calls below. *)

(** [CancelReservation]: the vector is changed while an iterator and a reference into it are still
    in use. *)
Definition is_cancelled (req : list Z) (t : Resources) : bool :=
  existsb (Z.eqb (Id t)) req && bool_decide (contact t = "").

Definition CancelReservation (req : list Z) (j : JobMgr) : result (JobMgr * list psn_call) :=
  if existsb (is_cancelled req) (jobs j) then Stuck else Ok (j, []).

(** [ReleaseJob]: what it tells the search node is read from the erased element. *)
Definition ReleaseJob (id : Z) (j : JobMgr) : result (JobMgr * bool) :=
  if id <=? 0 then Ok (j, false)
  else if existsb (λ t, (Id t =? id) && negb (bool_decide (contact t = ""))) (jobs j) then Stuck
  else Ok (j, false).

(** [Update]: [alive] tells which objects answer; the figures of an erased job are read after it
    is gone. *)
Fixpoint update_jobs (alive : string → bool) (now timeout : Z) (l : list Resources) :
    result (list Resources) :=
  match l with
  | [] => Ok []
  | t :: l' =>
      if decide (contact t = "") then
        if (0 <? timeout) && (timeout <? now - start t) then Stuck
        else let! l' := update_jobs alive now timeout l' in Ok (t :: l')
      else if 5 <? now - start t then
        if alive (contact t)
        then let! l' := update_jobs alive now timeout l' in Ok (t <| start := now |> :: l')
        else Stuck
      else let! l' := update_jobs alive now timeout l' in Ok (t :: l')
  end.

Definition Update (alive : string → bool) (now : Z) (j : JobMgr) : result JobMgr :=
  let! l := update_jobs alive now (reserve_timeout j) (jobs j) in Ok (j <| jobs := l |>).

(** [ApplicationEnd] on a node that did not start the application: the jobs of the application are
    taken out; the search node gets the figures now available. *)
Fixpoint end_jobs (appid : string) (l : list Resources) (j : JobMgr) :
    result (list Resources * JobMgr * Z) :=
  match l with
  | [] => Ok ([], j, 0)
  | t :: l' =>
      if decide (c_str (popAppId t) = c_str appid) then
        let! j := give_resources t j in
        let! (rest, j, nb) := end_jobs appid l' j in
        Ok (rest, j, nb + 1)
      else
        let! (rest, j, nb) := end_jobs appid l' j in
        Ok (t :: rest, j, nb)
  end.

Definition ApplicationEnd (appid : string) (j : JobMgr) : result (JobMgr * list psn_call) :=
  let! (rest, j, nbJob) := end_jobs appid (jobs j) j in
  let j := j <| jobs := rest |> in
  if 0 <? nbJob then
    let a := available j in
    let! am := read_member (total_mem a) in
    let! ab := read_member (total_band a) in
    Ok (j, [RemoveJob (total_flops a) am ab nbJob])
  else Ok (j, []).

(** ** Reservations that become jobs *)

Fixpoint update_job (id : Z) (f : Resources → Resources) (l : list Resources) :
    option (list Resources) :=
  match l with
  | [] => None
  | t :: l' => if Id t =? id then Some (f t :: l') else (t ::.) <$> update_job id f l'
  end.

(** The position of the reservation, for the pointer the code returns. *)
Definition VerifyReservation (id : Z) (updatetime : bool) (now : Z) (j : JobMgr) :
    JobMgr * option Resources :=
  let f := λ t, if updatetime then t <| start := now |> else t in
  match update_job id f (jobs j) with
  | Some l => (j <| jobs := l |>, find (λ t, Id t =? id) l)
  | None => (j, None)
  end.

Definition ValidateReservation (id : Z) (objcontact appserv : string) (now : Z) (j : JobMgr) :
    JobMgr * bool :=
  let f := λ t, t <| contact := objcontact |> <| appservice := appserv |> <| start := now |> in
  match update_job id f (jobs j) with
  | Some l => (j <| jobs := l |>, true)
  | None => (j, false)
  end.

(** The beginning of [ExecObj]: the application and the request of the last reservation. A
    reservation that is gone is dereferenced before it is tested. *)
Fixpoint exec_reservations (ids : list Z) (now : Z) (ids_of : string * string) (j : JobMgr) :
    result (JobMgr * (string * string)) :=
  match ids with
  | [] => Ok (j, ids_of)
  | id :: ids' =>
      let '(j, r) := VerifyReservation id true now j in
      match r with
      | None => Stuck
      | Some r => exec_reservations ids' now (popAppId r, reqID r) j
      end
  end.

(** ** Pauses *)

Definition Pause (app : string) (duration : Z) (elapsed : float) (j : JobMgr) : JobMgr :=
  j <| pause_apps := pause_apps j ++ [(dadd elapsed (double_of_Z duration), app)] |>.

(** [CheckPauseList]: the iterator only moves when an entry is erased. [fuel] bounds the turns:
    [None] is a loop that has not ended. *)
Fixpoint CheckPauseList_fuel (fuel : nat) (app : string) (now : float) (l : list (float * string)) :
    option (list (float * string) * bool) :=
  match fuel with
  | O => None
  | S fuel' =>
      match l with
      | [] => Some ([], false)
      | (until_time, a) :: l' =>
          if fgt now until_time then CheckPauseList_fuel fuel' app now l'
          else if decide (a = "" ∨ a = app) then Some (l, true)
          else CheckPauseList_fuel fuel' app now l
      end
  end.

Definition CheckPauseList (fuel : nat) (app : string) (now : float) (j : JobMgr) :
    option (JobMgr * bool) :=
  match CheckPauseList_fuel fuel app now (pause_apps j) with
  | Some (l, b) => Some (j <| pause_apps := l |>, b)
  | None => None
  end.

(** ** Traces *)

(** [AddRequest]: [elapsed] is read once for the age limit and once for the new entry. *)
Definition oldest_trace (elapsed : float) (j : JobMgr) : result float :=
  if 0 <? reserve_timeout j then
    let! d := check_int (2 * reserve_timeout j) in Ok (dsub elapsed (double_of_Z d))
  else Ok (dsub elapsed (double_of_Z 300)).

Definition AddRequest (reqId : list Z) (elapsed elapsed' : float) (j : JobMgr) :
    result (JobMgr * bool) :=
  let! oldest := oldest_trace elapsed j in
  if existsb (λ t : list Z * float, bool_decide (t.1 = reqId)) (tracelist j) then Ok (j, false)
  else
    let l := List.filter (λ t : list Z * float, negb (flt t.2 oldest)) (tracelist j) in
    Ok (j <| tracelist := l ++ [(reqId, elapsed')] |>, true).

(** [ip] is the address of the host, when the system gives one. *)
Definition AddTrace (ip : option Z) (trace : list Z) (tracesize : Z) : list Z * Z * bool :=
  if (tracesize <? 0) || (MAX_HOPS <=? tracesize) then (trace, tracesize, false)
  else match ip with
       | Some a => (<[Z.to_nat tracesize := a]> trace, tracesize + 1, true)
       | None => (trace, tracesize, false)
       end.

(** The host name in a contact, whose address is looked up; it is copied into 1024 characters. *)
Fixpoint after_scheme (scheme hay : chars) : option chars :=
  match strip_prefix scheme hay with
  | Some rest => Some rest
  | None => match hay with [] => None | _ :: hay' => after_scheme scheme hay' end
  end.

Fixpoint before (c : byte) (s : chars) : chars :=
  match s with
  | [] => []
  | x :: s' => if decide (x = c) then [] else x :: before c s'
  end.

Definition host_of (c : chars) : chars :=
  let h := match after_scheme (string_bytes "socket://") c with
           | Some h => h
           | None => default c (after_scheme (string_bytes "http://") c)
           end in
  before x3a h.

Definition NodeInTrace (lookup : chars → option Z) (trace : list Z) (tracesize : Z)
    (contact : string) : result bool :=
  if (tracesize <? 0) || (MAX_HOPS <=? tracesize) || bool_decide (contact = "") then Ok false
  else
    let c := before_nul (string_bytes contact) in
    if 1024 <=? zlen c then Stuck
    else match lookup (host_of c) with
         | Some ip => Ok (existsb (Z.eqb ip) (take (Z.to_nat tracesize) trace))
         | None => Ok false
         end.

Definition setPSMRef (secmgr : string) (j : JobMgr) : JobMgr := j <| localPSM := secmgr |>.
Definition getPSMRef (j : JobMgr) : string := localPSM j.
Definition GetNodeAccessPoint (j : JobMgr) : string := localPSN j.

(** ** Reservations respect the resources *)

(** [a] is at most [b], as far as the numbers can be compared. *)
Definition within (a b : float) : Prop := flt b a = false.

Lemma fmin_within a b : within (fmin a b) a ∧ within (fmin a b) b.
Proof.
  unfold within, fmin. destruct (flt a b) eqn:E; split; auto using flt_irrefl, flt_asym.
Qed.

Lemma match_power_spec check od inf j f fitness :
  match_power check od inf j = Some (f, fitness) → fgt (mflops od) fzero = true →
  within f (total_flops (available j)) ∧ within f (total_flops (limit j)) ∧ within inf fitness.
Proof.
  unfold match_power. intros H Hr. rewrite Hr in H. destruct (check && _); [done |].
  destruct (fgt (mflops od) (total_flops (available j))
            || fgt (mflops od) (total_flops (limit j))) eqn:E;
    destruct (flt _ inf) eqn:Ei in H; simplify_eq.
  - pose proof (fmin_within (total_flops (available j)) (total_flops (limit j))) as [Ha Hb].
    auto.
  - apply orb_false_iff in E as [Ea Eb]. auto.
Qed.

Lemma match_memory_spec od inf fitness j m fitness' :
  match_memory od inf fitness j = Ok (Some (m, fitness')) →
  (fitness' = fitness ∨ within inf fitness') ∧
  (fgt (ram od) fzero = true → ∃ avail, total_mem (available j) = Some avail ∧ within m avail).
Proof.
  unfold match_memory, read_member. intros H. destruct (fgt (ram od) fzero); [|simplify_eq; split; [by left | done]].
  destruct (total_mem (available j)) as [avail|]; [|done]. cbn [rbind] in H.
  destruct (fgt _ avail) in H; [done |].
  destruct (fgt (ram od) avail) eqn:Ea.
  - destruct (flt (fdiv avail (ram od)) fitness); [destruct (flt _ inf) eqn:Ei in H|]; simplify_eq;
      (split; [auto | intros _; eexists; split; [reflexivity | apply flt_irrefl]]).
  - destruct (flt (fdiv (ram od) avail) fitness); [destruct (flt _ inf) eqn:Ei in H|]; simplify_eq;
      (split; [auto | intros _; exists avail; split; [done | exact Ea]]).
Qed.

(** What a reservation is given: no more than what is left, and a fitness that is good enough
    unless nothing was asked for. *)
Definition fits (od : pop_od) (inf fitness f m : float) (j : JobMgr) : Prop :=
  zlen (jobs j) < uwrap 64 (maxjobs j) ∧
  (within inf fitness ∨ fitness = fone) ∧
  (od_IsEmpty od = false → fgt (mflops od) fzero = true →
   within f (total_flops (available j)) ∧ within f (total_flops (limit j)) ∧ within inf fitness) ∧
  (od_IsEmpty od = false → fgt (ram od) fzero = true →
   ∃ avail, total_mem (available j) = Some avail ∧ within m avail).

Lemma match_local_spec check od inf j fitness f m w :
  match_local check od inf j = Ok (Some (fitness, f, m, w)) → fits od inf fitness f m j.
Proof.
  unfold match_local, fits. intros H. destruct (_ <=? _) eqn:En in H; [done |]. reflect_bools.
  split; [done |]. destruct (od_IsEmpty od); [simplify_eq; split_and!; [by right | done | done] |].
  destruct (match_power check od inf j) as [[f0 fit0]|] eqn:Ep; [|done].
  apply rbind_Ok in H as (r & Hm & H). destruct r as [[m0 fit1]|]; [|done].
  apply rbind_Ok in H as (r & Hw & H). destruct r as [w0|]; [|done]. simplify_eq.
  apply match_memory_spec in Hm as [Hf Hm].
  pose proof (match_power_spec _ _ _ _ _ _ Ep) as Hp.
  assert (Hfit : within inf fitness ∨ fitness = fone).
  { destruct Hf as [-> | Hf]; [|by left]. destruct (fgt (mflops od) fzero) eqn:Eg.
    - left. by apply Hp.
    - right. unfold match_power in Ep. rewrite Eg in Ep. by simplify_eq. }
  split_and!; [done | | by auto].
  intros _ Hg. destruct (Hp Hg) as (H1 & H2 & H3). split_and!; [done | done |].
  by destruct Hf as [-> | Hf].
Qed.


(** ** Every operation on the jobs *)

Inductive job_step (j : JobMgr) : JobMgr → Prop :=
  | step_reserve od inf app req now up j' f id calls :
      Reserve od inf app req now up j = Ok (j', f, id, calls) → job_step j j'
  | step_match od now slots j' slots' ret cs :
      MatchAndReserve_all od now slots j = Ok (j', slots', ret, cs) → job_step j j'
  | step_cancel ids j' calls : CancelReservation ids j = Ok (j', calls) → job_step j j'
  | step_release id j' b : ReleaseJob id j = Ok (j', b) → job_step j j'
  | step_update alive now j' : Update alive now j = Ok j' → job_step j j'
  | step_end appid j' calls : ApplicationEnd appid j = Ok (j', calls) → job_step j j'
  | step_exec ids now j' ai : exec_reservations ids now ("", "") j = Ok (j', ai) → job_step j j'
  | step_validate id c a now : job_step j (ValidateReservation id c a now j).1
  | step_pause app d t : job_step j (Pause app d t j)
  | step_check fuel app now j' b : CheckPauseList fuel app now j = Some (j', b) → job_step j j'
  | step_request r e e' j' b : AddRequest r e e' j = Ok (j', b) → job_step j j'
  | step_failed e c i : job_step j (forward_failed e c i j)
  | step_learn slots : job_step j (learn slots j).

(** A job manager as its constructor leaves it. *)
Definition fresh (j : JobMgr) : Prop := jobs j = [] ∧ counter j = 1 ∧ 0 ≤ maxjobs j ≤ int_max.

Inductive job_reachable : JobMgr → Prop :=
  | reach_fresh j : fresh j → job_reachable j
  | reach_job_step j j' : job_reachable j → job_step j j' → job_reachable j'.

Definition id_ok (z : Z) : Prop := 1 ≤ z ≤ 1000000000.
Definition job_ok (t : Resources) : Prop := id_ok (Id t) ∧ popAppId t = "" ∧ reqID t = "".

Record jobmgr_ok (j : JobMgr) : Prop := {
  ok_max : 0 ≤ maxjobs j ≤ int_max;
  ok_count : zlen (jobs j) ≤ maxjobs j;
  ok_counter : id_ok (counter j);
  ok_jobs : Forall job_ok (jobs j) }.

Lemma next_counter z : id_ok z → id_ok (Z.rem z 1000000000 + 1).
Proof.
  unfold id_ok. intros H. rewrite Z.rem_mod_nonneg by lia.
  pose proof (Z.mod_pos_bound z 1000000000). lia.
Qed.

(** Operations that leave jobs, counter and bound alone. *)
Lemma jobmgr_ok_same j j' :
  jobs j' = jobs j → counter j' = counter j → maxjobs j' = maxjobs j → jobmgr_ok j → jobmgr_ok j'.
Proof. intros E1 E2 E3 [H1 H2 H3 H4]. constructor; by rewrite ?E1, ?E2, ?E3. Qed.

Lemma uwrap_maxjobs j : jobmgr_ok j → uwrap 64 (maxjobs j) = maxjobs j.
Proof.
  intros [H _ _ _]. unfold uwrap, int_max in *. apply Z.mod_small. lia.
Qed.

Lemma push_ok f m w now j :
  jobmgr_ok j → zlen (jobs j) < uwrap 64 (maxjobs j) →
  jobmgr_ok (push_job (new_job f m w now j) j).
Proof.
  intros Hj Hn. rewrite uwrap_maxjobs in Hn by done. destruct Hj as [H1 H2 H3 H4].
  constructor; simpl; [done | rewrite length_app; simpl; lia | done |].
  apply Forall_app. split; [done |]. constructor; [by split | constructor].
Qed.

Lemma take_ok t j j' : jobmgr_ok j → take_resources t j = Ok j' → jobmgr_ok j'.
Proof.
  intros [H1 H2 H3 H4] H. unfold take_resources in H. inv_ok.
  constructor; simpl; try done. by apply next_counter.
Qed.

Lemma Reserve_ok od inf app req now up j j' f id calls :
  jobmgr_ok j → Reserve od inf app req now up j = Ok (j', f, id, calls) → jobmgr_ok j'.
Proof.
  unfold Reserve. intros Hj H. apply rbind_Ok in H as (r & Hm & H).
  destruct r as [[[[fit1 f1] m] w]|]; [|by simplify_eq].
  apply match_local_spec in Hm as [Hn _]. pose proof (push_ok f1 m w now j Hj Hn) as Hp.
  destruct up; [|by simplify_eq]. apply rbind_Ok in H as (j1 & Ht & H). simplify_eq.
  by eapply take_ok.
Qed.

Lemma MatchAndReserve_ok od inf now j j' f id :
  jobmgr_ok j → MatchAndReserve od inf now j = Ok (j', f, id) → jobmgr_ok j'.
Proof.
  unfold MatchAndReserve. intros Hj H. apply rbind_Ok in H as (r & Hm & H).
  destruct r as [[[[fit1 f1] m] w]|]; [|by simplify_eq].
  apply match_local_spec in Hm as [Hn _]. pose proof (push_ok f1 m w now j Hj Hn) as Hp.
  apply rbind_Ok in H as (j1 & Ht & H). simplify_eq. by eapply take_ok.
Qed.

Lemma reserve_slots_ok od now index slots ret j j' slots' ret' cs :
  jobmgr_ok j → reserve_slots od now index slots ret j = Ok (j', slots', ret', cs) → jobmgr_ok j'.
Proof.
  revert slots ret j slots' ret' cs. induction index as [|pos index IH];
    intros slots ret j slots' ret' cs Hj H; simpl in H; [by simplify_eq |].
  destruct (slots !! pos) as [s|]; [|done]. destruct (fge (fit s) fone); [by simplify_eq |].
  apply rbind_Ok in H as ([[j1 f] id] & Hm & H). apply MatchAndReserve_ok in Hm; [|done].
  destruct (id <=? 0); [by simplify_eq |].
  apply rbind_Ok in H as ([[[j2 slots2] ret2] cs2] & Hs & H). simplify_eq. by eapply IH.
Qed.

Lemma update_jobs_spec alive now timeout l l' :
  update_jobs alive now timeout l = Ok l' →
  length l' = length l ∧ (Forall job_ok l → Forall job_ok l').
Proof.
  revert l'. induction l as [|t l IH]; simpl; intros l' H; [by simplify_eq |].
  repeat case_match; try done; apply rbind_Ok in H as (k & Hk & H); simplify_eq;
    destruct (IH _ Hk) as [Hl Hf]; simpl; (split; [lia |]);
    intros Hall; apply Forall_cons in Hall as [??]; constructor; auto.
Qed.

Lemma give_same t j j' :
  give_resources t j = Ok j' →
  jobs j' = jobs j ∧ counter j' = counter j ∧ maxjobs j' = maxjobs j.
Proof. unfold give_resources. intros H. by inv_ok. Qed.

Lemma end_jobs_spec appid l j rest j' nb :
  end_jobs appid l j = Ok (rest, j', nb) →
  rest = List.filter (λ t, negb (bool_decide (c_str (popAppId t) = c_str appid))) l ∧
  nb = zlen l - zlen rest ∧ counter j' = counter j ∧ maxjobs j' = maxjobs j ∧
  (nb = 0 → j' = j).
Proof.
  revert j rest j' nb. induction l as [|t l IH]; simpl; intros j rest j' nb H; [by simplify_eq |].
  case_decide as E.
  - apply rbind_Ok in H as (j1 & Hg & H). apply rbind_Ok in H as ([[rest1 j2] nb1] & He & H).
    simplify_eq. apply give_same in Hg as (_ & Hc & Hm). apply IH in He as (-> & -> & -> & -> & _).
    rewrite bool_decide_true by done. cbn [negb]. split_and!; [done | lia | done | done |].
    pose proof (List.filter_length_le (λ t, negb (bool_decide (c_str (popAppId t) = c_str appid))) l).
    lia.
  - apply rbind_Ok in H as ([[rest1 j2] nb1] & He & H). simplify_eq.
    apply IH in He as (-> & -> & -> & -> & Hs).
    rewrite bool_decide_false by done. cbn [negb]. simpl. split_and!; [done | lia | done | done |].
    intros. apply Hs. lia.
Qed.

Lemma update_job_spec id f l l' :
  update_job id f l = Some l' →
  length l' = length l ∧ ((∀ t, job_ok t → job_ok (f t)) → Forall job_ok l → Forall job_ok l').
Proof.
  revert l'. induction l as [|t l IH]; simpl; intros l' H; [done |].
  destruct (Id t =? id).
  - simplify_eq. split; [done |]. intros Hf Hall. apply Forall_cons in Hall as [??].
    constructor; auto.
  - apply fmap_Some in H as (k & Hk & ->). destruct (IH _ Hk) as [Hl Hp]. simpl.
    split; [lia |]. intros Hf Hall. apply Forall_cons in Hall as [??]. constructor; auto.
Qed.

Lemma jobmgr_ok_jobs l j :
  length l = length (jobs j) → (Forall job_ok (jobs j) → Forall job_ok l) →
  jobmgr_ok j → jobmgr_ok (j <| jobs := l |>).
Proof. intros Hl Hf [H1 H2 H3 H4]. constructor; simpl; auto. by rewrite Hl. Qed.

Lemma VerifyReservation_ok id b now j :
  jobmgr_ok j → jobmgr_ok (VerifyReservation id b now j).1.
Proof.
  intros Hj. unfold VerifyReservation. destruct (update_job _ _ _) as [l|] eqn:E; [|done].
  apply update_job_spec in E as [Hl Hf]. simpl. apply jobmgr_ok_jobs; [done | | done].
  apply Hf. intros t Ht. by destruct b.
Qed.

Lemma exec_reservations_ok ids now ai j j' ai' :
  jobmgr_ok j → exec_reservations ids now ai j = Ok (j', ai') → jobmgr_ok j'.
Proof.
  revert ai j. induction ids as [|id ids IH]; simpl; intros ai j Hj H; [by simplify_eq |].
  pose proof (VerifyReservation_ok id true now j Hj) as Hv.
  destruct (VerifyReservation id true now j) as [j1 [r|]]; [|done]. by eapply IH.
Qed.

Lemma learn_ok slots j : jobmgr_ok j → jobmgr_ok (learn slots j).
Proof.
  unfold learn. destruct (modelearn j); [|done]. revert j.
  induction slots as [|s slots IH]; simpl; intros j Hj; [done |]. apply IH.
  unfold learn_slot. repeat case_match; try done; by eapply (jobmgr_ok_same j).
Qed.

Lemma ApplicationEnd_jobs appid j j' calls :
  ApplicationEnd appid j = Ok (j', calls) →
  jobs j' = List.filter (λ t, negb (bool_decide (c_str (popAppId t) = c_str appid))) (jobs j) ∧
  counter j' = counter j ∧ maxjobs j' = maxjobs j ∧
  (jobs j' = jobs j → j' = j ∧ calls = []).
Proof.
  unfold ApplicationEnd. intros H. apply rbind_Ok in H as ([[rest j1] nb] & He & H).
  apply end_jobs_spec in He as (-> & -> & Hc & Hm & Hs).
  set (l := List.filter _ (jobs j)) in *.
  destruct (0 <? zlen (jobs j) - zlen l) eqn:E; reflect_bools.
  - inv_ok. simpl. split_and!; [done | done | done |]. intros El. rewrite El in E. lia.
  - simplify_eq. simpl. split_and!; [done | done | done |]. intros El.
    split; [|done]. rewrite Hs by (rewrite El; lia). rewrite El. by destruct j.
Qed.

Lemma step_ok j j' : jobmgr_ok j → job_step j j' → jobmgr_ok j'.
Proof.
  intros Hj Hs. destruct Hs as
    [od inf app req now up j' f id calls H | od now slots j' slots' ret cs H | ids j' calls H
    | id j' b H | alive now j' H | appid j' calls H | ids now j' ai H | id c a now | app d t
    | fuel app now j' b H | r e e' j' b H | e c i | slots].
  - by eapply Reserve_ok.
  - unfold MatchAndReserve_all in H. destruct slots; [by simplify_eq |].
    by eapply reserve_slots_ok.
  - unfold CancelReservation in H. case_match; by simplify_eq.
  - unfold ReleaseJob in H. repeat case_match; by simplify_eq.
  - unfold Update in H. apply rbind_Ok in H as (l & Hl & H). simplify_eq.
    apply update_jobs_spec in Hl as [Hl Hf]. by apply jobmgr_ok_jobs.
  - apply ApplicationEnd_jobs in H as (El & Ec & Em & _). destruct Hj as [H1 H2 H3 H4].
    pose proof (List.filter_length_le
      (λ t, negb (bool_decide (c_str (popAppId t) = c_str appid))) (jobs j)).
    constructor; rewrite ?Ec, ?Em, ?El; try done; [lia |].
    rewrite Forall_forall in *. intros t Ht. apply H4. apply list_elem_of_In.
    apply list_elem_of_In in Ht. apply filter_In in Ht. by destruct Ht.
  - by eapply exec_reservations_ok.
  - unfold ValidateReservation. destruct (update_job _ _ _) as [l|] eqn:E; [|done].
    apply update_job_spec in E as [Hl Hf]. simpl. apply jobmgr_ok_jobs; [done | | done].
    by apply Hf.
  - by eapply (jobmgr_ok_same j).
  - unfold CheckPauseList in H. case_match; [|done]. destruct_and?. case_match; simplify_eq.
    by eapply (jobmgr_ok_same j).
  - unfold AddRequest in H. apply rbind_Ok in H as (o & _ & H). case_match; simplify_eq; [done |].
    by eapply (jobmgr_ok_same j).
  - unfold forward_failed. case_match; by eapply (jobmgr_ok_same j).
  - by apply learn_ok.
Qed.

Lemma job_reachable_ok j : job_reachable j → jobmgr_ok j.
Proof.
  induction 1 as [j (Hj & Hc & Hm)|j j' _ IH Hs]; [|by eapply step_ok].
  constructor; rewrite ?Hj, ?Hc; simpl; [done | lia | done | constructor].
Qed.

(** Whatever the operations, a job manager never holds more jobs than its bound, its
    identifiers stay between 1 and 10^9, and no job on its list carries an application: what
    [Reserve] is told about it is lost. *)
Theorem jobs_bounded (j : JobMgr) :
  job_reachable j →
  zlen (jobs j) ≤ maxjobs j ∧ 1 ≤ counter j ≤ 1000000000 ∧
  Forall (λ t, 1 ≤ Id t ≤ 1000000000 ∧ popAppId t = "" ∧ reqID t = "") (jobs j).
Proof. intros H. by destruct (job_reachable_ok j H). Qed.

(** The end of an application gives nothing back: in every reachable state, [ApplicationEnd] for
    a named application leaves the job manager as it is and tells the search node nothing. *)
Theorem ApplicationEnd_frees_nothing (j j' : JobMgr) appid calls :
  job_reachable j → c_str appid ≠ "" → ApplicationEnd appid j = Ok (j', calls) →
  j' = j ∧ calls = [].
Proof.
  intros Hr Ha H. apply job_reachable_ok in Hr. apply ApplicationEnd_jobs in H as (El & _ & _ & Hs).
  apply Hs. rewrite El. clear El Hs. destruct Hr as [_ _ _ Hj].
  induction Hj as [|t l (_ & Hp & _) Hl IH]; [done |]. cbn [List.filter].
  assert (E : c_str (popAppId t) ≠ c_str appid). { rewrite Hp. intros E. by apply Ha. }
  rewrite bool_decide_false by done. cbn [negb]. by rewrite IH.
Qed.

(** A reservation that the search node could not be told about stays on the list, and the next
    one gets the same identifier: two jobs share it, and looking it up finds the one that was
    refused. *)
Theorem leaked_reservation od od' inf inf' app app' req req' now now' (j j1 j2 : JobMgr) f f' id calls :
  Reserve od inf app req now false j = Ok (j1, f, 0, []) → jobs j1 ≠ jobs j →
  Forall (λ t, Id t ≠ counter j) (jobs j) → counter j ≠ 0 →
  Reserve od' inf' app' req' now' true j1 = Ok (j2, f', id, calls) → id ≠ 0 →
  ∃ t1 t2, jobs j2 = jobs j ++ [t1; t2] ∧ Id t1 = id ∧ Id t2 = id ∧
    (VerifyReservation id false now' j2).2 = Some t1.
Proof.
  intros H1 Hn Hf Hc H2 Hid. unfold Reserve in H1, H2.
  apply rbind_Ok in H1 as (r1 & _ & H1). destruct r1 as [[[[fit1 f1] m1] w1]|]; [|by simplify_eq].
  simplify_eq. apply rbind_Ok in H2 as (r2 & _ & H2).
  destruct r2 as [[[[fit2 f2] m2] w2]|]; [|by simplify_eq].
  apply rbind_Ok in H2 as (j3 & Ht & H2). simplify_eq. unfold take_resources in Ht. inv_ok. simpl.
  eexists _, _. rewrite <- app_assoc. split_and!; [reflexivity | done | done |].
  unfold VerifyReservation. simpl.
  set (t1 := new_job f1 m1 w1 now j). set (t2 := new_job _ _ _ _ _).
  assert (E : update_job (counter j) (λ t, t) ((jobs j ++ [t1]) ++ [t2])
              = Some ((jobs j ++ [t1]) ++ [t2])).
  { rewrite <- app_assoc. clear -Hf. induction Hf as [|t l Hl _ IH]; simpl.
    - by rewrite Z.eqb_refl.
    - rewrite (proj2 (Z.eqb_neq _ _)) by done. simpl in IH. by rewrite IH. }
  rewrite E. simpl. rewrite <- app_assoc. clear -Hf. induction Hf as [|t l Hl _ IH]; simpl.
  - by rewrite Z.eqb_refl.
  - by rewrite (proj2 (Z.eqb_neq _ _)) by done.
Qed.

(** A reservation that was made cannot be cancelled: the method works on the vector through an
    iterator and a reference that its own [erase] invalidated. *)
Theorem cancel_undefined od inf app req now (j j' : JobMgr) f id calls :
  Reserve od inf app req now true j = Ok (j', f, id, calls) → counter j ≠ 0 → id ≠ 0 →
  CancelReservation [id] j' = Stuck.
Proof.
  intros H Hc Hid. unfold Reserve in H. apply rbind_Ok in H as (r & _ & H).
  destruct r as [[[[fit1 f1] m1] w1]|]; [|by simplify_eq].
  apply rbind_Ok in H as (j3 & Ht & H). simplify_eq. unfold take_resources in Ht. inv_ok.
  unfold CancelReservation. simpl.
  match goal with |- context [existsb ?p ?l] => assert (E : existsb p l = true) end.
  { rewrite existsb_app. apply orb_true_iff. right. simpl.
    unfold is_cancelled. simpl. by rewrite Z.eqb_refl. }
  by rewrite E.
Qed.

(** ** Pauses *)

Definition expired (now : float) (e : float * string) : bool := fgt now e.1.
Definition pauses (app : string) (e : float * string) : bool :=
  bool_decide (e.2 = "" ∨ e.2 = app).

Fixpoint drop_expired (now : float) (l : list (float * string)) : list (float * string) :=
  match l with
  | [] => []
  | e :: l' => if expired now e then drop_expired now l' else l
  end.

(** [CheckPauseList] looks at the first entry that has not expired and no further: it tells a
    paused application when that entry is for it or for all, and never returns when the entry is
    for another application. *)
Theorem CheckPauseList_spec app now l :
  match drop_expired now l with
  | [] => CheckPauseList_fuel (S (length l)) app now l = Some ([], false)
  | e :: l' =>
      if pauses app e then CheckPauseList_fuel (S (length l)) app now l = Some (e :: l', true)
      else ∀ fuel, CheckPauseList_fuel fuel app now l = None
  end.
Proof.
  induction l as [|[u a] l IH]; [done |]. cbn [drop_expired]. unfold expired at 1. cbn [fst].
  destruct (fgt now u) eqn:E.
  - destruct (drop_expired now l) as [|e l']; [by simpl; rewrite E |].
    destruct (pauses app e); [by simpl; rewrite E |]. intros [|fuel]; simpl; [done |]. by rewrite E.
  - unfold pauses. case_bool_decide as Ha; cbn [snd] in Ha.
    + simpl. rewrite E. by rewrite decide_True.
    + intros fuel. induction fuel as [|fuel IHf]; simpl; [done |]. rewrite E.
      by rewrite decide_False.
Qed.

(** ** Traces *)

(** A request enters the trace once: the identifiers of the trace stay distinct, a request that
    was taken is refused from then on while it is in the trace, and only entries older than the
    limit are dropped. *)
Theorem AddRequest_once reqId e e' e1 e1' (j j' : JobMgr) b :
  NoDup (fst <$> tracelist j) → AddRequest reqId e e' j = Ok (j', b) →
  NoDup (fst <$> tracelist j') ∧
  b = bool_decide (reqId ∉ fst <$> tracelist j) ∧
  (∀ r, AddRequest reqId e1 e1' j' = Ok r → r = (j', false)) ∧
  (∃ oldest, oldest_trace e j = Ok oldest ∧
   ∀ t, t ∈ tracelist j → t ∉ tracelist j' → flt t.2 oldest = true).
Proof.
  intros Hd H. unfold AddRequest in H. apply rbind_Ok in H as (oldest & Ho & H).
  assert (Hex : ∀ l : list (list Z * float),
    existsb (λ t : list Z * float, bool_decide (t.1 = reqId)) l = bool_decide (reqId ∈ fst <$> l)).
  { intros l. apply eq_bool_prop_intro. rewrite bool_decide_spec, list_elem_of_fmap.
    split.
    - intros Hl%Is_true_true. apply existsb_exists in Hl as (t & Ht & E).
      apply bool_decide_eq_true in E. exists t. split; [done | by apply list_elem_of_In].
    - intros (t & -> & Ht). apply Is_true_true, existsb_exists. exists t.
      split; [by apply list_elem_of_In | by apply bool_decide_eq_true]. }
  rewrite Hex in H. case_bool_decide as Hin; simplify_eq.
  - split_and!; [done | by rewrite bool_decide_false by tauto | | by exists oldest].
    intros r Hr. unfold AddRequest in Hr. apply rbind_Ok in Hr as (? & _ & Hr).
    rewrite Hex, bool_decide_true in Hr by done. by simplify_eq.
  - set (keep := List.filter _ (tracelist j)). simpl.
    assert (Hk : ∀ t, t ∈ keep ↔ t ∈ tracelist j ∧ flt t.2 oldest = false).
    { intros t. unfold keep. rewrite !list_elem_of_In, filter_In, negb_true_iff. done. }
    assert (Hnk : reqId ∉ fst <$> keep).
    { rewrite list_elem_of_fmap. intros (t & -> & Ht). apply Hk in Ht as [Ht _]. apply Hin.
      apply list_elem_of_fmap. by exists t. }
    assert (Hdk : NoDup (fst <$> keep)).
    { unfold keep. clear -Hd. induction (tracelist j) as [|t l IH]; csimpl; [constructor |].
      apply NoDup_cons in Hd as [Ht Hd]. destruct (negb _); csimpl; [|by apply IH].
      apply NoDup_cons. split; [|by apply IH]. intros Hin. apply Ht.
      apply list_elem_of_fmap in Hin as (x & E & Hx). apply list_elem_of_fmap.
      exists x. split; [done |]. rewrite list_elem_of_In in *. by apply filter_In in Hx as [? _]. }
    split_and!.
    + rewrite fmap_app. apply NoDup_app. split_and!; [done | | apply NoDup_singleton].
      intros x Hx. csimpl. intros ->%list_elem_of_singleton. done.
    + by rewrite bool_decide_true.
    + intros r Hr. unfold AddRequest in Hr. apply rbind_Ok in Hr as (? & _ & Hr).
      rewrite Hex, bool_decide_true in Hr; [by simplify_eq |].
      simpl. rewrite fmap_app. apply elem_of_app. right. by left.
    + exists oldest. split; [done |]. intros t Ht Hn. destruct (flt t.2 oldest) eqn:E; [done |].
      exfalso. apply Hn. apply elem_of_app. left. by apply Hk.
Qed.

(** ** The order in which slots are tried *)

Lemma bubble_index_perm slots l : bubble_index slots l ≡ₚ l.
Proof.
  induction l as [|a l IH]; simpl; [done |]. destruct (bubble_index slots l) as [|b k].
  - by rewrite <- IH.
  - destruct (fgt _ _); rewrite <- IH; [apply perm_swap | done].
Qed.

Lemma sort_index_perm slots n l : sort_index slots n l ≡ₚ l.
Proof.
  revert l. induction n as [|n IH]; intros l; simpl; [done |].
  rewrite <- (bubble_index_perm slots l) at 2. destruct (bubble_index slots l) as [|a k]; [done |].
  by rewrite IH.
Qed.

(** [a] fits at least as well as [b]. *)
Definition better (slots : list slot) (a b : nat) : Prop := fle (fit_of slots b) (fit_of slots a) = true.
Definition no_nan (slots : list slot) : Prop := Forall (λ s, fit s ≠ S754_nan) slots.

Lemma fit_of_no_nan slots i : no_nan slots → fit_of slots i ≠ S754_nan.
Proof.
  intros H. unfold fit_of. destruct (slots !! i) as [s|] eqn:E; [|done].
  unfold no_nan in H. rewrite Forall_lookup in H. by eapply H.
Qed.

Lemma fge_of_not_fgt slots a b :
  no_nan slots → fgt (fit_of slots b) (fit_of slots a) = false → better slots a b.
Proof. intros Hn H. apply not_flt_fle; auto using fit_of_no_nan. Qed.

Lemma fgt_better slots a b : fgt (fit_of slots b) (fit_of slots a) = true → better slots b a.
Proof.
  unfold better, fgt, fle, SFltb, SFleb. by destruct (SFcompare _ _) as [[]|].
Qed.

Lemma better_trans slots a b c :
  no_nan slots → better slots a b → better slots b c → better slots a c.
Proof. unfold better. intros Hn H1 H2. eapply fle_trans; eauto using fit_of_no_nan. Qed.

Lemma bubble_index_best slots l a l' :
  no_nan slots → bubble_index slots l = a :: l' → Forall (better slots a) l'.
Proof.
  intros Hn. revert a l'. induction l as [|x l IH]; simpl; intros a l' H; [done |].
  destruct (bubble_index slots l) as [|b k]; [by simplify_eq |].
  specialize (IH b k eq_refl). destruct (fgt _ _) eqn:E; simplify_eq.
  - constructor; [by apply fgt_better | done].
  - apply fge_of_not_fgt in E; [|done]. constructor; [done |].
    eapply Forall_impl; [exact IH |]. intros c. by apply better_trans.
Qed.

Lemma sort_index_sorted slots n l :
  no_nan slots → (length l ≤ n)%nat → StronglySorted (better slots) (sort_index slots n l).
Proof.
  intros Hn. revert l. induction n as [|n IH]; intros l Hl; simpl.
  { destruct l; [constructor | simpl in Hl; lia]. }
  pose proof (bubble_index_perm slots l) as Hp.
  destruct (bubble_index slots l) as [|a k] eqn:E; [constructor |].
  apply bubble_index_best in E; [|done]. apply Permutation_length in Hp. simpl in Hp.
  constructor; [apply IH; lia |]. by rewrite sort_index_perm.
Qed.

(** The slots are tried each exactly once, from the one that fits worst to the one that fits
    best. *)
Theorem order_of_sorted (slots : list slot) :
  no_nan slots →
  order_of slots ≡ₚ seq 0 (length slots) ∧
  StronglySorted (λ a b, fle (fit_of slots a) (fit_of slots b) = true) (rev (order_of slots)).
Proof.
  intros Hn. split; [apply sort_index_perm |]. unfold order_of.
  pose proof (sort_index_sorted slots (length slots) (seq 0 (length slots)) Hn) as Hs.
  rewrite length_seq in Hs. exact (StronglySorted_rev _ _ (Hs (le_n _))).
Qed.

(** ** Moving the slots that fit to the front *)

Definition is_good (s : slot) : bool := fge (fit s) fone.
Definition is_bad (s : slot) : bool := flt (fit s) fone.

Lemma bad_not_good s : is_bad s = true → is_good s = false.
Proof. apply flt_not_fge. Qed.

Lemma good_not_bad s : is_good s = true → is_bad s = false.
Proof.
  intros H. destruct (is_bad s) eqn:E; [|done]. by rewrite (bad_not_good s E) in H.
Qed.

(** The slots from [k] on do not fit. *)
Definition bad_from (slots : list slot) (k : nat) : Prop :=
  ∀ i s, (k ≤ i)%nat → slots !! i = Some s → is_good s = false.

Lemma find_good_spec slots j k :
  (k < length slots)%nat → bad_from slots (S k) →
  match find_good slots j k with
  | Some i => (j < i ≤ k)%nat ∧ (∃ s, slots !! i = Some s ∧ is_good s = true) ∧
              bad_from slots (S i)
  | None => bad_from slots (S j)
  end.
Proof.
  induction k as [|k IH]; intros Hk Hb; cbn [find_good].
  { intros i s Hi. apply Hb. lia. }
  destruct (S k <=? j)%nat eqn:E.
  { apply Nat.leb_le in E. intros i s Hi. apply Hb. lia. }
  apply Nat.leb_gt in E. destruct (lookup_lt_is_Some_2 slots (S k) Hk) as [s Hs]. rewrite Hs.
  destruct (fge (fit s) fone) eqn:Eg; [split_and!; [lia | lia | by exists s | done] |].
  assert (Hb' : bad_from slots (S k)).
  { intros i t Hi Ht. destruct (Nat.eq_dec i (S k)) as [->|Hne]; [by simplify_eq |].
    apply (Hb i t); [lia | done]. }
  specialize (IH ltac:(lia) Hb'). destruct (find_good slots j k) as [i|]; [|done].
  destruct IH as (Hi & Hg & Hbi). split_and!; [lia | lia | done | done].
Qed.

Lemma swap_slots_spec j k slots sj sk :
  (j < k)%nat → slots !! j = Some sj → slots !! k = Some sk → is_bad sj = true →
  is_good sk = true → bad_from slots (S k) →
  swap_slots j k slots ≡ₚ slots ∧ take j (swap_slots j k slots) = take j slots ∧
  swap_slots j k slots !! j = Some sk ∧ bad_from (swap_slots j k slots) k.
Proof.
  intros Hjk Hj Hk Hbj Hgk Hb. unfold swap_slots. rewrite Hj, Hk.
  pose proof (lookup_lt_Some _ _ _ Hj). pose proof (lookup_lt_Some _ _ _ Hk).
  split_and!.
  - apply swap_Permutation; [lia | done | done].
  - rewrite !take_insert_ge by lia. done.
  - rewrite list_lookup_insert_ne by lia. by rewrite list_lookup_insert_eq.
  - intros i t Hi Ht. destruct (Nat.eq_dec i k) as [->|Hne].
    + rewrite list_lookup_insert_eq in Ht by (by rewrite length_insert). simplify_eq.
      by apply bad_not_good.
    + rewrite !list_lookup_insert_ne in Ht by lia. apply (Hb i t); [lia | done].
Qed.

(** [K] bounds the part of the array known not to fit, [nswap] exchanges having been made. *)
Lemma partition_loop_spec n nswap slots good K slots' good' :
  partition_loop n nswap slots good = (slots', good') →
  (n ≤ length slots)%nat → good = (length slots - n)%nat → bad_from slots K →
  (K + nswap ≤ length slots)%nat → Forall (λ s, is_bad s = false) (take good slots) →
  slots' ≡ₚ slots ∧ (good' ≤ length slots)%nat ∧
  Forall (λ s, is_bad s = false) (take good' slots') ∧
  Forall (λ s, is_good s = false) (drop good' slots').
Proof.
  revert nswap slots good K. induction n as [|n IH]; intros nswap slots good K H Hn Hg Hb HK Hf.
  { simpl in H. simplify_eq. rewrite Nat.sub_0_r in *. split_and!; [done | lia | done |].
    rewrite drop_ge by lia. constructor. }
  cbn [partition_loop] in H. rewrite <- Hg in H.
  destruct (lookup_lt_is_Some_2 slots good ltac:(lia)) as [s Hs]. rewrite Hs in H.
  assert (Hstep : ∀ l t, length l = length slots → take good l = take good slots →
    l !! good = Some t → is_bad t = false →
    Forall (λ s, is_bad s = false) (take (S good) l)).
  { intros l t Hl Ht Hlg Hbad. rewrite (take_S_r _ _ t) by done. rewrite Ht.
    apply Forall_app. split; [done | by repeat constructor]. }
  destruct (flt (fit s) fone) eqn:Eb.
  - assert (Hbk : bad_from slots (S (length slots - 1 - nswap))).
    { intros i t Hi Ht. apply (Hb i t); [|done]. lia. }
    pose proof (find_good_spec slots good (length slots - 1 - nswap) ltac:(lia) Hbk) as Hfg.
    destruct (find_good slots good _) as [k|] eqn:Ek.
    + destruct Hfg as (Hk & (sk & Hsk & Hgk) & Hbs).
      destruct (swap_slots_spec good k slots s sk) as (Hp & Ht & Hl & Hbad); try done; [lia |].
      pose proof (Permutation_length Hp) as Hlen.
      eapply (IH _ _ _ k) in H; [| lia | lia | done | lia | ].
      * rewrite Hlen in H. destruct H as (H1 & H2 & H3 & H4).
        split_and!; [by etrans | done | done | done].
      * eapply Hstep; [done | done | done | by apply good_not_bad].
    + simplify_eq. split_and!; [done | lia | done |]. apply Forall_lookup. intros i t Hi.
      rewrite lookup_drop in Hi. destruct i as [|i].
      * rewrite Nat.add_0_r in Hi. simplify_eq. by apply bad_not_good.
      * eapply Hfg; [|exact Hi]. lia.
  - eapply (IH _ _ _ K) in H; [exact H | lia | lia | done | done |]. by eapply Hstep.
Qed.

(** The slots handed to a neighbour: the array is rearranged, the first [good] slots are none
    that fits badly and none of the others fits well. *)
Theorem partition_correct (slots : list slot) :
  let '(slots', good) := partition_slots slots in
  slots' ≡ₚ slots ∧ (good ≤ length slots)%nat ∧
  Forall (λ s, flt (fit s) fone = false) (take good slots') ∧
  Forall (λ s, fge (fit s) fone = false) (drop good slots').
Proof.
  destruct (partition_slots slots) as [slots' good] eqn:E.
  apply (partition_loop_spec _ _ _ _ (length slots)) in E; [done | lia | lia | | lia | constructor].
  intros i s Hi Hs. apply lookup_lt_Some in Hs. lia.
Qed.

(** ** The neighbours in order *)

Lemma insert_contact_spec c h l :
  match insert_contact c h l with
  | Some k => k ≡ₚ (c, h) :: l
  | None => Forall (λ e, fge e.2 h = false) l
  end.
Proof.
  induction l as [|[c' t] l IH]; simpl; [constructor |].
  destruct (fge t h) eqn:E; [done |].
  destruct (insert_contact c h l) as [k|]; [by rewrite IH, Permutation_swap | by constructor].
Qed.

Definition cheaper (e e' : string * float) : Prop := fle e.2 e'.2 = true.

Lemma insert_contact_sorted c h l k :
  h ≠ S754_nan → Forall (λ e, e.2 ≠ S754_nan) l → StronglySorted cheaper l →
  insert_contact c h l = Some k → StronglySorted cheaper k.
Proof.
  intros Hh Hn Hs. revert k. induction Hs as [|[c' t] l Hs IH Hc]; simpl; intros k H; [done |].
  apply Forall_cons in Hn as [Ht Hn]. simpl in Ht. destruct (fge t h) eqn:E.
  - simplify_eq. constructor; [by constructor |]. constructor; [exact E |].
    eapply Forall_impl; [exact Hc |]. intros [c2 t2] Hle. by apply (fle_trans h t t2).
  - pose proof (insert_contact_spec c h l) as Hp.
    destruct (insert_contact c h l) as [k'|]; [|done]. simplify_eq.
    constructor; [by apply IH |]. rewrite Hp. constructor; [|done].
    unfold cheaper. simpl. by apply fle_total in E.
Qed.

(** When the stale iterator does not compare equal to the end, [GetContacts] gives every
    neighbour once, by increasing heuristic. *)
Theorem GetContacts_sorted (order : list (string * NodeInfo)) :
  Forall (λ e, heuristic e.2 ≠ S754_nan) order →
  ∃ l, GetContacts false order = fst <$> l ∧ StronglySorted cheaper l ∧
       l ≡ₚ (λ e, (e.1, heuristic e.2)) <$> order.
Proof.
  intros Hn. unfold GetContacts. eexists. split; [reflexivity |].
  assert (H : ∀ acc, StronglySorted cheaper acc → Forall (λ e, e.2 ≠ S754_nan) acc →
    StronglySorted cheaper (foldl (place_contact false) acc order) ∧
    foldl (place_contact false) acc order ≡ₚ acc ++ ((λ e, (e.1, heuristic e.2)) <$> order)).
  { induction Hn as [|[c i] order Hi Hn IH]; intros acc Hs Ha; [by rewrite app_nil_r |].
    cbn [foldl]. simpl in Hi.
    assert (Hp : place_contact false acc (c, i) ≡ₚ (c, heuristic i) :: acc).
    { unfold place_contact. simpl. pose proof (insert_contact_spec c (heuristic i) acc) as H.
      destruct (insert_contact c (heuristic i) acc); [done |].
      by rewrite <- Permutation_cons_append. }
    destruct (IH (place_contact false acc (c, i))) as [H1 H2].
    - unfold place_contact. simpl.
      pose proof (insert_contact_spec c (heuristic i) acc) as H.
      destruct (insert_contact c (heuristic i) acc) as [k|] eqn:E; [by eapply insert_contact_sorted |].
      apply StronglySorted_app. split_and!; [| done | repeat constructor].
      intros x y Hx ->%list_elem_of_singleton. rewrite Forall_forall in H. specialize (H x Hx).
      rewrite Forall_forall in Ha. unfold cheaper. simpl. apply fle_total in H; auto.
    - rewrite Hp. by constructor.
    - split; [done |]. rewrite H2, Hp. csimpl. by rewrite Permutation_middle. }
  destruct (H []) as [H1 H2]; [constructor | constructor | by split].
Qed.

(** ** A job manager at work *)

Definition sample_jm : JobMgr :=
  MkJobMgr "jm:2711" "linux" "h" [("walltime", "1:00:00")] ∅ [] [] 2
    (MkFigures (float_of_Z 100) (Some (float_of_Z 512)) (Some fzero))
    (MkFigures (float_of_Z 100) (Some (float_of_Z 512)) (Some fzero))
    (MkFigures (float_of_Z 100) (Some (float_of_Z 512)) (Some fzero)) 1 300 [] true "psn" "psm" []
    0 60 [2130706433; 2711] 1.

Definition sample_od : pop_od :=
  power (float_of_Z 50) (float_of_Z 10)
    (memory (float_of_Z 128) (float_of_Z 64) (walltime (float_of_Z 60) (od_new false None None))).

Definition reserved (up : bool) : result (JobMgr * float * Z * list psn_call) :=
  Reserve sample_od fzero "app1" "req1" 1000 up sample_jm.

Definition state_of {A B C : Type} (r : result (JobMgr * A * B * C)) : JobMgr :=
  match r with Ok (j, _, _, _) => j | _ => sample_jm end.

Lemma reserved_up : ∃ f calls, reserved true = Ok (state_of (reserved true), f, 1, calls) ∧
  length (jobs (state_of (reserved true))) = 1%nat.
Proof. eexists _, _. by split; vm_compute. Qed.

Lemma sample_reachable : job_reachable sample_jm.
Proof. by apply reach_fresh. Qed.


Lemma jobs_bounded_witness :
  let j := state_of (reserved true) in
  job_reachable j ∧
  (zlen (jobs j) ≤ maxjobs j ∧ 1 ≤ counter j ≤ 1000000000 ∧
   Forall (λ t, 1 ≤ Id t ≤ 1000000000 ∧ popAppId t = "" ∧ reqID t = "") (jobs j)) ∧
  length (jobs j) = 1%nat.
Proof.
  destruct reserved_up as (f & calls & E & Hl).
  assert (Hr : job_reachable (state_of (reserved true)))
    by (eapply reach_job_step; [exact sample_reachable | exact (step_reserve sample_jm sample_od fzero "app1" "req1" 1000 true _ _ _ _ E)]).
  split; [exact Hr |]. split; [exact (jobs_bounded _ Hr) | exact Hl].
Defined.

Lemma ApplicationEnd_frees_nothing_witness :
  let j := state_of (reserved true) in
  (job_reachable j ∧ c_str "app1" ≠ "") ∧
  ∃ j' calls, ApplicationEnd "app1" j = Ok (j', calls) ∧ (j' = j ∧ calls = []).
Proof.
  cbv zeta. destruct reserved_up as (f & calls & E & Hl).
  assert (Hr : job_reachable (state_of (reserved true)))
    by (eapply reach_job_step; [exact sample_reachable | exact (step_reserve sample_jm sample_od fzero "app1" "req1" 1000 true _ _ _ _ E)]).
  assert (Ha : c_str "app1" ≠ "") by (by vm_compute).
  split; [by split |].
  destruct (ApplicationEnd "app1" (state_of (reserved true))) as [[j' cs]| |] eqn:Ee;
    [| by vm_compute in Ee | by vm_compute in Ee].
  exists j', cs. split; [done |]. exact (ApplicationEnd_frees_nothing _ _ _ _ Hr Ha Ee).
Defined.

Lemma leaked_reservation_witness :
  let j1 := state_of (reserved false) in
  let r2 := Reserve sample_od fzero "app2" "req2" 1001 true j1 in
  ∃ t1 t2, jobs (state_of r2) = jobs sample_jm ++ [t1; t2] ∧ Id t1 = 1 ∧ Id t2 = 1 ∧
    (VerifyReservation 1 false 1001 (state_of r2)).2 = Some t1.
Proof.
  cbv zeta.
  assert (E1 : ∃ f, reserved false = Ok (state_of (reserved false), f, 0, []))
    by (eexists; by vm_compute).
  destruct E1 as [f E1].
  assert (E2 : ∃ f calls,
    Reserve sample_od fzero "app2" "req2" 1001 true (state_of (reserved false))
    = Ok (state_of (Reserve sample_od fzero "app2" "req2" 1001 true (state_of (reserved false))),
          f, 1, calls)) by (eexists _, _; by vm_compute).
  destruct E2 as (f2 & calls & E2).
  exact (leaked_reservation sample_od sample_od fzero fzero "app1" "app2" "req1" "req2" 1000 1001
           sample_jm _ _ _ _ _ _ E1 ltac:(by vm_compute)
           ltac:(constructor) ltac:(done) E2 ltac:(done)).
Defined.

Lemma cancel_undefined_witness :
  CancelReservation [1] (state_of (reserved true)) = Stuck.
Proof.
  destruct reserved_up as (f & calls & E & _).
  exact (cancel_undefined sample_od fzero "app1" "req1" 1000 sample_jm _ _ _ _ E ltac:(done) ltac:(done)).
Defined.

Lemma AddRequest_once_witness :
  NoDup (fst <$> tracelist sample_jm) ∧
  ∃ j' b, AddRequest [1; 2; 3] (double_of_Z 10) (double_of_Z 11) sample_jm = Ok (j', b) ∧
    b = true ∧ NoDup (fst <$> tracelist j') ∧
    AddRequest [1; 2; 3] (double_of_Z 20) (double_of_Z 20) j' = Ok (j', false).
Proof.
  assert (Hd : NoDup (fst <$> tracelist sample_jm)) by constructor. split; [exact Hd |].
  destruct (AddRequest [1; 2; 3] (double_of_Z 10) (double_of_Z 11) sample_jm) as [[j' b]| |] eqn:E;
    [| by vm_compute in E | by vm_compute in E].
  destruct (AddRequest_once _ _ _ (double_of_Z 20) (double_of_Z 20) _ _ _ Hd E)
    as (H1 & H2 & H3 & _).
  exists j', b. split; [done |]. split; [rewrite H2; by vm_compute |].
  split; [exact H1 |].
  destruct (AddRequest [1; 2; 3] (double_of_Z 20) (double_of_Z 20) j') as [r| |] eqn:Er.
  - f_equal. exact (H3 r eq_refl).
  - exfalso. vm_compute in E. by simplify_eq.
  - exfalso. vm_compute in E. by simplify_eq.
Defined.

Definition sample_slots : list slot :=
  [MkSlot (float_of_Z 1) "b" 7; MkSlot fzero "" 0; MkSlot (fdiv fone (float_of_Z 2)) "c" 9].

Lemma order_of_sorted_witness :
  no_nan sample_slots ∧ order_of sample_slots = [0; 2; 1]%nat ∧
  order_of sample_slots ≡ₚ seq 0 (length sample_slots) ∧
  StronglySorted (λ a b, fle (fit_of sample_slots a) (fit_of sample_slots b) = true)
    (rev (order_of sample_slots)).
Proof.
  assert (H : no_nan sample_slots) by (repeat constructor; by vm_compute).
  split; [exact H |]. split; [by vm_compute |]. exact (order_of_sorted sample_slots H).
Defined.

Definition sample_order : list (string * NodeInfo) :=
  [("a", MkNodeInfo (double_of_Z 3) fzero 0); ("b", MkNodeInfo (double_of_Z 1) fzero 0);
   ("c", MkNodeInfo (double_of_Z 2) fzero 0)].

Lemma GetContacts_sorted_witness :
  GetContacts false sample_order = ["b"; "c"; "a"] ∧
  ∃ l, GetContacts false sample_order = fst <$> l ∧ StronglySorted cheaper l ∧
       l ≡ₚ (λ e, (e.1, heuristic e.2)) <$> sample_order.
Proof.
  split; [by vm_compute |]. apply (GetContacts_sorted sample_order).
  repeat constructor; by vm_compute.
Defined.
