(* ===== verification/JobConfig.v ===== *)
(** * The configuration of a job manager

    The constructor of [JobMgr] reads a file of names and values (services/lib/jobmgr.cc): which
    lines are settings, which describe the node, and what becomes of the figures; and the thread
    that registers the node with its parents and ends the service ([paroc_timerthread]). The
    conversions of floating-point numbers are parameters. *)

From S2P Require Import Prelude Machine Utils JobMgr.

Definition RESERVE_TIMEOUT : Z := 120.
Definition ALLOC_TIMEOUT : Z := 60.
Definition SELFREGISTER_TIMEOUT : Z := 84600.
Definition DEFAULT_PORT : chars := string_bytes "2711".

Definition fmul : float → float → float := SFmul 24 128.

(** ** Lines *)

Definition isspace (c : byte) : bool := bool_decide (c ∈ [x20; x09; x0a; x0b; x0c; x0d]).
Definition tolower (c : byte) : byte :=
  if (65 <=? byte_val c) && (byte_val c <=? 90) then default c (Byte.of_N (Z.to_N (byte_val c + 32))) else c.

(** [fgets(str, 1023, f)]: up to the end of the line, or 1022 characters. *)
Fixpoint fgets (room : nat) (f : chars) : chars * chars :=
  match room, f with
  | S room', c :: f' =>
      if decide (c = x0a) then ([c], f') else let '(s, rest) := fgets room' f' in (c :: s, rest)
  | _, _ => ([], f)
  end.
(** [while (!feof(f)) { if (fgets(...) == nullptr) break; ... }]: every turn reads something. *)
Fixpoint lines (fuel : nat) (f : chars) : list chars :=
  match fuel, f with
  | S fuel', _ :: _ => let '(s, rest) := fgets 1022 f in before_nul s :: lines fuel' rest
  | _, _ => []
  end.

Fixpoint word (s : chars) : chars * chars :=
  match s with
  | c :: s' => if isspace c then ([], s) else let '(w, rest) := word s' in (tolower c :: w, rest)
  | [] => ([], [])
  end.
Definition trim_end (s : chars) : chars := rev (skip_blanks (rev s)).

(** The name, in small letters, the value, and how many characters of the buffer they end after. *)
Definition parse_line (str : chars) : option (chars * chars * Z) :=
  let name := skip_blanks str in
  match name with
  | [] => None
  | c :: _ =>
      if decide (c = x23) then None
      else
        let '(name, val) := word name in
        match val with
        | [] => None
        | _ :: val =>
            match skip_blanks val with
            | [] => None
            | val =>
                let used := zlen str - zlen val in
                let val := trim_end val in
                Some (name, val, used + zlen val)
            end
        end
  end.

(** ** Settings *)

(** What the file sets besides the job manager. *)
Record config : Type := MkConfig { jobmgr : JobMgr; service_timeout : Z; parent_timeout : Z }.
#[export] Instance config_eta : Eta config := λ c, MkConfig (jobmgr c) (service_timeout c) (parent_timeout c).

(** [strcat(val, ":"); strcat(val, DEFAULT_PORT)] in the buffer of the line, of 1024 characters. *)
Definition with_port (val : chars) (used : Z) : result chars :=
  if bool_decide (x3a ∈ val) then Ok val
  else if used + 5 <? 1024 then Ok (val ++ x3a :: DEFAULT_PORT) else Stuck.

(** [sscanf(val, "%d", &n)]. *)
Definition scan_int (val : chars) : result (option Z) :=
  let! l := scan_ints 1 val in Ok (head l).
(** A number that is missing or negative is the default. *)
Definition number_or (default_ : Z) (val : chars) : result Z :=
  let! n := scan_int val in
  Ok (match n with Some n => if n <? 0 then default_ else n | None => default_ end).
Definition positive_or_zero (val : chars) : result Z :=
  let! n := scan_int val in
  Ok (match n with Some n => if 0 <? n then n else 0 | None => 0 end).

Definition static_node : NodeInfo := MkNodeInfo fzero (double_of_Z (-1)) NODE_STATIC.

Definition setting (name val : chars) (used : Z) (c : config) : result config :=
  let j := jobmgr c in
  let named (key : string) := bool_decide (name = string_bytes key) in
  if named "node" then
    let! val := with_port val used in
    if SameContact (string_bytes (my_contact j)) val then Ok c
    else Ok (c <| jobmgr := j <| neighbors := (Map_Add (bytes_string val) static_node (neighbors j)).1 |> |>)
  else if named "parent" then
    let! val := with_port val used in
    if SameContact (string_bytes (my_contact j)) val then Ok c
    else Ok (c <| jobmgr := j <| parents := parents j ++ [bytes_string val] |> |>)
  else if named "maxjobs" then let! n := number_or 100 val in Ok (c <| jobmgr := j <| maxjobs := n |> |>)
  else if named "timeout" then let! n := positive_or_zero val in Ok (c <| service_timeout := n |>)
  else if named "checkpoint" then let! n := positive_or_zero val in Ok (c <| parent_timeout := n |>)
  else if named "exec_timeout" then let! n := number_or ALLOC_TIMEOUT val in Ok (c <| jobmgr := j <| alloc_timeout := n |> |>)
  else if named "reserve_timeout" then
    let! n := number_or RESERVE_TIMEOUT val in Ok (c <| jobmgr := j <| reserve_timeout := n |> |>)
  else if named "platform" then Ok (c <| jobmgr := j <| platform := bytes_string val |> |>)
  else Ok (c <| jobmgr := j <| info := info j ++ [(bytes_string name, bytes_string val)] |> |>).

Fixpoint load_lines (l : list chars) (c : config) : result config :=
  match l with
  | [] => Ok c
  | str :: l' =>
      match parse_line str with
      | None => load_lines l' c
      | Some (name, val, used) => let! c := setting name val used c in load_lines l' c
      end
  end.
Definition load (f : chars) (c : config) : result config := load_lines (lines (length f) f) c.

(** What the constructor sets before it reads the file. *)
Definition jobmgr_new (my_contact platform host psn psm : string) (serviceID : list Z) : config :=
  MkConfig (MkJobMgr my_contact platform host [] ∅ [] [] 100 (MkFigures fzero None None) (MkFigures fzero None None)
              (MkFigures fzero None None) 1 RESERVE_TIMEOUT [] true psn psm [] 0 ALLOC_TIMEOUT serviceID 1)
    0 SELFREGISTER_TIMEOUT.
(** [serviceID]: the address of the host and the second piece of the access point between colons;
    a random number for what there is not. No second piece: [at] throws. *)
Definition service_id (access : chars) (ip : option Z) (rand1 rand2 : Z) : result (list Z) :=
  match tokens [x3a] (before_nul access) [] with
  | _ :: port :: _ =>
      let! n := scan_int port in
      Ok [default rand1 ip; default rand2 n]
  | _ => Throw 0 "vector::_M_range_check"
  end.

(** ** Figures *)
Section Figures.
(** [atof] as a [float], the benchmark, and "%g". *)
Context (atof : chars → float) (benchmark_power : float) (fmt_g : float → string).

(** What the file says of the node; an [int] becomes a [float]. *)
Definition int_figure (key : string) (j : JobMgr) : result (option float) :=
  match Query fmt_g key j with
  | Some s => let! n := atoi (string_bytes s) in Ok (Some (float_of_Z n))
  | None => Ok None
  end.
Definition figures (j : JobMgr) : result JobMgr :=
  let '(power, j) :=
    match Query fmt_g "power" j with
    | Some s => (atof (string_bytes s), j)
    | None => (benchmark_power, j <| info := info j ++ [("power", c_str (bytes_string (take 255 (string_bytes (fmt_g benchmark_power)))))] |>)
    end in
  let! ram := int_figure "ram" j in
  let! bandwidth := int_figure "bandwidth" j in
  let lim := MkFigures power ram bandwidth in
  let! np := match Query fmt_g "np" j with Some s => atoi (string_bytes s) | None => Ok 0 end in
  let tot := MkFigures (if 0 <? np then fmul power (float_of_Z np) else power) ram bandwidth in
  let! degree :=
    match Query fmt_g "degree" j with
    | Some s => number_or 0 (before_nul (string_bytes s)) | None => Ok (maxdynamicnodes j) end in
  let learns :=
    match Query fmt_g "learn" j with
    | Some s => negb (bool_decide (tolower <$> before_nul (string_bytes s) = string_bytes "false"))
    | None => modelearn j end in
  Ok (j <| limit := lim |> <| total := tot |> <| available := tot |> <| maxdynamicnodes := degree |> <| modelearn := learns |>).
End Figures.

(** ** The thread of the service

    What it does after each sleep. *)
Inductive timer_action : Type := Registers | Exits.

(** How long it sleeps, what it does then, and the time left. *)
Definition timer_turn (parent_update service_timeout : Z) : Z * timer_action * Z :=
  if (service_timeout <=? 0) || (parent_update <? service_timeout)
  then (parent_update, Registers, if parent_update <? service_timeout then service_timeout - parent_update else service_timeout)
  else (service_timeout, Exits, service_timeout).
Fixpoint timer_loop (fuel : nat) (parent_update service_timeout : Z) : list (Z * timer_action) :=
  match fuel with
  | O => []
  | S fuel' =>
      let '(nextwakeup, action, service_timeout) := timer_turn parent_update service_timeout in
      (nextwakeup, action) ::
      match action with Registers => timer_loop fuel' parent_update service_timeout | Exits => [] end
  end.
Definition timer_start (fuel : nat) (parent_update service_timeout : Z) : list (Z * timer_action) :=
  if (parent_update <=? 0) && (service_timeout <=? 0) then [] else timer_loop fuel parent_update service_timeout.

Lemma timer_loop_exits parent service (k : nat) fuel :
  0 < parent → parent * Z.of_nat k < service ≤ parent * (Z.of_nat k + 1) → (k < fuel)%nat →
  timer_loop fuel parent service = replicate k (parent, Registers) ++ [(service - parent * Z.of_nat k, Exits)].
Proof.
  intros Hp. revert service fuel. induction k as [|k IH]; intros service fuel Hs Hf; (destruct fuel as [|fuel]; [lia |]);
    cbn [timer_loop]; unfold timer_turn.
  - rewrite (proj2 (Z.leb_gt _ _)), (proj2 (Z.ltb_ge _ _)) by lia. cbn. repeat f_equal. lia.
  - assert (Hm : parent * Z.of_nat (S k) = parent * Z.of_nat k + parent) by lia.
    assert (H0 : 0 ≤ parent * Z.of_nat k) by nia. rewrite Hm in *.
    rewrite (proj2 (Z.ltb_lt _ _)), orb_true_r by lia. cbn [replicate app]. f_equal. rewrite IH by lia.
    by replace (service - parent - parent * Z.of_nat k) with (service - (parent * Z.of_nat k + parent)) by lia.
Qed.

(** A service ends in time. With a positive interval of registration and a positive time of
    service, the thread registers the node after each interval as long as time is left, and ends
    the service when it has slept the time of service. *)
Theorem timer_exits parent_update service_timeout fuel :
  0 < parent_update → 0 < service_timeout → service_timeout ≤ Z.of_nat fuel →
  ∃ k last, timer_start fuel parent_update service_timeout = replicate k (parent_update, Registers) ++ [(last, Exits)] ∧
    0 < last ≤ parent_update ∧ parent_update * Z.of_nat k + last = service_timeout.
Proof.
  intros Hp Hs Hf. set (q := (service_timeout - 1) / parent_update).
  pose proof (Z.div_mod (service_timeout - 1) parent_update ltac:(lia)) as Hdm.
  pose proof (Z.mod_pos_bound (service_timeout - 1) parent_update Hp) as Hm. fold q in Hdm.
  assert (Hq : 0 ≤ q) by (apply Z.div_pos; lia). assert (Hqs : q < service_timeout) by nia.
  exists (Z.to_nat q), (service_timeout - parent_update * q). unfold timer_start.
  rewrite (proj2 (Z.leb_gt parent_update 0)) by lia. cbn [andb].
  rewrite (timer_loop_exits _ _ (Z.to_nat q)); rewrite ?Z2Nat.id by done; [split_and!; [done | lia..] | lia..].
Qed.

Lemma timer_exits_witness :
  timer_start 7 3 7 = [(3, Registers); (3, Registers); (1, Exits)] ∧
  ∃ k last, timer_start 7 3 7 = replicate k (3, Registers) ++ [(last, Exits)] ∧ 0 < last ≤ 3 ∧ 3 * Z.of_nat k + last = 7.
Proof. split; [reflexivity |]. apply timer_exits; vm_compute; [reflexivity | reflexivity | discriminate]. Defined.

(** A service without checkpoints never ends. When the configuration sets a time of service and
    no interval of registration, the thread neither sleeps nor ends the service: it registers the
    node again and again. *)
Theorem timer_spins service_timeout fuel :
  0 < service_timeout → timer_start fuel 0 service_timeout = replicate fuel (0, Registers).
Proof.
  intros Hs. unfold timer_start. rewrite (proj2 (Z.leb_gt service_timeout 0)) by done. cbn [andb Z.leb].
  rewrite andb_false_r. induction fuel as [|fuel IH]; [done |]. cbn [timer_loop replicate]. unfold timer_turn.
  rewrite (proj2 (Z.ltb_lt 0 service_timeout)), orb_true_r by done. f_equal. by rewrite Z.sub_0_r.
Qed.
Lemma timer_spins_witness : 0 < 36000 ∧ timer_start 3 0 36000 = [(0, Registers); (0, Registers); (0, Registers)].
Proof. split; [lia |]. apply (timer_spins 36000 3). lia. Defined.

(** ** A file of descriptions *)

(** A name and a value the file can carry, which is no setting. *)
Definition keywords : list string :=
  ["node"; "parent"; "maxjobs"; "timeout"; "checkpoint"; "exec_timeout"; "reserve_timeout"; "platform"].
Definition entry_ok (e : chars * chars) : Prop :=
  e.1 ≠ [] ∧ head e.1 ≠ Some x23 ∧ Forall (λ c, isspace c = false ∧ tolower c = c ∧ c ≠ x00) e.1 ∧
  e.1 ∉ string_bytes <$> keywords ∧
  (∃ c, head e.2 = Some c ∧ isspace c = false) ∧ (∃ c, last e.2 = Some c ∧ isspace c = false) ∧
  Forall (λ c, c ≠ x0a ∧ c ≠ x00) e.2 ∧ zlen e.1 + zlen e.2 + 2 ≤ 1022.
Definition print_entry (e : chars * chars) : chars := e.1 ++ x20 :: e.2 ++ [x0a].
Definition print_config (l : list (chars * chars)) : chars := concat (print_entry <$> l).

Lemma fgets_line room s rest :
  (length s < room)%nat → Forall (λ c, c ≠ x0a) s → fgets room (s ++ x0a :: rest) = (s ++ [x0a], rest).
Proof.
  revert room. induction s as [|c s IH]; intros [|room] Hr Hs; cbn [length] in Hr; try lia; cbn [fgets app].
  - done.
  - apply Forall_cons in Hs as [Hc Hs]. rewrite decide_False by done. by rewrite IH by (done || lia).
Qed.

Lemma skip_blanks_start c s : isspace c = false → skip_blanks (c :: s) = c :: s.
Proof. unfold isspace. intros Hc%bool_decide_eq_false. cbn [skip_blanks]. by rewrite decide_False. Qed.
Lemma word_end n s : Forall (λ c, isspace c = false ∧ tolower c = c ∧ c ≠ x00) n → word (n ++ x20 :: s) = (n, x20 :: s).
Proof. induction 1 as [|c n (Hb & Ht & _) _ IH]; [done |]. cbn [word app]. by rewrite Hb, IH, Ht. Qed.
Lemma trim_end_newline v c : last v = Some c → isspace c = false → trim_end (v ++ [x0a]) = v.
Proof.
  intros Hl Hc. apply last_Some in Hl as [v' ->]. unfold trim_end. rewrite !rev_app_distr. cbn [rev app].
  change (skip_blanks (x0a :: c :: rev v')) with (skip_blanks (c :: rev v')). rewrite skip_blanks_start by done.
  cbn [rev]. by rewrite rev_involutive.
Qed.

Lemma parse_print e : entry_ok e → ∃ used, parse_line (before_nul (print_entry e)) = Some (e.1, e.2, used).
Proof.
  destruct e as [n v]. intros (Hn & Hh & Hf & _ & (c & Hc & Hcb) & (d & Hd & Hdb) & Hv & _). cbn [fst snd] in *.
  destruct n as [|n0 n]; [done |]. destruct v as [|v0 v]; [done |]. injection Hc as ->.
  pose proof (Forall_inv Hf) as (Hb0 & _ & _).
  assert (Hnul : before_nul (print_entry (n0 :: n, c :: v)) = print_entry (n0 :: n, c :: v)).
  { unfold before_nul. rewrite (proj2 (c_string_None _)); [done |].
    assert (Hall : Forall (λ x, x ≠ x00) (print_entry (n0 :: n, c :: v))).
    { unfold print_entry. cbn [fst snd]. apply Forall_app. split; [eapply Forall_impl; [exact Hf |]; by intros ? (_ & _ & ?) |].
      constructor; [done |]. apply Forall_app. split; [|by constructor]. eapply Forall_impl; [exact Hv |]. by intros ? [_ ?]. }
    rewrite Forall_forall in Hall. intros Hin. by apply (Hall x00). }
  rewrite Hnul. unfold parse_line, print_entry. cbn [fst snd app]. rewrite skip_blanks_start by done.
  rewrite decide_False by (intros ->; done).
  change (n0 :: n ++ x20 :: c :: v ++ [x0a]) with ((n0 :: n) ++ x20 :: c :: v ++ [x0a]). rewrite (word_end _ _ Hf).
  rewrite (skip_blanks_start c) by done. change (c :: v ++ [x0a]) with ((c :: v) ++ [x0a]).
  rewrite (trim_end_newline _ _ Hd Hdb). by eexists.
Qed.

Lemma setting_plain n v used c :
  n ∉ string_bytes <$> keywords →
  setting n v used c = Ok (c <| jobmgr := (jobmgr c) <| info := info (jobmgr c) ++ [(bytes_string n, bytes_string v)] |> |>).
Proof.
  intros Hn. unfold setting.
  assert (Hno : ∀ key, key ∈ keywords → bool_decide (n = string_bytes key) = false).
  { intros key Hk. apply bool_decide_eq_false. intros ->. apply Hn. by apply list_elem_of_fmap_2. }
  by rewrite !Hno by (cbn; set_solver).
Qed.

Lemma lines_print l fuel :
  Forall entry_ok l → (length (print_config l) ≤ fuel)%nat → lines fuel (print_config l) = (λ e, before_nul (print_entry e)) <$> l.
Proof.
  intros Hl. revert fuel. induction Hl as [|e l He _ IH]; intros fuel Hf; [by destruct fuel |].
  unfold print_config in *. cbn [fmap list_fmap concat] in *. rewrite length_app in Hf.
  assert (Hline : print_entry e = (e.1 ++ x20 :: e.2) ++ [x0a]) by (unfold print_entry; by rewrite <- app_assoc).
  assert (Hlen : (1 ≤ length (print_entry e))%nat) by (rewrite Hline, length_app; cbn; lia).
  destruct fuel as [|fuel]; [lia |]. destruct He as (Hn & _ & Hname & _ & _ & _ & Hval & Hz).
  cbn [lines]. destruct (print_entry e ++ concat (print_entry <$> l)) as [|b bs] eqn:E.
  { apply app_nil in E as [E _]. rewrite E in Hlen. cbn in Hlen. lia. }
  rewrite <- E, Hline, <- app_assoc. cbn [app]. rewrite fgets_line.
  - f_equal. apply IH. lia.
  - rewrite length_app. cbn. lia.
  - apply Forall_app. split; [|constructor; [done |]]; eapply Forall_impl; [exact Hname | | exact Hval |]; cbv beta.
    + intros x (Hx & _) ->. done.
    + by intros x [Hx _].
Qed.

(** C27: what the configuration describes is what is found. A file of names and values that are no
    settings, printed a line each, is read back as the descriptions of the node, in order, and
    changes nothing else. *)
Theorem load_print l c :
  Forall entry_ok l →
  load (print_config l) c =
    Ok (c <| jobmgr := (jobmgr c) <| info := info (jobmgr c) ++ ((λ e, (bytes_string e.1, bytes_string e.2)) <$> l) |> |>).
Proof.
  intros Hl. unfold load. rewrite lines_print by done. revert c. induction Hl as [|e l He _ IH]; intros c.
  - cbn. rewrite app_nil_r. by destruct c as [[]].
  - cbn [fmap list_fmap load_lines]. destruct (parse_print e He) as [used ->].
    destruct He as (_ & _ & _ & Hk & _). rewrite setting_plain by done. cbn [rbind]. rewrite IH. cbn. by rewrite <- app_assoc.
Qed.

Definition example_entries : list (chars * chars) :=
  [(string_bytes "ram", string_bytes "512"); (string_bytes "degree", string_bytes "20")].
Lemma load_print_witness :
  Forall entry_ok example_entries ∧
  ∃ c, load (print_config example_entries) (jobmgr_new "socket://host:2711" "linux" "host" "psn" "psm" [1; 2]) = Ok c ∧
    info (jobmgr c) = [("ram", "512"); ("degree", "20")].
Proof.
  assert (Hok : Forall entry_ok example_entries).
  { repeat constructor; cbn; try discriminate; try (vm_compute; discriminate);
      try (eexists; split; [reflexivity | reflexivity]); apply (bool_decide_unpack _); vm_compute; exact Logic.I. }
  split; [exact Hok |]. eexists. split; [exact (load_print example_entries _ Hok) | reflexivity].
Defined.
