(* ===== verification/Network.v ===== *)
(** * The grid

    Search nodes and job managers (services/lib/popc_search_node.cc, services/lib/jobmgr.cc)
    exchanging asynchronous calls: a state is the nodes, the job managers and the calls in flight; a
    step takes one of them, in any order, and runs the method it is for. The components are those
    of SearchNode and JobMgr; a call crosses the wire as Discovery shows, so a request arrives
    without its expected CPU speed and an answer without its job manager. *)

From S2P Require Import Prelude Machine Buffer AccessPoint Discovery Utils SearchNode.
From S2P Require JobMgr.

Record network : Type := MkNetwork {
  nodes : gmap string SearchNode;
  jobmgrs : gmap string JobMgr.JobMgr;
  flight : list msg }.
#[export] Instance network_eta : Eta network := λ w,
  MkNetwork (nodes w) (jobmgrs w) (flight w).

(** Calling an object that is not there throws. *)
Definition reach {A B : Type} (m : gmap string A) (f : A → B) (a : string) : result B :=
  match m !! a with Some x => Ok (f x) | None => Throw 111 "" end.

Definition peers_of (w : network) : peers :=
  MkPeers (reach (nodes w) getPOPCSearchNodeId)
    (reach (nodes w) (λ n, GetAccessString (getJobMgrRef n)))
    (reach (nodes w) (λ _, ())) (reach (jobmgrs w) (λ _, ())).

(** ** Delivery *)

(** The run of a method on the node at [a]: its state changes and its calls leave. *)
Definition run_node (a : string) (m : N ()) (w : network) : result network :=
  match nodes w !! a with
  | None => Ok w
  | Some n =>
      let '(n', out, r) := m n in
      match r with
      | Stuck => Stuck
      | _ => Ok (w <| nodes := <[a := n']> (nodes w) |> <| flight := flight w ++ out |>)
      end
  end.

(** [UnregisterNode] on a job manager: its search node drops the link. *)
Definition UnregisterNode (url : string) (j : JobMgr.JobMgr) (w : network) : result network :=
  match nodes w !! url with
  | None => Ok w
  | Some _ => run_node (JobMgr.localPSN j) (nset (removeNeighbor url)) w
  end.

(** [ApplicationEnd] on a job manager and what it tells its search node. *)
Definition psn_apply (c : JobMgr.psn_call) (n : SearchNode) : result SearchNode :=
  match c with
  | JobMgr.AddJob p m b => addJob p m b n
  | JobMgr.RemoveJob p m b nb => removeJob p m b nb n
  end.

Definition run_psn_call (a : string) (w : network) (c : JobMgr.psn_call) : result network :=
  match nodes w !! a with
  | None => Ok w
  | Some n => let! n' := psn_apply c n in Ok (w <| nodes := <[a := n']> (nodes w) |>)
  end.

Fixpoint run_psn_calls (a : string) (cs : list JobMgr.psn_call) (w : network) : result network :=
  match cs with
  | [] => Ok w
  | c :: cs' => let! w := run_psn_call a w c in run_psn_calls a cs' w
  end.

Definition end_application (jm appid : string) (w : network) : result network :=
  match jobmgrs w !! jm with
  | None => Ok w
  | Some j =>
      let! (j', calls) := JobMgr.ApplicationEnd appid j in
      run_psn_calls (JobMgr.localPSN j) calls (w <| jobmgrs := <[jm := j']> (jobmgrs w) |>)
  end.

Definition answer_received (r : Resp.Response) : Resp.Response :=
  r <| Resp.foundNodeInfo := info_received (Resp.foundNodeInfo r) |>.

Definition deliver (m : msg) (w : network) : result network :=
  match m with
  | Ask dst req node_ap sender =>
      run_node dst (askResourcesDiscovery (peers_of w) (request_received req) node_ap sender) w
  | Callback dst resp => run_node dst (ntry (callbackResult (answer_received resp))) w
  | Reroute dst resp wb => run_node dst (rerouteResponse (peers_of w) (answer_received resp) wb) w
  | Unregister jm url =>
      match jobmgrs w !! jm with Some j => UnregisterNode url j w | None => Ok w end
  | AppEnd jm appid => end_application jm appid w
  end.

(** One call in flight is delivered. *)
Inductive net_step (w : network) : network → Prop :=
  | net_deliver i m w' :
      flight w !! i = Some m → deliver m (w <| flight := delete i (flight w) |>) = Ok w' →
      net_step w w'.

Inductive net_steps : nat → network → network → Prop :=
  | net_nil w : net_steps 0 w w
  | net_cons k w w1 w2 : net_step w w1 → net_steps k w1 w2 → net_steps (S k) w w2.

(** ** How much work a call can cause *)

(** The identifiers of the nodes do not change. *)
Definition ids (w : network) : gmap string string := getPOPCSearchNodeId <$> nodes w.
Definition all_ids (I : gmap string string) : list string := remove_dups (map_to_list I).*2.

Definition listed (req : Req.Request) : list string := (Req.explorationList req).*1.

(** The nodes the request has not been through. *)
Definition fresh_ids (I : gmap string string) (ks : list string) : nat :=
  length (filter (λ x, x ∉ ks) (all_ids I)).

Definition ask_rank (I : gmap string string) (id : string) (ks : list string) : nat :=
  (2 * fresh_ids I (id :: ks) + if decide (id ∈ ks) then 0 else 1)%nat.

(** A request makes an answer, the end of an application and at most [d] requests of less rank; the
    way back grows by one at most. *)
Fixpoint ask_cost (d rank back : nat) : nat :=
  match rank with
  | O => back + 4
  | S rank' => back + 4 + d * ask_cost d rank' (S back)
  end%nat.

Definition cost (I : gmap string string) (d : nat) (m : msg) : nat :=
  match m with
  | Ask dst req _ _ =>
      match I !! dst with
      | Some id => ask_cost d (ask_rank I id (listed req)) (length (Req.wb req))
      | None => 1
      end
  | Reroute _ _ wb => length wb + 2
  | _ => 1
  end%nat.

Definition total_cost (I : gmap string string) (d : nat) (l : list msg) : nat :=
  sum_list (cost I d <$> l).

(** The largest number of neighbours. *)
Definition degree (w : network) : nat :=
  max_list ((λ e, length (neighborsList e.2)) <$> map_to_list (nodes w)).

Definition budget (w : network) : nat := total_cost (ids w) (degree w) (flight w).

(** ** The rank of the requests a node passes on *)

Lemma length_filter_le {A : Type} (P Q : A → Prop) `{∀ x, Decision (P x), ∀ x, Decision (Q x)}
    (l : list A) :
  (∀ x, P x → Q x) → (length (filter P l) ≤ length (filter Q l))%nat.
Proof.
  intros HPQ. induction l as [|x l IH]; [done |]. rewrite !filter_cons.
  destruct (decide (P x)), (decide (Q x)); simpl; try lia. exfalso; auto.
Qed.

Lemma length_filter_lt {A : Type} (P Q : A → Prop) `{∀ x, Decision (P x), ∀ x, Decision (Q x)}
    (l : list A) y :
  (∀ x, P x → Q x) → y ∈ l → Q y → ¬ P y → (length (filter P l) < length (filter Q l))%nat.
Proof.
  intros HPQ Hy HQ HP. induction Hy as [y l|y x l Hy IH]; rewrite !filter_cons.
  - rewrite decide_False, decide_True by done. simpl.
    pose proof (length_filter_le P Q l HPQ). lia.
  - specialize (IH HQ HP). destruct (decide (P x)), (decide (Q x)); simpl; try lia.
    exfalso; auto.
Qed.

Lemma map_insert_keys k v l x :
  x ∈ (Exploration.map_insert k v l).*1 ↔ x = k ∨ x ∈ l.*1.
Proof.
  induction l as [|[k' v'] l IH]; csimpl; [by rewrite list_elem_of_singleton, elem_of_nil; tauto |].
  destruct (String.compare k k') eqn:E; csimpl.
  - apply String.compare_eq_iff in E as ->. rewrite !elem_of_cons. tauto.
  - rewrite !elem_of_cons. tauto.
  - rewrite !elem_of_cons, IH. tauto.
Qed.

Lemma clear_first_keys l : (Exploration.clear_first l).*1 = l.*1.
Proof.
  induction l as [|e l IH]; simpl; [done |]. destruct (Exploration.nonempty e); csimpl; [done |].
  by rewrite IH.
Qed.

Lemma addListNode_keys k v l x :
  x ∈ (Exploration.addListNode k v l).*1 ↔ x = k ∨ x ∈ l.*1.
Proof.
  unfold Exploration.addListNode. case_match; rewrite ?clear_first_keys; apply map_insert_keys.
Qed.

Lemma isIn_keys x l : Exploration.isIn x l = false → x ∉ l.*1.
Proof.
  intros H Hx. apply list_elem_of_fmap in Hx as (e & -> & He). apply not_true_iff_false in H.
  apply H. unfold Exploration.isIn. apply existsb_exists. exists e.
  split; [by apply list_elem_of_In |]. by rewrite bool_decide_true.
Qed.

Lemma ask_rank_lt I me i nid ks ks' :
  I !! i = Some nid → nid ∉ ks → (∀ x, x ∈ ks' ↔ x = me ∨ x ∈ ks) →
  (ask_rank I nid ks' < ask_rank I me ks)%nat.
Proof.
  intros Hi Hn Hk. unfold ask_rank, fresh_ids.
  destruct (decide (nid = me)) as [->|Hne].
  - rewrite (decide_True (P := me ∈ ks')) by (apply Hk; by left).
    rewrite (decide_False (P := me ∈ ks)) by done.
    assert (Hl : (length (filter (λ x, x ∉ me :: ks') (all_ids I))
                  ≤ length (filter (λ x, x ∉ me :: ks) (all_ids I)))%nat); [|lia].
    apply length_filter_le. intros x. rewrite !not_elem_of_cons, Hk. tauto.
  - assert (Hl : (length (filter (λ x, x ∉ nid :: ks') (all_ids I))
                  < length (filter (λ x, x ∉ me :: ks) (all_ids I)))%nat).
    { apply length_filter_lt with nid.
      - intros x. rewrite !not_elem_of_cons, Hk. tauto.
      - unfold all_ids. apply elem_of_remove_dups. apply list_elem_of_fmap. exists (i, nid).
        split; [done | by apply elem_of_map_to_list].
      - rewrite not_elem_of_cons. tauto.
      - rewrite not_elem_of_cons. tauto. }
    case_decide; case_decide; lia.
Qed.

Lemma ask_cost_mono d r r' b b' :
  (r ≤ r')%nat → (b ≤ b')%nat → (ask_cost d r b ≤ ask_cost d r' b')%nat.
Proof.
  revert r' b b'. induction r as [|r IH]; intros [|r'] b b' Hr Hb; simpl; try lia.
  pose proof (IH r' (S b) (S b') ltac:(lia) ltac:(lia)). nia.
Qed.

Lemma total_cost_app I d l k : total_cost I d (l ++ k) = (total_cost I d l + total_cost I d k)%nat.
Proof. unfold total_cost. induction l as [|m l IH]; csimpl; [done | lia]. Qed.

Lemma total_cost_le I d l c :
  Forall (λ m, (cost I d m ≤ c)%nat) l → (total_cost I d l ≤ length l * c)%nat.
Proof. induction 1 as [|m l Hm Hl IH]; simpl; [done |]. unfold total_cost in *. csimpl. lia. Qed.

Section Costs.
Variables (I : gmap string string) (d : nat) (P : peers).
Hypothesis HP : ∀ a nid, peer_id P a = Ok nid → I !! a = Some nid.

Lemma asks_cost n req nap al :
  (length (neighborsList n) ≤ d)%nat → asks P n req nap al →
  (total_cost I d al + length (Req.wb req) + 4
   ≤ ask_cost d (ask_rank I (getPOPCSearchNodeId n) (listed req)) (length (Req.wb req)))%nat.
Proof.
  intros Hd (req' & l' & ((ns & Hel) & Hwb & _) & Hs & -> & Hf).
  assert (Hk : ∀ x, x ∈ listed req' ↔ x = getPOPCSearchNodeId n ∨ x ∈ listed req).
  { intros x. unfold listed. rewrite Hel. apply addListNode_keys. }
  assert (Hb : (length (Req.wb req') ≤ S (length (Req.wb req)))%nat).
  { destruct Hwb as [-> | Hwb]; [lia |].
    apply insertNode_cases in Hwb as [-> | ->]; rewrite ?length_app; simpl; lia. }
  pose proof (sublist_length _ _ Hs) as Hl.
  destruct l' as [|i l']; [unfold total_cost; simpl; destruct (ask_rank _ _ _); simpl; lia |].
  assert (Hr : ∀ j nid, peer_id P j = Ok nid →
    Exploration.isIn nid (Req.explorationList req) = false →
    I !! j = Some nid ∧
    (ask_rank I nid (listed req') < ask_rank I (getPOPCSearchNodeId n) (listed req))%nat).
  { intros j nid Hj Hin. split; [by apply HP |].
    eapply ask_rank_lt; [by apply HP | by apply isIn_keys | exact Hk]. }
  destruct (ask_rank I (getPOPCSearchNodeId n) (listed req)) as [|rank] eqn:Er.
  { apply Forall_cons in Hf as [(nid & Hi & Hin) _]. destruct (Hr i nid Hi Hin). lia. }
  cbn [ask_cost].
  assert (Hc : (total_cost I d ((λ j, Ask j req' nap (self n)) <$> i :: l')
                ≤ length (i :: l') * ask_cost d rank (S (length (Req.wb req))))%nat).
  { rewrite <- (length_fmap (λ j, Ask j req' nap (self n)) (i :: l')).
    apply total_cost_le, Forall_fmap. eapply Forall_impl; [exact Hf |].
    intros j (nid & Hj & Hin). destruct (Hr j nid Hj Hin) as [HI Hlt]. simpl. rewrite HI.
    apply ask_cost_mono; [lia | done]. }
  nia.
Qed.

Lemma ask_output_cost n req nap out :
  (length (neighborsList n) ≤ d)%nat → ask_output P n req nap out →
  (total_cost I d out
   < ask_cost d (ask_rank I (getPOPCSearchNodeId n) (listed req)) (length (Req.wb req)))%nat.
Proof.
  intros Hd (rep & al & fin & -> & Hrep & Hal & Hfin).
  rewrite !total_cost_app.
  assert (Hc1 : (total_cost I d rep ≤ length (Req.wb req) + 1)%nat).
  { destruct Hrep as [-> | (m & -> & (_ & resp & _ & _ & Hm) & _)]; unfold total_cost; simpl; [lia |].
    destruct Hm as [[-> _]|[_ (nx & wb & -> & Hw)]]; simpl; lia. }
  assert (Hc2 : (total_cost I d fin ≤ 1)%nat).
  { destruct Hfin as [-> | (jm & -> & _)]; unfold total_cost; simpl; lia. }
  destruct Hal as [-> | Hal].
  - unfold total_cost at 2. simpl. destruct (ask_rank _ _ _); simpl; lia.
  - pose proof (asks_cost n req nap al Hd Hal). lia.
Qed.
End Costs.

(** ** What a step preserves *)

(** A method leaves the identifier of its node and adds no neighbour. *)
Definition keeps (n n' : SearchNode) : Prop :=
  getPOPCSearchNodeId n' = getPOPCSearchNodeId n ∧
  neighborsList n' `sublist_of` neighborsList n.

Lemma keeps_refl n : keeps n n.
Proof. by split. Qed.

Lemma remove_first_sublist x l : remove_first x l `sublist_of` l.
Proof. induction l as [|y l IH]; simpl; [done |]. case_decide; by constructor. Qed.

Lemma keeps_removeNeighbor x n : keeps n (removeNeighbor x n).
Proof. split; [done | apply remove_first_sublist]. Qed.

Lemma ask_keeps P req nap sender n n' out r :
  askResourcesDiscovery P req nap sender n = (n', out, r) → keeps n n'.
Proof.
  intros H. apply askResourcesDiscovery_run in H as [(_ & _ & [-> | ->] & _)|[[[-> _]|[-> _]] _]];
    first [apply keeps_removeNeighbor | by split].
Qed.

Lemma callback_keeps resp n : keeps n (callbackResult resp n).1.1 ∧ (callbackResult resp n).1.2 = [].
Proof.
  unfold callbackResult. cbv zeta. rewrite nset_bind. unfold reqsem_at, nbind, nget. simpl.
  by destruct (reqsem n !! _) as [[c|]|].
Qed.

Lemma psn_apply_keeps c n n' : psn_apply c n = Ok n' → keeps n n'.
Proof.
  destruct c; simpl; unfold addJob, removeJob; intros H; inv_ok; by split.
Qed.

(** [w'] has the nodes of [w], with the same identifiers and no more neighbours. *)
Definition net_keeps (d : nat) (w w' : network) : Prop :=
  ids w' = ids w ∧
  (map_Forall (λ _ n, (length (neighborsList n) ≤ d)%nat) (nodes w) →
   map_Forall (λ _ n, (length (neighborsList n) ≤ d)%nat) (nodes w')).

Lemma net_keeps_refl d w : net_keeps d w w.
Proof. by split. Qed.

Lemma net_keeps_trans d w1 w2 w3 : net_keeps d w1 w2 → net_keeps d w2 w3 → net_keeps d w1 w3.
Proof. intros [E1 H1] [E2 H2]. split; [congruence | auto]. Qed.

Lemma net_keeps_insert d w a n n' l :
  nodes w !! a = Some n → keeps n n' →
  net_keeps d w (w <| nodes := <[a := n']> (nodes w) |> <| flight := l |>).
Proof.
  intros Ha [Hid Hl]. split; unfold ids; simpl.
  - rewrite fmap_insert, Hid. apply insert_id. by rewrite lookup_fmap, Ha.
  - intros Hd. apply map_Forall_insert_2; [|done]. specialize (Hd a n Ha). simpl in Hd.
    apply sublist_length in Hl. lia.
Qed.

Lemma run_node_keeps d a m w w' :
  run_node a m w = Ok w' →
  (∀ n n' out r, nodes w !! a = Some n → m n = (n', out, r) → keeps n n') → net_keeps d w w'.
Proof.
  unfold run_node. intros H Hm. destruct (nodes w !! a) as [n|] eqn:Ea;
    [|simplify_eq; apply net_keeps_refl].
  destruct (m n) as [[n' out] r] eqn:Em. specialize (Hm _ _ _ _ eq_refl Em).
  destruct r; simplify_eq; by eapply net_keeps_insert.
Qed.

Lemma run_psn_calls_keeps d a cs w w' :
  run_psn_calls a cs w = Ok w' → net_keeps d w w' ∧ flight w' = flight w.
Proof.
  revert w. induction cs as [|c cs IH]; simpl; intros w H.
  - simplify_eq. split; [apply net_keeps_refl | done].
  - apply rbind_Ok in H as (w1 & H1 & H). apply IH in H as [Hk Hf].
    unfold run_psn_call in H1. destruct (nodes w !! a) as [n|] eqn:Ea; [|by simplify_eq].
    apply rbind_Ok in H1 as (n' & Hn & H1). simplify_eq. apply psn_apply_keeps in Hn.
    split; [|done]. eapply net_keeps_trans; [|exact Hk].
    exact (net_keeps_insert d w a n n' (flight w) Ea Hn).
Qed.

(** ** Every discovery ends *)

Lemma total_cost_delete I d l i m :
  l !! i = Some m → total_cost I d l = (cost I d m + total_cost I d (delete i l))%nat.
Proof.
  intros Hi. rewrite <- (take_drop_middle l i m Hi) at 1. rewrite delete_take_drop.
  rewrite !total_cost_app. unfold total_cost. csimpl. lia.
Qed.

Lemma run_node_cost I d a m w w' c :
  run_node a m w = Ok w' → (0 < c)%nat →
  (∀ n n' out r, nodes w !! a = Some n → m n = (n', out, r) → (total_cost I d out < c)%nat) →
  (total_cost I d (flight w') < total_cost I d (flight w) + c)%nat.
Proof.
  unfold run_node. intros H Hc Hm. destruct (nodes w !! a) as [n|] eqn:Ea; [|simplify_eq; lia].
  destruct (m n) as [[n' out] r] eqn:Em. specialize (Hm _ _ _ _ eq_refl Em).
  destruct r; simplify_eq; simpl; rewrite total_cost_app; lia.
Qed.

Lemma peers_of_ids w a nid : peer_id (peers_of w) a = Ok nid → ids w !! a = Some nid.
Proof.
  simpl. unfold reach, ids. rewrite lookup_fmap. destruct (nodes w !! a); simpl; [|done].
  by intros [= ->].
Qed.

Lemma reroute_cost I d P resp wb n n' out r :
  rerouteResponse P resp wb n = (n', out, r) →
  n' = n ∧ (total_cost I d out < length wb + 2)%nat.
Proof.
  intros H. destruct (Wayback.isLastNode wb) eqn:El.
  - unfold rerouteResponse in H. rewrite El in H. apply ntry_run in H as [r' H].
    rewrite nlift_bind in H. destruct (Wayback.getNextNode wb) as [nx|c i|];
      [|simplify_eq; unfold total_cost; simpl; split; [done | lia] ..].
    rewrite nlift_bind in H. destruct (connect_psn P (c_str nx)) as [[]|c i|]; unfold nsend in H;
      simplify_eq; unfold total_cost; simpl; (split; [done | lia]).
  - apply rerouteResponse_run in H as (-> & [-> | (nx & wb' & -> & Hw)]); [| |done];
      unfold total_cost; simpl; (split; [done | lia]).
Qed.

(** A delivery keeps the nodes and costs something. *)
Lemma deliver_decreases d m w w' :
  deliver m w = Ok w' → map_Forall (λ _ n, (length (neighborsList n) ≤ d)%nat) (nodes w) →
  net_keeps d w w' ∧
  (total_cost (ids w) d (flight w') < total_cost (ids w) d (flight w) + cost (ids w) d m)%nat.
Proof.
  intros H Hd. destruct m as [dst req nap sender | dst resp | dst resp wb | jm url | jm appid];
    simpl in H.
  - split; [eapply run_node_keeps; [exact H |]; intros; by eapply ask_keeps |].
    assert (Hpos : (0 < cost (ids w) d (Ask dst req nap sender))%nat).
    { simpl. destruct (ids w !! dst); [|lia]. destruct (ask_rank _ _ _); simpl; lia. }
    eapply run_node_cost; [exact H | exact Hpos |]. intros n n' out r Hn Ha.
    assert (Hid : ids w !! dst = Some (getPOPCSearchNodeId n))
      by (unfold ids; by rewrite lookup_fmap, Hn).
    cbn [cost]. rewrite Hid. apply askResourcesDiscovery_run in Ha as [(_ & _ & _ & Ho)|[_ Ho]].
    + destruct Ho as [-> | [jm ->]]; unfold total_cost; simpl;
        destruct (ask_rank _ _ _); simpl; lia.
    + apply (ask_output_cost (ids w) d (peers_of w) (peers_of_ids w)) in Ho; [exact Ho |].
      by apply (Hd dst n).
  - split; [eapply run_node_keeps; [exact H |] |
            eapply run_node_cost; [exact H | simpl; lia |]]; intros n n' out r _ Hr;
      apply ntry_run in Hr as [r' Hr]; destruct (callback_keeps (answer_received resp) n) as [Hk Ho];
      rewrite Hr in Hk, Ho; simpl in Hk, Ho; [exact Hk |]. rewrite Ho. unfold total_cost. simpl. lia.
  - split; [eapply run_node_keeps; [exact H |] |
            eapply run_node_cost; [exact H | simpl; lia |]]; intros n n' out r _ Hr;
      apply (reroute_cost (ids w) d) in Hr as [-> Hc]; [apply keeps_refl | exact Hc].
  - destruct (jobmgrs w !! jm) as [j|]; [|simplify_eq; split; [apply net_keeps_refl | simpl; lia]].
    unfold UnregisterNode in H. destruct (nodes w !! url);
      [|simplify_eq; split; [apply net_keeps_refl | simpl; lia]].
    split; [eapply run_node_keeps; [exact H |] |
            eapply run_node_cost; [exact H | simpl; lia |]]; intros n n' out r _ Hr;
      unfold nset in Hr; simplify_eq; [apply keeps_removeNeighbor | unfold total_cost; simpl; lia].
  - unfold end_application in H. destruct (jobmgrs w !! jm) as [j|];
      [|simplify_eq; split; [apply net_keeps_refl | simpl; lia]].
    apply rbind_Ok in H as ([j' calls] & _ & H). apply (run_psn_calls_keeps d) in H as [Hk Hf].
    split; [exact Hk |]. rewrite Hf. simpl. lia.
Qed.

Lemma net_step_decreases d w w' :
  net_step w w' → map_Forall (λ _ n, (length (neighborsList n) ≤ d)%nat) (nodes w) →
  net_keeps d w w' ∧
  (total_cost (ids w) d (flight w') < total_cost (ids w) d (flight w))%nat.
Proof.
  intros [i m w1 Hi H] Hd. apply (deliver_decreases d) in H as [[E Hk] Hc]; [|exact Hd].
  split; [by split |]. change (ids (w <| flight := delete i (flight w) |>)) with (ids w) in Hc.
  simpl in Hc. rewrite (total_cost_delete _ _ _ _ _ Hi). lia.
Qed.

(** C1: discovery ends. In a grid of any shape, with any calls in flight and however they are
    ordered, no more calls are delivered than the budget of the initial state allows: a request
    never goes through the same node twice, with or without a bound on the hops. *)
Theorem discovery_terminates (w w' : network) (k : nat) :
  net_steps k w w' → (k ≤ budget w)%nat.
Proof.
  intros H. unfold budget. set (d := degree w).
  assert (Hd : map_Forall (λ _ n, (length (neighborsList n) ≤ d)%nat) (nodes w)).
  { intros a n Ha. unfold d, degree. apply max_list_elem_of_le, list_elem_of_fmap.
    exists (a, n). split; [done | by apply elem_of_map_to_list]. }
  clearbody d. induction H as [w|k w w1 w2 Hs Hss IH]; [lia |].
  apply (net_step_decreases d) in Hs as [[E Hk] Hc]; [|done]. specialize (IH (Hk Hd)).
  rewrite E in IH. lia.
Qed.

(** ** The way back is never used *)

(** A grid at work: nodes start discoveries and see them end, links are added between different
    nodes, calls are delivered. *)
Definition linked_to_itself (w : network) (a : string) (l : list string) : Prop :=
  ∃ i, i ∈ l ∧ ids w !! i = ids w !! a.

Inductive grid_reachable : network → Prop :=
  | grid_start w :
      flight w = [] →
      (∀ a n, nodes w !! a = Some n → ¬ linked_to_itself w a (neighborsList n)) →
      grid_reachable w
  | grid_step w w' : grid_reachable w → net_step w w' → grid_reachable w'
  | grid_launch w a n req timeout n' out sem :
      grid_reachable w → nodes w !! a = Some n →
      Req.wb req = [] → Req.explorationList req = [] →
      launch_begin (peers_of w) req timeout n = (n', out, Ok sem) →
      grid_reachable (w <| nodes := <[a := n']> (nodes w) |> <| flight := flight w ++ out |>)
  | grid_end w a n req sem n' out r :
      grid_reachable w → nodes w !! a = Some n → launch_end req sem n = (n', out, r) →
      grid_reachable (w <| nodes := <[a := n']> (nodes w) |>)
  | grid_link w a n url :
      grid_reachable w → nodes w !! a = Some n → ids w !! url ≠ ids w !! a →
      grid_reachable (w <| nodes := <[a := addNeighbor url n]> (nodes w) |>).

(** The way back of a request in flight holds one node at most, one the request has been through;
    the receiver is none of those. *)
Definition ask_ok (I : gmap string string) (m : msg) : Prop :=
  match m with
  | Ask dst req _ _ =>
      Req.wb req = [] ∨
      ((∃ x, Req.wb req = [x] ∧ x ∈ listed req) ∧ (∀ id, I !! dst = Some id → id ∉ listed req))
  | Reroute _ _ _ => False
  | _ => True
  end.

Definition grid_ok (w : network) : Prop :=
  Forall (ask_ok (ids w)) (flight w) ∧
  (∀ a n, nodes w !! a = Some n → ¬ linked_to_itself w a (neighborsList n)).

Lemma ask_output_ok P w a n req nap out :
  (∀ b nid, peer_id P b = Ok nid → ids w !! b = Some nid) → nodes w !! a = Some n → ¬ linked_to_itself w a (neighborsList n) →
  (Req.wb req = [] ∨
   ((∃ x, Req.wb req = [x] ∧ x ∈ listed req) ∧ getPOPCSearchNodeId n ∉ listed req)) →
  ask_output P n req nap out → Forall (ask_ok (ids w)) out.
Proof.
  intros HP Ha Hself Hreq (rep & al & fin & -> & Hrep & Hal & Hfin).
  assert (Hme : ids w !! a = Some (getPOPCSearchNodeId n))
    by (unfold ids; by rewrite lookup_fmap, Ha).
  apply Forall_app. split; [|apply Forall_app; split].
  - destruct Hrep as [-> | (m & -> & (_ & resp & _ & _ & Hm) & _)]; [constructor |].
    constructor; [|constructor]. destruct Hm as [[-> _]|[Hl _]]; [done |]. exfalso.
    unfold Wayback.isLastNode in Hl. destruct Hreq as [E|[(x & E & _) _]]; by rewrite E in Hl.
  - destruct Hal as [-> | (req' & l' & ((ns & Hel) & Hwb & _) & Hs & -> & Hf)]; [constructor |].
    assert (Hk : ∀ x, x ∈ listed req' ↔ x = getPOPCSearchNodeId n ∨ x ∈ listed req).
    { intros x. unfold listed. rewrite Hel. apply addListNode_keys. }
    apply Forall_fmap, Forall_forall. intros i Hi. rewrite Forall_forall in Hf.
    destruct (Hf i Hi) as (nid & Hp & Hin). apply HP in Hp. simpl.
    assert (Hdst : ∀ id, ids w !! i = Some id → id ∉ listed req').
    { intros id Hid. rewrite Hp in Hid. simplify_eq. rewrite Hk. intros [-> | Hx].
      - apply Hself. exists i. split; [by eapply elem_of_sublist | congruence].
      - by apply isIn_keys in Hin. }
    destruct Hwb as [E|E].
    + rewrite E. destruct Hreq as [E'|[(x & E' & Hx) _]]; rewrite E'; [by left | right].
      split; [exists x; split; [done | apply Hk; by right] | done].
    + right. split; [|done]. destruct Hreq as [E'|[(x & E' & Hx) Hn]]; rewrite E' in E; simpl in E.
      * simplify_eq. eexists. split; [done | apply Hk; by left].
      * rewrite decide_False in E by (intros ->; done). simplify_eq.
        exists x. split; [done | apply Hk; by right].
  - destruct Hfin as [-> | (jm & -> & _)]; repeat constructor.
Qed.

Lemma ask_run_ok P w a n req nap sender n' out r :
  (∀ b nid, peer_id P b = Ok nid → ids w !! b = Some nid) → nodes w !! a = Some n → ¬ linked_to_itself w a (neighborsList n) →
  (Req.wb req = [] ∨
   ((∃ x, Req.wb req = [x] ∧ x ∈ listed req) ∧ getPOPCSearchNodeId n ∉ listed req)) →
  askResourcesDiscovery P req nap sender n = (n', out, r) →
  Forall (ask_ok (ids w)) out.
Proof.
  intros HP Ha Hs Hr H. apply askResourcesDiscovery_run in H as [(_ & _ & _ & Ho)|[_ Ho]].
  - destruct Ho as [-> | [jm ->]]; repeat constructor.
  - by eapply ask_output_ok.
Qed.

(** Changes that keep identifiers and links keep the grid free of self-links. *)
Lemma links_keep w w' a n n' l :
  nodes w !! a = Some n → keeps n n' →
  w' = w <| nodes := <[a := n']> (nodes w) |> <| flight := l |> →
  (∀ b m, nodes w !! b = Some m → ¬ linked_to_itself w b (neighborsList m)) →
  ids w' = ids w ∧
  (∀ b m, nodes w' !! b = Some m → ¬ linked_to_itself w' b (neighborsList m)).
Proof.
  intros Ha Hk -> Hs. destruct (net_keeps_insert 0 w a n n' l Ha Hk) as [Hi _].
  split; [exact Hi |]. intros b m Hb. unfold linked_to_itself. rewrite Hi. simpl in Hb.
  destruct (decide (b = a)) as [->|Hne].
  - rewrite lookup_insert_eq in Hb. simplify_eq. intros (i & Hin & E). apply (Hs a n Ha).
    exists i. split; [|done]. eapply elem_of_sublist; [exact Hin | apply Hk].
  - rewrite lookup_insert_ne in Hb by done. by apply Hs.
Qed.

Lemma grid_ok_node w a n n' out :
  grid_ok w → nodes w !! a = Some n → keeps n n' → Forall (ask_ok (ids w)) out →
  grid_ok (w <| nodes := <[a := n']> (nodes w) |> <| flight := flight w ++ out |>).
Proof.
  intros [Hf Hs] Ha Hk Ho.
  destruct (links_keep w _ a n n' (flight w ++ out) Ha Hk eq_refl Hs) as [Hi Hs'].
  split; [|exact Hs']. rewrite Hi. simpl. by apply Forall_app.
Qed.

Lemma run_node_ok w a m w' :
  grid_ok w → run_node a m w = Ok w' →
  (∀ n n' out r, nodes w !! a = Some n → m n = (n', out, r) →
     keeps n n' ∧ Forall (ask_ok (ids w)) out) →
  grid_ok w'.
Proof.
  unfold run_node. intros Hg H Hm. destruct (nodes w !! a) as [n|] eqn:Ea; [|by simplify_eq].
  destruct (m n) as [[n' out] r] eqn:Em. destruct (Hm _ _ _ _ eq_refl Em).
  destruct r; simplify_eq; by eapply grid_ok_node.
Qed.

Lemma run_psn_calls_ok a cs w w' : grid_ok w → run_psn_calls a cs w = Ok w' → grid_ok w'.
Proof.
  revert w. induction cs as [|c cs IH]; simpl; intros w Hg H; [by simplify_eq |].
  apply rbind_Ok in H as (w1 & H1 & H). eapply IH; [|exact H].
  unfold run_psn_call in H1. destruct (nodes w !! a) as [n|] eqn:Ea; [|by simplify_eq].
  apply rbind_Ok in H1 as (n' & Hn & H1). simplify_eq. apply psn_apply_keeps in Hn.
  pose proof (grid_ok_node w a n n' [] Hg Ea Hn ltac:(constructor)) as Hg'.
  by rewrite app_nil_r in Hg'.
Qed.

Lemma deliver_ok m w w' :
  grid_ok w → ask_ok (ids w) m → deliver m w = Ok w' → grid_ok w'.
Proof.
  intros Hg Hm H. destruct m as [dst req nap sender | dst resp | dst resp wb | jm url | jm appid];
    simpl in H; [| | done | |].
  - eapply run_node_ok; [exact Hg | exact H |]. intros n n' out r Hn Ha.
    split; [by eapply ask_keeps |]. eapply ask_run_ok; [apply peers_of_ids | exact Hn | by apply Hg | | exact Ha].
    destruct Hm as [Hm|[Hx Hd]]; [by left | right]. split; [exact Hx |].
    apply Hd. unfold ids. by rewrite lookup_fmap, Hn.
  - eapply run_node_ok; [exact Hg | exact H |]. intros n n' out r _ Hr.
    apply ntry_run in Hr as [r' Hr]. destruct (callback_keeps (answer_received resp) n) as [Hk Ho].
    rewrite Hr in Hk, Ho. simpl in Hk, Ho. rewrite Ho. by split.
  - destruct (jobmgrs w !! jm) as [j|]; [|by simplify_eq]. unfold UnregisterNode in H.
    destruct (nodes w !! url); [|by simplify_eq]. eapply run_node_ok; [exact Hg | exact H |].
    intros n n' out r _ Hr. unfold nset in Hr. simplify_eq.
    split; [apply keeps_removeNeighbor | constructor].
  - unfold end_application in H. destruct (jobmgrs w !! jm) as [j|]; [|by simplify_eq].
    apply rbind_Ok in H as ([j' calls] & _ & H). eapply run_psn_calls_ok; [|exact H]. exact Hg.
Qed.

Lemma launch_begin_run P req timeout n n' out sem :
  launch_begin P req timeout n = (n', out, Ok sem) →
  ∃ n0 nap sender r, askResourcesDiscovery P req nap sender n0 = (n', out, r) ∧
    nodeInfo n0 = nodeInfo n ∧ neighborsList n0 = neighborsList n.
Proof.
  unfold launch_begin. cbv zeta. rewrite nset_bind, nget_bind. intros H.
  destruct (_ =? 0) in H.
  - apply nbind_run in H as [(n1 & o1 & o2 & c & H1 & H & ->)|[[_ (? & ? & ?)]|[_ ?]]]; try done.
    unfold getNextSemCounter in H1. rewrite nget_bind, nlift_bind in H1.
    destruct (check_int _); [|done|done]. rewrite nset_bind in H1. unfold nret in H1.
    simplify_eq. rewrite !nset_bind in H.
    apply nbind_run in H as [(n2 & o3 & o4 & [] & H1 & H & ->)|[[_ (? & ? & ?)]|[_ ?]]]; try done.
    unfold nret in H. simplify_eq. rewrite app_nil_r. simpl.
    eexists _, _, _, _. split; [exact H1 | done].
  - apply nbind_run in H as [(n2 & o3 & o4 & [] & H1 & H & ->)|[[_ (? & ? & ?)]|[_ ?]]]; try done.
    unfold nret in H. simplify_eq. rewrite app_nil_r. eexists _, _, _, _. split; [exact H1 | done].
Qed.

Lemma launch_end_keeps req sem n n' out r : launch_end req sem n = (n', out, r) → keeps n n'.
Proof.
  unfold launch_end. cbv zeta. intros H. destruct sem.
  - rewrite nset_bind, nget_bind, nset_bind in H. unfold nret in H. simplify_eq. by split.
  - rewrite nret_bind, nget_bind, nset_bind in H. unfold nret in H. simplify_eq. by split.
Qed.

Lemma grid_reachable_ok w : grid_reachable w → grid_ok w.
Proof.
  induction 1 as [w Hf Hs | w w' _ IH [i m w1 Hi H]
                 | w a n req timeout n' out sem _ IH Ha Hw He H
                 | w a n req sem n' out r _ IH Ha H | w a n url _ [Hf Hs] Ha Hne].
  - split; [rewrite Hf; constructor | exact Hs].
  - destruct IH as [Hf Hs]. eapply deliver_ok; [| |exact H].
    + split; [|exact Hs]. simpl. change (ids (w <| flight := delete i (flight w) |>)) with (ids w).
      rewrite delete_take_drop. rewrite <- (take_drop_middle _ _ _ Hi) in Hf.
      apply Forall_app in Hf as [H1 H2]. apply Forall_cons in H2 as [_ H2]. by apply Forall_app.
    + rewrite Forall_lookup in Hf. by eapply Hf.
  - apply launch_begin_run in H as (n0 & nap & sender & r & H & Hi & Hl).
    assert (Hn0 : keeps n n0) by (split; [unfold getPOPCSearchNodeId; by rewrite Hi | by rewrite Hl]).
    assert (Hk : keeps n n').
    { apply ask_keeps in H as [H1 H2]. destruct Hn0 as [H3 H4]. split; [congruence | by etrans]. }
    eapply grid_ok_node; [exact IH | exact Ha | exact Hk |].
    destruct IH as [Hf Hs].
    set (w0 := w <| nodes := <[a := n0]> (nodes w) |> <| flight := flight w |>).
    destruct (links_keep w w0 a n n0 (flight w) Ha Hn0 eq_refl Hs) as [Ei Hs0].
    rewrite <- Ei. apply (ask_run_ok (peers_of w) w0 a n0 req nap sender n' out r).
    + rewrite Ei. apply peers_of_ids.
    + simpl. by rewrite lookup_insert_eq.
    + apply Hs0. simpl. by rewrite lookup_insert_eq.
    + by left.
    + exact H.
  - pose proof (grid_ok_node w a n n' [] IH Ha (launch_end_keeps _ _ _ _ _ _ H)
                  ltac:(constructor)) as Hg.
    by rewrite app_nil_r in Hg.
  - assert (Ei : ids (w <| nodes := <[a := addNeighbor url n]> (nodes w) |>) = ids w).
    { unfold ids. simpl. rewrite fmap_insert. apply insert_id. by rewrite lookup_fmap, Ha. }
    split; [by rewrite Ei |]. intros b m Hb. unfold linked_to_itself. rewrite Ei. simpl in Hb.
    destruct (decide (b = a)) as [->|Hb'].
    + rewrite lookup_insert_eq in Hb. simplify_eq. intros (i & Hin & E).
      simpl in Hin. apply elem_of_app in Hin as [Hin | ->%list_elem_of_singleton]; [|done].
      apply (Hs a n Ha). by exists i.
    + rewrite lookup_insert_ne in Hb by done. by apply Hs.
Qed.


(** ** A grid at work *)

Definition grid_node (a : string) (links : list string) (p : Z) : SearchNode :=
  let n := setPOPCSearchNodeId a (search_node_new a) in
  let n := setMaxJobs 2 (setPower (float_of_Z p) (setMemorySize (float_of_Z 512) n)) in
  let n := setCpuSpeed 1 (setDiskSpace 1 (setNetworkBandwidth fzero n)) in
  foldl (λ n x, addNeighbor x n) n links.

(** A triangle, where [b] is too weak for the request. *)
Definition triangle : network :=
  MkNetwork (list_to_map [("a", grid_node "a" ["b"; "c"] 100); ("b", grid_node "b" ["a"; "c"] 5);
                          ("c", grid_node "c" ["a"; "b"] 100)]) ∅ [].

Definition launched : network :=
  match nodes triangle !! "a" with
  | Some n =>
      let '(n', out, _) := launch_begin (peers_of triangle) sample_request 0 n in
      triangle <| nodes := <["a" := n']> (nodes triangle) |> <| flight := flight triangle ++ out |>
  | None => triangle
  end.

(** The first call in flight, over and over. *)
Fixpoint run_first (k : nat) (w : network) : result network :=
  match k with
  | O => Ok w
  | S k' =>
      match flight w with
      | [] => Ok w
      | m :: l => let! w := deliver m (w <| flight := l |>) in run_first k' w
      end
  end.

Lemma run_first_steps k w w' : run_first k w = Ok w' → ∃ j, net_steps j w w'.
Proof.
  revert w. induction k as [|k IH]; simpl; intros w H; [simplify_eq; exists O; constructor |].
  destruct (flight w) as [|m l] eqn:Ef; [simplify_eq; exists O; constructor |].
  apply rbind_Ok in H as (w1 & H1 & H). apply IH in H as [j Hj]. exists (S j).
  econstructor; [|exact Hj]. apply (net_deliver w 0 m); [by rewrite Ef |]. by rewrite Ef.
Qed.

Lemma discovery_terminates_witness :
  ∃ j w', net_steps j launched w' ∧ flight w' = [] ∧ (0 < j)%nat ∧ (j ≤ budget launched)%nat.
Proof.
  destruct (run_first 20 launched) as [w'| |] eqn:E; [| by vm_compute in E | by vm_compute in E].
  destruct (run_first_steps _ _ _ E) as [j Hj]. exists j, w'.
  assert (Hf : flight w' = []).
  { assert (Hl : match run_first 20 launched with Ok w => flight w | _ => [] end = [])
      by (by vm_compute). by rewrite E in Hl. }
  split; [exact Hj |]. split; [exact Hf |]. split; [|exact (discovery_terminates _ _ _ Hj)].
  destruct j; [|lia]. inversion Hj as [w0 E0 E1 E2|]. subst. by vm_compute in Hf.
Defined.

Lemma triangle_reachable : grid_reachable triangle.
Proof.
  apply grid_start; [done |]. intros a n Ha (i & Hi & E). unfold triangle in *. simpl in Ha.
  rewrite !lookup_insert_Some, lookup_empty in Ha.
  destruct Ha as [[<- <-]|[_ [[<- <-]|[_ [[<- <-]|[_ [=]]]]]]];
    cbn in Hi; rewrite !elem_of_cons, elem_of_nil in Hi; destruct Hi as [-> | [-> | []]];
    by vm_compute in E.
Qed.

