(* ===== verification/Transport.v ===== *)
(** * The messages of the run-time crossing the wire

    Every object of the protocols (discovery requests and responses, object descriptions, access
    points, exceptions), marshalled by its [Serialize], carried by either buffer class over any
    connection that delivers bytes in order, and rebuilt by the receiver; and where the XDR
    buffer loses its place. *)

From S2P Require Import Prelude Machine Buffer Exceptions Message BufferRaw BufferXdr.
From S2P Require Import AccessPoint ObjectDescription Discovery ExceptionProtocol.

(** ** What a marshalled object becomes *)
Section Objects.
Context {B : Type} `{PopTransport B}.
Context {S : Type} (cb : combox S) `{!ComboxStream cb} `{!ComboxChannel cb}.

(** The writer leaves the value the codec states. *)
Lemma codec_written {X A : Type} (w : M B X) x (r : M B A) a b y b1 :
  codec w x r a → w b = Ok (y, b1) → y = x.
Proof. intros (bs & W & _) Hw. by destruct (proj2 (W _) _ _ Hw). Qed.

(** The header of the message is the one it was prepared with. *)
Lemma codec_header_ranged {X A : Type} (w : M B X) x (r : M B A) a h b y b1 :
  codec w x r a → w (SetHeader h (Reset b)) = Ok (y, b1) →
  header_ranged (GetHeader b) → header_ranged h → header_ranged (GetHeader b1).
Proof.
  intros (bs & W & _) Hw Hb Hh. destruct (proj2 (W _) _ _ Hw) as (_ & _ & _ & -> & _).
  destruct (SetHeader_ok h (Reset b)) as (_ & _ & -> & _).
  destruct (SetHeader_ok h b) as (_ & _ & _ & -> & _). by apply header_assign_ranged.
Qed.

(** C14: a discovery request rebuilt by the receiving node is the one that was sent, explored
    paths, way back and every set parameter included, except the expected CPU speed: its value is
    not on the wire and reading it is undefined. The sender's copy has lost its way back. *)
Theorem request_transport (r : Req.Request) h (b b0 b1 b2 : B) y s s1 :
  request_ok r → Req.Serialize true r (SetHeader h (Reset b)) = Ok (y, b1) →
  header_ranged (GetHeader b1) → incoming s = [] → Send cb b1 s = Ok (true, b2, s1) →
  Req.wb y = [] ∧
  ∃ b3 s2 b4 r', Recv cb b0 s1 = Ok (true, b3, s2) ∧
    Req.Serialize false Req.init b3 = Ok (r', b4) ∧ unread b4 = [] ∧ incoming s2 = [] ∧
    r' <| Req.expectedCpuSpeed := Req.expectedCpuSpeed r |> = r ∧
    Req.getExpectedCpuSpeed r' = Stuck.
Proof.
  intros Hr Hw Hh Hin Hs. pose proof (codec_request r Hr) as Hc.
  split; [by rewrite (codec_written _ _ _ _ _ _ _ Hc Hw) |].
  destruct (call_transport cb _ _ _ _ h b b0 b1 b2 y s s1 Hc Hw Hh Hin Hs)
    as (b3 & s2 & b4 & E & Hs2 & _ & Hrd & Hu).
  exists b3, s2, b4, (request_received r). split_and!; try done. by destruct r.
Qed.

(** A response rebuilt by the node that asked names the same request, node and path. *)
Theorem response_transport (r : Resp.Response) h (b b0 b1 b2 : B) y s s1 :
  response_ok r → Resp.Serialize true r (SetHeader h (Reset b)) = Ok (y, b1) →
  header_ranged (GetHeader b1) → incoming s = [] → Send cb b1 s = Ok (true, b2, s1) →
  ∃ b3 s2 b4 r', Recv cb b0 s1 = Ok (true, b3, s2) ∧
    Resp.Serialize false Resp.response_new b3 = Ok (r', b4) ∧ unread b4 = [] ∧
    Resp.getReqUniqueId r' = Resp.getReqUniqueId r ∧ Resp.getPOPAppId r' = Resp.getPOPAppId r ∧
    Resp.finalExplorationList r' = Resp.finalExplorationList r ∧
    Resp.getFoundNodeInfo r' = info_received (Resp.getFoundNodeInfo r).
Proof.
  intros Hr Hw Hh Hin Hs.
  destruct (call_transport cb _ _ _ _ h b b0 b1 b2 y s s1 (codec_response r Hr) Hw Hh Hin Hs)
    as (b3 & s2 & b4 & E & Hs2 & _ & Hrd & Hu).
  eexists b3, s2, b4, _. split_and!; [exact E | exact Hrd | exact Hu | done..].
Qed.

(** An object description keeps its platforms, capacities, limits and attributes; the flags
    that are not sent keep the receiver's value, and the receiver always searches. *)
Theorem od_transport (o o0 : pop_od) h (b b0 b1 b2 : B) y s s1 :
  od_ok o → od_Pack o (SetHeader h (Reset b)) = Ok (y, b1) →
  header_ranged (GetHeader b1) → incoming s = [] → Send cb b1 s = Ok (true, b2, s1) →
  ∃ b3 s2 b4, Recv cb b0 s1 = Ok (true, b3, s2) ∧
    od_UnPack o0 b3 = Ok (od_received o o0, b4) ∧ unread b4 = [] ∧
    searchSet (od_received o o0) = true ∧ isManual (od_received o o0) = isManual o0.
Proof.
  intros Ho Hw Hh Hin Hs.
  destruct (call_transport cb _ _ _ _ h b b0 b1 b2 y s s1 (codec_od o o0 Ho) Hw Hh Hin Hs)
    as (b3 & s2 & b4 & E & Hs2 & _ & Hrd & Hu).
  by exists b3, s2, b4.
Qed.

(** What a method throws is what the caller catches: the primitive value, string, standard
    exception or object that [SendException] sends is the one [CheckAndThrow] throws, with
    nothing left unread. *)
Theorem exception_delivered {I : Type} (interface_Serialize : bool → I → M B I) (interface_new : I)
    x send (except except' b0 : B) s s1 :
  deliverable interface_Serialize interface_new x →
  SendException interface_Serialize cb x = Some send →
  header_ranged (GetHeader except) → incoming s = [] → send except s = Ok (true, except', s1) →
  ∃ b s2 b', Recv cb b0 s1 = Ok (true, b, s2) ∧ incoming s2 = [] ∧
    CheckAndThrow interface_Serialize interface_new b = Ok (Some x, b') ∧ unread b' = [].
Proof.
  exact (exception_transport interface_Serialize interface_new cb x send except except' b0 s s1).
Qed.
End Objects.

(** ** Concrete messages

    Objects sent over a connection that delivers seven bytes at a time, with raw and with XDR
    buffers. *)
Section Sent.
Context {B : Type} `{PopTransport B}.

Definition sent {X : Type} (w : M B X) (fresh : B) : option (X * B * B * list byte) :=
  match w (SetHeader (header_request 3 4 0 None) (Reset fresh)) with
  | Ok (y, b1) =>
      match Send (loop_box 7) b1 [] with
      | Ok (true, b2, s1) => Some (y, b1, b2, s1)
      | _ => None
      end
  | _ => None
  end.

Lemma sent_Some {X : Type} (w : M B X) fresh y b1 b2 s1 :
  sent w fresh = Some (y, b1, b2, s1) →
  w (SetHeader (header_request 3 4 0 None) (Reset fresh)) = Ok (y, b1) ∧
  Send (loop_box 7) b1 [] = Ok (true, b2, s1).
Proof.
  unfold sent. intros E.
  destruct (w _) as [[y0 b0]| |] eqn:Ew; try done.
  destruct (Send (loop_box 7) b0 []) as [[[[] c] s]| |] eqn:Es; try done.
  injection E as <- <- <- <-. done.
Qed.
End Sent.

Definition example_request : Req.Request :=
  let r := Req.request_new 2 "" "Linux" 1500 2000 (float_of_Z 512) fzero 0 100 0 0 fzero fzero
             "socket" "xdr" in
  let r := Req.setPOPAppId "app" (Req.setUniqueId "1-node" r) in
  match Req.addNodeToExplorationList "node" ["left"; "right"] r with
  | Ok r => match Req.addNodeToWb "node" r with Ok r => r | _ => r end
  | _ => r
  end.

(** Well-formedness of a concrete object. *)
Ltac concrete_ok :=
  repeat match goal with
    | |- string_ok _ => apply (bool_decide_unpack _); vm_compute; exact I
    | |- _ = _ => reflexivity
    | |- key_lt _ _ => reflexivity
    | |- number_ok _ _ => eexists; split; reflexivity
    | |- _ ≤ _ => vm_compute; discriminate
    | |- _ → _ => let H := fresh in intros H; first [vm_compute in H; discriminate H | clear H]
    | |- ∃ _, _ => eexists; split; [reflexivity |]
    | |- _ ∧ _ => split
    | |- _ => constructor
    end.

Lemma request_transport_witness :
  ∃ y (b1 b2 : buffer_raw) s1, sent (Req.Serialize true example_request) raw_new = Some (y, b1, b2, s1) ∧
    Req.wb y = [] ∧ ∃ b3 s2 b4 r', Recv (loop_box 7) raw_new s1 = Ok (true, b3, s2) ∧
      Req.Serialize false Req.init b3 = Ok (r', b4) ∧ Req.getExpectedCpuSpeed r' = Stuck.
Proof.
  destruct (sent (Req.Serialize true example_request) raw_new) as [[[[y b1] b2] s1]|] eqn:E;
    [|vm_compute in E; discriminate E].
  exists y, b1, b2, s1. split; [reflexivity |].
  destruct (sent_Some _ _ _ _ _ _ E) as [Hw Hs].
  assert (Hok : request_ok example_request).
  { unfold request_ok, param_ok. concrete_ok. }
  destruct (request_transport (loop_box 7) example_request (header_request 3 4 0 None)
    raw_new raw_new b1 b2 y [] s1) as (Hy & b3 & s2 & b4 & r' & E1 & E2 & _ & _ & _ & E3).
  - exact Hok.
  - exact Hw.
  - eapply codec_header_ranged; [by apply codec_request | exact Hw | |]; repeat constructor.
  - reflexivity.
  - exact Hs.
  - split; [exact Hy |]. exists b3, s2, b4, r'.
    split; [exact E1 |]. split; [exact E2 | exact E3].
Defined.

Definition example_info : NodeInfo.POPCSearchNodeInfo :=
  NodeInfo.MkNodeInfo "right" accesspoint_new "Linux" (Some (float_of_Z 80)) (Some 2000)
    (Some (float_of_Z 1024)) (Some (float_of_Z 100)) (Some 40) "socket" "xdr" "".
Definition example_response : Resp.Response :=
  Resp.MkResponse "1-node" "app" example_info [("node", ["left"; "right"]); ("right", [])].

Lemma response_transport_witness :
  ∃ y (b1 b2 : buffer_xdr) s1,
    sent (Resp.Serialize true example_response) xdr_new = Some (y, b1, b2, s1) ∧
    ∃ b3 s2 b4 r', Recv (loop_box 7) xdr_new s1 = Ok (true, b3, s2) ∧
      Resp.Serialize false Resp.response_new b3 = Ok (r', b4) ∧
      NodeInfo.getPOPCSearchNodeId (Resp.getFoundNodeInfo r') = "right".
Proof.
  destruct (sent (Resp.Serialize true example_response) xdr_new) as [[[[y b1] b2] s1]|] eqn:E;
    [|vm_compute in E; discriminate E].
  exists y, b1, b2, s1. split; [reflexivity |].
  destruct (sent_Some _ _ _ _ _ _ E) as [Hw Hs].
  assert (Hok : response_ok example_response).
  { unfold response_ok. concrete_ok. }
  destruct (response_transport (loop_box 7) example_response (header_request 3 4 0 None)
    xdr_new xdr_new b1 b2 y [] s1) as (b3 & s2 & b4 & r' & E1 & E2 & _ & _ & _ & _ & E3).
  - exact Hok.
  - exact Hw.
  - eapply codec_header_ranged; [by apply codec_response | exact Hw | |]; repeat constructor.
  - reflexivity.
  - exact Hs.
  - exists b3, s2, b4, r'. split; [exact E1 |]. split; [exact E2 |]. rewrite E3. reflexivity.
Defined.

Definition example_od : pop_od :=
  (od_new false None (Some "/tmp")) <| od_time := float_of_Z 60 |> <| keys := ["site"] |>
    <| values := ["lab"] |> <| isManual := true |>.

Lemma od_transport_witness :
  ∃ y (b1 b2 : buffer_xdr) s1, sent (od_Pack example_od) xdr_new = Some (y, b1, b2, s1) ∧
    ∃ b3 s2 b4 o', Recv (loop_box 7) xdr_new s1 = Ok (true, b3, s2) ∧
      od_UnPack (od_new false None None) b3 = Ok (o', b4) ∧ unread b4 = [] ∧
      values o' = ["lab"] ∧ isManual o' = false.
Proof.
  destruct (sent (od_Pack example_od) xdr_new) as [[[[y b1] b2] s1]|] eqn:E;
    [|vm_compute in E; discriminate E].
  exists y, b1, b2, s1. split; [reflexivity |].
  destruct (sent_Some _ _ _ _ _ _ E) as [Hw Hs].
  assert (Hok : od_ok example_od).
  { unfold od_ok. concrete_ok. }
  destruct (od_transport (loop_box 7) example_od (od_new false None None)
    (header_request 3 4 0 None) xdr_new xdr_new b1 b2 y [] s1) as (b3 & s2 & b4 & E1 & E2 & E3 & _ & E4).
  - exact Hok.
  - exact Hw.
  - eapply codec_header_ranged; [by apply (codec_od _ (od_new false None None)) | exact Hw | |]; repeat constructor.
  - reflexivity.
  - exact Hs.
  - exists b3, s2, b4, (od_received example_od (od_new false None None)).
    split; [exact E1 |]. split; [exact E2 |]. split; [exact E3 |]. split; [reflexivity | exact E4].
Defined.

Lemma exception_delivered_witness :
  let x : thrown () := ThrStd (MkException 10005 "no such method") in
  ∃ send b' s1, SendException (λ _ o, mret o) (loop_box 7) x = Some send ∧
    send xdr_new [] = Ok (true, b', s1) ∧
    ∃ b s2 b2, Recv (loop_box 7) xdr_new s1 = Ok (true, b, s2) ∧
      CheckAndThrow (λ _ o, mret o) () b = Ok (Some x, b2).
Proof.
  intros x. eexists.
  destruct (SendException_std (loop_box 7) (MkException 10005 "no such method") xdr_new [])
    as [[[[] b'] s1]| |] eqn:E; try (vm_compute in E; discriminate E).
  exists b', s1. split; [reflexivity |]. split; [exact E |].
  destruct (exception_delivered (loop_box 7) (λ _ o, mret o) () x
    (SendException_std (loop_box 7) (MkException 10005 "no such method"))
    xdr_new b' xdr_new [] s1) as (b & s2 & b2 & E1 & _ & E2 & _).
  - split; [reflexivity |]. apply (bool_decide_unpack _). vm_compute. exact I.
  - reflexivity.
  - repeat constructor.
  - reflexivity.
  - exact E.
  - exists b, s2, b2. split; [exact E1 | exact E2].
Defined.

(** ** XDR buffers *)
Section XdrBuffers.
Context {X : XdrLib}.

(** Booleans desynchronise an XDR buffer. [UnPack(bool*, n)] decrements [n] while it copies
    and then advances by the padded value of what is left of it: for more than four booleans the
    values are right but the cursor stops four bytes further, inside the block the writer
    appended, and the next read finds booleans. *)
Theorem xdr_bools_lose_place (vs : list bool) (b b' : buffer_xdr) :
  20 ≤ buf_unpackpos b → zlen (buf_packeddata b) = buf_unpackpos b → 4 < zlen vs →
  xdr_Pack PBool vs (zlen vs) b = Ok ((), b') → zlen (buf_packeddata b') ≤ int_max →
  ∃ b3, xdr_UnPack PBool (zlen vs) b' = Ok (vs, b3) ∧
    buf_unpackpos b3 = buf_unpackpos b + 4 ∧
    buf_unpackpos b + zlen vs ≤ zlen (buf_packeddata b') ∧ buf_unpackpos b3 < zlen (buf_packeddata b').
Proof.
  intros Hp Hd Hn Hpack Hsz. rewrite xdr_Pack_chars in Hpack by done.
  apply pack_chars_content in Hpack as ->. pose proof (char_cast_length PBool vs eq_refl) as Hl.
  change (val PBool) with bool in *.
  set (cs := char_cast PBool vs) in *. cbn in Hsz |- *. rewrite zlen_app in Hsz |- *.
  assert (Hcs : cs ≠ []) by (intros E; rewrite E in Hl; simpl in Hl; lia).
  rewrite pad_block_length in Hsz |- * by done. rewrite Hl in Hsz |- *.
  pose proof (padded_bounds (zlen vs) ltac:(lia)) as Hpad. unfold int_max in Hsz.
  eexists (_ <| buf_unpackpos := buf_unpackpos b + 4 |>).
  split; [|split; [reflexivity | cbn; rewrite ?zlen_app, ?pad_block_length, ?Hl by done; lia]].
  cbn [xdr_UnPack]. unfold xdr_UnPack_bool. rewrite (proj2 (Z.leb_gt _ _)) by lia.
  unfold xdr_CheckUnPack, check_unpack. cbn.
  rewrite zlen_app, pad_block_length, Hl by done. change (val PBool) with bool in *.
  rewrite check_int_Ok by (apply in_sint32; lia). cbn [rbind].
  rewrite (proj2 (Z.ltb_ge _ 0)), (proj2 (Z.ltb_ge _ (zlen vs + _))) by lia. cbn [orb rbind].
  rewrite memcpy_from_Ok by (rewrite ?zlen_app, ?pad_block_length, ?Hl by done; lia). cbn [rbind].
  rewrite drop_app_len by lia.
  assert (Ht : take (Z.to_nat (zlen vs)) (pad_block cs) = cs).
  { unfold pad_block. destruct cs; [done |]. by rewrite take_app_len by lia. }
  rewrite Ht, <- Hl, bool_loop_all. unfold cs. rewrite cast_bool.
  change (padded (-1)) with 4. by rewrite check_int_Ok by (apply in_sint32; lia).
Qed.
End XdrBuffers.

(** Five booleans and a number: the number read back is made of the fifth boolean and its
    padding. *)
Lemma xdr_bools_lose_place_witness :
  let b := match xdr_Pack PBool [true; true; true; true; true] 5 xdr_new with
           | Ok (_, b) => b | _ => xdr_new end in
  ∃ b3 b4, xdr_UnPack PBool 5 b = Ok ([true; true; true; true; true], b3) ∧
    buf_unpackpos b3 = 24 ∧
    (let* _ := Pack PInt [42] 1 in let* vs := UnPack PBool 5 in UnPack1 PInt) b
    = Ok (2 ^ 24, b4).
Proof.
  intros b. destruct (xdr_bools_lose_place [true; true; true; true; true] xdr_new b)
    as (b3 & E & Hb & _ & _); [done | done | done | reflexivity | done |].
  exists b3. eexists. split; [exact E |]. split; [exact Hb |]. vm_compute. reflexivity.
Defined.


Definition xdr_example : M buffer_xdr () :=
  Pack PShort [-2; 7] 2 ;;; Pack1 PFloat (float_of_Z 3).

