(* ===== verification/CoreCalls.v ===== *)
(** * The calls every object answers

    The methods 0 to 5 of every parallel object: the stubs of the caller
    ([pop_interface::BindStatus], [AddRef], [DecRef], [Encoding], [Kill], [ObjectActive],
    lib/dynamic/interface.cc), their reception and treatment by the broker
    ([pop_broker::ReceiveRequest], [PopCall], lib/dynamic/broker_receive.cc), and how what a method
    throws is sent back ([DoInvoke], lib/core/broker_serve.cc).

    The two directions of a connection are two communication boxes. *)

From S2P Require Import Prelude Machine Buffer Exceptions Message BufferRaw ExceptionProtocol Utils.
From S2P Require Import Factories.
From S2P Require Import Broker.

Section Calls.
Context {B : Type} `{PopTransport B}.
Context {F : Type} (GetBufferName : F → chars) (finder : list (@BufferFactory.slot F)).
Context {I : Type} (interface_Serialize : bool → I → M B I) (interface_new : I).
(** [pop_system::platform], and the virtual method [CanKill] of the object. *)
Context (platform : string) (can_kill : bool).

(** What a call does besides the state of the broker and the reply. *)
Inductive effect : Type :=
  | Broadcast                 (* execCond.broadcast() *)
  | SetBufferFactory (f : F)  (* on the connection of the request *)
  | Exit.                     (* exit(1) *)

(** ** The broker *)
Section Server.
Context {S : Type} (cb : combox S).

(** The loop of the call BindStatus: the names of the encodings, separated by blanks. *)
Definition enclist : chars :=
  let count := BufferFactory.GetFactoryCount finder in
  foldl (λ enclist i,
    match BufferFactory.bufferName GetBufferName finder i with
    | Some t => enclist ++ t ++ (if i <? count - 1 then [x20] else [])
    | None => enclist
    end) [] (seqZ 0 count).

(** The results packed after the header, and [buf->Send(req.from)], whose answer is dropped. *)
Definition reply (w : M B ()) (buf : B) (s : S) : result (B * S) :=
  let! r := w buf in
  let! t := Send cb r.2 s in
  Ok (t.1.2, t.2).

(** [reply] to a synchronous call. *)
Definition reply_sync (req : pop_request) (w : M B ()) (buf : B) (s : S) : result (B * S) :=
  if has_flag INVOKE_SYNC req then reply w buf s else Ok (buf, s).

Definition object_active (b : pop_broker) : bool :=
  negb (instanceCount b =? 0) || negb (zlen (request_fifo b) =? 0).

(** [PopCall]: [false] leaves the request to the object. *)
Definition PopCall (req : pop_request) (buf : B) (b : pop_broker) (s : S) :
    result (bool * B * pop_broker * S * list effect) :=
  if 10 <=? methodId req then Ok (false, buf, b, s, [])
  else if methodId req =? 0 then
    let! r := reply_sync req
      (Pack1 PInt 0 ;;; PackString1 platform ;;; PackString1 (bytes_string enclist))
      (SetHeader (header_request 0 0 INVOKE_SYNC (Some "BindStatus")) (Reset buf)) s in
    Ok (true, r.1, b, r.2, [])
  else if methodId req =? 1 then
    match obj b, AddRef b with
    | Some _, Some b' =>
        let ret := default 0 (obj b') in
        let! r := reply_sync req (Pack1 PInt ret)
          (SetHeader (header_response (Some "AddRef")) (Reset buf)) s in
        Ok (true, r.1, b', r.2, [Broadcast])
    | _, _ => Ok (false, buf, b, s, [])
    end
  else if methodId req =? 2 then
    match obj b, DecRef b with
    | Some _, Some b' =>
        let ret := default 0 (obj b') in
        let! r := reply_sync req (Pack1 PInt ret)
          (SetHeader (header_response (Some "DecRef")) (Reset buf)) s in
        Ok (true, r.1, b', r.2, [Broadcast])
    | _, _ => Ok (false, buf, b, s, [])
    end
  else if methodId req =? 3 then
    let! u := UnPackString1 buf in
    let fact := BufferFactory.FindFactory GetBufferName finder (string_bytes u.1) in
    let ret := bool_decide (is_Some fact) in
    let! r := reply_sync req (Pack1 PBool ret)
      (Reset (SetHeader (header_response (Some "Encoding")) u.2)) s in
    Ok (true, r.1, b, r.2, match fact with Some f => [SetBufferFactory f] | None => [] end)
  else if methodId req =? 4 then
    Ok (true, buf, b, s, if bool_decide (obj b ≠ None) && can_kill then [Exit] else [])
  else if methodId req =? 5 then
    match obj b with
    | Some _ =>
        let! r := reply_sync req (Pack1 PBool (object_active b))
          (SetHeader (header_response (Some "ObjectActive")) (Reset buf)) s in
        Ok (true, r.1, b, r.2, [])
    | None => Ok (false, buf, b, s, [])
    end
  else Ok (false, buf, b, s, []).
End Server.

(** [ReceiveRequest], once a connection has data: the message goes into a new buffer, and the
    header says which method is called. *)
Definition ReceiveRequest {S : Type} (cb : combox S) (conn : Z) (fresh : B) (s : S) :
    result (option (pop_request * B) * S) :=
  let! t := Recv cb fresh s in
  if negb t.1.1 then Ok (None, t.2)
  else
    let h := GetHeader t.1.2 in
    let! c := read_member (hdr_id0 h) in
    let! m := read_member (hdr_id1 h) in
    let! sem := read_member (hdr_id2 h) in
    Ok (Some (MkPopRequest (Some conn) (uwrap 32 c) (uwrap 32 m) (uwrap 32 sem) 0, t.1.2), t.2).

(** An iteration of [ReceiveThread]: a call of the run-time is answered at once, another request
    goes to [RegisterRequest]. *)
Definition receive_step {S1 S2 : Type} (cb1 : combox S1) (cb2 : combox S2) (conn : Z) (fresh : B)
    (b : pop_broker) (s1 : S1) (s2 : S2) :
    result (option pop_request * pop_broker * S1 * S2 * list effect) :=
  let! r := ReceiveRequest cb1 conn fresh s1 in
  match r with
  | (None, s1) => Ok (None, b, s1, s2, [])
  | (Some (req, buf), s1) =>
      let! t := PopCall cb2 req buf b s2 in
      let '(done, _, b, s2, eff) := t in
      if (done : bool) then Ok (None, b, s1, s2, eff ++ [Broadcast])
      else Ok (Some req, b, s1, s2, eff)
  end.

(** ** The caller *)

Definition popc_send_request {S : Type} (cb : combox S) (buf : B) (s : S) : result (B * S) :=
  let! t := Send cb buf s in
  if t.1.1 then Ok (t.1.2, t.2) else pop_throw_reason "Buffer sent failed".

(** What the response holds when it is an exception. *)
Definition popc_get_response {S : Type} (cb : combox S) (buf : B) (s : S) :
    result (option (thrown I) * B * S) :=
  let! t := Recv cb buf s in
  if t.1.1 then
    let! c := CheckAndThrow interface_Serialize interface_new t.1.2 in Ok (c.1, c.2, t.2)
  else pop_throw_reason "Buffer receive failed".

(** The common text of the stubs: what is before and after the wait for the response. *)
Definition call_begin {S : Type} (cb : combox S) (h : message_header) (w : M B ()) (buf : B) (s : S) :
    result (B * S) :=
  let! r := w (SetHeader h (Reset buf)) in popc_send_request cb r.2 s.

Definition call_end {S : Type} {A : Type} (cb : combox S) (r : M B A) (buf : B) (s : S) :
    result ((thrown I + A) * B * S) :=
  let! t := popc_get_response cb buf s in
  match t.1.1 with
  | Some e => Ok (inl e, t.1.2, t.2)
  | None => let! a := r t.1.2 in Ok (inr a.1, a.2, t.2)
  end.

(** The synchronous stubs: method, arguments, results. *)
Inductive core_call : Type := BindStatus | CallAddRef | CallDecRef | Encoding (enc : string) | ObjectActive.

Inductive answer : Type :=
  | Status (code : Z) (platform info : string) | RefCount (n : Z) | Flag (v : bool).

Definition stub_header (c : core_call) : message_header :=
  match c with
  | BindStatus => header_request 0 0 INVOKE_SYNC (Some "BindStatus")
  | CallAddRef => header_request 0 1 INVOKE_SYNC (Some "AddRef")
  | CallDecRef => header_request 0 2 INVOKE_SYNC (Some "DecRef")
  | Encoding _ => header_request 0 3 INVOKE_SYNC (Some "Encoding")
  | ObjectActive => header_request 0 5 INVOKE_SYNC (Some "ObjectActive")
  end.

Definition stub_args (c : core_call) : M B () :=
  match c with Encoding enc => PackString1 enc | _ => mret () end.

Definition stub_result (c : core_call) : M B answer :=
  match c with
  | BindStatus =>
      let* code := UnPack1 PInt in
      let* platform := UnPackString1 in
      let* info := UnPackString1 in
      mret (Status code platform info)
  | CallAddRef | CallDecRef => let* ret := UnPack1 PInt in mret (RefCount ret)
  | Encoding _ | ObjectActive => let* ret := UnPack1 PBool in mret (Flag ret)
  end.

(** [Kill] waits for an acknowledgement and releases the interface. *)
Definition Kill_begin {S : Type} (cb : combox S) (buf : B) (s : S) : result (B * S) :=
  call_begin cb (header_request 0 4 0 (Some "Kill")) (mret ()) buf s.

(** [Encoding] is only called with an encoding this side has. *)
Definition Encoding_check (enc : string) : option F :=
  BufferFactory.FindFactory GetBufferName finder (string_bytes enc).

(** ** What a call is meant to do

    The method run on the state of the broker, without messages. *)
Definition core_spec (c : core_call) (b : pop_broker) : option (answer * pop_broker * list effect) :=
  match c with
  | BindStatus => Some (Status 0 platform (bytes_string enclist), b, [])
  | CallAddRef => (λ n, (RefCount (n + 1), b <| obj := Some (n + 1) |>, [Broadcast])) <$> obj b
  | CallDecRef => (λ n, (RefCount (n - 1), b <| obj := Some (n - 1) |>, [Broadcast])) <$> obj b
  | Encoding enc =>
      Some match BufferFactory.FindFactory GetBufferName finder (string_bytes enc) with
           | Some f => (Flag true, b, [SetBufferFactory f])
           | None => (Flag false, b, [])
           end
  | ObjectActive => (λ _, (Flag (object_active b), b, [])) <$> obj b
  end.

(** Arguments and results that fit in a message. *)
Definition fits (s : string) : Prop := string_ok s ∧ 8 * zlen (string_bytes s) + 24 ≤ 2 ^ 29.
Definition call_ok (c : core_call) : Prop :=
  match c with Encoding enc => fits enc | _ => True end.
Definition answer_ok (a : answer) : Prop :=
  match a with
  | Status code platform info => in_sint 32 code = true ∧ fits platform ∧ fits info
  | RefCount n => in_sint 32 n = true
  | Flag _ => True
  end.

(** What the broker packs. *)
Definition answer_pack (a : answer) : M B () :=
  match a with
  | Status code platform info => Pack1 PInt code ;;; PackString1 platform ;;; PackString1 info
  | RefCount n => Pack1 PInt n
  | Flag v => Pack1 PBool v
  end.

Definition answers (c : core_call) (a : answer) : Prop :=
  match c, a with
  | BindStatus, Status _ _ _ | (CallAddRef | CallDecRef), RefCount _
  | (Encoding _ | ObjectActive), Flag _ => True
  | _, _ => False
  end.

Lemma answer_codec c a :
  answers c a → answer_ok a → codec_within (2 ^ 30 + 12) (answer_pack a) () (stub_result c) a.
Proof.
  assert (Hmono : ∀ k (w : M B ()) r, k ≤ 2 ^ 30 + 12 → codec_within k w () r a →
    codec_within (2 ^ 30 + 12) w () r a).
  { intros k w r Hk (bs & L & WR). exists bs. split; [lia | done]. }
  intros Hc Ha. destruct a as [code p i|n|v]; simpl in Ha.
  - destruct c; try done. destruct Ha as (Hz & [Hp Lp] & [Hi Li]).
    eapply Hmono; [| eapply within_bind; [by apply within_prim1 |];
      eapply within_bind; [by apply within_string |];
      eapply within_post; [by apply within_string | done]]. lia.
  - destruct c; try done; (eapply Hmono; [| eapply within_post; [by apply within_prim1 | done]]; lia).
  - destruct c; try done; (eapply Hmono; [| eapply within_post; [by apply within_prim1 | done]]; lia).
Qed.

Lemma start_ok h b :
  buffer_wf (SetHeader h (Reset b)) ∧ length (content (SetHeader h (Reset b))) = 20%nat ∧
  cursor (SetHeader h (Reset b)) = 20%nat ∧
  GetHeader (SetHeader h (Reset b)) = header_assign (GetHeader b) h.
Proof.
  destruct (Reset_ok b) as (Rw & Rc & Rl).
  destruct (SetHeader_ok h (Reset b)) as (-> & -> & -> & _ & Hwf).
  destruct (SetHeader_ok h b) as (_ & _ & _ & -> & _). auto.
Qed.

Lemma start_ok_late h b :
  buffer_wf (Reset (SetHeader h b)) ∧ length (content (Reset (SetHeader h b))) = 20%nat ∧
  cursor (Reset (SetHeader h b)) = 20%nat ∧
  GetHeader (Reset (SetHeader h b)) = header_assign (GetHeader b) h.
Proof.
  destruct (Reset_ok (SetHeader h b)) as (Rw & Rc & Rl).
  destruct (SetHeader_ok h (SetHeader h b)) as (_ & _ & _ & -> & _).
  by destruct (SetHeader_ok h b) as (_ & _ & -> & _).
Qed.

Definition response_header (h : message_header) : Prop :=
  header_sendable h ∧ header_ranged h ∧ hdr_type h ≠ TYPE_EXCEPTION.

(** A reply that is sent is what the caller gets. *)
Lemma reply_delivered {S : Type} (cb : combox S) `{!ComboxStream cb} `{!ComboxChannel cb} k
    (w : M B ()) {A} (r : M B A) a (buf bc : B) s :
  codec_within k w () r a → 20 + k ≤ int_max →
  buffer_wf buf → length (content buf) = 20%nat → cursor buf = 20%nat →
  response_header (GetHeader buf) → incoming s = [] →
  ∃ buf' s', reply cb w buf s = Ok (buf', s') ∧
  ∃ bc' s'', call_end cb r bc s' = Ok (inr a, bc', s'') ∧ incoming s'' = [] ∧
    (header_ranged (GetHeader bc) → header_ranged (GetHeader bc')).
Proof.
  intros Hc Hk Hwf Hl Hcu (Hs & Hr & Ht) Hin.
  destruct (message_delivered cb k w () r a buf bc s)
    as (b1 & b2 & s1 & b3 & s2 & b4 & E1 & E2 & E3 & Hs2 & _ & (Ha & _) & Hrg & E4 & _ & Eh & _); try done.
  exists b2, s1. unfold reply. rewrite E1. cbn [rbind snd]. rewrite E2. split; [done |].
  exists b4, s2. unfold call_end, popc_get_response. rewrite E3. cbn [rbind fst snd].
  unfold CheckAndThrow. rewrite (proj2 (Z.eqb_neq _ _)) by congruence.
  cbn [negb rbind fst snd]. rewrite E4, Eh. by split_and!.
Qed.

(** The header of the reply. *)
Definition reply_header (c : core_call) : message_header :=
  match c with
  | BindStatus => header_request 0 0 INVOKE_SYNC (Some "BindStatus")
  | CallAddRef => header_response (Some "AddRef")
  | CallDecRef => header_response (Some "DecRef")
  | Encoding _ => header_response (Some "Encoding")
  | ObjectActive => header_response (Some "ObjectActive")
  end.

Definition call_number (c : core_call) : Z :=
  match c with
  | BindStatus => 0 | CallAddRef => 1 | CallDecRef => 2 | Encoding _ => 3 | ObjectActive => 5
  end.

(** What the arguments of a call are to its reader. *)
Definition args_read (c : core_call) (buf buf' : B) : Prop :=
  match c with
  | Encoding enc => UnPackString1 buf = Ok (enc, buf') ∧ GetHeader buf' = GetHeader buf
  | _ => buf' = buf
  end.

(** [PopCall] does what the call is meant to do, and replies. *)
Lemma PopCall_replies {S : Type} (cb : combox S) c req (buf buf' : B) b s a b' eff :
  methodId req = call_number c → has_flag INVOKE_SYNC req = true → args_read c buf buf' →
  core_spec c b = Some (a, b', eff) →
  ∃ start, PopCall cb req buf b s
           = (let! r := reply cb (answer_pack a) start s in Ok (true, r.1, b', r.2, eff)) ∧
    buffer_wf start ∧ length (content start) = 20%nat ∧ cursor start = 20%nat ∧
    GetHeader start = header_assign (GetHeader buf) (reply_header c) ∧ answers c a.
Proof.
  intros Hm Hf Hr Hs. unfold PopCall, reply_sync. rewrite Hm, Hf.
  destruct c; simpl in Hs, Hr |- *.
  - simplify_eq. eexists. split; [reflexivity | by split_and!; try apply start_ok].
  - unfold AddRef. destruct (obj b) as [n|]; simplify_eq/=.
    eexists. split; [reflexivity | by split_and!; try apply start_ok].
  - unfold DecRef. destruct (obj b) as [n|]; simplify_eq/=.
    eexists. split; [reflexivity | by split_and!; try apply start_ok].
  - destruct Hr as [-> <-]. cbn [rbind fst snd].
    destruct (BufferFactory.FindFactory GetBufferName finder (string_bytes enc)) as [f|];
      simplify_eq/=; (eexists; split; [reflexivity | by split_and!; try apply start_ok_late]).
  - destruct (obj b) as [n|]; simplify_eq/=.
    eexists. split; [reflexivity | by split_and!; try apply start_ok].
Qed.

Lemma reply_header_ok c h :
  header_ranged h → hdr_id0 h ≠ None → hdr_id1 h ≠ None →
  response_header (header_assign h (reply_header c)).
Proof.
  intros Hr Hi0 Hi1. split_and!.
  - intros n. destruct h as [ty [] [] i2 mn ex]; try done. destruct c; by eexists.
  - apply header_assign_ranged; [done |]. destruct c; repeat constructor.
  - by destruct c.
Qed.

Lemma args_delivered c : ∃ (r : M B ()), call_ok c →
  codec_within (2 ^ 30) (stub_args c) () r () ∧
  ∀ buf buf', r buf = Ok ((), buf') → GetHeader buf' = GetHeader buf → args_read c buf buf'.
Proof.
  destruct c as [| | |enc|]; try (exists (mret ()); intros _; split;
    [exists []; split_and!; [done | apply writes_ret | apply reads_ret] | by intros ?? [= <-]]).
  exists (let* s := UnPackString1 in if decide (s = enc) then mret () else mlift Stuck).
  intros [Hs Hl]. split.
  - destruct (within_string enc Hs) as (bs & L & W & R). exists bs. split_and!; [simpl in *; lia | done |].
    rewrite <- (app_nil_r bs). eapply reads_bind; [exact R |]. rewrite decide_True by done.
    apply reads_ret.
  - intros buf buf' E Hh. apply rbind_Ok in E as ([s b1] & E1 & E2). simpl in E2.
    destruct (decide (s = enc)) as [->|]; [|done]. injection E2 as ->. by split.
Qed.

(** A call, from the stub to the broker and back. *)
Lemma core_call_runs {S1 S2 : Type} (cb1 : combox S1) `{!ComboxStream cb1} `{!ComboxChannel cb1}
    (cb2 : combox S2) `{!ComboxStream cb2} `{!ComboxChannel cb2}
    c conn (fresh bc : B) b s1 s2 a b' eff :
  call_ok c → core_spec c b = Some (a, b', eff) → answer_ok a →
  header_ranged (GetHeader fresh) → header_ranged (GetHeader bc) →
  incoming s1 = [] → incoming s2 = [] →
  ∃ bc' s1' s1'' s2' bc'' s2'',
    call_begin cb1 (stub_header c) (stub_args c) bc s1 = Ok (bc', s1') ∧
    receive_step cb1 cb2 conn fresh b s1' s2 = Ok (None, b', s1'', s2', eff ++ [Broadcast]) ∧
    call_end cb2 (stub_result c) bc' s2' = Ok (inr a, bc'', s2'') ∧
    incoming s1'' = [] ∧ incoming s2'' = [] ∧
    header_ranged (GetHeader bc'').
Proof.
  intros Hc Hs Ha Hf Hb Hin1 Hin2. destruct (args_delivered c) as (r & Hargs).
  destruct (Hargs Hc) as [Hcodec Hread]. clear Hargs.
  destruct (start_ok (stub_header c) bc) as (Hwf & Hl & Hcu & Hh).
  destruct (message_delivered cb1 (2 ^ 30) (stub_args c) () r ()
    (SetHeader (stub_header c) (Reset bc)) fresh s1)
    as (b1 & b2 & s1' & b3 & s1'' & b4 & E1 & E2 & E3 & Hi & _ & Hag & Hrg & E4 & _ & Hh4 & Hh2); try done.
  { rewrite Hh. intros n. destruct c; by eexists. }
  { rewrite Hh. apply header_assign_ranged; [done |]. destruct c; repeat constructor. }
  destruct Hag as (_ & Hreq & _). rewrite Hh in Hreq.
  assert (Hids : hdr_id0 (GetHeader b3) = Some 0 ∧ hdr_id1 (GetHeader b3) = Some (call_number c) ∧
    hdr_id2 (GetHeader b3) = Some INVOKE_SYNC).
  { destruct Hreq as (<- & <- & <-); [by destruct c | by destruct c]. }
  destruct Hids as (I0 & I1 & I2).
  set (req := MkPopRequest (Some conn) (uwrap 32 0) (uwrap 32 (call_number c)) (uwrap 32 INVOKE_SYNC) 0).
  destruct (PopCall_replies cb2 c req b3 b4 b s2 a b' eff) as (start & Ep & Sw & Sl & Sc & Sh & Hans);
    [by destruct c | done | by apply Hread | done |].
  destruct (reply_delivered cb2 (2 ^ 30 + 12) (answer_pack a) (stub_result c) a start b2 s2)
    as (buf' & s2' & Er & bc'' & s2'' & Ee & Hin2' & Hrg2); try done.
  { by apply answer_codec. }
  { rewrite Sh. apply reply_header_ok; [auto | by rewrite I0 | by rewrite I1]. }
  exists b2, s1', s1'', s2', bc'', s2''. split_and!; try done.
  - unfold call_begin, popc_send_request. rewrite E1. cbn [rbind fst snd]. by rewrite E2.
  - unfold receive_step, ReceiveRequest. rewrite E3. cbn [rbind fst snd negb].
    rewrite I0, I1, I2. cbn [read_member rbind]. fold req. by rewrite Ep, Er.
  - apply Hrg2. rewrite Hh2, Hh. apply header_assign_ranged; [done |]. by destruct c; repeat constructor.
Qed.

(** C32: the calls of the run-time end to end. Each synchronous call of the run-time, marshalled by the
    stub, received and treated by the broker, answered and read back, succeeds and amounts to the
    operation on the state of the broker: the caller gets its result, the broker is in its state,
    both streams are empty again. *)
Theorem core_call_correct {S1 S2 : Type} (cb1 : combox S1) `{!ComboxStream cb1} `{!ComboxChannel cb1}
    (cb2 : combox S2) `{!ComboxStream cb2} `{!ComboxChannel cb2}
    c conn (fresh bc : B) b s1 s2 a b' eff :
  call_ok c → core_spec c b = Some (a, b', eff) → answer_ok a →
  header_ranged (GetHeader fresh) → header_ranged (GetHeader bc) →
  incoming s1 = [] → incoming s2 = [] →
  ∃ bc' s1' s1'' s2' bc'' s2'',
    call_begin cb1 (stub_header c) (stub_args c) bc s1 = Ok (bc', s1') ∧
    receive_step cb1 cb2 conn fresh b s1' s2 = Ok (None, b', s1'', s2', eff ++ [Broadcast]) ∧
    call_end cb2 (stub_result c) bc' s2' = Ok (inr a, bc'', s2'') ∧
    incoming s1'' = [] ∧ incoming s2'' = [].
Proof.
  intros Hc Hs Ha Hf Hb Hin1 Hin2.
  destruct (core_call_runs cb1 cb2 c conn fresh bc b s1 s2 a b' eff Hc Hs Ha Hf Hb Hin1 Hin2)
    as (bc' & s1' & s1'' & s2' & bc'' & s2'' & E1 & E2 & E3 & Hi1 & Hi2 & _).
  by exists bc', s1', s1'', s2', bc'', s2''.
Qed.

(** ** What a method throws *)

(** The values [DoInvoke] tells apart; [RaiseStd] and [RaiseStdPtr] carry what [what()] answers. *)
Inductive raised : Type :=
  | RaisePrim (t : prim) (v : val t)
  | RaiseInterface (o : I)
  | RaiseString (s : option (list byte))
  | RaisePopPtr (e : pop_exception)
  | RaisePop (e : pop_exception)
  | RaiseStdPtr (what : string)
  | RaiseStd (what : string)
  | RaiseOther.

Inductive outcome : Type :=
  | Returned (known : bool)   (* Invoke returned: false for an unknown method *)
  | Raised (x : raised).

Section Invocation.
(** [classname], [accesspoint.GetAccessString()], the texts of the C library, and what [what()]
    answers for a [std::exception] that is no more than that. *)
Context (classname address std_what : string) (strerror : Z → string).

Definition where_ : string := classname +:+ "@" +:+ address.

(** The text is put behind what it repeats. *)
Definition add_where (e : pop_exception) : pop_exception :=
  AddInfo (if decide (exc_info e = "") then where_ else where_ +:+ ": " +:+ exc_info e) e.

Definition std_exception (what : string) : pop_exception :=
  AddInfo (where_ +:+ ": " +:+ what) (exception_of_code strerror STD_EXCEPTION).

(** The handlers, in their order: no handler names [signed char], and [std::exception] is caught
    by value, so that only the base class is left of it. *)
Definition handler (x : raised) : thrown I :=
  match x with
  | RaisePrim PSChar _ | RaiseOther =>
      ThrStd (AddInfo where_ (exception_of_code strerror UNKNOWN_EXCEPTION))
  | RaisePrim t v => ThrPrim t v
  | RaiseInterface o => ThrObject o
  | RaiseString s => ThrString s
  | RaisePopPtr e | RaisePop e => ThrStd (add_where e)
  | RaiseStdPtr what => ThrStd (std_exception what)
  | RaiseStd _ => ThrStd (std_exception std_what)
  end.

(** What leaves the [try] block. *)
Definition escapes (o : outcome) : option raised :=
  match o with
  | Returned true => None
  | Returned false =>
      Some (RaisePop (exception_make strerror OBJECT_MISMATCH_METHOD "Mismatched method was invoked" ""))
  | Raised x => Some x
  end.

(** [DoInvoke]: what is sent back, the state of the broker, the result. *)
Definition DoInvoke (appservice_known : bool) (o : outcome) (req : pop_request) (b : pop_broker) :
    option (thrown I) * pop_broker * bool :=
  let '(sent, b) :=
    match escapes o with
    | None => (None, b)
    | Some x =>
        match from req with
        | Some _ => (Some (handler x), b)
        | None => (None, set_abort appservice_known b)
        end
    end in
  (sent, b, negb (bool_decide (obj b = None) || unreferenced b)).

(** [SendException] on the connection of the request. *)
Definition send_back {S : Type} (cb : combox S) (x : option (thrown I)) (data : B) (s : S) :
    result (option (bool * B * S)) :=
  match x with
  | None => Ok None
  | Some x =>
      match SendException interface_Serialize cb x with
      | Some send => let! r := send data s in Ok (Some r)
      | None => Ok None
      end
  end.

Lemma handler_sent {S : Type} (cb : combox S) x :
  ∃ send, SendException interface_Serialize cb (handler x) = Some send.
Proof. destruct x as [[]| | | | | | |]; by eexists. Qed.

End Invocation.
End Calls.

(** ** Concrete calls

    An object with the encodings "xdr" and "raw" and one reference, on raw buffers, over
    connections that deliver seven and five bytes at a time. *)
Definition encodings : list (@BufferFactory.slot chars) :=
  BufferFactory.finder_new (string_bytes "xdr") [(1, Some (7, string_bytes "raw"))].

Definition no_interface : bool → () → M buffer_raw () := λ _ o, mret o.

Lemma core_call_correct_witness :
  let b := broker_new <| obj := Some 1 |> in
  ∃ bc' s1' s1'' s2' bc'' s2'',
    call_begin (loop_box 7) (stub_header CallAddRef) (stub_args CallAddRef) raw_new [] = Ok (bc', s1') ∧
    receive_step id encodings "Linux" false (loop_box 7) (loop_box 5) 3 raw_new b s1' []
    = Ok (None, broker_new <| obj := Some 2 |>, s1'', s2', [Broadcast; Broadcast]) ∧
    call_end no_interface () (loop_box 5) (stub_result CallAddRef) bc' s2'
    = Ok (inr (RefCount 2), bc'', s2'').
Proof.
  intros b.
  destruct (core_call_correct id encodings no_interface () "Linux" false (loop_box 7) (loop_box 5)
    CallAddRef 3 raw_new raw_new b [] [] (RefCount 2) (broker_new <| obj := Some 2 |>) [Broadcast])
    as (bc' & s1' & s1'' & s2' & bc'' & s2'' & E1 & E2 & E3 & _).
  - exact I.
  - reflexivity.
  - reflexivity.
  - repeat constructor.
  - repeat constructor.
  - reflexivity.
  - reflexivity.
  - exists bc', s1', s1'', s2', bc'', s2''. split; [exact E1 |]. split; [exact E2 | exact E3].
Defined.

