(* ===== verification/References.v ===== *)
(** * Who keeps an object alive

    A parallel object counts the interfaces that are bound to it ([pop_object::AddRef], [DecRef],
    lib/dynamic/object.cc): a connection that opens or closes counts
    ([pop_broker::OnNewConnection], [OnCloseConnection], lib/dynamic/broker_receive.cc), and an
    interface that is marshalled holds a reference until it is rebuilt
    ([pop_interface::Serialize], lib/dynamic/interface.cc). This file follows the count through
    the life of all the interfaces of one object; the broker is that of Broker.v. *)

From S2P Require Import Prelude Machine Buffer Broker.

(** ** The two callbacks of the communication box *)

Definition OnNewConnection (b : pop_broker) : pop_broker := default b (AddRef b).
Definition OnCloseConnection (b : pop_broker) : pop_broker := default b (DecRef b).

(** The object and the interfaces on it: connections open, closed by the client and not yet seen
    closed by the broker, the references in messages, and by how much the count is off: the
    connections it does not count less the references nobody holds. *)
Record references : Type := MkReferences {
  broker : pop_broker;
  connections : Z;
  closing : Z;
  in_transit : list Z;
  uncounted : Z }.
#[export] Instance references_eta : Eta references := λ r,
  MkReferences (broker r) (connections r) (closing r) (in_transit r) (uncounted r).

Definition references_new : references := MkReferences broker_new 0 0 [] 0.

(** [Bind]: its answer from the broker comes after the connection was accepted. *)
Definition Bind (r : references) : references :=
  r <| broker := OnNewConnection (broker r) |> <| connections := connections r + 1 |>.

(** [pop_interface(const pop_accesspoint&)]. *)
Definition interface_of (noaddref : bool) (r : references) : option references :=
  let r := Bind r in
  if noaddref then
    match DecRef (broker r) with
    | Some b => Some (r <| broker := b |> <| uncounted := uncounted r + 1 |>)
    | None => None   (* the call is not answered while there is no object *)
    end
  else Some r.

Definition Release (r : references) : option references :=
  if 0 <? connections r
  then Some (r <| connections := connections r - 1 |> <| closing := closing r + 1 |>) else None.

Definition connection_closed (r : references) : option references :=
  if 0 <? closing r
  then Some (r <| broker := OnCloseConnection (broker r) |> <| closing := closing r - 1 |>)
  else None.

(** [Serialize]: packing adds a reference and sends the count, unpacking binds and drops it. *)
Definition Serialize_pack (r : references) : option references :=
  if 0 <? connections r then
    match AddRef (broker r) with
    | Some b => Some (r <| broker := b |> <| in_transit := in_transit r ++ [default 0 (obj b)] |>)
    | None => None
    end
  else None.

Definition Serialize_unpack (i : nat) (r : references) : option references :=
  match in_transit r !! i with
  | Some ref =>
      let r := r <| in_transit := delete i (in_transit r) |> in
      if 0 <? ref then
        let r := Bind r in
        match DecRef (broker r) with Some b => Some (r <| broker := b |>) | None => None end
      else Some (r <| uncounted := uncounted r - 1 |>)
  | None => None
  end.

(** The constructor of the object: its count starts at one, for the creator. *)
Definition construct (b : pop_broker) (r : references) : references :=
  r <| broker := b |> <| uncounted := connections r + closing r - 1 |>.

(** ** All the interfaces of an object, and its broker, in any order *)
Inductive event : Type :=
  | EBind | EInterface (noaddref : bool) | ERelease | EClosed | EPack | EUnpack (i : nat)
  | EBroker (a : action).

(** A step of the broker that is no call of the run-time; only the first constructor makes an
    object, before any interface is marshalled. *)
Definition broker_step (a : action) (r : references) : option references :=
  match a with
  | AAddRef | ADecRef => None
  | AFinish true _ =>
      if bool_decide (obj (broker r) = None) && bool_decide (in_transit r = []) then
        match perform a (broker r) with
        | Some b => Some (if bool_decide (obj b = None) then r <| broker := b |> else construct b r)
        | None => None
        end
      else None
  | _ => match perform a (broker r) with Some b => Some (r <| broker := b |>) | None => None end
  end.

Definition happen (e : event) (r : references) : option references :=
  match e with
  | EBind => Some (Bind r)
  | EInterface noaddref => interface_of noaddref r
  | ERelease => Release r
  | EClosed => connection_closed r
  | EPack => Serialize_pack r
  | EUnpack i => Serialize_unpack i r
  | EBroker a => broker_step a r
  end.

Inductive ref_reachable : references → Prop :=
  | ref_new : ref_reachable references_new
  | ref_step e r r' : ref_reachable r → happen e r = Some r' → ref_reachable r'.

Fixpoint play (l : list event) (r : references) : option references :=
  match l with
  | [] => Some r
  | e :: l' => match happen e r with Some r' => play l' r' | None => None end
  end.

Lemma play_reachable l r r' : ref_reachable r → play l r = Some r' → ref_reachable r'.
Proof.
  revert r. induction l as [|e l IH]; intros r Hr; simpl; [by intros [= <-] |].
  destruct (happen e r) as [r1|] eqn:E; [|done]. apply IH. by eapply ref_step.
Qed.

(** ** The count *)
Record ref_inv (r : references) : Prop := {
  inv_connections : 0 ≤ connections r;
  inv_closing : 0 ≤ closing r;
  inv_transit : obj (broker r) = None → in_transit r = [];
  inv_count : ∀ n, obj (broker r) = Some n →
    n = connections r + closing r + zlen (in_transit r) - uncounted r }.

Lemma delete_zlen {A : Type} (i : nat) (l : list A) x :
  l !! i = Some x → zlen (delete i l) = zlen l - 1.
Proof. intros H. apply lookup_lt_Some in H as Hl. rewrite length_delete by eauto. lia. Qed.

(** Only a constructor and the calls of the run-time touch the count. *)
Lemma perform_obj a b b' :
  perform a b = Some b' →
  match a with
  | AAddRef | ADecRef => True
  | AFinish true _ => obj b' = obj b ∨ obj b' = Some 1
  | _ => obj b' = obj b
  end.
Proof.
  destruct b as [o st ic mc cp fifo m rn mx ar].
  destruct a as [r|i| | | | | | |created abort|i abort| | | |];
    unfold perform, register_enter, register_push_mutex, register_push_conc, register_leave,
      enter_loop, GetRequest, mutex_ready, ServeRequest, finish, instance_end, leave_loop, exit_run,
      after_serve, set_abort; simpl; intros H;
    repeat first [case_match; simplify_eq/= | progress simplify_eq/=]; auto.
Qed.

(** A connection and a reference more or less. *)
Lemma AddRef_obj b : obj (OnNewConnection b) = (λ n, n + 1) <$> obj b.
Proof. by destruct b as [[n|]]. Qed.
Lemma DecRef_obj b : obj (OnCloseConnection b) = (λ n, n - 1) <$> obj b.
Proof. by destruct b as [[n|]]. Qed.
Lemma AddRef_Some b b' : AddRef b = Some b' → ∃ n, obj b = Some n ∧ obj b' = Some (n + 1).
Proof. unfold AddRef. destruct (obj b) as [n|]; [|done]. intros [= <-]. by exists n. Qed.
Lemma DecRef_Some b b' : DecRef b = Some b' → ∃ n, obj b = Some n ∧ obj b' = Some (n - 1).
Proof. unfold DecRef. destruct (obj b) as [n|]; [|done]. intros [= <-]. by exists n. Qed.

Lemma broker_step_inv a r r' : ref_inv r → broker_step a r = Some r' → ref_inv r'.
Proof.
  intros [Hco Hcl Htr Hn] H.
  assert (Hsame : ∀ b, obj b = obj (broker r) → ref_inv (r <| broker := b |>))
    by (intros b Eb; constructor; simpl; by rewrite ?Eb).
  assert (Hany : ∀ b, perform a (broker r) = Some b → r' = r <| broker := b |> →
    match a with AAddRef | ADecRef | AFinish true _ => False | _ => True end → ref_inv r').
  { intros b Eb -> Ha. apply Hsame. apply perform_obj in Eb. by destruct a as [| | | | | | | |[]| | | | |]. }
  unfold broker_step in H.
  destruct a as [q|i| | | | | | |[] abort|i abort| | | |]; try done;
    try (destruct (perform _ (broker r)) as [b|] eqn:Eb; simplify_eq; by eapply Hany).
  destruct (bool_decide (obj (broker r) = None) && bool_decide (in_transit r = [])) eqn:E; [|done].
  apply andb_true_iff in E as [E1 E2]. apply bool_decide_eq_true in E1, E2.
  destruct (perform _ (broker r)) as [b|] eqn:Eb; [|done]. injection H as <-.
  apply perform_obj in Eb. destruct Eb as [Eb | Eb].
  - rewrite bool_decide_true by congruence. by apply Hsame.
  - rewrite bool_decide_false by congruence. constructor; simpl; [done | done | congruence |].
    intros n. rewrite Eb, E2. intros [= <-]. simpl. lia.
Qed.

Lemma ref_inv_step e r r' : ref_inv r → happen e r = Some r' → ref_inv r'.
Proof.
  intros Hr H. destruct e as [|[]| | | |i|a]; simpl in H; [..| by eapply broker_step_inv];
    destruct Hr as [Hco Hcl Htr Hn].
  - simplify_eq. constructor; simpl; [lia | done | |].
    + rewrite AddRef_obj. destruct (obj (broker r)); [done | auto].
    + intros n. rewrite AddRef_obj. destruct (obj (broker r)) as [m|]; [|done].
      intros [= <-]. specialize (Hn m eq_refl). lia.
  - unfold interface_of in H. simpl in H.
    destruct (DecRef (OnNewConnection (broker r))) as [b|] eqn:E; simplify_eq.
    apply DecRef_Some in E as (n & En & Eb). rewrite AddRef_obj in En.
    destruct (obj (broker r)) as [m|]; simplify_eq/=. specialize (Hn m eq_refl).
    constructor; simpl; [lia | done | by rewrite Eb |]. intros n. rewrite Eb. intros [= <-]. lia.
  - unfold interface_of in H. simplify_eq. constructor; simpl; [lia | done | |].
    + rewrite AddRef_obj. destruct (obj (broker r)); [done | auto].
    + intros n. rewrite AddRef_obj. destruct (obj (broker r)) as [m|]; [|done].
      intros [= <-]. specialize (Hn m eq_refl). lia.
  - unfold Release in H. case_match; simplify_eq. reflect_bools.
    constructor; simpl; [lia | lia | done |]. intros n En. specialize (Hn n En). lia.
  - unfold connection_closed in H. case_match; simplify_eq. reflect_bools.
    constructor; simpl; [lia | lia | |].
    + rewrite DecRef_obj. destruct (obj (broker r)); [done | auto].
    + intros n. rewrite DecRef_obj. destruct (obj (broker r)) as [m|]; [|done].
      intros [= <-]. specialize (Hn m eq_refl). lia.
  - unfold Serialize_pack in H. case_match; [|done].
    destruct (AddRef (broker r)) as [b|] eqn:E; simplify_eq.
    apply AddRef_Some in E as (n & En & Eb). specialize (Hn n En).
    constructor; simpl; [done | done | by rewrite Eb |].
    intros m. rewrite Eb. intros [= <-]. rewrite zlen_app. simpl. lia.
  - unfold Serialize_unpack in H. destruct (in_transit r !! i) as [ref|] eqn:Ei; [|done].
    pose proof (delete_zlen _ _ _ Ei) as Hd.
    destruct (0 <? ref); [|simplify_eq; constructor; simpl; try done].
    + simpl in H. destruct (DecRef (OnNewConnection (broker r))) as [b|] eqn:E; simplify_eq.
      apply DecRef_Some in E as (n & En & Eb). rewrite AddRef_obj in En.
      destruct (obj (broker r)) as [m|]; simplify_eq/=. specialize (Hn m eq_refl).
      constructor; simpl; [lia | done | by rewrite Eb |]. intros n. rewrite Eb. intros [= <-]. lia.
    + intros Eo. rewrite (Htr Eo) in Ei. done.
    + intros n En. specialize (Hn n En). lia.
Qed.

Lemma ref_inv_reachable r : ref_reachable r → ref_inv r.
Proof.
  induction 1 as [|e r r' _ IH E]; [by constructor | by eapply ref_inv_step].
Qed.

(** C34: the count of an object is exact. In every state the object and its interfaces can reach, its
    count is the number of connections its broker has not seen closed, plus the references in
    messages, less those that are uncounted; so when none is, the count is zero exactly when
    no interface is left anywhere. *)
Theorem references_exact r n :
  ref_reachable r → obj (broker r) = Some n →
  n = connections r + closing r + zlen (in_transit r) - uncounted r ∧
  (uncounted r = 0 →
   (unreferenced (broker r) = true ↔ connections r = 0 ∧ closing r = 0 ∧ in_transit r = [])).
Proof.
  intros Hr En. destruct (ref_inv_reachable r Hr) as [Hco Hcl _ Hn]. specialize (Hn n En).
  split; [done |]. intros Hu. unfold unreferenced. rewrite En, Z.leb_le.
  rewrite <- (length_zero_iff_nil (in_transit r)). lia.
Qed.

(** A client creates the object, sends a reference to it to another process, and leaves. *)
Definition request_new_object : pop_request := MkPopRequest (Some 1) 0 10 INVOKE_CONSTRUCTOR 0.
Definition created : list event :=
  [EBind; EBroker (ARegister request_new_object); EBroker AEnter; EBroker AGet; EBroker AServe;
   EBroker (AFinish true false)].

Lemma references_exact_witness :
  match play (created ++ [EPack; ERelease; EClosed; EUnpack 0%nat]) references_new with
  | Some r => obj (broker r) = Some 1 ∧ 1 = connections r + closing r + zlen (in_transit r) - uncounted r
  | None => False
  end.
Proof.
  destruct (play (created ++ [EPack; ERelease; EClosed; EUnpack 0%nat]) references_new) as [r|] eqn:E;
    [|discriminate E].
  assert (En : obj (broker r) = Some 1) by (vm_compute in E; injection E as <-; reflexivity).
  split; [exact En |].
  destruct (references_exact r 1 (play_reachable _ _ _ ref_new E) En) as [H _]. exact H.
Defined.

(** An interface built from the access point of the object itself costs a reference when it is
    closed. The object of a client that is still connected then has no reference left, and
    its broker leaves its loop. *)
Theorem own_access_point_costs_reference :
  ∃ l r b, play (created ++ EInterface true :: l) references_new = Some r ∧
    connections r = 1 ∧ closing r = 0 ∧ obj (broker r) = Some 0 ∧
    leave_loop (broker r) = Some b ∧ main b = Draining.
Proof.
  eexists [ERelease; EClosed; EBroker AEnter], _, _.
  split; [vm_compute; reflexivity |]. by split_and!.
Qed.
