(* ===== verification/Services.v ===== *)
(** * The services of an application

    [pop_service_base] (services/lib/service_base.cc), the code manager (codemgr.cc), the object
    monitor (objectmonitor.cc), the batch manager (batchmgr.cc) and the list of services of
    [AppCoreService] (appservice.cc). Each method runs alone on its object. *)

From S2P Require Import Prelude Machine Buffer Exceptions AccessPoint Utils.

(** ** Starting and stopping a service *)
Module ServiceBase.
Record pop_service_base : Type := MkService {
  refcount : Z;
  mychallenge : string;
  daemonMode : bool }.
#[global] Instance pop_service_base_eta : Eta pop_service_base := λ s,
  MkService (refcount s) (mychallenge s) (daemonMode s).

(** The constructors; [pop_object] starts with one reference. *)
Definition service_new (challenge : string) : pop_service_base := MkService 1 challenge false.

(** The virtual methods of [pop_object]: a daemon does not count. *)
Definition AddRef (s : pop_service_base) : Z * pop_service_base :=
  if daemonMode s then (1, s) else (refcount s + 1, s <| refcount := refcount s + 1 |>).
Definition DecRef (s : pop_service_base) : Z * pop_service_base :=
  if daemonMode s then (1, s) else (refcount s - 1, s <| refcount := refcount s - 1 |>).
Definition CanKill (s : pop_service_base) : bool := negb (daemonMode s).

(** [while (GetRefCount() > 1) DecRef()], with a bound on the turns. *)
Fixpoint drop_references (fuel : nat) (s : pop_service_base) : option pop_service_base :=
  match fuel with
  | O => None
  | S fuel' => if 1 <? refcount s then drop_references fuel' (DecRef s).2 else Some s
  end.

(** [Start()]: the object monitor is told afterwards. *)
Definition Start (fuel : nat) (s : pop_service_base) : option pop_service_base :=
  match drop_references fuel s with
  | Some s => Some (s <| daemonMode := true |>)
  | None => None
  end.

Definition may (challenge : string) (s : pop_service_base) : bool :=
  bool_decide (mychallenge s = challenge) || bool_decide (mychallenge s = "").

(** [Start(challenge)]. *)
Definition Start_with (fuel : nat) (challenge : string) (s : pop_service_base) :
    option pop_service_base :=
  if may challenge s then
    match drop_references fuel s with
    | Some s => Start fuel (s <| mychallenge := challenge |>)
    | None => None
    end
  else Some s.

Definition Stop (challenge : string) (s : pop_service_base) : bool * pop_service_base :=
  if may challenge s then (true, s <| daemonMode := false |>) else (false, s).

(** What the callers of a service do, in any order. *)
Inductive service_step : pop_service_base → pop_service_base → Prop :=
  | step_addref s : service_step s (AddRef s).2
  | step_decref s : service_step s (DecRef s).2
  | step_start fuel s s' : Start fuel s = Some s' → service_step s s'
  | step_start_with fuel c s s' : Start_with fuel c s = Some s' → service_step s s'
  | step_stop c s : service_step s (Stop c s).2.

Inductive service_reachable (challenge : string) : pop_service_base → Prop :=
  | service_begin : service_reachable challenge (service_new challenge)
  | service_next s s' : service_reachable challenge s → service_step s s' →
      service_reachable challenge s'.

(** A daemon holds at most one reference, or the loop of [Start] would not end. *)
Definition service_ok (s : pop_service_base) : Prop := daemonMode s = true → refcount s ≤ 1.

Lemma drop_references_spec fuel s :
  (Z.to_nat (refcount s) < fuel)%nat → service_ok s →
  ∃ s', drop_references fuel s = Some s' ∧ refcount s' = Z.min (refcount s) 1 ∧
    mychallenge s' = mychallenge s ∧ daemonMode s' = daemonMode s.
Proof.
  revert s. induction fuel as [|fuel IH]; intros s Hf Ho; [lia |]. simpl.
  destruct (1 <? refcount s) eqn:E; reflect_bools.
  - unfold service_ok in Ho. destruct (daemonMode s) eqn:Ed; [specialize (Ho eq_refl); lia |].
    unfold DecRef. rewrite Ed. simpl.
    destruct (IH (s <| refcount := refcount s - 1 |>)) as (s' & E' & Hr & Hm & Hd).
    { simpl. lia. } { unfold service_ok. simpl. by rewrite Ed. }
    exists s'. rewrite E', Hr, Hm, Hd. simpl. split_and!; [done | lia | done | by rewrite Ed].
  - exists s. split_and!; [done | lia | done | done].
Qed.

Lemma drop_references_ok fuel s s' :
  drop_references fuel s = Some s' → refcount s' ≤ 1 ∧ mychallenge s' = mychallenge s.
Proof.
  revert s. induction fuel as [|fuel IH]; intros s; simpl; [done |].
  destruct (1 <? refcount s) eqn:E; reflect_bools; [|by intros [= <-]].
  intros H. destruct (IH _ H) as [Hr ->]. split; [done |]. unfold DecRef. by destruct (daemonMode s).
Qed.

Lemma Start_ok fuel s s' : Start fuel s = Some s' → service_ok s' ∧ mychallenge s' = mychallenge s.
Proof.
  unfold Start. destruct (drop_references fuel s) as [s1|] eqn:E; [|done]. intros [= <-].
  destruct (drop_references_ok _ _ _ E) as [Hr Hm]. split; [by intros _ | done].
Qed.

Lemma service_step_ok s s' : service_ok s → service_step s s' → service_ok s'.
Proof.
  unfold service_ok. intros Ho H. destruct H as [s|s|fuel s s' E|fuel c s s' E|c s].
  - unfold AddRef. by destruct (daemonMode s) eqn:Ed; simpl; rewrite ?Ed.
  - unfold DecRef. by destruct (daemonMode s) eqn:Ed; simpl; rewrite ?Ed.
  - by apply Start_ok in E as [H _].
  - unfold Start_with in E. destruct (may c s); [|by simplify_eq].
    destruct (drop_references fuel s) as [s1|]; [|done]. by apply Start_ok in E as [H _].
  - unfold Stop. by destruct (may c s); simpl.
Qed.

Lemma service_reachable_ok c s : service_reachable c s → service_ok s.
Proof. induction 1 as [|s s' _ IH E]; [done | by eapply service_step_ok]. Qed.

(** A challenge that was set is never lost. *)
Lemma service_step_challenge s s' :
  service_step s s' → mychallenge s ≠ "" → mychallenge s' = mychallenge s.
Proof.
  intros H Hne. destruct H as [s|s|fuel s s' E|fuel c s s' E|c s].
  - unfold AddRef. by destruct (daemonMode s).
  - unfold DecRef. by destruct (daemonMode s).
  - by apply Start_ok in E as [_ ->].
  - unfold Start_with, may in E. destruct (bool_decide (mychallenge s = c)) eqn:Ec; simpl in E.
    + apply bool_decide_eq_true in Ec. destruct (drop_references fuel s) as [s1|] eqn:Ed; [|done].
      apply Start_ok in E as [_ ->]. done.
    + rewrite bool_decide_false in E by done. by simplify_eq.
  - unfold Stop. by destruct (may c s).
Qed.

Lemma service_reachable_challenge c s :
  c ≠ "" → service_reachable c s → mychallenge s = c.
Proof.
  intros Hc. induction 1 as [|s s' _ IH E]; [done |].
  rewrite <- IH. apply service_step_challenge; [done | by rewrite IH].
Qed.

(** A service that was made with a challenge can always be started, however it was used: the
    loop of [Start] ends and leaves at most one reference; it can then be neither killed nor
    dereferenced, and only the challenge stops it. *)
Theorem service_start c s :
  c ≠ "" → service_reachable c s →
  ∃ s', (∀ fuel, (Z.to_nat (refcount s) < fuel)%nat → Start fuel s = Some s') ∧
    refcount s' ≤ 1 ∧ CanKill s' = false ∧ (DecRef s').2 = s' ∧ (AddRef s').2 = s' ∧
    ∀ c', Stop c' s' = (bool_decide (c' = c), if bool_decide (c' = c) then s' <| daemonMode := false |> else s').
Proof.
  intros Hc Hr. pose proof (service_reachable_ok c s Hr) as Ho.
  exists (MkService (Z.min (refcount s) 1) c true).
  pose proof (service_reachable_challenge c s Hc Hr) as Hm0. subst c.
  split_and!; simpl; try done; [| lia |].
  - intros fuel Hf. destruct (drop_references_spec fuel s Hf Ho) as (s' & E & Hr' & Hm & Hd).
    unfold Start. rewrite E. destruct s'. simpl in *. by subst.
  - intros c'. unfold Stop, may. simpl. rewrite (bool_decide_false (mychallenge s = "")) by done.
    rewrite orb_false_r. destruct (decide (c' = mychallenge s)) as [->|Hne].
    + by rewrite !bool_decide_true.
    + by rewrite !bool_decide_false by congruence.
Qed.

Lemma service_start_witness :
  let s := (AddRef (AddRef (service_new "secret")).2).2 in
  ∃ s', Start 9 s = Some s' ∧ CanKill s' = false ∧ Stop "guess" s' = (false, s').
Proof.
  intros s. destruct (service_start "secret" s) as (s' & E & _ & Hk & _ & _ & Hs).
  - discriminate.
  - eapply service_next; [eapply service_next; [apply service_begin |] |]; apply step_addref.
  - exists s'. split; [apply E; vm_compute; lia |]. split; [exact Hk | exact (Hs "guess")].
Defined.
End ServiceBase.

(** ** The code manager *)
Module CodeMgr.
Definition CODE_MAX_STRING_SIZE : Z := 1024.

Record codedata : Type := MkData { platform : string; codefile : string }.
Record codedb : Type := MkDb { objname : string; platforms : list codedata }.
Definition CodeDBArray : Type := list codedb.

Definition too_long (s : string) : bool := CODE_MAX_STRING_SIZE <=? zlen (string_bytes s).

(** The platform is replaced where it is, or added at the end; [codefile.c_str()] is assigned
    when it is added. *)
Fixpoint register_platform (plat code : string) (l : list codedata) : list codedata :=
  match l with
  | [] => [MkData plat (c_str code)]
  | d :: l' =>
      if bool_decide (plat = platform d) then MkData (platform d) code :: l'
      else d :: register_platform plat code l'
  end.

(** The object likewise; [objname.c_str()] is assigned when it is added. *)
Fixpoint register_object (name plat code : string) (info : CodeDBArray) : CodeDBArray :=
  match info with
  | [] => [MkDb (c_str name) (register_platform plat code [])]
  | e :: info' =>
      if bool_decide (name = objname e)
      then MkDb (objname e) (register_platform plat code (platforms e)) :: info'
      else e :: register_object name plat code info'
  end.

Definition RegisterCode (name plat code : string) (info : CodeDBArray) : result CodeDBArray :=
  if too_long name || too_long plat || too_long code
  then pop_throw_reason "Could not register code"
  else Ok (register_object name plat code info).

Definition find_object (name : string) (info : CodeDBArray) : option codedb :=
  List.find (λ e, bool_decide (name = objname e)) info.

(** The first entry whose platform, a pattern, matches. *)
Definition find_platform (plat : string) (l : list codedata) : option codedata :=
  List.find (λ d, MatchWildcard (before_nul (string_bytes plat))
                                (before_nul (string_bytes (platform d)))) l.

Definition QueryCode (name plat : string) (info : CodeDBArray) : Z * string :=
  match find_object name info with
  | None => (0, "")
  | Some e =>
      match find_platform plat (platforms e) with
      | None => (0, "")
      | Some d => (1, codefile d)
      end
  end.

(** [platform = nullptr] on a [std::string]. *)
Definition GetPlatform (name : string) (info : CodeDBArray) : result (Z * string) := Stuck.

(** The file registered for a platform as it is written. *)
Definition code_of (name plat : string) (info : CodeDBArray) : option string :=
  match find_object name info with
  | None => None
  | Some e => codefile <$> List.find (λ d, bool_decide (plat = platform d)) (platforms e)
  end.

Lemma find_register_platform plat plat' code l :
  nul_free code →
  codefile <$> List.find (λ d, bool_decide (plat' = platform d)) (register_platform plat code l)
  = if decide (plat' = plat) then Some code
    else codefile <$> List.find (λ d, bool_decide (plat' = platform d)) l.
Proof.
  intros Hc%c_str_plain. induction l as [|d l IH]; simpl.
  - rewrite Hc. destruct (decide (plat' = plat)) as [->|Hne]; [by rewrite bool_decide_true |].
    by rewrite bool_decide_false.
  - destruct (decide (plat = platform d)) as [->|Hne].
    + rewrite bool_decide_true by done. simpl.
      destruct (decide (plat' = platform d)) as [->|]; [by rewrite bool_decide_true |].
      by rewrite bool_decide_false.
    + rewrite (bool_decide_false (plat = platform d)) by done. simpl.
      destruct (decide (plat' = platform d)) as [->|].
      * rewrite bool_decide_true by done. by rewrite decide_False by congruence.
      * rewrite bool_decide_false by done. exact IH.
Qed.

(** What a registration does to the entries: the last one wins, the others stay. *)
Lemma code_of_register name plat code name' plat' info :
  nul_free name → nul_free code →
  code_of name' plat' (register_object name plat code info)
  = if decide (name' = name ∧ plat' = plat) then Some code else code_of name' plat' info.
Proof.
  intros Hn%c_str_plain Hc. unfold code_of, find_object.
  induction info as [|e info IH]; cbn [register_object].
  - cbn [List.find objname]. rewrite Hn. destruct (decide (name' = name)) as [->|Hne].
    + rewrite bool_decide_true by done. cbn [platforms].
      rewrite (find_register_platform plat plat' code []) by done.
      repeat case_decide; intuition congruence.
    + rewrite bool_decide_false by done. by rewrite decide_False by intuition congruence.
  - destruct (decide (name = objname e)) as [->|Hne].
    + rewrite bool_decide_true by done. cbn [List.find objname].
      destruct (decide (name' = objname e)) as [->|Hne'].
      * rewrite bool_decide_true by done. cbn [platforms]. rewrite find_register_platform by done.
        repeat case_decide; intuition congruence.
      * rewrite bool_decide_false by done. by rewrite decide_False by intuition congruence.
    + rewrite (bool_decide_false (name = objname e)) by done. cbn [List.find].
      destruct (decide (name' = objname e)) as [->|Hne'].
      * rewrite bool_decide_true by done. by rewrite decide_False by intuition congruence.
      * rewrite bool_decide_false by done. exact IH.
Qed.

Lemma MatchWildcard_refl s : MatchWildcard s s = true.
Proof. unfold MatchWildcard. simpl. by rewrite decide_True. Qed.

Lemma find_first {A : Type} (f : A → bool) (l : list A) :
  existsb f l = true →
  ∃ pre d post, l = pre ++ d :: post ∧ Forall (λ x, f x = false) pre ∧ f d = true ∧
    List.find f l = Some d.
Proof.
  induction l as [|x l IH]; simpl; [done |]. destruct (f x) eqn:E; simpl.
  - intros _. by exists [], x, l.
  - intros H. destruct (IH H) as (pre & d & post & -> & Hp & Hd & Hf).
    exists (x :: pre), d, post. split_and!; try done. by constructor.
Qed.

Lemma register_platform_in plat code l :
  nul_free code → ∃ d, d ∈ register_platform plat code l ∧ platform d = plat.
Proof.
  intros Hc. induction l as [|d l IH]; simpl.
  - eexists. split; [by left | done].
  - case_bool_decide as E; [eexists; split; [by left | done] |].
    destruct IH as (d' & Hin & Hp). exists d'. split; [by right | done].
Qed.

Lemma find_register_object name plat code info :
  nul_free name →
  ∃ e l, find_object name (register_object name plat code info) = Some e ∧
    platforms e = register_platform plat code l.
Proof.
  intros Hn%c_str_plain. unfold find_object. induction info as [|e info IH]; cbn [register_object].
  - eexists _, []. cbn [List.find objname]. rewrite Hn, bool_decide_true by done. done.
  - destruct (decide (name = objname e)) as [E|E].
    + rewrite bool_decide_true by done. cbn [List.find objname]. rewrite bool_decide_true by done.
      by eexists _, _.
    + rewrite bool_decide_false by done. cbn [List.find]. by rewrite bool_decide_false.
Qed.

(** The code manager is a table. A registration sets the file of its object and platform and
    leaves every other entry as it was; and a query for a registered platform always finds a
    file: that of the first platform of the object, in order of registration, whose pattern
    matches. *)
Theorem register_query name plat code info info' :
  nul_free name → nul_free code → RegisterCode name plat code info = Ok info' →
  (∀ n p, code_of n p info' = if decide (n = name ∧ p = plat) then Some code else code_of n p info) ∧
  ∃ e pre d post, find_object name info' = Some e ∧ platforms e = pre ++ d :: post ∧
    Forall (λ x, MatchWildcard (before_nul (string_bytes plat))
                   (before_nul (string_bytes (platform x))) = false) pre ∧
    QueryCode name plat info' = (1, codefile d).
Proof.
  intros Hn Hc E. unfold RegisterCode in E. case_match; [done |]. injection E as <-. split.
  { intros n p. by apply code_of_register. }
  destruct (find_register_object name plat code info Hn) as (e & l & Ee & El).
  destruct (register_platform_in plat code l Hc) as (d0 & Hin & Hd0).
  destruct (find_first (λ d, MatchWildcard (before_nul (string_bytes plat))
    (before_nul (string_bytes (platform d)))) (platforms e)) as (pre & d & post & Hl & Hp & _ & Hf).
  { apply existsb_exists. exists d0. rewrite El. split; [by apply list_elem_of_In |].
    rewrite Hd0. apply MatchWildcard_refl. }
  exists e, pre, d, post. split_and!; try done. unfold QueryCode, find_platform.
  by rewrite Ee, Hf.
Qed.

Lemma register_query_witness :
  match RegisterCode "Worker" "x86-Linux" "/opt/worker.obj"
          [MkDb "Worker" [MkData "x86*" "/old/worker.obj"]] with
  | Ok info' => code_of "Worker" "x86-Linux" info' = Some "/opt/worker.obj" ∧
                QueryCode "Worker" "x86-Linux" info' = (1, "/old/worker.obj")
  | _ => False
  end.
Proof.
  destruct (RegisterCode "Worker" "x86-Linux" "/opt/worker.obj"
    [MkDb "Worker" [MkData "x86*" "/old/worker.obj"]]) as [info'| |] eqn:E;
    [|discriminate E | discriminate E].
  destruct (register_query "Worker" "x86-Linux" "/opt/worker.obj" _ info'
    ltac:(apply (bool_decide_unpack _); vm_compute; exact I)
    ltac:(apply (bool_decide_unpack _); vm_compute; exact I) E) as [H _].
  split; [exact (H "Worker" "x86-Linux") |].
  injection E as <-. vm_compute. reflexivity.
Defined.
End CodeMgr.

(** ** User services *)
Module ServiceList.
(** An entry; [None] is a pointer to a service that was deleted. *)
Record ServiceEntry : Type := MkEntry { name : string; service : option Z }.

(** [isncaseEqual(name.c_str(), t.name.c_str())]. *)
Definition named (n : string) (t : ServiceEntry) : bool :=
  isncaseEqual (before_nul (string_bytes n)) (before_nul (string_bytes (name t))).

(** [QueryService]: the access point of the service of that name. *)
Definition QueryService (n : string) (l : list ServiceEntry) : result (option Z) :=
  if decide (n = "") then Ok None
  else
    match List.find (named n) l with
    | None => Ok None
    | Some t => match service t with Some s => Ok (Some s) | None => Stuck end
    end.

(** [RegisterService]; [made] tells whether an interface to the service could be made. *)
Definition RegisterService (n : string) (s : Z) (made : bool) (l : list ServiceEntry) :
    bool * list ServiceEntry :=
  if decide (n = "") then (false, l)
  else if made then (true, l ++ [MkEntry n (Some s)]) else (false, l).

(** [UnregisterService]: the entry found is emptied and the one after it erased; after the last
    one there is nothing to erase. *)
Fixpoint unregister (n : string) (l : list ServiceEntry) : result (bool * list ServiceEntry) :=
  match l with
  | [] => Ok (false, [])
  | t :: l' =>
      if named n t then
        match service t, l' with
        | Some _, _ :: l'' => Ok (true, MkEntry "" None :: l'')
        | _, _ => Stuck
        end
      else let! r := unregister n l' in Ok (r.1, t :: r.2)
  end.
Definition UnregisterService (n : string) (l : list ServiceEntry) : result (bool * list ServiceEntry) :=
  if decide (n = "") then Ok (false, l) else unregister n l.

(** The destructor stops every service of the list: their handles, in order. *)
Fixpoint stop_all (l : list ServiceEntry) : result (list Z) :=
  match l with
  | [] => Ok []
  | t :: l' =>
      match service t with
      | Some s => let! r := stop_all l' in Ok (s :: r)
      | None => Stuck
      end
  end.

Lemma unregister_app n pre t l :
  Forall (λ u, named n u = false) pre → named n t = true →
  unregister n (pre ++ t :: l) =
  match service t, l with
  | Some _, _ :: l' => Ok (true, pre ++ MkEntry "" None :: l')
  | _, _ => Stuck
  end.
Proof.
  intros Hpre Ht. induction Hpre as [|u pre Hu Hpre IH]; cbn [unregister app].
  - by rewrite Ht.
  - rewrite Hu, IH. by destruct (service t), l.
Qed.

Lemma stop_all_deleted pre t l : service t = None → stop_all (pre ++ t :: l) = Stuck.
Proof.
  intros Ht. induction pre as [|u pre IH]; simpl; [by rewrite Ht |].
  destruct (service u); [by rewrite IH | done].
Qed.

(** Unregistering a service takes the next one off the list. The last service cannot be
    unregistered, and after any other the list keeps a deleted service that its destructor
    uses. *)
Theorem unregister_takes_next n pre t l :
  n ≠ "" → Forall (λ u, named n u = false) pre → named n t = true → is_Some (service t) →
  match l with
  | [] => UnregisterService n (pre ++ [t]) = Stuck
  | _ :: post =>
      UnregisterService n (pre ++ t :: l) = Ok (true, pre ++ MkEntry "" None :: post) ∧
      stop_all (pre ++ MkEntry "" None :: post) = Stuck
  end.
Proof.
  intros Hn Hpre Ht [s Hs]. unfold UnregisterService.
  destruct l as [|u post]; rewrite decide_False, unregister_app, Hs by done; [done |].
  split; [done |]. by apply stop_all_deleted.
Qed.

Lemma unregister_takes_next_witness :
  UnregisterService "LOG" [MkEntry "db" (Some 1); MkEntry "log" (Some 2); MkEntry "mail" (Some 3)]
  = Ok (true, [MkEntry "db" (Some 1); MkEntry "" None]).
Proof.
  destruct (unregister_takes_next "LOG" [MkEntry "db" (Some 1)] (MkEntry "log" (Some 2))
    [MkEntry "mail" (Some 3)]) as [E _].
  - discriminate.
  - repeat constructor.
  - reflexivity.
  - by eexists.
  - exact E.
Defined.
End ServiceList.

(** ** The object monitor *)
Module ObjectMonitor.
Record ObjectMonitor : Type := MkMonitor { objects : list string; isActive : bool }.

Definition monitor_new : ObjectMonitor := MkMonitor [] true.

Definition ManageObject (p : string) (m : ObjectMonitor) : ObjectMonitor :=
  if existsb (λ t, bool_decide (t = p)) (objects m) then m
  else MkMonitor (objects m ++ [p]) (isActive m).

Fixpoint remove_first (p : string) (l : list string) : list string :=
  match l with
  | [] => []
  | t :: l' => if decide (t = p) then l' else t :: remove_first p l'
  end.
Definition UnManageObject (p : string) (m : ObjectMonitor) : ObjectMonitor :=
  MkMonitor (remove_first p (objects m)) (isActive m).

(** [KillAll]: every object is told to end. *)
Definition KillAll (m : ObjectMonitor) : list string * ObjectMonitor :=
  (objects m, MkMonitor [] (isActive m)).

(** What the objects answer: whether an interface to one can be made, whether it is active
    ([None]: the call throws), whether [DecRef] returns. *)
Record answers : Type := MkAnswers {
  connects : string → bool;
  active_reply : string → option bool;
  decref_returns : string → bool }.

(** The loop of [CheckObjects]: the objects kept, those whose reference was dropped, and whether
    one is active. *)
Fixpoint check_loop (a : answers) (was_active active : bool) (l : list string) :
    list string * list string * bool :=
  match l with
  | [] => ([], [], active)
  | t :: l' =>
      let drop_it := check_loop a was_active active l' in
      if negb (connects a t) then drop_it
      else
        match (if active then Some true else active_reply a t) with
        | None => drop_it
        | Some active' =>
            if negb active' && negb was_active then
              let '(kept, dec, act) := check_loop a was_active active' l' in
              (if decref_returns a t then t :: kept else kept, t :: dec, act)
            else
              let '(kept, dec, act) := check_loop a was_active active' l' in (t :: kept, dec, act)
        end
  end.

Definition CheckObjects (a : answers) (pingObjects : bool) (m : ObjectMonitor) :
    Z * list string * ObjectMonitor :=
  if pingObjects then
    let '(kept, dec, act) := check_loop a (isActive m) false (objects m) in
    (zlen kept, dec, MkMonitor kept act)
  else (zlen (objects m), [], m).

(** The objects are distinct, whatever is called. *)
Lemma manage_distinct p m : NoDup (objects m) → NoDup (objects (ManageObject p m)).
Proof.
  unfold ManageObject. destruct (existsb _ _) eqn:E; [done |]. intros Hd. simpl.
  apply NoDup_app. split_and!; [done | | apply NoDup_singleton].
  intros t Ht ->%list_elem_of_singleton. enough (false = true) by done. rewrite <- E.
  apply existsb_exists. exists p. split; [by apply list_elem_of_In | by apply bool_decide_eq_true].
Qed.

Lemma remove_first_spec p l : NoDup l → remove_first p l = List.filter (λ t, negb (bool_decide (t = p))) l.
Proof.
  induction 1 as [|t l Hn Hd IH]; simpl; [done |]. destruct (decide (t = p)) as [->|Hne].
  - rewrite bool_decide_true by done. simpl. symmetry. clear IH Hd.
    induction l as [|u l IH]; simpl; [done |]. apply not_elem_of_cons in Hn as [Hu Hn].
    rewrite bool_decide_false by done. simpl. by rewrite IH.
  - rewrite bool_decide_false by done. simpl. by rewrite IH.
Qed.

(** A check keeps objects in their order and drops no reference while the application was found
    active by the check before. *)
Lemma check_loop_spec a was_active active l kept dec act :
  check_loop a was_active active l = (kept, dec, act) →
  kept `sublist_of` l ∧ dec `sublist_of` l ∧ (was_active = true → dec = []) ∧
  (active = true → dec = [] ∧ act = true ∧ kept = List.filter (connects a) l).
Proof.
  revert active kept dec act. induction l as [|t l IH]; intros active kept dec act; simpl.
  { intros [= <- <- <-]. split_and!; try done; constructor. }
  destruct (connects a t) eqn:Ec; simpl.
  2: { destruct (check_loop _ _ _ _) as [[k d] c] eqn:E. intros [= <- <- <-].
       destruct (IH _ _ _ _ E) as (Hk & Hd & Hw & Ha). split_and!; [by constructor..| done | done]. }
  destruct (if active then Some true else active_reply a t) as [b|] eqn:Eb.
  2: { destruct (check_loop _ _ _ _) as [[k d] c] eqn:E. intros [= <- <- <-].
       destruct (IH _ _ _ _ E) as (Hk & Hd & Hw & Ha). split_and!; [by constructor..| done |].
       by intros ->. }
  destruct (check_loop a was_active b l) as [[k d] c] eqn:E.
  destruct (IH _ _ _ _ E) as (Hk & Hd & Hw & Ha).
  destruct (negb b && negb was_active) eqn:En.
  - apply andb_true_iff in En as [Hb Hwa]. intros [= <- <- <-].
    split; [destruct (decref_returns a t); by constructor |].
    split; [by constructor |]. split.
    { intros ->. done. }
    intros ->. by simplify_eq.
  - intros [= <- <- <-]. split_and!; [by constructor | by constructor | done |].
    intros ->. simplify_eq. destruct (Ha eq_refl) as (-> & -> & ->). done.
Qed.
End ObjectMonitor.

(** ** The batch manager *)
Definition NextNode (nodeCount : Z) : result (Z * Z) :=
  let! n := check_int (nodeCount + 1) in Ok (n, n).
