(* ===== verification/Effects.v ===== *)
(** * Computations with a state that may not have ended

    Code that waits for the system, or retries a call that was interrupted, may run for ever. A
    computation here has fuel for its loops: its outcome is [None] when the fuel ran out, and what
    the code computes otherwise. [wp] is the usual program logic on top: what holds after every run
    that ended ([wp false]), or that the run ends as well ([wp true]); in both no run does anything
    undefined or throws. *)

From S2P Require Import Prelude.

Section Effects.
Context {S : Type}.

Definition P (A : Type) : Type := S → option (result (A * S)).

Definition ret {A : Type} (a : A) : P A := λ s, Some (Ok (a, s)).
Definition bind {A A' : Type} (m : P A) (k : A → P A') : P A' := λ s,
  match m s with
  | None => None
  | Some (Ok (a, s')) => k a s'
  | Some (Throw c i) => Some (Throw c i)
  | Some Stuck => Some Stuck
  end.

Definition get : P S := λ s, Some (Ok (s, s)).
Definition modify (f : S → S) : P () := λ s, Some (Ok ((), f s)).
Definition undefined {A : Type} : P A := λ _, Some Stuck.
Definition lift {A : Type} (r : result A) : P A := λ s, Some (rbind r (λ a, Ok (a, s))).
Definition out_of_fuel {A : Type} : P A := λ _, None.
(** An access that must be inside of its object. *)
Definition need {A : Type} (o : option A) : P A := match o with Some a => ret a | None => undefined end.

(** [while (again(x = m()));] *)
Fixpoint retry {A : Type} (fuel : nat) (again : A → S → bool) (m : P A) : P A :=
  match fuel with
  | O => out_of_fuel
  | Datatypes.S fuel' =>
      bind m (λ a s, if again a s then retry fuel' again m s else Some (Ok (a, s)))
  end.

(** ** The program logic *)
Definition wp (total : bool) {A : Type} (m : P A) (Q : A → S → Prop) (s : S) : Prop :=
  match m s with
  | None => total = false
  | Some (Ok (a, s')) => Q a s'
  | Some _ => False
  end.

Lemma bind_run {A A' : Type} (m : P A) (k : A → P A') s a s' : m s = Some (Ok (a, s')) → bind m k s = k a s'.
Proof. unfold bind. by intros ->. Qed.

Lemma wp_ret total {A : Type} (a : A) Q s : Q a s → wp total (ret a) Q s.
Proof. done. Qed.
Lemma wp_get total Q s : Q s s → wp total get Q s.
Proof. done. Qed.
Lemma wp_modify total f (Q : () → S → Prop) s : Q () (f s) → wp total (modify f) Q s.
Proof. done. Qed.
Lemma wp_need total {A : Type} (o : option A) (a : A) Q s : o = Some a → Q a s → wp total (need o) Q s.
Proof. by intros ->. Qed.

Lemma wp_bind total {A A' : Type} (m : P A) (k : A → P A') Q s :
  wp total m (λ a, wp total (k a) Q) s → wp total (bind m k) Q s.
Proof. unfold wp, bind. by destruct (m s) as [[[a s']|c i|]|]. Qed.

Lemma wp_mono total {A : Type} (m : P A) (Q Q' : A → S → Prop) s :
  (∀ a s', Q a s' → Q' a s') → wp total m Q s → wp total m Q' s.
Proof. unfold wp. intros HQ. destruct (m s) as [[[a s']|c i|]|]; [apply HQ | done..]. Qed.

Lemma wp_conj total {A : Type} (m : P A) (Q Q' : A → S → Prop) s :
  wp total m Q s → wp false m Q' s → wp total m (λ a s', Q a s' ∧ Q' a s') s.
Proof. unfold wp. destruct (m s) as [[[a s']|c i|]|]; [by split | done..]. Qed.

Lemma wp_weaken total {A : Type} (m : P A) (Q : A → S → Prop) s : wp total m Q s → wp false m Q s.
Proof. unfold wp. by destruct (m s) as [[[a s']|c i|]|]. Qed.

Lemma wp_out_of_fuel {A : Type} (Q : A → S → Prop) s : wp false (@out_of_fuel A) Q s.
Proof. done. Qed.

(** What an outcome says. *)
Lemma outcome_inj {A : Type} (a b : A) (s t : S) : Some (Ok (a, s)) = Some (Ok (b, t)) → a = b ∧ s = t.
Proof. by intros [= -> ->]. Qed.
Lemma wp_outcome total {A : Type} (m : P A) (Q : A → S → Prop) s a s' :
  wp total m Q s → m s = Some (Ok (a, s')) → Q a s'.
Proof. unfold wp. intros H E. by rewrite E in H. Qed.
Lemma wp_total {A : Type} (m : P A) (Q : A → S → Prop) s :
  wp true m Q s → ∃ a s', m s = Some (Ok (a, s')) ∧ Q a s'.
Proof. unfold wp. destruct (m s) as [[[a s']|c i|]|]; [eauto | done..]. Qed.

(** A call that is retried: an invariant of the calls holds when it ends. *)
Lemma wp_retry {A : Type} fuel (again : A → S → bool) (m : P A) (I : S → Prop) (Q : A → S → Prop) s :
  I s → (∀ s, I s → wp false m (λ a s', if again a s' then I s' else Q a s') s) →
  wp false (retry fuel again m) Q s.
Proof.
  intros Hs Hm. revert s Hs. induction fuel as [|fuel IH]; intros s Hs; [done |]. cbn [retry].
  apply wp_bind. eapply wp_mono; [|by apply Hm]. intros a s' H. cbv beta in H. unfold wp.
  destruct (again a s'); [by apply IH | done].
Qed.

(** With a measure that every call that is repeated makes smaller, it ends. *)
Lemma wp_retry_total {A : Type} fuel (again : A → S → bool) (m : P A) (μ : S → nat) (I : S → Prop) (Q : A → S → Prop) s :
  (μ s < fuel)%nat → I s →
  (∀ s, I s → wp true m (λ a s', if again a s' then I s' ∧ (μ s' < μ s)%nat else Q a s') s) →
  wp true (retry fuel again m) Q s.
Proof.
  intros Hf Hs Hm. revert s Hf Hs. induction fuel as [|fuel IH]; intros s Hf Hs; [lia |]. cbn [retry].
  apply wp_bind. eapply wp_mono; [|by apply Hm]. intros a s' H. cbv beta in H. unfold wp.
  destruct (again a s'); [|done]. destruct H as [HI Hμ]. apply IH; [lia | done].
Qed.

(** ** What every run leaves

    A relation between the state before and after, such as an invariant that is kept or a member
    that only grows, goes from the steps to what is made of them. *)
Section Respects.
Context (R : S → S → Prop) `{!PreOrder R}.
Definition respects {A : Type} (m : P A) : Prop := ∀ s a s', m s = Some (Ok (a, s')) → R s s'.

Lemma respects_ret {A : Type} (a : A) : respects (ret a).
Proof. by intros s b s' [= _ <-]. Qed.
Lemma respects_get : respects get.
Proof. by intros s b s' [= _ <-]. Qed.
Lemma respects_undefined {A : Type} : respects (@undefined A).
Proof. done. Qed.
Lemma respects_out_of_fuel {A : Type} : respects (@out_of_fuel A).
Proof. done. Qed.
Lemma respects_need {A : Type} (o : option A) : respects (need o).
Proof. destruct o; [apply respects_ret | done]. Qed.
Lemma respects_lift {A : Type} (r : result A) : respects (lift r).
Proof. destruct r; [apply respects_ret | done | done]. Qed.
Lemma respects_modify f : (∀ s, R s (f s)) → respects (modify f).
Proof. by intros Hf s b s' [= _ <-]. Qed.
Lemma respects_bind {A A' : Type} (m : P A) (k : A → P A') : respects m → (∀ a, respects (k a)) → respects (bind m k).
Proof.
  intros Hm Hk s a s'. unfold bind. destruct (m s) as [[[b s1]|?|]|] eqn:E; [|done..]. intros E'.
  transitivity s1; [by apply Hm in E | by apply Hk in E'].
Qed.
(** The state the rest is given is the one that was read. *)
Lemma respects_read {A : Type} (k : S → P A) : (∀ s a s', k s s = Some (Ok (a, s')) → R s s') → respects (bind get k).
Proof. intros Hk s a s'. apply Hk. Qed.
Lemma respects_retry {A : Type} fuel (again : A → S → bool) (m : P A) : respects m → respects (retry fuel again m).
Proof.
  intros Hm. induction fuel as [|fuel IH]; [done |]. intros s a s'. cbn [retry]. unfold bind.
  destruct (m s) as [[[b s1]|?|]|] eqn:E; [|done..]. apply Hm in E. case_match; [|by intros [= _ <-]].
  intros E'. transitivity s1; [done | by apply IH in E'].
Qed.
End Respects.
End Effects.
Arguments P S A : clear implicits.

Create HintDb respects.
#[export] Hint Resolve respects_ret respects_get respects_undefined respects_out_of_fuel respects_need respects_lift
  respects_retry : respects.
#[export] Hint Extern 0 (PreOrder _) => apply _ : respects.
Ltac respects_step :=
  match goal with
  | |- respects _ (bind _ _) => apply respects_bind; [apply _ | | intros ?]
  | |- respects _ (modify _) => apply respects_modify; done
  | |- respects _ (if ?b then _ else _) => destruct b
  | |- respects _ (match ?o with _ => _ end) => destruct o
  | |- respects _ _ => solve [eauto with respects]
  end.
Ltac respects_steps := repeat respects_step.

Notation "'let?' x := m 'in' k" := (bind m (λ x, k))
  (at level 10, x pattern, m at level 100, k at level 200) : pop_scope.
Notation "m ;;? k" := (bind m (λ _, k)) (at level 100, k at level 200, right associativity) : pop_scope.

(** One step of a proof about a computation. *)
Ltac wp_step :=
  lazymatch goal with
  | |- wp _ (ret _) _ _ => apply wp_ret
  | |- wp _ get _ _ => apply wp_get
  | |- wp _ (modify _) _ _ => apply wp_modify
  | |- wp _ (bind _ _) _ _ => apply wp_bind
  | |- wp _ (need _) _ _ => eapply wp_need; [eassumption |]
  end; cbv beta.
Ltac wp_steps := repeat wp_step.
