(* ===== verification/Throwing.v ===== *)
(** * Exceptions that keep the state

    An exception does not undo what was done before it. A method that throws and has effects is a
    computation whose outcome is a value or an exception, with the state after it. *)

From S2P Require Import Prelude Exceptions Message ExceptionProtocol Effects.

(** What can be thrown: a run-time exception, another exception of the standard library, or the
    value a remote method threw. *)
Inductive exc (I : Type) : Type :=
  | PopExc (e : pop_exception)
  | LogicError (what : string)
  | Foreign (x : thrown I).
Arguments PopExc {I}. Arguments LogicError {I}. Arguments Foreign {I}.
Definition exc_of_thrown {I : Type} (x : thrown I) : exc I :=
  match x with ThrStd e => PopExc e | _ => Foreign x end.
(** [catch (std::exception& e)]. *)
Definition is_std {I : Type} (x : exc I) : bool := match x with Foreign _ => false | _ => true end.

Section Throwing.
Context {W I : Type}.
Definition Throws (A : Type) : Type := Effects.P W (exc I + A).
Definition tret {A : Type} (a : A) : Throws A := ret (inr a).
Definition tthrow {A : Type} (x : exc I) : Throws A := ret (inl x).
Definition tbind {A A' : Type} (m : Throws A) (k : A → Throws A') : Throws A' :=
  let? r := m in match r with inl x => ret (inl x) | inr a => k a end.
Definition tget : Throws W := let? w := get in tret w.
Definition tset (f : W → W) : Throws () := modify f ;;? tret ().
Definition tneed {A : Type} (o : option A) : Throws A := let? a := need o in tret a.
(** A computation of the messages: what it throws is an exception. *)
Definition tcall {A : Type} (r : result A) : Throws A :=
  match r with
  | Ok a => tret a
  | Throw c i => tthrow (PopExc (MkException c i))
  | Stuck => undefined
  end.
(** [try { m; } catch (std::exception& e) { handler }]: whether it was left by an exception. *)
Definition tcatch (m : Throws ()) (handler : exc I → Throws ()) : Throws bool :=
  let? r := m in
  match r with
  | inl x => if is_std x then tbind (handler x) (λ _, tret true) else tthrow x
  | inr _ => tret false
  end.
(** The same for a computation with a value: the handler gives another one. *)
Definition ttry {A : Type} (m : Throws A) (handler : exc I → Throws A) : Throws A :=
  let? r := m in
  match r with
  | inl x => if is_std x then handler x else tthrow x
  | inr a => tret a
  end.
Lemma tbind_eq {A A' : Type} (m : Throws A) (k : A → Throws A') w a w1 :
  m w = Some (Ok (inr a, w1)) → tbind m k w = k a w1.
Proof. intros E. unfold tbind, bind. by rewrite E. Qed.
(** The first element that is accepted. *)
Fixpoint first_of {A : Type} (f : A → Throws bool) (l : list A) : Throws bool :=
  match l with
  | [] => tret false
  | a :: l' => tbind (f a) (λ b : bool, if b then tret true else first_of f l')
  end.
(** Every element in turn. *)
Fixpoint tfor {A : Type} (l : list A) (f : A → Throws ()) : Throws () :=
  match l with
  | [] => tret ()
  | a :: l' => tbind (f a) (λ _, tfor l' f)
  end.

(** ** The program logic *)
Lemma twp_ret total {A : Type} (a : A) Q w : Q (inr a) w → wp total (tret a) Q w.
Proof. done. Qed.
Lemma twp_throw total {A : Type} (x : exc I) (Q : exc I + A → W → Prop) w : Q (inl x) w → wp total (tthrow x) Q w.
Proof. done. Qed.
Lemma twp_get total Q w : Q (inr w) w → wp total tget Q w.
Proof. done. Qed.
Lemma twp_set total f Q w : Q (inr ()) (f w) → wp total (tset f) Q w.
Proof. done. Qed.
Lemma twp_bind total {A A' : Type} (m : Throws A) (k : A → Throws A') Q w :
  wp total m (λ r w', match r with inl x => Q (inl x) w' | inr a => wp total (k a) Q w' end) w →
  wp total (tbind m k) Q w.
Proof. intros H. apply wp_bind. eapply wp_mono; [|exact H]. by intros [x|a] w'. Qed.
Lemma twp_try total {A : Type} (m : Throws A) handler Q w :
  wp total m (λ r w', match r with
    | inl x => if is_std x then wp total (handler x) Q w' else Q (inl x) w'
    | inr a => Q (inr a) w' end) w →
  wp total (ttry m handler) Q w.
Proof. intros H. apply wp_bind. eapply wp_mono; [|exact H]. intros [x|a] w' Hw; [by destruct (is_std x) | done]. Qed.
Lemma twp_catch total m handler Q w :
  wp total m (λ r w', match r with
    | inl x => if is_std x then wp total (handler x) (λ r w', match r with inl y => Q (inl y) w' | inr _ => Q (inr true) w' end) w'
               else Q (inl x) w'
    | inr _ => Q (inr false) w' end) w →
  wp total (tcatch m handler) Q w.
Proof.
  intros H. apply wp_bind. eapply wp_mono; [|exact H]. intros [x|a] w' Hw; [|done].
  destruct (is_std x); [|done]. by apply twp_bind.
Qed.
(** A loop: an invariant over the elements that are done, which an exception may break. *)
Lemma twp_for total {A : Type} (l : list A) (f : A → Throws ()) (J : list A → W → Prop) (Q : exc I + () → W → Prop) w :
  J [] w →
  (∀ done a rest w, l = done ++ a :: rest → J done w →
     wp total (f a) (λ r w', match r with inl x => Q (inl x) w' | inr _ => J (done ++ [a]) w' end) w) →
  (∀ w, J l w → Q (inr ()) w) →
  wp total (tfor l f) Q w.
Proof.
  intros H0 Hf HQ. enough (Hgen : ∀ rest pre w, l = pre ++ rest → J pre w → wp total (tfor rest f) Q w) by (by apply (Hgen l [])).
  induction rest as [|a rest IH]; intros pre w1 Hl HJ; cbn [tfor].
  - apply twp_ret, HQ. by rewrite Hl, app_nil_r.
  - apply twp_bind. eapply wp_mono; [|by eapply Hf]. intros [x|[]] w' Hw; [done |].
    apply (IH (pre ++ [a])); [by rewrite <- app_assoc | done].
Qed.

(** ** What every outcome leads to

    From a state of [P], a run that ends, by a value or an exception, ends in a state of [Q]. *)
Definition leads {A : Type} (P Q : W → Prop) (m : Throws A) : Prop :=
  ∀ w r w', P w → m w = Some (Ok (r, w')) → Q w'.

Lemma leads_ret {A : Type} P (a : A) : leads P P (tret a).
Proof. by intros w r w' Hw [= <- <-]. Qed.
Lemma leads_throw {A : Type} P (x : exc I) : leads (A := A) P P (tthrow x).
Proof. by intros w r w' Hw [= <- <-]. Qed.
Lemma leads_get P : leads P P tget.
Proof. by intros w r w' Hw [= <- <-]. Qed.
Lemma leads_undefined {A : Type} P Q : leads (A := A) P Q undefined.
Proof. by intros w r w' Hw [=]. Qed.
Lemma leads_fuel {A : Type} P Q : leads (A := A) P Q out_of_fuel.
Proof. by intros w r w' Hw [=]. Qed.
Lemma leads_need {A : Type} P (o : option A) : leads P P (tneed o).
Proof. destruct o; [apply leads_ret | apply leads_undefined]. Qed.
Lemma leads_call {A : Type} P (c : result A) : leads P P (tcall c).
Proof. destruct c; [apply leads_ret | apply leads_throw | apply leads_undefined]. Qed.
(** An exception skips the rest: it must lead to [Q] as well. *)
Lemma leads_bind {A A' : Type} P P' Q (m : Throws A) (k : A → Throws A') :
  leads P P' m → (∀ w, P' w → Q w) → (∀ a, leads P' Q (k a)) → leads P Q (tbind m k).
Proof.
  intros Hm HQ Hk w r w' Hw E. unfold tbind, bind in E.
  destruct (m w) as [[[[x|a] w1]|c i|]|] eqn:Em; try done.
  - injection E as <- <-. apply HQ. by eapply Hm.
  - eapply Hk; [|exact E]. by eapply Hm.
Qed.
Lemma leads_seq {A A' : Type} P (m : Throws A) (k : A → Throws A') :
  leads P P m → (∀ a, leads P P (k a)) → leads P P (tbind m k).
Proof. intros Hm Hk. by eapply leads_bind. Qed.
Lemma leads_weaken {A : Type} (P P' Q Q' : W → Prop) (m : Throws A) :
  (∀ w, P' w → P w) → (∀ w, Q w → Q' w) → leads P Q m → leads P' Q' m.
Proof. intros HP HQ Hm w r w' Hw E. apply HQ. eapply Hm; [by apply HP | exact E]. Qed.
Lemma leads_set P Q (f : W → W) : (∀ w, P w → Q (f w)) → leads P Q (tset f).
Proof. intros Hf w r w' Hw [= <- <-]. by apply Hf. Qed.
Lemma leads_try {A : Type} P (m : Throws A) handler :
  leads P P m → (∀ x, leads P P (handler x)) → leads P P (ttry m handler).
Proof.
  intros Hm Hh w r w' Hw E. unfold ttry, bind in E. destruct (m w) as [[[[x|a] w1]|c i|]|] eqn:Em; try done.
  - destruct (is_std x); [eapply Hh; [|exact E] | injection E as <- <-]; by eapply Hm.
  - injection E as <- <-. by eapply Hm.
Qed.
Lemma leads_catch P m handler : leads P P m → (∀ x, leads P P (handler x)) → leads P P (tcatch m handler).
Proof.
  intros Hm Hh w r w' Hw E. unfold tcatch, bind in E. destruct (m w) as [[[[x|a] w1]|c i|]|] eqn:Em; try done.
  - destruct (is_std x); [|injection E as <- <-; by eapply Hm].
    eapply (leads_seq P (handler x) (λ _, tret true)); [apply Hh | intros []; apply leads_ret | | exact E]. by eapply Hm.
  - injection E as <- <-. by eapply Hm.
Qed.
Lemma leads_first_of {A : Type} P (f : A → Throws bool) l : (∀ a, leads P P (f a)) → leads P P (first_of f l).
Proof.
  intros Hf. induction l as [|a l IH]; cbn [first_of]; [apply leads_ret |].
  apply leads_seq; [apply Hf |]. intros []; [apply leads_ret | apply IH].
Qed.
Lemma leads_for {A : Type} P (f : A → Throws ()) l : (∀ a, leads P P (f a)) → leads P P (tfor l f).
Proof.
  intros Hf. induction l as [|a l IH]; cbn [tfor]; [apply leads_ret |]. apply leads_seq; [apply Hf | intros _; apply IH].
Qed.
(** What holds of an outcome, if there is one. *)
Definition yields {A : Type} (m : Throws A) (Q : exc I + A → W → Prop) (w : W) : Prop :=
  ∀ r w', m w = Some (Ok (r, w')) → Q r w'.
Lemma yields_ret {A : Type} (a : A) Q w : Q (inr a) w → yields (tret a) Q w.
Proof. by intros HQ r w' [= <- <-]. Qed.
Lemma yields_bind {A A' : Type} (m : Throws A) (k : A → Throws A') Q w :
  yields m (λ r w', match r with inl x => Q (inl x) w' | inr a => yields (k a) Q w' end) w → yields (tbind m k) Q w.
Proof.
  intros Hm r w' E. unfold tbind, bind in E. destruct (m w) as [[[[x|a] w1]|c i|]|] eqn:Em; try done.
  - injection E as <- <-. exact (Hm _ _ Em).
  - exact (Hm _ _ Em r w' E).
Qed.
Lemma yields_mono {A : Type} (m : Throws A) (Q Q' : exc I + A → W → Prop) w :
  (∀ r w', Q r w' → Q' r w') → yields m Q w → yields m Q' w.
Proof. intros HQ Hm r w' E. apply HQ. by apply Hm. Qed.
(** What holds of the outcome, and what it leads to. *)
Lemma wp_leads total {A : Type} P P' (m : Throws A) Q w :
  leads P P' m → P w → wp total m Q w → wp total m (λ r w', Q r w' ∧ P' w') w.
Proof.
  intros Hm Hw. unfold wp. destruct (m w) as [[[r w']|c i|]|] eqn:E; [|done..]. intros HQ. split; [done |].
  by eapply Hm.
Qed.
End Throwing.
Arguments Throws W I A : clear implicits.

Notation "'let^' x := m 'in' k" := (tbind m (λ x, k))
  (at level 10, x pattern, m at level 100, k at level 200) : pop_scope.
Notation "m ;;^ k" := (tbind m (λ _, k)) (at level 100, k at level 200, right associativity) : pop_scope.


Ltac twp_step :=
  lazymatch goal with
  | |- wp _ (tret _) _ _ => apply twp_ret
  | |- wp _ (tthrow _) _ _ => apply twp_throw
  | |- wp _ tget _ _ => apply twp_get
  | |- wp _ (tset _) _ _ => apply twp_set
  | |- wp _ (tbind _ _) _ _ => apply twp_bind
  | |- wp _ (ttry _ _) _ _ => apply twp_try
  | |- wp _ (tcatch _ _) _ _ => apply twp_catch
  end; cbv beta iota.
Ltac twp_steps := repeat twp_step.

(** Lemmas on what a computation leads to; the tactic takes a computation apart. *)
Create HintDb leads discriminated.
Ltac leads_step :=
  lazymatch goal with
  | |- leads _ _ (tbind _ _) => apply leads_seq; [|intros ?]
  | |- leads _ _ (tret _) => apply leads_ret
  | |- leads _ _ (tthrow _) => apply leads_throw
  | |- leads _ _ tget => apply leads_get
  | |- leads _ _ undefined => apply leads_undefined
  | |- leads _ _ out_of_fuel => apply leads_fuel
  | |- leads _ _ (tneed _) => apply leads_need
  | |- leads _ _ (tcall _) => apply leads_call
  | |- leads _ _ (ttry _ _) => apply leads_try; [|intros ?]
  | |- leads _ _ (tcatch _ _) => apply leads_catch; [|intros ?]
  | |- leads _ _ (first_of _ _) => apply leads_first_of; intros ?
  | |- leads _ _ (tfor _ _) => apply leads_for; intros ?
  | |- leads _ _ (match ?b with _ => _ end) => destruct b
  | |- leads _ _ _ => solve [auto with leads]
  end.
Ltac leads_steps := repeat (leads_step; cbv beta).
