(* ===== verification/Placement.v ===== *)
(** * Placing objects on the grid

    How a job manager finds room for new objects and starts them (services/lib/jobmgr.cc):
    [CreateObject] and [AllocResource], which talk to the search node, to the job managers of the
    nodes that answered, to the services of the application and to the objects. What is said to
    them, and what they answer, is kept in a log; the answers are a parameter, and so is what
    becomes of this job manager, whose other methods run meanwhile. A constructor of an interface
    is a conversation of its own, which may fail. *)

From S2P Require Import Prelude Machine Exceptions Message ExceptionProtocol Utils ObjectDescription.
From S2P Require Import Discovery JobMgr Effects Throwing.

Definition TIMEOUT : Z := 0.
Definition MAXHOP : Z := 1000.
Definition SLEEP_TIME_ON_ERROR : Z := 120.

(** ** The others *)

(** A question and the type of its answer. *)
Inductive remote : Type → Type :=
  | JobMgr_connect (jm : string) : remote ()
  | Reserve_at (jm : string) (od : pop_od) (inoutfitness : float) (popAppId reqID : string) : remote (Z * float)
  | Cancel_at (jm : string) (req : list Z) : remote ()
  | ExecObj_at (jm objname : string) (od : pop_od) (reserveIDs : list Z) (localservice : string) :
      remote (Z * (nat → string))
  | AllocResource_at (jm objname : string) (od : pop_od) (localservice : string) (slots : list slot)
      (requestInfo iptrace : list Z) (tracesize : Z) : remote (bool * list slot)
  | SearchNode_connect (node : string) : remote ()
  | GetNodeId (node : string) : remote string
  | GetUID (node : string) : remote string
  | LaunchDiscovery (node : string) (req : Req.Request) (timeout : Z) :
      remote (list NodeInfo.POPCSearchNodeInfo)
  | GetJobMgrRef (node : string) : remote string
  | AppService_connect (localservice : string) : remote ()
  | GetPOPCAppID (localservice : string) : remote string
  | CodeMgr_connect (localservice : string) : remote ()
  | QueryCode (localservice objname platform : string) : remote (Z * string)
  | Object_connect (objcontact : string) : remote ()
  | Object_Kill (objcontact : string) : remote ().

(** What was asked, and the answer unless it was an exception. *)
Inductive event : Type := Event (A : Type) (c : remote A) (a : option A).
Arguments Event {A}.

(** What became of a neighbour [Forward] came to: passed over, nothing left to ask for, asked, or an
    exception. *)
Inductive forwarding : Type :=
  | Skipped                                   (* continue *)
  | Enough                                    (* break *)
  | Asked (ok : bool) (info : NodeInfo)
  | Failed.

Section Placement.
Context {I X : Type}.
Context (answer : ∀ A : Type, remote A → JobMgr → X → (exc I + A) * (JobMgr * X)).
(** The clock, [service_timer] and the address of this host. *)
Context (time : X → Z * X) (elapsed : X → float * X) (own_ip : X → option Z * X).
Context (getenv : string → option chars) (strerror : Z → string).

(** This job manager, the others, what was said, and the variables of [CreateObject]: the slots,
    [count], [objcontacts] and [remotejobcontacts]. *)
Record placing : Type := MkPlacing {
  manager : JobMgr;
  others : X;
  log : list event;
  slots : list slot;
  count : nat;
  objcontacts : list string;
  remotejobcontacts : list string }.
#[local] Instance placing_eta : Eta placing := λ w,
  MkPlacing (manager w) (others w) (log w) (slots w) (count w) (objcontacts w) (remotejobcontacts w).
#[local] Abbreviation T := (Throws placing I).

Definition asked {A : Type} (c : remote A) (r : exc I + A) (j : JobMgr) (x : X) (w : placing) : placing :=
  MkPlacing j x (log w ++ [Event c (match r with inl _ => None | inr a => Some a end)])
    (slots w) (count w) (objcontacts w) (remotejobcontacts w).
Definition ask {A : Type} (c : remote A) : T A := λ w,
  let '(r, (j, x)) := answer A c (manager w) (others w) in Some (Ok (r, asked c r j x w)).
Definition look {A : Type} (f : X → A * X) : T A := λ w,
  let '(a, x) := f (others w) in Some (Ok (inr a, w <| others := x |>)).
Definition throw_text {A : Type} (r : string) : T A := tthrow (PopExc (exception_reason strerror r "")).

(** ** Finding room *)

(** The request of a discovery, as a description asks for it. *)
Definition set_above (v : float) (set : float → Req.Request → Req.Request) (r : Req.Request) : Req.Request :=
  if fgt v fzero then set v r else r.
Definition max_hops (od : pop_od) : result Z :=
  if 0 <? max_depth od then Ok (max_depth od)
  else match getenv "POPC_SEARCHMAXHOP" with Some s => atoi s | None => Ok MAXHOP end.
Definition search_timeout (od : pop_od) : result Z :=
  if 0 <=? wait_time od then Ok (wait_time od)
  else match getenv "POPC_SEARCHTIMEOUT" with Some s => atoi s | None => Ok TIMEOUT end.
Definition search_request (nodeId : string) (maxhop : Z) (od : pop_od) : Req.Request :=
  let r := Req.setMaxHops maxhop (Req.setNodeId nodeId Req.init) in
  let r := if bool_decide (hostarch od = "") then r else Req.setOperatingSystem (hostarch od) r in
  (* getMemory(r_minMem, r_expMem): the first is what is required *)
  let '(r_minMem, r_expMem) := (ram od, min_ram od) in
  let r := set_above r_expMem Req.setExpectedMemorySize (set_above r_minMem Req.setMinMemorySize r) in
  let '(r_expB, r_minB) := (net od, min_net od) in
  let r := set_above r_expB Req.setExpectedNetworkBandwidth (set_above r_minB Req.setMinNetworkBandwidth r) in
  let '(r_expPower, r_minPower) := (mflops od, min_mflops od) in
  set_above r_expPower Req.setExpectedPower (set_above r_minPower Req.setMinPower r).

(** The nodes that answered, in turn and again from the first; [ni] are those left of this round.
    As many refusals as there are nodes end it. *)
Fixpoint reserve_loop (fuel : nat) (od : pop_od) (popAppId reqID : string) (nodes ni : list NodeInfo.POPCSearchNodeInfo)
    (failedReservation : nat) (ret : bool) (slots : list slot) (jobindex : nat) : T (bool * list slot) :=
  match slots !! jobindex with
  | None => tret (ret, slots)
  | Some s =>
      match fuel with
      | O => out_of_fuel
      | S fuel' =>
          match ni with
          | [] => undefined
          | n :: ni' =>
              let n_ac := c_str (NodeInfo.nodeId n) in
              ask (SearchNode_connect n_ac) ;;^
              let^ jm_ap := ask (GetJobMgrRef n_ac) in
              ask (JobMgr_connect jm_ap) ;;^
              let^ r := ask (Reserve_at jm_ap od fzero popAppId reqID) in
              let '(id, t) := r in
              let next := match ni' with [] => nodes | _ => ni' end in
              if id =? 0 then
                let slots := <[jobindex := MkSlot (fit s) (job_contact s) 0]> slots in
                if Nat.eqb (S failedReservation) (length nodes) then tret (false, slots)
                else reserve_loop fuel' od popAppId reqID nodes next (S failedReservation) true slots jobindex
              else
                reserve_loop fuel' od popAppId reqID nodes next failedReservation true
                  (<[jobindex := MkSlot t jm_ap id]> slots) (S jobindex)
          end
      end
  end.

(** From [POPCSearchNode psn(_localPSN)] on; every turn of the loop takes a slot or is a refusal. *)
Definition search_resource (od : pop_od) (localservice : string) (slots : list slot) (ret : bool) :
    T (bool * list slot) :=
  let^ w := tget in
  let psn := localPSN (manager w) in
  ask (SearchNode_connect psn) ;;^
  let^ nodeid := ask (GetNodeId psn) in
  let^ maxhop := tcall (max_hops od) in
  let^ timeout := tcall (search_timeout od) in
  let r := search_request nodeid maxhop od in
  ask (AppService_connect localservice) ;;^
  let^ popAppId := ask (GetPOPCAppID localservice) in
  let r := Req.setPOPAppId popAppId r in
  let^ reqID := ask (GetUID psn) in
  let r := Req.setUniqueId reqID r in
  let^ nodes := ask (LaunchDiscovery psn r timeout) in
  if bool_decide (nodes = []) then throw_text "No ressource found for execution"
  else reserve_loop (length slots + length nodes) od popAppId reqID nodes nodes 0 ret slots 0.

(** The reservations on this node, when the description sets no search; [Some]: what is returned at
    once. *)
Definition cancel_replaced (c : remote_cancel) : T () :=
  tcatch (ask (JobMgr_connect c.1) ;;^ ask (Cancel_at c.1 [c.2])) (λ _, tret ()) ;;^ tret ().
Definition match_here (objname : string) (od : pop_od) (localservice : string) (slots : list slot) :
    T (bool * list slot) :=
  let^ now := look elapsed in
  let^ w := tget in
  match CheckPauseList (S (S (length (pause_apps (manager w))))) localservice now (manager w) with
  | None => out_of_fuel
  | Some (j, paused) =>
      tset (λ w, w <| manager := j |>) ;;^
      if (paused : bool) then tret (false, slots)
      else
        ask (CodeMgr_connect localservice) ;;^
        let^ code := ask (QueryCode localservice objname (platform j)) in
        if code.1 =? 0 then tret (false, slots)
        else
          let^ now := look time in
          let^ w := tget in
          let^ r := tcall (MatchAndReserve_all od now slots (manager w)) in
          let '(j, slots, ret, cancels) := r in
          tset (λ w, w <| manager := j |>) ;;^
          tfor cancels cancel_replaced ;;^
          tret (ret, slots)
  end.
Definition add_request (requestInfo : list Z) : T bool :=
  let^ e := look elapsed in
  let^ w := tget in
  let^ r := tcall (AddRequest requestInfo e e (manager w)) in
  if (r.2 : bool) then
    let^ e' := look elapsed in
    let^ r := tcall (AddRequest requestInfo e e' (manager w)) in
    tset (λ w, w <| manager := r.1 |>) ;;^ tret true
  else tret false.
Definition alloc_here (objname : string) (od : pop_od) (localservice : string) (slots : list slot)
    (requestInfo iptrace : list Z) (tracesize : Z) : T (option bool * (bool * list slot)) :=
  if searchSet od then tret (None, (false, slots))
  else if (length slots <? 1)%nat then tret (Some false, (false, slots))
  else
    let^ known := add_request requestInfo in
    if negb known then tret (Some false, (false, slots))
    else
      let^ r := ttry (let^ r := match_here objname od localservice slots in tret (Some r)) (λ _, tret None) in
      match r with
      | None => tret (Some false, (false, slots))
      | Some (ret, slots) =>
          if ret && forallb (λ s, negb (flt (fit s) fone)) slots then tret (Some true, (true, slots))
          else if (tracesize <? 0) || (MAX_HOPS <=? tracesize) then tret (Some ret, (ret, slots))
          else
            let^ ip := look own_ip in
            let '(_, _, _) := AddTrace ip iptrace tracesize in
            tret (None, (ret, slots))
      end.

Definition AllocResource (objname : string) (od : pop_od) (localservice : string) (slots : list slot)
    (requestInfo iptrace : list Z) (tracesize : Z) : T (bool * list slot) :=
  let^ r := alloc_here objname od localservice slots requestInfo iptrace tracesize in
  let '(now, (ret, slots)) := r in
  match now with
  | Some ret => tret (ret, slots)
  | None => search_resource od localservice slots ret
  end.

(** ** Starting the objects *)
Definition slot_at (i : nat) : T slot := let^ w := tget in tneed (slots w !! i).
Definition set_slot (i : nat) (s : slot) : T () := tset (λ w, w <| slots := <[i := s]> (slots w) |>).
(** The places after [i]. *)
Definition places_from (i : nat) : T (list nat) :=
  let^ w := tget in tret (seq i (length (slots w) - i)).

(** The reservations of the slot [i], and of those after it on the same job manager. *)
Definition cancel_slot (i : nat) : T () :=
  let^ s := slot_at i in
  if negb (bool_decide (job_contact s = "")) && fgt (fit s) fzero then
    tcatch
      (ask (JobMgr_connect (job_contact s)) ;;^
       ask (Cancel_at (job_contact s) [reserve_id s]) ;;^
       let^ js := places_from (S i) in
       tfor js (λ j,
         let^ sj := slot_at j in
         if fgt (fit sj) fzero && bool_decide (job_contact s = job_contact sj) then
           set_slot j (MkSlot fzero "" (reserve_id sj)) ;;^
           ask (Cancel_at (job_contact s) [reserve_id sj])
         else tret ()))
      (λ _, tret ()) ;;^ tret ()
  else tret ().

(** The slots after [i] with the same job manager: their contact is cleared. *)
Definition clear_contact (ac : string) (s : slot) : slot :=
  if bool_decide (job_contact s = ac) then MkSlot (fit s) "" (reserve_id s) else s.
Definition same_contact (ac : string) (l : list slot) : list Z :=
  reserve_id <$> List.filter (λ s, bool_decide (job_contact s = ac)) l.

(** The arrays of the caller. *)
Definition set_remotejob (ac : string) : T () :=
  let^ w := tget in
  if (count w <? length (remotejobcontacts w))%nat
  then tset (λ w, w <| remotejobcontacts := <[count w := ac]> (remotejobcontacts w) |>) else undefined.
Definition set_objects (n : nat) (objs : nat → string) : T () :=
  let^ w := tget in
  if (count w + n <=? length (objcontacts w))%nat
  then tset (λ w, w <| objcontacts := take (count w) (objcontacts w) ++ (objs <$> seq 0 n) ++
                                         drop (count w + n) (objcontacts w) |>) else undefined.

Definition exec_slot (objname : string) (od : pop_od) (localservice : string) (i : nat) : T () :=
  let^ s := slot_at i in
  let ac := job_contact s in
  if bool_decide (ac = "") then tret ()
  else
    tcatch
      (ask (JobMgr_connect ac) ;;^
       let^ w := tget in
       let tmpids := reserve_id s :: same_contact ac (drop (S i) (slots w)) in
       tset (λ w, w <| slots := take (S i) (slots w) ++ (clear_contact ac <$> drop (S i) (slots w)) |>) ;;^
       set_remotejob ac ;;^
       let^ r := ask (ExecObj_at ac objname od tmpids localservice) in
       set_objects (length tmpids) r.2 ;;^
       if r.1 =? 0 then tset (λ w, w <| count := (count w + length tmpids)%nat |>)
       else ask (Cancel_at ac tmpids))
      (λ _, tret ()) ;;^ tret ().

Definition reset_slot (s : slot) : slot := MkSlot fzero "" (reserve_id s).
Definition new_request : T (list Z) :=
  let^ w := tget in
  let n := requestCounter (manager w) in
  let^ n' := tcall (check_int (n + 1)) in
  tset (λ w, w <| manager := (manager w) <| requestCounter := n' |> |>) ;;^
  tret (serviceID (manager w) ++ [n]).

(** The loop of [CreateObject]: [retry] attempts; what it leaves in [ret]. *)
Fixpoint create_loop (retry : nat) (localservice objname : string) (od : pop_od) : T Z :=
  let^ w := tget in
  if (length (slots w) <=? count w)%nat then tret 0
  else
    match retry with
    | O => tret 0
    | S retry' =>
        let^ requestInfo := new_request in
        tset (λ w, w <| slots := reset_slot <$> slots w |>) ;;^
        let^ w := tget in
        let^ r := AllocResource objname od localservice (drop (count w) (slots w)) requestInfo
                    (replicate (Z.to_nat MAX_HOPS) 0) 0 in
        tset (λ w, w <| slots := take (count w) (slots w) ++ r.2 |>) ;;^
        if negb r.1 then tret OBJECT_NO_RESOURCE
        else
          let^ w := tget in
          let^ places := places_from (count w) in
          if existsb (λ s, fle (fit s) fzero) (drop (count w) (slots w)) then
            tfor places cancel_slot ;;^ tret OBJECT_NO_RESOURCE
          else
            tfor places (exec_slot objname od localservice) ;;^
            create_loop retry' localservice objname od
    end.

Definition kill_object (ap : string) : T () :=
  tcatch (ask (Object_connect ap) ;;^ ask (Object_Kill ap)) (λ _, tret ()) ;;^ tret ().

Definition CreateObject (localservice objname : string) (od : pop_od) (howmany : nat) : T Z :=
  if (howmany <=? 0)%nat then tret 0
  else
    tset (λ w, w <| count := 0%nat |> <| slots := replicate howmany (MkSlot fzero "" 0) |>) ;;^
    let^ ret := ttry (create_loop 3 localservice objname od)
                  (λ _, let^ e := look elapsed in
                        tset (λ w, w <| manager := Pause localservice SLEEP_TIME_ON_ERROR e (manager w) |>) ;;^
                        tret POP_JOBSERVICE_FAIL) in
    let^ w := tget in
    if (howmany <=? count w)%nat then tret 0
    else
      tfor (take (count w) (objcontacts w)) kill_object ;;^
      tret (if ret =? 0 then POP_EXEC_FAIL else ret).

(** ** Asking the neighbours

    [Forward], which nothing calls any more. The stopwatch, the order of the hash table (see
    [GetContacts]) and the names of hosts are parameters. *)
Section Forwarding.
Context (watch_reset : X → X) (watch_elapsed : X → float * X).
Context (hash_order : gmap string NodeInfo → list (string * NodeInfo)) (stale : bool) (lookup : chars → option Z).

Definition forward_to (objname : string) (od : pop_od) (localservice : string) (requestInfo iptrace : list Z)
    (tracesize : Z) (contact : string) (info : NodeInfo) : T forwarding :=
  look (λ x, ((), watch_reset x)) ;;^
  let^ seen := tcall (NodeInTrace lookup iptrace tracesize contact) in
  if (seen : bool) then tret Skipped
  else
    let^ w := tget in
    let '(sl, good) := partition_slots (slots w) in
    tset (λ w, w <| slots := sl |>) ;;^
    if (length sl <=? good)%nat then tret Enough
    else
      ask (JobMgr_connect contact) ;;^
      let old := drop good sl in
      let^ r := ask (AllocResource_at contact objname od localservice old requestInfo iptrace tracesize) in
      tset (λ w, w <| slots := take good sl ++ r.2 |>) ;;^
      let^ seconds := look watch_elapsed in
      tret (Asked r.1 (heuristic_after r.1 seconds r.2 old info)).
Fixpoint forward_all (contacts : list string) (objname : string) (od : pop_od) (localservice : string)
    (requestInfo iptrace : list Z) (tracesize : Z) (ret : bool) : T bool :=
  match contacts with
  | [] => tret ret
  | contact :: contacts' =>
      let next := forward_all contacts' objname od localservice requestInfo iptrace tracesize in
      let^ w := tget in
      match Map_GetInfo contact (neighbors (manager w)) with
      | None => next ret
      | Some info =>
          let^ e := if fge (stoptime info) fzero then look elapsed else tret fzero in
          match may_forward e info with
          | None => next ret
          | Some info =>
              let^ r := ttry (forward_to objname od localservice requestInfo iptrace tracesize contact info) (λ _, tret Failed) in
              match r with
              | Skipped => next ret
              | Enough => tret ret
              | Asked ok info =>
                  tset (λ w, w <| manager := (manager w) <| neighbors := (Map_Update contact info (neighbors (manager w))).1 |> |>) ;;^
                  next (ret || ok)
              | Failed =>
                  let^ e := if nodetype info =? NODE_STATIC then look elapsed else tret fzero in
                  tset (λ w, w <| manager := forward_failed e contact info (manager w) |>) ;;^
                  next ret
              end
          end
      end
  end.
Definition Forward (objname : string) (od : pop_od) (localservice : string) (requestInfo iptrace : list Z)
    (tracesize : Z) : T bool :=
  let^ w := tget in
  let^ ret := forward_all (GetContacts stale (hash_order (neighbors (manager w)))) objname od localservice requestInfo
                iptrace tracesize false in
  tset (λ w, w <| manager := learn (slots w) (manager w) |>) ;;^
  tret ret.
End Forwarding.

(** ** In turn *)

(** A node is asked for its job manager, and that for a reservation. *)
Definition turn (od : pop_od) (popAppId reqID : string) (n : NodeInfo.POPCSearchNodeInfo) (jm : string) (r : Z * float) :
    list event :=
  let ac := c_str (NodeInfo.nodeId n) in
  [Event (SearchNode_connect ac) (Some ()); Event (GetJobMgrRef ac) (Some jm); Event (JobMgr_connect jm) (Some ());
   Event (Reserve_at jm od fzero popAppId reqID) (Some r)].

(** The nodes asked in turn, from the first: what was said, the reservations granted and how many
    were refused. *)
Inductive rounds (od : pop_od) (popAppId reqID : string) (nodes : list NodeInfo.POPCSearchNodeInfo) :
    list event → list slot → nat → Prop :=
  | rounds_none : rounds od popAppId reqID nodes [] [] 0
  | rounds_granted L granted refused n jm id t :
      rounds od popAppId reqID nodes L granted refused →
      nodes !! ((length granted + refused) mod length nodes)%nat = Some n → id ≠ 0 →
      rounds od popAppId reqID nodes (L ++ turn od popAppId reqID n jm (id, t)) (granted ++ [MkSlot t jm id]) refused
  | rounds_refused L granted refused n jm t :
      rounds od popAppId reqID nodes L granted refused →
      nodes !! ((length granted + refused) mod length nodes)%nat = Some n →
      rounds od popAppId reqID nodes (L ++ turn od popAppId reqID n jm (0, t)) granted (S refused).

Lemma ask_spec total {A : Type} (c : remote A) Q w :
  (∀ r j x, answer A c (manager w) (others w) = (r, (j, x)) →
    Q r (asked c r j x w)) →
  wp total (ask c) Q w.
Proof. intros HQ. unfold ask, wp. destruct (answer A c (manager w) (others w)) as [r [j x]] eqn:E. by apply HQ. Qed.

Lemma look_spec total {A : Type} (f : X → A * X) (Q : exc I + A → placing → Prop) w :
  (∀ a x, Q (inr a) (w <| others := x |>)) → wp total (look f) Q w.
Proof. intros HQ. unfold look, wp. destruct (f (others w)). apply HQ. Qed.

Lemma next_turn {A : Type} (l ni : list A) (a : A) p :
  a :: ni = drop (p mod length l) l → l ≠ [] →
  l !! (p mod length l)%nat = Some a ∧ (match ni with [] => l | _ => ni end) = drop (S p mod length l) l.
Proof.
  intros E Hl. assert (Hn : length l ≠ 0%nat) by (by destruct l).
  pose proof (Nat.mod_upper_bound p (length l) Hn) as Hb. split.
  - by rewrite <- (Nat.add_0_r (p mod length l)), <- lookup_drop, <- E.
  - assert (Hni : ni = drop (S (p mod length l)) l).
    { apply (f_equal (drop 1)) in E. rewrite drop_drop in E. cbn in E. rewrite drop_0 in E.
      by replace (S (p mod length l)) with (p mod length l + 1)%nat by lia. }
    pose proof (Nat.Div0.add_mod_idemp_l p 1 (length l)) as Hm. replace (p + 1)%nat with (S p) in Hm by lia.
    destruct (decide (S (p mod length l) < length l)%nat) as [Hlt|Hge].
    + rewrite Nat.mod_small in Hm by lia. rewrite <- Hm. replace (p mod length l + 1)%nat with (S (p mod length l)) by lia.
      rewrite <- Hni. destruct ni as [|b ni]; [|done]. exfalso. apply (f_equal length) in Hni.
      rewrite length_drop in Hni. cbn in Hni. lia.
    + replace (p mod length l + 1)%nat with (length l) in Hm by lia. rewrite Nat.Div0.mod_same in Hm. rewrite <- Hm, drop_0.
      destruct ni as [|b ni]; [done |]. apply (f_equal length) in Hni. rewrite length_drop in Hni. cbn in Hni. lia.
Qed.

(** What the loop has done when it ends, after [L]. *)
Definition reserved_post od appid req nodes (L : list event) (n : nat) (w : placing) (r : exc I + bool * list slot)
    (w' : placing) : Prop :=
  match r with
  | inl _ => True
  | inr (ok, slots') => ∃ L' granted failed, log w' = log w ++ L' ∧ rounds od appid req nodes (L ++ L') granted failed ∧
      length slots' = n ∧
      if (ok : bool) then (failed < length nodes)%nat ∧ slots' = granted
      else failed = length nodes ∧ (length granted < n)%nat ∧ take (length granted) slots' = granted
  end.
Lemma reserved_post_after od appid req nodes L K n w w1 r w' :
  log w1 = log w ++ K → reserved_post od appid req nodes (L ++ K) n w1 r w' → reserved_post od appid req nodes L n w r w'.
Proof.
  intros E. destruct r as [x|[ok sl]]; [done |]. intros (L' & g & f & El & Hr & Hrest).
  rewrite <- app_assoc in Hr. exists (K ++ L'), g, f. split; [by rewrite El, E, <- app_assoc | by split].
Qed.

Ltac after K :=
  match goal with |- wp _ _ (reserved_post _ _ _ _ _ _ ?w) ?w1 =>
    eapply wp_mono; [intros ? ?; apply (reserved_post_after _ _ _ _ _ K _ w w1); cbn [log asked]; by rewrite <- !app_assoc |]
  end.

Lemma reserve_loop_rounds od appid req nodes fuel ni failed ret slots granted L w :
  rounds od appid req nodes L granted failed → nodes ≠ [] →
  ni = drop ((length granted + failed) mod length nodes) nodes → (failed < length nodes)%nat →
  (length granted ≤ length slots)%nat → take (length granted) slots = granted →
  (ret = true ∨ length granted ≠ length slots) →
  (length slots - length granted + (length nodes - failed) ≤ fuel)%nat →
  wp true (reserve_loop fuel od appid req nodes ni failed ret slots (length granted))
    (reserved_post od appid req nodes L (length slots) w) w.
Proof.
  intros Hr Hn. revert ni failed ret slots granted L w Hr.
  induction fuel as [|fuel IH]; intros ni failed ret slots granted L w Hr Hni Hf Hle Htake Hret Hfuel;
    cbn [reserve_loop]; (destruct (slots !! length granted) as [s|] eqn:Es;
      [pose proof (lookup_lt_Some _ _ _ Es) as Hlt |
       apply twp_ret; apply lookup_ge_None in Es; assert (length granted = length slots) as El by lia;
       destruct Hret as [->|]; [|done]; exists [], granted, failed; rewrite !app_nil_r; split_and!; try done;
       rewrite <- Htake, El; symmetry; by apply take_ge]); [lia |].
  destruct ni as [|n ni].
  { exfalso. apply (f_equal length) in Hni. rewrite length_drop in Hni. cbn in Hni.
    pose proof (Nat.mod_upper_bound (length granted + failed) (length nodes)). lia. }
  destruct (next_turn nodes ni n (length granted + failed) Hni Hn) as [Hlook Hnext]. rewrite Hnext.
  repeat (apply twp_bind, ask_spec; intros [?|?] ? ? _; [done |]; cbv beta iota).
  repeat match goal with u : () |- _ => destruct u end.
  match goal with |- wp _ (let '(id, t) := ?a in _) _ _ => destruct a as [id t] end.
  match goal with |- context [asked (GetJobMgrRef _) (inr ?jm)] => set (jm0 := jm) end.
  destruct (Z.eqb_spec id 0) as [->|Hid].
  - set (slots1 := <[length granted := MkSlot (fit s) (job_contact s) 0]> slots).
    pose proof (rounds_refused _ _ _ _ L granted failed n jm0 t Hr Hlook) as Hr1.
    assert (Ht1 : take (length granted) slots1 = granted) by (unfold slots1; by rewrite take_insert_ge).
    assert (Hl1 : length slots1 = length slots) by apply length_insert.
    after (turn od appid req n jm0 (0, t)).
    destruct (Nat.eqb_spec (S failed) (length nodes)) as [He|Hne].
    + apply twp_ret. exists [], granted, (S failed). rewrite !app_nil_r. by split_and!.
    + rewrite <- Hl1. replace (S (length granted + failed)) with (length granted + S failed)%nat by lia.
      apply IH; [done | done | lia | lia | done | by left | lia].
  - set (slots1 := <[length granted := MkSlot t jm0 id]> slots).
    pose proof (rounds_granted _ _ _ _ L granted failed n jm0 id t Hr Hlook Hid) as Hr1.
    assert (Hg1 : length (granted ++ [MkSlot t jm0 id]) = S (length granted)) by (rewrite length_app; cbn; lia).
    assert (Hl1 : length slots1 = length slots) by apply length_insert.
    assert (Ht1 : take (S (length granted)) slots1 = granted ++ [MkSlot t jm0 id]).
    { rewrite (take_S_r _ _ (MkSlot t jm0 id)) by (unfold slots1; by rewrite list_lookup_insert_eq).
      unfold slots1. by rewrite take_insert_ge, Htake. }
    after (turn od appid req n jm0 (id, t)).
    rewrite <- Hl1, <- Hg1. apply IH; rewrite ?Hg1; [done | done | lia | lia | done | by left | lia].
Qed.

(** C13: reservations are asked for in turn. When a discovery found nodes, the loop of [AllocResource]
    ends; what was said is turns of the nodes from the first to the last and again. Without an
    exception it returns true when every object has the reservation a node granted, in order, and
    fewer were refused than there are nodes; and false when as many were refused as there are
    nodes, whoever refused, with the reservations that were granted before. *)
Theorem reserve_round_robin od popAppId reqID nodes slots w :
  nodes ≠ [] → slots ≠ [] →
  ∃ r w', reserve_loop (length slots + length nodes) od popAppId reqID nodes nodes 0 false slots 0 w = Some (Ok (r, w')) ∧
    match r with
    | inl _ => True
    | inr (ok, slots') => ∃ L granted refused, log w' = log w ++ L ∧ rounds od popAppId reqID nodes L granted refused ∧
        length slots' = length slots ∧
        if (ok : bool) then (refused < length nodes)%nat ∧ slots' = granted
        else refused = length nodes ∧ (length granted < length slots)%nat ∧ take (length granted) slots' = granted
    end.
Proof.
  intros Hn Hs. apply (wp_total _ (reserved_post od popAppId reqID nodes [] (length slots) w)).
  apply (reserve_loop_rounds od popAppId reqID nodes _ nodes 0 false slots [] []);
    [apply rounds_none | done | | | cbn; lia | done | right | cbn; lia].
  - cbn. destruct (length nodes); [done | by rewrite Nat.Div0.mod_0_l].
  - destruct nodes; cbn; [done | lia].
  - by destruct slots.
Qed.

(** ** Every object is given back or killed *)

(** That [n] more requests can be numbered before the counter overflows, whatever the others do. *)
Context (room : nat → JobMgr → X → Prop).
Class RequestNumbers := {
  room_answer n A (c : remote A) j x : room n j x → room n (answer A c j x).2.1 (answer A c j x).2.2;
  room_count n j x : room (S n) j x →
    in_sint 32 (requestCounter j + 1) = true ∧ room n (j <| requestCounter := requestCounter j + 1 |>) x }.
Context `{!RequestNumbers}.

(** The objects that were started, in order, and those that were to be killed. *)
Definition started_by (e : event) : list string :=
  match e with
  | Event c a =>
      match c in remote A return option A → list string with
      | ExecObj_at _ _ _ ids _ => λ a,
          match a with Some (0, objs) => objs <$> seq 0 (length ids) | _ => [] end
      | _ => λ _, []
      end a
  end.
Definition started (L : list event) : list string := concat (started_by <$> L).
Definition kill_of (e : event) : list string :=
  match e with Event (Object_connect ap) _ => [ap] | _ => [] end.
Definition killed (L : list event) : list string := concat (kill_of <$> L).
(** Neither. *)
Definition quiet (e : event) : Prop := started_by e = [] ∧ kill_of e = [].

Lemma started_app L K : started (L ++ K) = started L ++ started K.
Proof. unfold started. by rewrite fmap_app, concat_app. Qed.
Lemma killed_app L K : killed (L ++ K) = killed L ++ killed K.
Proof. unfold killed. by rewrite fmap_app, concat_app. Qed.
Lemma quiet_started L : Forall quiet L → started L = [] ∧ killed L = [].
Proof.
  induction 1 as [|e L [Hs Hk] _ [IHs IHk]]; [done |].
  unfold started, killed in *. cbn. by rewrite Hs, Hk, IHs, IHk.
Qed.

(** The variables of [CreateObject] stay, what is said is of [P], the result of [R]. *)
Definition kept (w w' : placing) : Prop :=
  slots w' = slots w ∧ count w' = count w ∧ objcontacts w' = objcontacts w ∧ remotejobcontacts w' = remotejobcontacts w.
Definition room_for (n : nat) (w : placing) : Prop := room n (manager w) (others w).
Definition says {A : Type} (n : nat) (P : event → Prop) (m : T A) (R : A → Prop) (w : placing) : Prop :=
  wp true m (λ r w', kept w w' ∧ room_for n w' ∧ (∃ L, log w' = log w ++ L ∧ Forall P L) ∧
    match r with inl _ => True | inr a => R a end) w.

Lemma says_ret {A : Type} n P (a : A) (R : A → Prop) w : room_for n w → R a → says n P (tret a) R w.
Proof. intros Hr HR. apply twp_ret. split_and!; [done | done | | done]. exists []. by rewrite app_nil_r. Qed.
Lemma says_throw {A : Type} n P (x : exc I) (R : A → Prop) w : room_for n w → says n P (tthrow x) R w.
Proof. intros Hr. apply twp_throw. split_and!; [done | done | | done]. exists []. by rewrite app_nil_r. Qed.
Lemma says_after {A : Type} n P (R : A → Prop) w w1 L r w' :
  kept w w1 → log w1 = log w ++ L → Forall P L →
  kept w1 w' ∧ room_for n w' ∧ (∃ L, log w' = log w1 ++ L ∧ Forall P L) ∧ match r with inl _ => True | inr a => R a end →
  kept w w' ∧ room_for n w' ∧ (∃ L, log w' = log w ++ L ∧ Forall P L) ∧
    match r : exc I + A with inl _ => True | inr a => R a end.
Proof.
  intros (Ks & Kc & Ko & Kr) El HL ((Ks' & Kc' & Ko' & Kr') & Hr & (L' & El' & HL') & HR). split_and!; [|done| |done].
  - unfold kept. by rewrite Ks', Kc', Ko', Kr'.
  - exists (L ++ L'). by rewrite El', El, app_assoc, Forall_app.
Qed.
Lemma says_bind {A A' : Type} n P (m : T A) (k : A → T A') (Q : A → Prop) (R : A' → Prop) w :
  says n P m Q w → (∀ a w', Q a → room_for n w' → kept w w' → says n P (k a) R w') → says n P (tbind m k) R w.
Proof.
  intros Hm Hk. apply twp_bind. eapply wp_mono; [|exact Hm]. intros [x|a] w' (Kp & Hr & (L & El & HL) & HQ).
  - split_and!; [done | done | by exists L | done].
  - eapply wp_mono; [|by apply Hk]. intros r w''. by eapply says_after.
Qed.
Lemma says_ask {A A' : Type} n P (c : remote A) (k : A → T A') (R : A' → Prop) w :
  (∀ a, P (Event c a)) → room_for n w → (∀ a w', room_for n w' → kept w w' → says n P (k a) R w') →
  says n P (tbind (ask c) k) R w.
Proof.
  intros HP Hr Hk. apply (says_bind n P (ask c) k (λ _, True)); [|intros a w' _; apply Hk].
  apply ask_spec. intros r j x E. pose proof (room_answer n A c _ _ Hr) as Hr'. rewrite E in Hr'.
  split_and!; [done | done | | by destruct r]. eexists. split; [reflexivity |]. by repeat constructor.
Qed.
Lemma says_call {A A' : Type} n P (o : result A) (k : A → T A') (R : A' → Prop) w :
  o ≠ Stuck → room_for n w → (∀ a, says n P (k a) R w) → says n P (tbind (tcall o) k) R w.
Proof.
  intros Ho Hr Hk. destruct o as [a|c i|]; [apply Hk | | done].
  apply twp_bind, twp_throw. split_and!; [done | done | | done]. exists []. by rewrite app_nil_r.
Qed.

(** What is said while a place is looked for. *)
Definition searching (e : event) : Prop :=
  match e with
  | Event c _ => match c with Cancel_at _ _ | ExecObj_at _ _ _ _ _ | Object_connect _ | Object_Kill _ => False | _ => True end
  end.
Lemma searching_quiet L : Forall searching L → Forall quiet L.
Proof. intros HL. eapply Forall_impl; [exact HL |]. intros [A c a] Hs. by destruct c. Qed.

Lemma reserve_loop_says n od appid req nodes fuel ni failed ret slots jobindex w :
  nodes ≠ [] → ni ≠ [] → (failed < length nodes)%nat →
  (length slots - jobindex + (length nodes - failed) ≤ fuel)%nat → room_for n w →
  says n searching (reserve_loop fuel od appid req nodes ni failed ret slots jobindex) (λ r, length r.2 = length slots) w.
Proof.
  intros Hn. revert ni failed ret slots jobindex w.
  induction fuel as [|fuel IH]; intros ni failed ret slots jobindex w Hni Hf Hfuel Hr;
    cbn [reserve_loop]; (destruct (slots !! jobindex) as [s|] eqn:Es; [|by apply says_ret]);
    pose proof (lookup_lt_Some _ _ _ Es) as Hlt; [lia |].
  destruct ni as [|a ni]; [done |].
  repeat (apply says_ask; [by intros ? | done |]; intros ? ? ? _).
  match goal with |- says _ _ (let '(id, t) := ?a in _) _ _ => destruct a as [id t] end.
  assert (Hnext : (match ni with [] => nodes | _ => ni end) ≠ []) by (by destruct ni).
  destruct (Z.eqb_spec id 0) as [->|Hid].
  - destruct (Nat.eqb_spec (S failed) (length nodes)) as [He|Hne].
    + apply says_ret; [done |]. cbn. by rewrite length_insert.
    + eapply wp_mono; [|apply IH; [done | lia | rewrite length_insert; lia | done]].
      intros ? ?. by rewrite length_insert.
  - eapply wp_mono; [|apply IH; [done | lia | rewrite length_insert; lia | done]].
    intros ? ?. by rewrite length_insert.
Qed.

Lemma AllocResource_says n objname od localservice slots requestInfo iptrace tracesize w :
  searchSet od = true → max_hops od ≠ Stuck → search_timeout od ≠ Stuck → room_for n w →
  says n searching (AllocResource objname od localservice slots requestInfo iptrace tracesize)
    (λ r, length r.2 = length slots) w.
Proof.
  intros Hs Hh Ht Hr. unfold AllocResource, alloc_here. rewrite Hs. unfold search_resource.
  apply (says_bind _ _ _ _ (λ r, r = (None, (false, slots)))); [by apply says_ret |]. intros ? w1 -> Hr1 _.
  apply (says_bind _ _ _ _ (λ _, True)); [apply twp_get; split_and!; [done | done | exists []; by rewrite app_nil_r | done] |].
  intros w2 w3 _ Hr3 _.
  repeat first [apply says_ask; [by intros ? | done |]; intros ? ? ? _ | apply says_call; [done | done |]; intros ?].
  case_bool_decide as Hnodes; [by apply says_throw |]. apply reserve_loop_says; [done | done | | cbn; lia | done].
  match goal with |- (0 < length ?l)%nat => destruct l; cbn; [done | lia] end.
Qed.

(** The places are within the arrays, and the objects of this call are in front. *)
Definition progress (log0 : list event) (howmany : nat) (w : placing) : Prop :=
  length (slots w) = howmany ∧ (count w ≤ howmany)%nat ∧ (howmany ≤ length (objcontacts w))%nat ∧
  (howmany ≤ length (remotejobcontacts w))%nat ∧
  ∃ L, log w = log0 ++ L ∧ started L = take (count w) (objcontacts w) ∧ killed L = [].
(** The slots that still have a job manager. *)
Definition placed (l : list slot) : nat := length (List.filter (λ s, negb (bool_decide (job_contact s = ""))) l).

Lemma progress_asked log0 howmany {A : Type} (c : remote A) r j x w :
  quiet (Event c (match r with inl _ => None | inr a => Some a end)) →
  progress log0 howmany w → progress log0 howmany (asked c r j x w).
Proof.
  intros Hq (Hl & Hc & Ho & Hr & (L & El & Hs & Hk)). split_and!; try done.
  destruct (quiet_started [_] (Forall_cons_2 _ _ _ Hq (Forall_nil_2 _))) as [Qs Qk].
  eexists (L ++ [_]). cbn [log asked]. split_and!; [by rewrite El, <- app_assoc | |].
  - by rewrite started_app, Qs, app_nil_r.
  - by rewrite killed_app, Qk, app_nil_r.
Qed.
Lemma progress_slots log0 howmany f w :
  (∀ l : list slot, length l = howmany → length (f l) = howmany) →
  progress log0 howmany w → progress log0 howmany (w <| slots := f (slots w) |>).
Proof. intros Hf (Hl & Hrest). split; [by apply Hf | done]. Qed.
Lemma progress_remotejob log0 howmany f w :
  (∀ l : list string, length (f l) = length l) →
  progress log0 howmany w → progress log0 howmany (w <| remotejobcontacts := f (remotejobcontacts w) |>).
Proof. intros Hf (Hl & Hc & Ho & Hr & Hrest). split_and!; try done. cbn. by rewrite Hf. Qed.

Lemma placed_clear ac l :
  ac ≠ "" → (length (same_contact ac l) + placed (clear_contact ac <$> l) = placed l)%nat.
Proof.
  intros Hac. unfold same_contact. rewrite length_fmap. unfold placed.
  induction l as [|s l IH]; [done |]. rewrite fmap_cons. cbn [List.filter].
  destruct (decide (job_contact s = ac)) as [E|E].
  - assert (Ec : clear_contact ac s = MkSlot (fit s) "" (reserve_id s)) by (unfold clear_contact; by rewrite bool_decide_true).
    rewrite Ec. cbn [job_contact]. rewrite (bool_decide_true (job_contact s = ac)), (bool_decide_true ("" = "")) by done.
    rewrite (bool_decide_false (job_contact s = "")) by congruence. cbn [negb length]. lia.
  - assert (Ec : clear_contact ac s = s) by (unfold clear_contact; by rewrite bool_decide_false).
    rewrite Ec, (bool_decide_false (job_contact s = ac)) by done.
    destruct (bool_decide (job_contact s = "")); cbn [negb length]; lia.
Qed.

(** The objects of an answer. *)
Lemma progress_objects log0 howmany ids (objs : nat → string) (ret : Z) jm objname od localservice (w1 : placing) :
  progress log0 howmany w1 → (count w1 + length ids ≤ howmany)%nat →
  ∀ j x, let w2 := asked (ExecObj_at jm objname od ids localservice) (inr (ret, objs)) j x w1 in
  let oc := take (count w1) (objcontacts w1) ++ (objs <$> seq 0 (length ids)) ++ drop (count w1 + length ids) (objcontacts w1) in
  progress log0 howmany (w2 <| objcontacts := oc |> <| count := if ret =? 0 then (count w1 + length ids)%nat else count w1 |>).
Proof.
  intros (Hl & Hc & Ho & Hr & (L & El & Hs & Hk)) Hn j x w2 oc.
  assert (Htake : length (take (count w1) (objcontacts w1)) = count w1) by (rewrite length_take; lia).
  split_and!; cbn.
  - done.
  - by destruct (ret =? 0).
  - unfold oc. rewrite !length_app, Htake, length_fmap, length_seq, length_drop. lia.
  - done.
  - eexists (L ++ [_]). split_and!; [by rewrite El, <- app_assoc | |].
    + rewrite started_app, Hs. unfold started. cbn. rewrite app_nil_r. destruct (Z.eqb_spec ret 0) as [->|Hne]; unfold oc.
      * rewrite app_assoc, take_app_le by (rewrite length_app, Htake, length_fmap, length_seq; lia).
        symmetry. apply take_ge. rewrite length_app, Htake, length_fmap, length_seq. lia.
      * rewrite take_app_le, take_take, Nat.min_id by lia. destruct ret; [done | |]; by rewrite app_nil_r.
    + rewrite killed_app, Hk. done.
Qed.

(** What follows keeps the progress and lets no exception of the standard library out. *)
Definition keeps (log0 : list event) (howmany : nat) (J : placing → Prop) (r : exc I + ()) (w : placing) : Prop :=
  progress log0 howmany w ∧ match r with inl x => is_std x = false | inr _ => J w end.

Lemma asked_quiet log0 howmany {A : Type} (c : remote A) (k : A → T ()) (Q : exc I + () → placing → Prop) w :
  (∀ a, quiet (Event c a)) → progress log0 howmany w →
  (∀ x j y, progress log0 howmany (asked c (inl x) j y w) → Q (inl x) (asked c (inl x) j y w)) →
  (∀ a j x, progress log0 howmany (asked c (inr a) j x w) → wp true (k a) Q (asked c (inr a) j x w)) →
  wp true (tbind (ask c) k) Q w.
Proof.
  intros Hq Hp Hx Hk. apply twp_bind, ask_spec. intros [x|a] j y _; [apply Hx | apply Hk]; by apply progress_asked.
Qed.
Lemma asked_quiet_last log0 howmany (c : remote ()) (Q : exc I + () → placing → Prop) w :
  (∀ a, quiet (Event c a)) → progress log0 howmany w →
  (∀ r j y, progress log0 howmany (asked c r j y w) → Q r (asked c r j y w)) → wp true (ask c) Q w.
Proof. intros Hq Hp Hx. apply ask_spec. intros r j y _. apply Hx. by apply progress_asked. Qed.

Lemma slot_at_spec {A : Type} i (k : slot → T A) Q w s :
  slots w !! i = Some s → wp true (k s) Q w → wp true (tbind (slot_at i) k) Q w.
Proof. intros E Hk. unfold slot_at. do 2 apply twp_bind. apply twp_get. cbv beta iota. by rewrite E. Qed.

(** A block whose exceptions are dropped. *)
Lemma dropped log0 howmany (J : placing → Prop) (m : T ()) w :
  wp true m (λ _ w', progress log0 howmany w' ∧ J w') w →
  wp true (tcatch m (λ _, tret ()) ;;^ tret ()) (keeps log0 howmany J) w.
Proof.
  intros Hm. apply twp_bind, twp_catch. eapply wp_mono; [|exact Hm]. intros [x|[]] w' [Hp HJ].
  - destruct (is_std x) eqn:Ex; [by do 2 apply twp_ret | by split].
  - by apply twp_ret.
Qed.

Lemma cancel_slot_ok log0 howmany i w :
  (i < howmany)%nat → progress log0 howmany w →
  wp true (cancel_slot i) (keeps log0 howmany (λ _, True)) w.
Proof.
  intros Hi Hp. unfold cancel_slot.
  destruct (lookup_lt_is_Some_2 (slots w) i) as [s Es]; [by rewrite (proj1 Hp) |].
  eapply slot_at_spec; [exact Es |]. destruct (_ && _); [|by apply twp_ret]. apply dropped.
  apply asked_quiet with log0 howmany; [by intros [] | done | done |]. intros [] j1 x1 Hp1.
  apply asked_quiet with log0 howmany; [by intros [] | done | done |]. intros [] j2 x2 Hp2.
  unfold places_from. do 2 apply twp_bind. apply twp_get. cbv beta iota. apply twp_ret. cbv beta iota.
  rewrite (proj1 Hp2).
  apply (twp_for _ _ _ (λ _ w', progress log0 howmany w')); [done | | by split].
  intros done_ j rest w' El Hw'.
  assert (Hj : (j < howmany)%nat) by (assert (Hin : j ∈ seq (S i) (howmany - S i)) by (rewrite El; set_solver);
    apply elem_of_seq in Hin; lia).
  destruct (lookup_lt_is_Some_2 (slots w') j) as [sj Esj]; [by rewrite (proj1 Hw') |].
  eapply slot_at_spec; [exact Esj |]. destruct (_ && _); [|by apply twp_ret].
  apply twp_bind, twp_set. cbv beta iota.
  apply asked_quiet_last with log0 howmany; [by intros [] | |].
  - apply (progress_slots log0 howmany (λ l, <[j := _]> l)); [|done]. intros l Hl. by rewrite length_insert.
  - intros [x|[]] j3 x3 Hp3; [by split | done].
Qed.

(** What is open at the place [i]. *)
Definition open_at (howmany i : nat) (w : placing) : Prop := (count w + placed (drop i (slots w)) ≤ howmany)%nat.

Lemma exec_slot_ok log0 howmany objname od localservice i w :
  (i < howmany)%nat → progress log0 howmany w → open_at howmany i w →
  wp true (exec_slot objname od localservice i) (keeps log0 howmany (open_at howmany (S i))) w.
Proof.
  intros Hi Hp Hop. unfold exec_slot.
  destruct (lookup_lt_is_Some_2 (slots w) i) as [s Es]; [by rewrite (proj1 Hp) |].
  eapply slot_at_spec; [exact Es |].
  assert (Hd : drop i (slots w) = s :: drop (S i) (slots w)) by by apply drop_S.
  case_bool_decide as Hac.
  { apply twp_ret. split; [done |]. unfold open_at in *. rewrite Hd in Hop. unfold placed in *. cbn [List.filter] in Hop.
    by rewrite bool_decide_true in Hop. }
  set (ac := job_contact s) in *. set (rest := drop (S i) (slots w)) in *.
  assert (Hpl : placed (drop i (slots w)) = S (placed rest)).
  { rewrite Hd. unfold placed. cbn [List.filter]. by rewrite bool_decide_false. }
  pose proof (placed_clear ac rest Hac) as Hclear. unfold open_at in Hop. rewrite Hpl in Hop.
  apply dropped. apply asked_quiet with log0 howmany; [by intros [] | done | |].
  { intros x j y Hp1. split; [done |]. unfold open_at. change (slots (asked _ _ _ _ w)) with (slots w). fold rest. change (count (asked _ _ _ _ w)) with (count w). lia. }
  intros [] j1 x1 Hp1. set (w1 := asked _ _ _ _ _) in *. unfold set_remotejob, set_objects.
  apply twp_bind, twp_get. cbv beta iota. apply twp_bind, twp_set. cbv beta iota.
  change (slots w1) with (slots w). fold rest.
  set (cleared := take (S i) (slots w) ++ (clear_contact ac <$> rest)).
  assert (Hlc : length cleared = howmany).
  { unfold cleared, rest. rewrite length_app, length_fmap, length_take, length_drop, (proj1 Hp). lia. }
  assert (Hdc : drop (S i) cleared = clear_contact ac <$> rest).
  { unfold cleared. rewrite drop_app_length'; [done |]. rewrite length_take, (proj1 Hp). lia. }
  set (w2 := w1 <| slots := cleared |>).
  assert (Hp2 : progress log0 howmany w2).
  { apply (progress_slots log0 howmany (λ _, cleared)); [done | done]. }
  do 2 apply twp_bind. apply twp_get. cbv beta iota.
  rewrite (proj2 (Nat.ltb_lt _ _)) by (destruct Hp2 as (_ & _ & _ & Hr & _); change (count w2) with (count w); lia).
  apply twp_set. cbv beta iota. set (w3 := w2 <| remotejobcontacts := _ |>).
  assert (Hp3 : progress log0 howmany w3).
  { apply (progress_remotejob log0 howmany (λ l, <[count w2 := ac]> l)); [|done]. intros l. apply length_insert. }
  set (ids := reserve_id s :: same_contact ac rest).
  assert (Hids : (count w3 + length ids + placed (clear_contact ac <$> rest) ≤ howmany)%nat).
  { change (count w3) with (count w). unfold ids. cbn [length]. lia. }
  apply twp_bind, ask_spec. intros [x|[ret objs]] j4 x4 _; cbv beta iota.
  { split; [by apply progress_asked |]. unfold open_at. change (slots (asked _ _ _ _ w3)) with cleared. rewrite Hdc.
    change (count (asked _ _ _ _ w3)) with (count w3). lia. }
  pose proof (progress_objects log0 howmany ids objs ret ac objname od localservice w3 Hp3 ltac:(lia) j4 x4) as Hp5.
  cbv zeta in Hp5. set (w4 := asked _ _ _ _ w3) in *. cbn [fst snd].
  do 2 apply twp_bind. apply twp_get. cbv beta iota. change (count w4) with (count w3).
  rewrite (proj2 (Nat.leb_le _ _)) by (destruct Hp3 as (_ & _ & Ho & _); change (objcontacts w4) with (objcontacts w3); lia).
  apply twp_set. cbv beta iota. destruct (Z.eqb_spec ret 0) as [Hret|Hret].
  - apply twp_set. split; [exact Hp5 |].
    change (count w3 + length ids + placed (drop (S i) cleared) ≤ howmany)%nat. by rewrite Hdc.
  - apply asked_quiet_last with log0 howmany; [by intros [] | exact Hp5 |]. intros r j y Hp6. split; [done |].
    change (count w3 + placed (drop (S i) cleared) ≤ howmany)%nat. rewrite Hdc. lia.
Qed.

(** The room for requests stays, too. *)
Lemma room_ask n {A : Type} (c : remote A) : leads (room_for n) (room_for n) (ask c).
Proof.
  intros w r w' Hr E. unfold ask in E. pose proof (room_answer n A c _ _ Hr) as Hr'.
  destruct (answer A c (manager w) (others w)) as [r' [j x]]. by injection E as <- <-.
Qed.
Lemma room_set n (f : placing → placing) :
  (∀ w, manager (f w) = manager w ∧ others (f w) = others w) → leads (I := I) (room_for n) (room_for n) (tset f).
Proof. intros Hf. apply leads_set. intros w. unfold room_for. by destruct (Hf w) as [-> ->]. Qed.
Lemma room_slot_at n i : leads (I := I) (room_for n) (room_for n) (slot_at i).
Proof. unfold slot_at. leads_steps. Qed.
Lemma room_places n i : leads (I := I) (room_for n) (room_for n) (places_from i).
Proof. unfold places_from. leads_steps. Qed.
#[local] Hint Resolve room_ask room_slot_at room_places : leads.
#[local] Hint Extern 1 (leads (room_for _) (room_for _) (tset _)) => (apply room_set; intros; by split) : leads.
Lemma room_cancel n i : leads (room_for n) (room_for n) (cancel_slot i).
Proof. unfold cancel_slot, set_slot. leads_steps. Qed.
Lemma room_exec n objname od localservice i : leads (room_for n) (room_for n) (exec_slot objname od localservice i).
Proof. unfold exec_slot, set_remotejob, set_objects. leads_steps. Qed.

(** The loops over the places from [i]. *)
Lemma places_ok n log0 howmany (f : nat → T ()) (J : nat → placing → Prop) i w :
  (i ≤ howmany)%nat →
  (∀ k w, (k < howmany)%nat → progress log0 howmany w → J k w → wp true (f k) (keeps log0 howmany (J (S k))) w) →
  (∀ k, leads (room_for n) (room_for n) (f k)) →
  progress log0 howmany w → J i w → room_for n w →
  wp true (tfor (seq i (howmany - i)) f)
    (λ r w', progress log0 howmany w' ∧ room_for n w' ∧ match r with inl x => is_std x = false | inr _ => True end) w.
Proof.
  intros Hi Hf Hroom Hp HJ Hr.
  eapply (wp_mono _ _ (λ r w', keeps log0 howmany (λ _, True) r w' ∧ room_for n w')); [intros r w'; unfold keeps; by destruct r; intros [[] ?] |].
  apply (wp_leads _ (room_for n)); [by apply leads_for | done |].
  apply (twp_for _ _ _ (λ l w', progress log0 howmany w' ∧ J (i + length l)%nat w')).
  - cbn. by rewrite Nat.add_0_r.
  - intros l k rest w' El [Hp' HJ'].
    assert (Hk : k = (i + length l)%nat ∧ (i + length l < howmany)%nat).
    { pose proof (f_equal length El) as Hl. rewrite length_seq, length_app in Hl. cbn in Hl.
      pose proof (f_equal (λ q, q !! length l) El) as Hlk. cbv beta in Hlk.
      rewrite lookup_app_r, Nat.sub_diag in Hlk by lia. cbn in Hlk. rewrite lookup_seq_lt in Hlk by lia.
      injection Hlk as <-. lia. }
    destruct Hk as [-> Hk]. eapply wp_mono; [|by apply Hf]. intros [x|[]] w'' [Hp'' HJ'']; [by split |].
    split; [done |]. rewrite length_app. cbn. by replace (i + (length l + 1))%nat with (S (i + length l)) by lia.
  - intros w' [Hp' _]. by split.
Qed.

Lemma progress_manager log0 howmany j w : progress log0 howmany w → progress log0 howmany (w <| manager := j |>).
Proof. done. Qed.

Lemma create_loop_ok retry log0 howmany localservice objname od w :
  searchSet od = true → max_hops od ≠ Stuck → search_timeout od ≠ Stuck →
  progress log0 howmany w → room_for retry w →
  wp true (create_loop retry localservice objname od) (λ _ w', progress log0 howmany w') w.
Proof.
  intros Hs Hh Ht. revert w. induction retry as [|retry IH]; intros w Hp Hr; cbn [create_loop];
    apply twp_bind, twp_get; cbv beta iota; (destruct (length (slots w) <=? count w)%nat eqn:Ec; [by apply twp_ret |]).
  { by apply twp_ret. }
  apply Nat.leb_gt in Ec. rewrite (proj1 Hp) in Ec.
  unfold new_request. do 2 apply twp_bind. apply twp_get. cbv beta iota.
  destruct (room_count _ _ _ Hr) as [Hc Hr1]. rewrite (check_int_Ok _ Hc). cbn [tcall]. apply twp_bind, twp_ret. cbv beta iota.
  apply twp_bind, twp_set. cbv beta iota. apply twp_ret. cbv beta iota.
  set (w1 := w <| manager := _ |>). apply twp_bind, twp_set. cbv beta iota.
  set (w2 := w1 <| slots := _ |>).
  assert (Hp2 : progress log0 howmany w2).
  { apply (progress_slots log0 howmany (fmap reset_slot)); [|done]. intros l. by rewrite length_fmap. }
  apply twp_bind, twp_get. cbv beta iota. apply twp_bind.
  assert (Hr2 : room_for retry w2) by exact Hr1.
  eapply wp_mono; [|apply (AllocResource_says retry); [done | done | done | exact Hr2]].
  intros r w3 ((Ks & Kc & Ko & Kr) & Hr3 & (L3 & El3 & HL3) & Hlen).
  destruct (quiet_started L3 (searching_quiet L3 HL3)) as [Qs Qk].
  assert (Hp3 : progress log0 howmany w3).
  { destruct Hp2 as (Hl & Hc2 & Ho & Hrj & (L & El & HsL & HkL)). unfold progress. rewrite Ks, Kc, Ko, Kr.
    split_and!; try done. exists (L ++ L3). by rewrite El3, El, app_assoc, started_app, killed_app, Qs, Qk, !app_nil_r. }
  destruct r as [x|[ok sl]]; [done |]. cbn [fst snd] in *. apply twp_bind, twp_set. cbv beta iota.
  change (count w2) with (count w) in *. rewrite length_drop in Hlen. change (slots w2) with (reset_slot <$> slots w) in *.
  rewrite length_fmap, (proj1 Hp) in Hlen. set (w4 := w3 <| slots := _ |>).
  assert (Hp4 : progress log0 howmany w4).
  { apply (progress_slots log0 howmany (λ l, take (count w3) l ++ sl)); [|done]. intros l Hl.
    rewrite length_app, length_take, Hlen, Kc. lia. }
  destruct ok; cbn [negb]; [|by apply twp_ret]. apply twp_bind, twp_get. cbv beta iota.
  unfold places_from. do 2 apply twp_bind. apply twp_get. cbv beta iota. apply twp_ret. cbv beta iota. rewrite (proj1 Hp4).
  assert (Hc4 : (count w4 ≤ howmany)%nat) by apply Hp4.
  destruct (existsb _ _); apply twp_bind.
  - eapply wp_mono; [|apply (places_ok retry log0 howmany _ (λ _ _, True)); [done | | apply room_cancel | done | done | exact Hr3]].
    + intros [x|[]] w5 (Hp5 & _); [done | by apply twp_ret].
    + intros k w5 Hk Hp5 _. by apply cancel_slot_ok.
  - eapply wp_mono; [|apply (places_ok retry log0 howmany _ (open_at howmany)); [done | | apply room_exec | done | | exact Hr3]].
    + intros [x|[]] w5 (Hp5 & Hr5 & _); [done | by apply IH].
    + intros k w5 Hk Hp5 Ho5. by apply exec_slot_ok.
    + unfold open_at. change (count w4) with (count w3). rewrite Kc. unfold placed.
      etransitivity; [apply Nat.add_le_mono_l, List.filter_length_le |]. rewrite length_drop, (proj1 Hp4). lia.
Qed.

(** What a call that ended with [r] did with the objects. *)
Definition accounted (howmany : nat) (w : placing) (r : exc I + Z) (w' : placing) : Prop :=
  match r with
  | inl x => is_std x = false
  | inr ret => ∃ L, log w' = log w ++ L ∧
      if ret =? 0 then started L = take howmany (objcontacts w') ∧ killed L = []
      else (length (started L) < howmany)%nat ∧ killed L = started L
  end.

Lemma kill_object_ok ap (log1 K : list event) w :
  log w = log1 ++ K → started K = [] →
  wp true (kill_object ap) (λ r w', match r with
    | inl x => is_std x = false
    | inr _ => ∃ K', log w' = log1 ++ K' ∧ started K' = [] ∧ killed K' = killed K ++ [ap] end) w.
Proof.
  intros El HsK. unfold kill_object. apply twp_bind, twp_catch. apply twp_bind, ask_spec. intros [x|[]] j y _; cbv beta iota.
  - destruct (is_std x) eqn:Ex; [|done]. do 2 apply twp_ret. eexists (K ++ [_]). cbn [log asked].
    rewrite El, <- !app_assoc, started_app, killed_app, HsK. by split_and!.
  - apply ask_spec. intros [x|[]] j2 y2 _; cbv beta iota; [destruct (is_std x) eqn:Ex; [do 2 apply twp_ret | done] | apply twp_ret];
      eexists (K ++ [_; _]); cbn [log asked]; rewrite El, <- !app_assoc, started_app, killed_app, HsK; by split_and!.
Qed.

(** The end of [CreateObject]. *)
Lemma create_end_ok howmany w ret w2 :
  progress (log w) howmany w2 →
  wp true (let^ w := tget in
    if (howmany <=? count w)%nat then tret 0
    else tfor (take (count w) (objcontacts w)) kill_object ;;^ tret (if ret =? 0 then POP_EXEC_FAIL else ret))
    (accounted howmany w) w2.
Proof.
  intros (Hl & Hc & Ho2 & _ & (L & El & HsL & HkL)). apply twp_bind, twp_get. cbv beta iota.
  destruct (Nat.leb_spec howmany (count w2)) as [Hge|Hlt].
  - apply twp_ret. exists L. change (0 =? 0) with true. cbv iota. assert (count w2 = howmany) as <- by lia. by split_and!.
  - apply twp_bind. apply (twp_for _ _ _ (λ l w', ∃ K, log w' = (log w ++ L) ++ K ∧ started K = [] ∧ killed K = l)).
    + exists []. by rewrite app_nil_r.
    + intros l ap rest w' _ (K & EK & HsK & <-). by apply kill_object_ok.
    + intros w' (K & EK & HsK & HkK). apply twp_ret. exists (L ++ K). split; [by rewrite app_assoc |].
      assert (Hne : ((if ret =? 0 then POP_EXEC_FAIL else ret) =? 0) = false)
        by (destruct (Z.eqb_spec ret 0); [done | by apply Z.eqb_neq]).
      rewrite Hne, started_app, killed_app, HsL, HkL, HsK, HkK, app_nil_r. split; [|done]. rewrite length_take. lia.
Qed.


(** The state in which [CreateObject] looks for places the first time. *)
Definition first_attempt (howmany : nat) (w : placing) : placing :=
  w <| count := 0%nat |> <| slots := replicate howmany (MkSlot fzero "" 0) |>
    <| manager := (manager w) <| requestCounter := requestCounter (manager w) + 1 |> |>.

(** Reservations of a search that fails are kept. When [AllocResource] returns false, whatever was
    granted to it, [CreateObject] returns that there is no resource, and nothing else is said: no
    reservation is cancelled. *)
Theorem refused_reservations_kept localservice objname od howmany w slots' w1 :
  (0 < howmany)%nat → searchSet od = true → max_hops od ≠ Stuck → search_timeout od ≠ Stuck → room_for 3 w →
  AllocResource objname od localservice (replicate howmany (MkSlot fzero "" 0))
    (serviceID (manager w) ++ [requestCounter (manager w)]) (replicate (Z.to_nat MAX_HOPS) 0) 0 (first_attempt howmany w) =
    Some (Ok (inr (false, slots'), w1)) →
  ∃ w', CreateObject localservice objname od howmany w = Some (Ok (inr OBJECT_NO_RESOURCE, w')) ∧
    ∃ L, log w' = log w ++ L ∧ log w1 = log w' ∧ Forall searching L.
Proof.
  intros Hpos Hs Hh Ht Hr E.
  destruct (room_count _ _ _ Hr) as [Hc Hr1].
  pose proof (AllocResource_says 2 objname od localservice (replicate howmany (MkSlot fzero "" 0))
    (serviceID (manager w) ++ [requestCounter (manager w)]) (replicate (Z.to_nat MAX_HOPS) 0) 0 (first_attempt howmany w)
    Hs Hh Ht Hr1) as Hsays.
  unfold says, wp in Hsays. rewrite E in Hsays. destruct Hsays as ((_ & Kc & _) & _ & (L & El & HL) & _).
  assert (Ereset : reset_slot <$> replicate howmany (MkSlot fzero "" 0) = replicate howmany (MkSlot fzero "" 0))
    by (by rewrite fmap_replicate).
  set (w2 := w1 <| slots := take (count w1) (slots w1) ++ slots' |>).
  assert (Eloop : create_loop 3 localservice objname od (w <| count := 0%nat |> <| slots := replicate howmany (MkSlot fzero "" 0) |>) =
    Some (Ok (inr OBJECT_NO_RESOURCE, w2))).
  { cbn [create_loop]. erewrite tbind_eq by reflexivity. cbv beta. cbn [slots count upd].
    rewrite length_replicate, (proj2 (Nat.leb_gt _ _)) by done.
    erewrite (tbind_eq new_request _ _ _ (first_attempt howmany w)).
    2: { unfold new_request. erewrite tbind_eq by reflexivity. cbv beta. change (requestCounter (manager _)) with (requestCounter (manager w)).
         rewrite (check_int_Ok _ Hc). reflexivity. }
    cbv beta. erewrite (tbind_eq _ _ _ () (first_attempt howmany w)).
    2: { unfold first_attempt, tset, modify, tret, bind, ret. cbn. by rewrite Ereset. }
    cbv beta. erewrite tbind_eq by reflexivity. cbv beta.
    erewrite tbind_eq; [|change (drop _ _) with (replicate howmany (MkSlot fzero "" 0)); exact E]. reflexivity. }
  exists w2. split; [|exists L; split; [exact El | by split]].
  unfold CreateObject. rewrite (proj2 (Nat.leb_gt _ _)) by done. erewrite tbind_eq by reflexivity. cbv beta.
  unfold ttry. erewrite tbind_eq by (unfold bind; rewrite Eloop; reflexivity). cbv beta.
  erewrite tbind_eq by reflexivity. cbv beta. change (count w2) with (count w1). rewrite Kc. change (count (first_attempt howmany w)) with 0%nat.
  rewrite (proj2 (Nat.leb_gt _ _)) by done. reflexivity.
Qed.
End Placement.

(** ** Small grids *)
Module Examples.
Definition node (id : string) : NodeInfo.POPCSearchNodeInfo := NodeInfo.info_new <| NodeInfo.nodeId := id |>.
(** Every node has its job manager; [grant] is the reservation it gives, the argument how many were
    asked for before. *)
Definition grid (nodes : list NodeInfo.POPCSearchNodeInfo) (grant : string → nat → Z) (A : Type) (c : remote A) :
    JobMgr → nat → (exc () + A) * (JobMgr * nat) :=
  match c in remote A return JobMgr → nat → (exc () + A) * (JobMgr * nat) with
  | Reserve_at jm _ _ _ _ => λ j x, (inr (grant jm x, fone), (j, S x))
  | LaunchDiscovery _ _ _ => λ j x, (inr nodes, (j, x))
  | AllocResource_at _ _ _ _ sl _ _ _ => λ j x, (inr (false, sl), (j, x))
  | ExecObj_at jm _ _ _ _ => λ j x, (inr (0, λ _, "object on " +:+ jm), (j, x))
  | GetJobMgrRef n => λ j x, (inr ("jm of " +:+ n), (j, x))
  | GetNodeId n => λ j x, (inr n, (j, x))
  | GetUID _ => λ j x, (inr "request", (j, x))
  | GetPOPCAppID _ => λ j x, (inr "application", (j, x))
  | QueryCode _ _ _ => λ j x, (inr (0, ""), (j, x))
  | JobMgr_connect _ | Cancel_at _ _ | SearchNode_connect _ | AppService_connect _ | CodeMgr_connect _
  | Object_connect _ | Object_Kill _ => λ j x, (inr (), (j, x))
  end.
Definition room (n : nat) (j : JobMgr) (_ : nat) : Prop := - 2 ^ 31 ≤ requestCounter j ∧ requestCounter j + Z.of_nat n ≤ int_max.
#[export] Instance grid_numbers nodes grant : RequestNumbers (grid nodes grant) room.
Proof.
  split; [by intros n A [] j x |]. intros n j x [H1 H2]. unfold int_max in *.
  split; [apply in_sint32; lia |]. split; cbn; unfold int_max; lia.
Qed.
Definition od0 : pop_od := (od_new false None None) <| searchSet := true |>.
Definition clock (x : nat) : float * nat := (fzero, x).
Definition start (n : nat) : placing (X := nat) := MkPlacing sample_jm 0%nat [] [] 0 (replicate n "") (replicate n "").

(** Of two nodes one refuses: it is asked twice for three objects, and then both are given up. *)
Definition two : list NodeInfo.POPCSearchNodeInfo := [node "full"; node "free"].
Definition free_only (jm : string) (x : nat) : Z := if decide (jm = "jm of free") then Z.of_nat (S x) else 0.
Lemma reserve_round_robin_witness :
  ∃ w', reserve_loop (grid two free_only) 5 od0 "application" "request" two two 0 false (replicate 3 (MkSlot fzero "" 0)) 0 (start 3) =
    Some (Ok (inr (false, [MkSlot fone "jm of free" 2; MkSlot fzero "" 0; MkSlot fzero "" 0]), w')).
Proof.
  destruct (reserve_round_robin (grid two free_only) od0 "application" "request" two (replicate 3 (MkSlot fzero "" 0)) (start 3))
    as (r & w' & E0 & _).
  - discriminate.
  - discriminate.
  - exists w'. refine (eq_trans E0 _). vm_compute in E0. injection E0 as <- _. reflexivity.
Defined.

Definition create (nodes : list NodeInfo.POPCSearchNodeInfo) (grant : string → nat → Z) (n : nat) :=
  CreateObject (grid nodes grant) (λ x, (0, x)) clock (λ x, (None, x)) (λ _, None) (λ _, "") "services" "Worker" od0 n (start n).


(** One node with one place, for two objects. *)
Definition granted_by (e : event) : list Z :=
  match e with
  | Event c a =>
      match c in remote A return option A → list Z with
      | Reserve_at _ _ _ _ _ => λ a, match a with Some (id, _) => [id] | None => [] end
      | _ => λ _, []
      end a
  end.
Definition one_place (_ : string) (x : nat) : Z := if Nat.eqb x 0 then 7 else 0.
Lemma refused_reservations_kept_witness :
  ∃ w', create [node "a"] one_place 2 = Some (Ok (inr OBJECT_NO_RESOURCE, w')) ∧
    concat (granted_by <$> log w') = [7; 0] ∧ Forall searching (log w').
Proof.
  destruct (AllocResource (grid [node "a"] one_place) (λ x, (0, x)) clock (λ x, (None, x)) (λ _, None) (λ _, "") "Worker" od0 "services"
    (replicate 2 (MkSlot fzero "" 0)) (serviceID (manager (start 2)) ++ [requestCounter (manager (start 2))])
    (replicate (Z.to_nat MAX_HOPS) 0) 0 (first_attempt 2 (start 2))) as [[[[x|[[] sl]] w1]| |]|] eqn:E0;
    try (vm_compute in E0; discriminate E0).
  destruct (refused_reservations_kept (grid [node "a"] one_place) (λ x, (0, x)) clock (λ x, (None, x)) (λ _, None) (λ _, "")
    room "services" "Worker" od0 2 (start 2) sl w1) as (w' & E1 & L & El & El1 & HL).
  - lia.
  - reflexivity.
  - vm_compute. discriminate.
  - vm_compute. discriminate.
  - split; vm_compute; discriminate.
  - exact E0.
  - exists w'. split; [exact E1 |]. rewrite El. split; [|exact HL].
    cbn [log start app] in El. rewrite <- El, <- El1. vm_compute in E0. injection E0 as _ <-. reflexivity.
Defined.
End Examples.
