(* ===== verification/Launch.v ===== *)
(** * Starting objects on a job manager

    [JobMgr::ExecObj] and [Exec] (services/lib/jobmgr.cc): the reservations are looked up, the
    command line is put together, the process is started, and each object reports its access
    point on a socket of the job manager. The code manager, the socket and the processes are
    parameters; while a message is waited for, other methods change the job manager. *)

From S2P Require Import Prelude Machine Exceptions Message ExceptionProtocol Utils ObjectDescription.
From S2P Require Import JobMgr SearchNode Effects Throwing Placement.

Definition ENOENT : Z := 2.
Definition EINVAL : Z := 22.
Definition ECANCELED : Z := 125.

Section Launch.
Context {I X : Type}.
(** The code manager: its interface, and a query. *)
Context (CodeMgr : string → JobMgr → X → (exc I + ()) * (JobMgr * X)).
Context (QueryCode : string → string → string → JobMgr → X → (exc I + (Z * string)) * (JobMgr * X)).
(** The socket: its address, a message received, and the values in it. *)
Context (socket_create : X → option chars * X) (recv : JobMgr → X → bool * (JobMgr * X)).
Context (unpack_status : X → (exc I + Z) * X) (unpack_address : X → (exc I + string) * X).
(** A process with its arguments and environment ([None]: it could not be made), and its end. *)
Context (fork_exec : list chars → list chars → X → option Z * X) (kill : Z → X → X).
Context (time : X → Z * X) (elapsed : X → float * X) (errno : X → Z) (getenv : string → option chars).
Context (fmt_g : float → string).

Record launching : Type := MkLaunching { manager : JobMgr; system : X }.
#[local] Instance launching_eta : Eta launching := λ w, MkLaunching (manager w) (system w).
#[local] Abbreviation T := (Throws launching I).

Definition see {A : Type} (f : X → A * X) : T A := λ w,
  let '(a, x) := f (system w) in Some (Ok (inr a, w <| system := x |>)).
Definition wait {A : Type} (f : JobMgr → X → A * (JobMgr * X)) : T A := λ w,
  let '(a, (j, x)) := f (manager w) (system w) in Some (Ok (inr a, MkLaunching j x)).
Definition rethrow {A : Type} (r : exc I + A) : T A := match r with inl x => tthrow x | inr a => tret a end.

Definition pause (app : string) : T () :=
  let^ e := see elapsed in tset (λ w, w <| manager := Pause app SLEEP_TIME_ON_ERROR e (manager w) |>).
Definition cancel (ids : list Z) : T () :=
  let^ w := tget in
  let^ r := tcall (CancelReservation ids (manager w)) in
  tset (λ w, w <| manager := r.1 |>).

(** ** The process *)

(** [Exec]: the command of the configuration goes before the arguments, unless Java is started. *)
Definition java : chars := default (string_bytes "/usr/bin/java") (getenv "POPJAVA_JAVA").
Definition exec_argv (arguments : list chars) (j : JobMgr) : list chars :=
  let prefix :=
    if bool_decide (head arguments = Some java) then []
    else match Query fmt_g "jobmgr" j with
         | Some str => tokens [x20; x0a; x0d; x09] (before_nul (string_bytes str)) []
         | None => []
         end in
  prefix ++ take 1023 arguments.
(** The error and the process. *)
Definition Exec (arguments env : list chars) : T (Z * Z) :=
  if bool_decide (arguments = []) then undefined   (* strcmp(nullptr, ...) *)
  else
    let^ w := tget in
    let^ pid := see (fork_exec (exec_argv arguments (manager w)) env) in
    match pid with
    | None => pause "" ;;^ let^ w := tget in tret (errno (system w), -1)
    | Some pid => tret (0, pid)
    end.

(** ** The object *)

(** The first walltime of the reservations, for the environment. *)
Definition walltime_text (w : float) : result chars :=
  let! hours := trunc_float (fdiv w (float_of_Z 3600)) in
  let! h := check_int (hours * 3600) in
  let! minutes := trunc_float (fdiv (fsub w (float_of_Z h)) (float_of_Z 60)) in
  let! m := check_int (minutes * 60) in
  let sec := fsub (fsub w (float_of_Z h)) (float_of_Z m) in
  Ok (take 255 (string_bytes "POPC_JOB_WALLTIME=" ++ decimal hours ++ x3a :: decimal minutes ++ x3a :: string_bytes (fmt_g sec))).
(** The reservations one after the other: the application and the request of the last; one that is
    gone is dereferenced before it is tested. *)
Fixpoint verify_all (ids : list Z) (app req : string) (walltime : option chars) : T (string * string * option chars) :=
  match ids with
  | [] => tret (app, req, walltime)
  | id :: ids' =>
      let^ now := see time in
      let^ w := tget in
      let '(j, r) := VerifyReservation id true now (manager w) in
      tset (λ w, w <| manager := j |>) ;;^
      match r with
      | None => undefined
      | Some r =>
          let^ walltime :=
            if fgt (job_walltime r) fzero && bool_decide (walltime = None)
            then let^ t := tcall (walltime_text (job_walltime r)) in tret (Some t)
            else tret walltime in
          verify_all ids' (popAppId r) (reqID r) walltime
      end
  end.

Definition exec_arguments (mycodefile objname localservice cburl cwd : chars) (me : chars) : list chars :=
  tokens [x20; x09; x0a] (before_nul mycodefile) [] ++
  [before_nul (string_bytes "-object=" ++ objname); before_nul (string_bytes "-jobservice=" ++ me)] ++
  (if bool_decide (localservice = []) then [] else [before_nul (string_bytes "-appservice=" ++ localservice)]) ++
  [take 1023 (string_bytes "-callback=" ++ before_nul cburl)] ++
  (if bool_decide (cwd = []) then [] else [take 1023 (string_bytes "-cwd=" ++ before_nul cwd)]).

(** What the objects report, one after the other; the process is killed when one fails. *)
Definition exec_failed (all : list Z) (pid : Z) (localservice : string) (contacts : list string) (paused : bool)
    (code : Z) : T (Z * list string) :=
  (if 0 <? pid then see (λ x, ((), kill pid x)) else tret ()) ;;^
  (if paused then pause localservice else tret ()) ;;^
  cancel all ;;^ tret (code, contacts).
Fixpoint receive_all (all ids : list Z) (pid : Z) (localservice : string) (contacts : list string) : T (Z * list string) :=
  match ids with
  | [] => tret (0, contacts)
  | id :: ids' =>
      let failed := exec_failed all pid localservice contacts in
      let^ ok := wait recv in
      if negb ok then let^ w := tget in failed true (errno (system w))
      else
        let^ n := see unpack_status in
        let^ n := rethrow n in
        if negb (n =? 0) then failed true n
        else
          let^ c := see unpack_address in
          let^ c := rethrow c in
          let^ now := see time in
          let^ w := tget in
          let '(j, valid) := ValidateReservation id c localservice now (manager w) in
          tset (λ w, w <| manager := j |>) ;;^
          if (valid : bool) then receive_all all ids' pid localservice (contacts ++ [c])
          else failed false ECANCELED
  end.

Definition ExecObj (objname : string) (od : pop_od) (reserveIDs : list Z) (localservice : string) : T (Z * list string) :=
  if bool_decide (reserveIDs = []) then tret (EINVAL, [])
  else
    let^ r := verify_all reserveIDs "" "" None in
    let env := (string_bytes "POPC_NP=" ++ decimal (zlen reserveIDs)) :: option_list r.2 in
    let^ w := tget in
    let^ code := ttry
      (let^ c := wait (CodeMgr localservice) in
       rethrow c ;;^
       let^ w := tget in
       let^ r := wait (QueryCode localservice objname (platform (manager w))) in
       let^ r := rethrow r in
       tret (if (r.1 =? 0) || bool_decide (r.2 = "") then None else Some r.2))
      (λ _, tret None) in
    match code with
    | None => cancel reserveIDs ;;^ tret (ENOENT, [])
    | Some mycodefile =>
        let^ cburl := see socket_create in
        match cburl with
        | None => cancel reserveIDs ;;^ let^ w := tget in tret (errno (system w), [])
        | Some cburl =>
            let^ w := tget in
            let argv := exec_arguments (string_bytes mycodefile) (string_bytes objname) (string_bytes localservice)
                          cburl (string_bytes (cwd od)) (string_bytes (my_contact (manager w))) in
            let^ e := Exec argv env in
            if negb (e.1 =? 0) then pause localservice ;;^ cancel reserveIDs ;;^ tret (e.1, [])
            else receive_all reserveIDs reserveIDs e.2 localservice []
        end
    end.

(** ** Reservations become jobs *)
Definition job (id : Z) (j : JobMgr) : option Resources := find (λ t, Id t =? id) (jobs j).

Lemma find_update id (f : Resources → Resources) l l' :
  (∀ t, Id (f t) = Id t) → update_job id f l = Some l' →
  (∃ t, find (λ t, Id t =? id) l' = Some (f t)) ∧
  ∀ id', id' ≠ id → find (λ t, Id t =? id') l' = find (λ t, Id t =? id') l.
Proof.
  intros Hf. revert l'. induction l as [|t l IH]; intros l' E; cbn [update_job] in E; [done |].
  destruct (Z.eqb_spec (Id t) id) as [Ht|Ht].
  - injection E as <-. cbn. rewrite Hf, Ht, Z.eqb_refl. split; [by exists t |]. intros id' Hne.
    by rewrite (proj2 (Z.eqb_neq id id')) by done.
  - apply fmap_Some in E as (l1 & E & ->). destruct (IH l1 E) as [[t' Ht'] Hother]. cbn.
    rewrite (proj2 (Z.eqb_neq _ _) Ht). split; [by exists t' |]. intros id' Hne. by rewrite Hother.
Qed.
Lemma ValidateReservation_job id c a now j j' :
  ValidateReservation id c a now j = (j', true) →
  (∃ t, job id j' = Some t ∧ contact t = c ∧ appservice t = a) ∧ ∀ id', id' ≠ id → job id' j' = job id' j.
Proof.
  unfold ValidateReservation. destruct (update_job id _ (jobs j)) as [l|] eqn:E; [|done]. intros [= <-].
  apply find_update in E as [[t Ht] Hother]; [|done]. split; [|done]. by eexists.
Qed.

(** The first reservations are jobs of the contacts reported. *)
Definition validated (ids : list Z) (contacts : list string) (localservice : string) (w : launching) : Prop :=
  length contacts = length ids ∧
  ∀ i id c, ids !! i = Some id → contacts !! i = Some c →
    ∃ t, job id (manager w) = Some t ∧ contact t = c ∧ appservice t = localservice.

Lemma validated_snoc ids contacts localservice w w' id c :
  id ∉ ids → validated ids contacts localservice w →
  (∃ t, job id (manager w') = Some t ∧ contact t = c ∧ appservice t = localservice) →
  (∀ id', id' ≠ id → job id' (manager w') = job id' (manager w)) →
  validated (ids ++ [id]) (contacts ++ [c]) localservice w'.
Proof.
  intros Hid [Hl Hv] Hnew Hother. split; [rewrite !length_app, Hl; done |]. intros i id1 c1 E1 E2.
  destruct (decide (i < length ids)%nat) as [Hlt|Hge].
  - rewrite lookup_app_l in E1 by done. rewrite lookup_app_l in E2 by lia.
    destruct (Hv i id1 c1 E1 E2) as (t & Ht & Hrest). exists t. split; [|done]. rewrite Hother; [done |].
    intros ->. apply Hid. by eapply list_elem_of_lookup_2.
  - pose proof (lookup_lt_Some _ _ _ E1) as Hi. rewrite length_app in Hi. cbn in Hi.
    assert (i = length ids) as -> by lia. rewrite lookup_app_r, Nat.sub_diag in E1 by lia.
    rewrite lookup_app_r, Hl, Nat.sub_diag in E2 by lia. cbn in E1, E2. by injection E1 as <-; injection E2 as <-.
Qed.

(** A failed system call leaves an error, and while an object is waited for nobody touches the
    reservations in question. *)
Context (errno_set : ∀ x, errno x ≠ 0).

Definition ended_well (all : list Z) (localservice : string) (r : exc I + (Z * list string)) (w : launching) : Prop :=
  match r with inr (0, contacts) => validated all contacts localservice w | _ => True end.

Lemma ended_code all localservice code contacts (w : launching) : code ≠ 0 → ended_well all localservice (inr (code, contacts)) w.
Proof. by destruct code. Qed.
Lemma yields_code all localservice {A : Type} (m : T A) code contacts w :
  code ≠ 0 → yields (tbind m (λ _, tret (code, contacts))) (ended_well all localservice) w.
Proof.
  intros Hc. apply yields_bind. intros [x|a] w' _; [done |]. apply yields_ret. by apply ended_code.
Qed.

Lemma receive_all_validates all pre ids pid localservice contacts w :
  NoDup all → all = pre ++ ids → (∀ id j x, id ∈ all → job id (recv j x).2.1 = job id j) →
  validated pre contacts localservice w →
  yields (receive_all all ids pid localservice contacts) (ended_well all localservice) w.
Proof.
  intros Hnd Hall Hleave. revert pre Hall contacts w. induction ids as [|id ids IH]; intros pre Hall contacts w Hv; cbn [receive_all].
  { apply yields_ret. by rewrite Hall, app_nil_r. }
  assert (Hfailed : ∀ paused code w', code ≠ 0 →
    yields (exec_failed all pid localservice contacts paused code) (ended_well all localservice) w').
  { intros paused code w' Hc. unfold exec_failed. do 2 (apply yields_bind; intros [?|?] ? _; [done |]). by apply yields_code. }
  assert (Hv1 : validated pre contacts localservice (MkLaunching (recv (manager w) (system w)).2.1 (recv (manager w) (system w)).2.2)).
  { destruct Hv as [Hl Hv]. split; [done |]. intros i id1 c1 E1 E2. cbn. rewrite Hleave; [by apply (Hv i) |].
    rewrite Hall. apply elem_of_app. left. by eapply list_elem_of_lookup_2. }
  apply yields_bind. intros r w' E. unfold wait in E. destruct (recv (manager w) (system w)) as [ok [j x]] eqn:Erecv.
  injection E as <- <-. cbn [fst snd] in Hv1. destruct ok; cbn [negb].
  2: { apply yields_bind. intros r w' [= <- <-]. apply Hfailed, errno_set. }
  apply yields_bind. intros r w' E. unfold see in E. cbn in E. destruct (unpack_status x) as [n x1]. injection E as <- <-.
  apply yields_bind. intros r w' E. destruct n as [y|n]; [by injection E as <- <- |]. injection E as <- <-.
  destruct (Z.eqb_spec n 0) as [->|Hn]; cbn [negb]; [|by apply Hfailed].
  apply yields_bind. intros r w' E. unfold see in E. cbn in E. destruct (unpack_address x1) as [c x2]. injection E as <- <-.
  apply yields_bind. intros r w' E. destruct c as [y|c]; [by injection E as <- <- |]. injection E as <- <-.
  apply yields_bind. intros r w' E. unfold see in E. cbn in E. destruct (time x2) as [now x3]. injection E as <- <-.
  apply yields_bind. intros r w' [= <- <-]. cbn [manager upd].
  destruct (ValidateReservation id c localservice now _) as [j' valid] eqn:Eval.
  apply yields_bind. intros r w' [= <- <-]. destruct valid; [|by apply Hfailed].
  apply (IH (pre ++ [id])); [by rewrite <- app_assoc |].
  destruct (ValidateReservation_job _ _ _ _ _ _ Eval) as [Hnew Hother].
  eapply validated_snoc; [| exact Hv1 | exact Hnew | exact Hother].
  rewrite Hall in Hnd. apply NoDup_app in Hnd as (_ & Hd & _). intros Hin. by apply (Hd id Hin), list_elem_of_here.
Qed.

End Launch.

(** A reservation on a small job manager, and an object that reports at once. *)
Module Examples.
Definition start_one : option (result ((exc () + (Z * list string)) * launching (X := ()))) :=
  ExecObj (λ _ j x, (inr (), (j, x))) (λ _ _ _ j x, (inr (1, "/usr/lib/worker.obj"), (j, x)))
    (λ x, (Some (string_bytes "socket://host:3000"), x)) (λ j x, (true, (j, x)))
    (λ x, (inr 0, x)) (λ x, (inr "socket://host:5000", x)) (λ _ _ x, (Some 42, x)) (λ _ x, x)
    (λ x, (1000, x)) (λ x, (fzero, x)) (λ _, 1) (λ _, None) (λ _, "0") "Worker" sample_od [1] "socket://host:4000"
    (MkLaunching (state_of (reserved true)) ()).

End Examples.
