(* ===== verification/StripMetadata.v ===== *)
(** * The metadata of a parallel file

    [POPFileMetaData] (dev/popfile/popfile_metadata.cpp): the name of the file, where it ends, and its
    strips, kept in an XML document next to the program. A document is a tree; what becomes of a tree
    that TinyXML writes to a file and reads again is a parameter, and the functions of TinyXML that
    walk through a tree are here. [dump_to_cout] is left out. *)

From S2P Require Import Prelude Machine Utils.

(** ** Documents *)

Inductive xml : Type :=
  | Declaration
  | Comment (s : chars)
  | Text (s : chars)
  | Element (name : chars) (attributes : list (chars * chars)) (children : list xml).

(** The functions of TinyXML; a null pointer is [None]. *)
Definition Value (x : xml) : chars :=
  match x with Declaration => [] | Comment s => s | Text s => s | Element n _ _ => n end.
Definition children_of (x : xml) : list xml := match x with Element _ _ l => l | _ => [] end.
Definition is_element (x : xml) : bool := match x with Element _ _ _ => true | _ => false end.
Definition FirstChild (x : option xml) : option xml := x ≫= λ x, head (children_of x).
Definition FirstChild_named (name : chars) (x : option xml) : option xml :=
  x ≫= λ x, List.find (λ y, bool_decide (Value y = name)) (children_of x).
Definition to_Element (x : option xml) : option xml := x ≫= λ x, if is_element x then Some x else None.
(** An element, the first child of its parent, and the elements that follow it. *)
Definition with_siblings (x : option xml) : list xml :=
  match to_Element (FirstChild x) with Some _ => List.filter is_element (default [] (children_of <$> x)) | None => [] end.
Definition GetText (x : option xml) : option chars :=
  match FirstChild x with Some (Text s) => Some s | _ => None end.
Definition lower (c : byte) : byte := if (65 <=? byte_val c) && (byte_val c <=? 90) then byte_of (byte_val c + 32) else c.
(** The text starts with the tag, whatever the case of its letters. *)
Definition StringEqual (p : chars) (tag : string) : bool :=
  match strip_prefix (string_bytes tag) (lower <$> p) with Some _ => true | None => false end.
Definition QueryBoolAttribute (name : chars) (x : xml) (bval : option bool) : option bool :=
  match x with
  | Element _ attributes _ =>
      match List.find (λ a, bool_decide (a.1 = name)) attributes with
      | None => bval
      | Some (_, v) =>
          if StringEqual v "true" || StringEqual v "yes" || StringEqual v "1" then Some true
          else if StringEqual v "false" || StringEqual v "no" || StringEqual v "0" then Some false
          else bval
      end
  | _ => bval
  end.

(** ** The metadata *)

Record MetaDataInfo : Type := MkInfo {
  info_absolute_path : chars; info_original_name : chars; info_ending_pointer : Z; info_ending_strip : Z }.
#[export] Instance MetaDataInfo_eta : Eta MetaDataInfo :=
  λ i, MkInfo (info_absolute_path i) (info_original_name i) (info_ending_pointer i) (info_ending_strip i).
Record MetaDataAccessPoint : Type := MkStripAp {
  accesspoint_hostname : chars; accesspoint_ip_address : chars; accesspoint_port : Z }.
(** A strip that is read from a document without the attribute has no value for [strip_is_local]. *)
Record MetaDataStrip : Type := MkStrip {
  strip_is_local : option bool; strip_identifier : Z; strip_absolute_path : chars; strip_name : chars; strip_offset : Z;
  strip_accesspoint : MetaDataAccessPoint }.
(** What [operator[]] of the map puts where there was none. *)
Definition no_strip : MetaDataStrip := MkStrip (Some false) 0 [] [] 0 (MkStripAp [] [] 0).

(** The map of strips, by increasing identifier. *)
Definition MetaDataStripMap : Type := list (Z * MetaDataStrip).
Fixpoint put (k : Z) (v : MetaDataStrip) (l : MetaDataStripMap) : MetaDataStripMap :=
  match l with
  | [] => [(k, v)]
  | (k', v') :: l' => if k <? k' then (k, v) :: l else if k =? k' then (k, v) :: l' else (k', v') :: put k v l'
  end.
Definition at_strip (k : Z) (l : MetaDataStripMap) : MetaDataStrip * MetaDataStripMap :=
  match List.find (λ e, e.1 =? k) l with Some e => (e.2, l) | None => (no_strip, put k no_strip l) end.

Record POPFileMetaData : Type := MkMeta {
  meta_info : MetaDataInfo; meta_strips : MetaDataStripMap; meta_loaded : bool; meta_offset : Z }.
#[export] Instance POPFileMetaData_eta : Eta POPFileMetaData :=
  λ m, MkMeta (meta_info m) (meta_strips m) (meta_loaded m) (meta_offset m).

(** The constructor writes none of these members: they are what the memory held. *)
Definition POPFileMetaData_new (pointer strip : Z) (loaded : bool) (offset : Z) : POPFileMetaData :=
  MkMeta (MkInfo [] [] pointer strip) [] loaded offset.

Definition get_filepath_for_strip (i : Z) (m : POPFileMetaData) : chars * POPFileMetaData :=
  let '(s, l) := at_strip i (meta_strips m) in (strip_name s, m <| meta_strips := l |>).
Definition get_accessstring_for_strip (i : Z) (m : POPFileMetaData) : chars * POPFileMetaData :=
  let '(s, l) := at_strip i (meta_strips m) in
  (string_bytes "socket://" ++ accesspoint_ip_address (strip_accesspoint s) ++ x3a :: decimal (accesspoint_port (strip_accesspoint s)),
   m <| meta_strips := l |>).
Definition get_offset_for_strip (i : Z) (m : POPFileMetaData) : Z * POPFileMetaData :=
  let '(s, l) := at_strip i (meta_strips m) in (strip_offset s, m <| meta_strips := l |>).
Definition set_offset (value : Z) (m : POPFileMetaData) : POPFileMetaData := m <| meta_offset := value |>.
Definition set_filename (filename path : chars) (m : POPFileMetaData) : POPFileMetaData :=
  m <| meta_info := (meta_info m) <| info_original_name := filename |> <| info_absolute_path := path |> |>.
Definition set_ending_pointer (value : Z) (m : POPFileMetaData) : POPFileMetaData :=
  m <| meta_info := (meta_info m) <| info_ending_pointer := value |> |>.
Definition set_ending_strip (index : Z) (m : POPFileMetaData) : POPFileMetaData :=
  m <| meta_info := (meta_info m) <| info_ending_strip := index |> |>.
Definition get_strips_count (m : POPFileMetaData) : Z := swrap 32 (zlen (meta_strips m)).

Definition NULL_text : chars := string_bytes "NULL".
(** What [find] and [rfind] give, with [npos] as the largest [size_t]; [substr] throws
    ([std::out_of_range], [None]) when it starts behind the text. *)
Definition npos : Z := 2 ^ 64 - 1.
Definition rfind (c : byte) (s : chars) : Z := if decide (c ∈ s) then zlen s - zlen (after_last c s) - 1 else npos.
Definition substr (s : chars) (pos length : Z) : option chars :=
  if zlen s <? pos then None else Some (take (Z.to_nat (Z.min length (zlen s - pos))) (drop (Z.to_nat pos) s)).

(** The address between "://" and the last colon, the port behind it. *)
Definition accesspoint_of (accesspoint : chars) : result (option MetaDataAccessPoint) :=
  let found1 := uwrap 64 (match find_str (string_bytes "://") accesspoint with Some n => Z.of_nat n | None => npos end + 3) in
  let found2 := rfind x3a accesspoint in
  match substr accesspoint found1 (uwrap 64 (found2 - found1)), substr accesspoint (uwrap 64 (found2 + 1)) npos with
  | Some network, Some port =>
      let! port := atoi (before_nul port) in
      Ok (Some (MkStripAp NULL_text (if bool_decide (network = []) then NULL_text else network) port))
  | _, _ => Ok None
  end.
Definition addStripInfo (isLocal : bool) (identifier : Z) (absolutePath stripName : chars) (offset : Z) (accesspoint : chars)
    (m : POPFileMetaData) : result (option POPFileMetaData) :=
  let! ap := accesspoint_of accesspoint in
  match ap with
  | None => Ok None
  | Some ap => Ok (Some (m <| meta_strips := put identifier (MkStrip (Some isLocal) identifier absolutePath stripName offset ap) (meta_strips m) |>))
  end.

(** ** Saving and loading *)

Definition POPFILE_METADATA_COMMENT : chars := string_bytes "POPFile v1.0 - THIS FILE HAS BEEN GENERATED, DO NOT MODIFY IT".
Definition text_element (name : string) (text : chars) : xml := Element (string_bytes name) [] [Text text].
Definition or_NULL (s : chars) : chars := if bool_decide (s = []) then NULL_text else s.

Definition save_strip (s : MetaDataStrip) (is_local : bool) : xml :=
  let ap := strip_accesspoint s in
  Element (string_bytes "strip") [(string_bytes "local", string_bytes (if is_local then "true" else "false"))]
    [text_element "id" (decimal (strip_identifier s));
     text_element "absolute-path" (strip_absolute_path s);
     text_element "strip-name" (strip_name s);
     text_element "offset" (decimal_long (strip_offset s));
     Element (string_bytes "accesspoint") []
       [text_element "hostname" (or_NULL (accesspoint_hostname ap));
        text_element "ip-address" (or_NULL (accesspoint_ip_address ap));
        text_element "port" (decimal (accesspoint_port ap))]].
(** A strip without a value for [local] cannot be saved. *)
Definition save_strips (l : MetaDataStripMap) : option (list xml) :=
  map_option (λ e, b ← strip_is_local e.2; Some (save_strip e.2 b)) l.
Definition save_infos (i : MetaDataInfo) : xml :=
  Element (string_bytes "infos") []
    [text_element "absolute-path" (info_absolute_path i);
     text_element "original-name" (info_original_name i);
     text_element "end-pointer" (decimal_long (info_ending_pointer i));
     text_element "end-strip" (decimal (info_ending_strip i))].
(** The children of the document that is saved, and the metadata, which loses its strips. *)
Definition save (m : POPFileMetaData) : result (list xml * POPFileMetaData) :=
  match save_strips (meta_strips m) with
  | None => Stuck
  | Some strips =>
      Ok ([Declaration; Comment POPFILE_METADATA_COMMENT;
           Element (string_bytes "popfile") [] [save_infos (meta_info m); Element (string_bytes "strips") [] strips]],
          m <| meta_loaded := false |> <| meta_strips := [] |>)
  end.

(** A null pointer for a text is undefined. *)
Definition need_text (x : option xml) : result chars := match GetText x with Some s => Ok s | None => Stuck end.
Definition text_of (name : string) (x : xml) : result chars := need_text (to_Element (FirstChild_named (string_bytes name) (Some x))).
Definition from_NULL (s : chars) : chars := if bool_decide (s = NULL_text) then [] else s.

Definition load_strip (x : xml) : result MetaDataStrip :=
  let is_local := QueryBoolAttribute (string_bytes "local") x None in
  let! identifier := let! t := text_of "id" x in atoi t in
  let! absolute_path := text_of "absolute-path" x in
  let! name := text_of "strip-name" x in
  let! offset := let! t := text_of "offset" x in atol t in
  match to_Element (FirstChild_named (string_bytes "accesspoint") (Some x)) with
  | None => Stuck
  | Some node =>
      let! hostname := text_of "hostname" node in
      let! ip_address := text_of "ip-address" node in
      let! port := let! t := text_of "port" node in atoi t in
      Ok (MkStrip is_local identifier absolute_path name offset (MkStripAp (from_NULL hostname) (from_NULL ip_address) port))
  end.
Fixpoint load_strips (l : list xml) (m : POPFileMetaData) : result POPFileMetaData :=
  match l with
  | [] => Ok m
  | x :: l' =>
      let! strip := load_strip x in
      let m := if meta_offset m =? 0 then m <| meta_offset := strip_offset strip |> else m in
      load_strips l' (m <| meta_strips := put (strip_identifier strip) strip (meta_strips m) |>)
  end.
(** [doc] is what TinyXML read, [None] when it could not. *)
Definition load (doc : option (list xml)) (m : POPFileMetaData) : result (bool * POPFileMetaData) :=
  match doc ≫= λ l, List.find is_element l with
  | None => Ok (false, m)
  | Some root =>
      match with_siblings (FirstChild_named (string_bytes "infos") (Some root)) with
      | e1 :: e2 :: e3 :: e4 :: _ =>
          let! path := need_text (Some e1) in
          let! name := need_text (Some e2) in
          let! pointer := let! t := need_text (Some e3) in atol t in
          let! strip := let! t := need_text (Some e4) in atoi t in
          let m := m <| meta_info := MkInfo path name pointer strip |> <| meta_strips := [] |> in
          let! m := load_strips (with_siblings (FirstChild_named (string_bytes "strips") (Some root))) m in
          Ok (true, m <| meta_loaded := true |>)
      | _ => Stuck
      end
  end.

(** ** A document holds the metadata *)

(** A strip as it is read back: the address NULL stands for none. *)
Definition reloaded (s : MetaDataStrip) : MetaDataStrip :=
  let ap := strip_accesspoint s in
  MkStrip (strip_is_local s) (strip_identifier s) (strip_absolute_path s) (strip_name s) (strip_offset s)
    (MkStripAp (from_NULL (accesspoint_hostname ap)) (from_NULL (accesspoint_ip_address ap)) (accesspoint_port ap)).
Definition strip_ok (e : Z * MetaDataStrip) : Prop :=
  e.1 = strip_identifier e.2 ∧ is_Some (strip_is_local e.2) ∧ in_sint 32 (strip_identifier e.2) = true ∧
  in_sint 64 (strip_offset e.2) = true ∧ in_sint 32 (accesspoint_port (strip_accesspoint e.2)) = true.
Record meta_ok (m : POPFileMetaData) : Prop := {
  m_strips : Forall strip_ok (meta_strips m);
  m_sorted : StronglySorted Z.lt (meta_strips m).*1;
  m_pointer : in_sint 64 (info_ending_pointer (meta_info m)) = true;
  m_ending : in_sint 32 (info_ending_strip (meta_info m)) = true }.

Lemma from_or_NULL s : from_NULL (or_NULL s) = from_NULL s.
Proof. unfold or_NULL. case_bool_decide; [by subst | done]. Qed.
Lemma query_save_strip s b : QueryBoolAttribute (string_bytes "local") (save_strip s b) None = Some b.
Proof. by destruct b. Qed.
(** What the members of a strip are read from. *)
Lemma texts_of_strip s b :
  let ap := strip_accesspoint s in
  let node := Element (string_bytes "accesspoint") []
       [text_element "hostname" (or_NULL (accesspoint_hostname ap)); text_element "ip-address" (or_NULL (accesspoint_ip_address ap));
        text_element "port" (decimal (accesspoint_port ap))] in
  text_of "id" (save_strip s b) = Ok (decimal (strip_identifier s)) ∧ text_of "absolute-path" (save_strip s b) = Ok (strip_absolute_path s) ∧
  text_of "strip-name" (save_strip s b) = Ok (strip_name s) ∧ text_of "offset" (save_strip s b) = Ok (decimal_long (strip_offset s)) ∧
  to_Element (FirstChild_named (string_bytes "accesspoint") (Some (save_strip s b))) = Some node ∧
  text_of "hostname" node = Ok (or_NULL (accesspoint_hostname ap)) ∧ text_of "ip-address" node = Ok (or_NULL (accesspoint_ip_address ap)) ∧
  text_of "port" node = Ok (decimal (accesspoint_port ap)).
Proof. by split_and!. Qed.
Lemma load_save_strip k s b : strip_ok (k, s) → strip_is_local s = Some b → load_strip (save_strip s b) = Ok (reloaded s).
Proof.
  intros (_ & _ & Hi & Ho & Hp) Hb. cbn in Hi, Ho, Hp. unfold load_strip, reloaded. rewrite query_save_strip, Hb.
  destruct (texts_of_strip s b) as (-> & -> & -> & -> & -> & -> & -> & ->). cbn [rbind].
  rewrite (atoi_decimal _ Hi). cbn [rbind]. rewrite (atol_decimal_long _ Ho). cbn [rbind]. rewrite (atoi_decimal _ Hp). cbn [rbind].
  by rewrite !from_or_NULL.
Qed.
Lemma put_last k v (l : MetaDataStripMap) : Forall (λ i, i < k) l.*1 → put k v l = l ++ [(k, v)].
Proof.
  induction l as [|[k' v'] l IH]; cbn [put app fmap list_fmap]; [done |]. rewrite Forall_cons. cbn. intros [Hk Hl].
  rewrite (proj2 (Z.ltb_ge k k')), (proj2 (Z.eqb_neq k k')) by lia. by rewrite IH.
Qed.
(** The offset of the file is that of the first strip that has one, unless there was one. *)
Definition offset_from (o : Z) (l : MetaDataStripMap) : Z := foldl (λ o e, if o =? 0 then strip_offset e.2 else o) o l.
Lemma load_save_strips l xs m :
  Forall strip_ok l → StronglySorted Z.lt ((meta_strips m).*1 ++ l.*1) → save_strips l = Some xs →
  load_strips xs m = Ok (m <| meta_strips := meta_strips m ++ (prod_map id reloaded <$> l) |> <| meta_offset := offset_from (meta_offset m) l |>).
Proof.
  intros Hl. revert xs m. induction Hl as [|[k s] l Hs Hl IH]; intros xs m Hsort.
  { intros [= <-]. cbn. rewrite app_nil_r. by destruct m. }
  pose proof Hs as (Hk & [b Hb] & _). cbn in Hk, Hb. subst k. unfold save_strips. cbn [map_option snd]. rewrite Hb. cbn [mbind option_bind].
  fold (save_strips l). destruct (save_strips l) as [ys|]; [|done]. intros [= <-]. cbn [load_strips].
  rewrite (load_save_strip _ s b Hs Hb). cbn [rbind]. set (m1 := if meta_offset m =? 0 then _ else _).
  assert (E : meta_strips m1 = meta_strips m ∧ meta_offset m1 = offset_from (meta_offset m) [(strip_identifier s, s)] ∧
              meta_info m1 = meta_info m ∧ meta_loaded m1 = meta_loaded m) by (unfold m1; cbn; by destruct (meta_offset m =? 0)).
  destruct E as (E1 & E2 & E3 & E4). cbn [reloaded strip_identifier]. rewrite put_last; cycle 1.
  { rewrite E1. apply Forall_forall. intros i Hi. by eapply StronglySorted_app_1_elem_of in Hsort; [|exact Hi | by left]. }
  rewrite (IH ys); [| |done].
  - destruct m as [i st ld o], m1 as [i1 st1 ld1 o1]. cbn in *. subst. rewrite <- app_assoc. cbn. do 3 f_equal.
  - cbn. rewrite E1, fmap_app, <- app_assoc. exact Hsort.
Qed.

Lemma save_strips_elements l xs : save_strips l = Some xs → List.filter is_element xs = xs ∧ (xs ≠ [] → ∃ x, head xs = Some x ∧ is_element x = true).
Proof.
  revert xs. induction l as [|[k s] l IH]; intros xs; [by intros [= <-] |].
  unfold save_strips. cbn [map_option snd]. destruct (strip_is_local s) as [b|]; [|done]. cbn [mbind option_bind]. fold (save_strips l).
  destruct (save_strips l) as [ys|]; [|done]. intros [= <-]. destruct (IH ys) as [E _]; [done |]. cbn [List.filter].
  change (is_element (save_strip s b)) with true. split; [by rewrite E | by eexists].
Qed.
Lemma siblings_of_strips name xs : List.filter is_element xs = xs → (xs ≠ [] → ∃ x, head xs = Some x ∧ is_element x = true) →
  with_siblings (Some (Element name [] xs)) = xs.
Proof.
  intros Hf Hh. unfold with_siblings, FirstChild. cbn [mbind option_bind children_of fmap option_fmap option_map default from_option].
  destruct xs as [|x xs]; [done |]. destruct Hh as (y & [= <-] & Hx); [done |]. cbn [head mbind option_bind to_Element]. rewrite Hx. exact Hf.
Qed.

(** Metadata that are saved can be loaded. The document [save] makes is read back as the same file
    and strips, in order, with an address NULL as none, whatever the metadata held before. *)
Theorem load_save m doc m1 m0 :
  meta_ok m → save m = Ok (doc, m1) →
  load (Some doc) m0 = Ok (true, MkMeta (meta_info m) (prod_map id reloaded <$> meta_strips m) true (offset_from (meta_offset m0) (meta_strips m))).
Proof.
  intros [Hs Hsort Hp He]. unfold save. destruct (save_strips (meta_strips m)) as [xs|] eqn:Ex; [|done]. intros [= <- <-].
  destruct (save_strips_elements _ _ Ex) as [Hf Hh]. set (root := Element (string_bytes "popfile") [] _).
  unfold load. change (Some _ ≫= _) with (Some root). cbv iota beta.
  change (FirstChild_named (string_bytes "infos") (Some root)) with (Some (save_infos (meta_info m))).
  change (FirstChild_named (string_bytes "strips") (Some root)) with (Some (Element (string_bytes "strips") [] xs)).
  rewrite siblings_of_strips by done. destruct m as [[path name pointer strip] st ld o]. cbn in Hs, Hsort, Hp, He, Ex.
  change (with_siblings _) with [text_element "absolute-path" path; text_element "original-name" name;
    text_element "end-pointer" (decimal_long pointer); text_element "end-strip" (decimal strip)]. cbv iota beta.
  cbn [need_text GetText FirstChild text_element children_of head mbind option_bind rbind].
  rewrite (atol_decimal_long _ Hp). cbn [rbind]. rewrite (atoi_decimal _ He). cbn [rbind].
  by rewrite (load_save_strips st xs).
Qed.

(** Metadata whose texts have no blanks, so that TinyXML reads what it wrote. *)
Definition text_plain (s : chars) : Prop := s ≠ [] ∧ Forall (λ c, 33 ≤ byte_val c ≤ 126) s.
Definition strip_plain (s : MetaDataStrip) : Prop :=
  text_plain (strip_absolute_path s) ∧ text_plain (strip_name s) ∧
  text_plain (or_NULL (accesspoint_hostname (strip_accesspoint s))) ∧ text_plain (or_NULL (accesspoint_ip_address (strip_accesspoint s))).
Definition meta_plain (m : POPFileMetaData) : Prop :=
  text_plain (info_absolute_path (meta_info m)) ∧ text_plain (info_original_name (meta_info m)) ∧ Forall (λ e, strip_plain e.2) (meta_strips m).
Lemma meta_plain_reloaded m : meta_plain m → meta_plain (m <| meta_strips := prod_map id reloaded <$> meta_strips m |>).
Proof.
  assert (Hn : ∀ x, text_plain (or_NULL x) → text_plain (or_NULL (from_NULL x))).
  { intros x Hx. unfold from_NULL. case_bool_decide; [split; [done | by apply (bool_decide_unpack _)] | done]. }
  intros (H1 & H2 & H3). split_and!; [done..|]. cbn. apply Forall_fmap. eapply Forall_impl; [exact H3 |].
  intros [k s] (P1 & P2 & P3 & P4). split_and!; cbn; auto.
Qed.
(** Documents that are written and read again. *)
Definition rereads (reread : list xml → option (list xml)) : Prop :=
  ∀ m doc m1, meta_plain m → save m = Ok (doc, m1) → reread doc = Some doc.

(** The address of a strip's manager: what [addStripInfo] takes apart, [get_accessstring_for_strip]
    puts together. *)
Lemma decimal_plain n c : in_sint 32 n = true → c ∈ decimal n → c = x2d ∨ isdigit c = true.
Proof.
  intros Hn%in_sint32. unfold decimal. destruct (n <? 0) eqn:E; reflect_bools.
  - destruct (digits_of_spec 10 (- n) []) as (s & -> & Hs & _); [cbn; lia |]. rewrite app_nil_r, elem_of_cons.
    intros [->|Hc]; [by left | right]. rewrite Forall_forall in Hs. by apply Hs.
  - destruct (digits_of_spec 10 n []) as (s & -> & Hs & _); [cbn; lia |]. rewrite app_nil_r. intros Hc. right.
    rewrite Forall_forall in Hs. by apply Hs.
Qed.
Lemma decimal_free n c : in_sint 32 n = true → c ≠ x2d → isdigit c = false → c ∉ decimal n.
Proof. intros Hn H1 H2 [?|?]%decimal_plain; [done | congruence | done]. Qed.
Lemma accesspoint_of_socket ip port : ip ≠ [] → in_sint 32 port = true → zlen ip < 2 ^ 32 →
  accesspoint_of (string_bytes "socket://" ++ ip ++ x3a :: decimal port) = Ok (Some (MkStripAp NULL_text ip port)).
Proof.
  intros Hip Hp Hl. pose proof (decimal_free port x3a Hp ltac:(done) ltac:(done)) as Hc.
  pose proof (zlen_nonneg ip) as H0. pose proof (zlen_nonneg (decimal port)) as H1.
  assert (Hdl : zlen (decimal port) ≤ 11).
  { unfold decimal. apply in_sint32 in Hp. destruct (port <? 0) eqn:E; reflect_bools.
    - destruct (digits_of_spec 10 (- port) []) as (s & -> & _ & _ & _ & Hs); [cbn; lia |]. rewrite app_nil_r. cbn [length]. lia.
    - destruct (digits_of_spec 10 port []) as (s & -> & _ & _ & _ & Hs); [cbn; lia |]. rewrite app_nil_r. lia. }
  unfold accesspoint_of. set (t := string_bytes "socket://" ++ ip ++ x3a :: decimal port).
  change (find_str (string_bytes "://") t) with (Some 6%nat). cbv iota. change (uwrap 64 (Z.of_nat 6 + 3)) with 9.
  assert (Ht : zlen t = 10 + zlen ip + zlen (decimal port)) by (unfold t; rewrite !length_app; cbn; lia).
  assert (Hr : rfind x3a t = 9 + zlen ip).
  { unfold rfind. rewrite decide_True by (unfold t; set_solver). unfold t at 2. rewrite app_assoc, after_last_app by done. lia. }
  rewrite Hr. unfold uwrap. rewrite !Z.mod_small by lia. unfold substr.
  rewrite !(proj2 (Z.ltb_ge _ _)) by lia. rewrite (Z.min_l (9 + zlen ip - 9)), (Z.min_r npos) by (unfold npos; lia).
  assert (E1 : take (Z.to_nat (9 + zlen ip - 9)) (drop (Z.to_nat 9) t) = ip).
  { change (drop (Z.to_nat 9) t) with (ip ++ x3a :: decimal port). apply take_app_len. lia. }
  assert (E2 : drop (Z.to_nat (9 + zlen ip + 1)) t = decimal port).
  { unfold t. change (string_bytes "socket://" ++ ip ++ x3a :: decimal port) with ((string_bytes "socket://" ++ ip) ++ [x3a] ++ decimal port).
    rewrite app_assoc. apply drop_app_len. rewrite !length_app. cbn. lia. }
  rewrite E1, E2, take_ge by lia. rewrite before_nul_plain, (atoi_decimal _ Hp) by (by apply decimal_free). cbn [rbind].
  by rewrite bool_decide_eq_false_2.
Qed.
Lemma at_put k v l : at_strip k (put k v l) = (v, put k v l).
Proof.
  unfold at_strip. enough (E : List.find (λ e, e.1 =? k) (put k v l) = Some (k, v)) by by rewrite E.
  induction l as [|[k' v'] l IH]; cbn [put]; [cbn; by rewrite Z.eqb_refl |].
  destruct (Z.ltb_spec k k'); [cbn; by rewrite Z.eqb_refl |]. destruct (Z.eqb_spec k k') as [->|]; [cbn; by rewrite Z.eqb_refl |].
  cbn [List.find fst]. by rewrite (proj2 (Z.eqb_neq k' k)) by done.
Qed.
(** The manager of a strip. A strip that was added with the access string of its manager answers with
    it, when this is an address and a port over "socket", and with the path and offset it was added with. *)
Theorem added_strip_answers b i path name offset ip port m :
  ip ≠ [] → in_sint 32 port = true → zlen ip < 2 ^ 32 →
  let ap := string_bytes "socket://" ++ ip ++ x3a :: decimal port in
  ∃ m', addStripInfo b i path name offset ap m = Ok (Some m') ∧
    get_accessstring_for_strip i m' = (ap, m') ∧ get_filepath_for_strip i m' = (name, m') ∧ get_offset_for_strip i m' = (offset, m').
Proof.
  intros Hip Hp Hl ap. unfold addStripInfo, ap. rewrite accesspoint_of_socket by done. cbn [rbind]. eexists. split; [done |].
  unfold get_accessstring_for_strip, get_filepath_for_strip, get_offset_for_strip. destruct m as [info st ld o]. cbn.
  by rewrite at_put.
Qed.
