(* ===== verification/StripManager.v ===== *)
(** * The managers of parallel files

    [POPFileManager] (services/lib/popfilemanager.cc), the service of a node that keeps strips of
    parallel files: it creates them, appends to them, reads them, and finds other nodes for them. A
    manager is reached by its access string. Writing is asynchronous: the calls are kept until they
    are delivered, in any order. *)

From S2P Require Import Prelude Machine Exceptions Utils SearchNode Effects Throwing.
From Stdlib Require Import Strings.Byte.

#[export] Instance byte_countable : Countable byte := inj_countable Byte.to_N Byte.of_N Byte.of_to_N.

(** A manager: the access string of its search node, the managers of its neighbours, and the files of
    its node. *)
Record POPFileManager : Type := MkManager {
  psn_ap : chars;
  pfm_neighbors : list chars;
  strips : gmap chars (list byte) }.
#[export] Instance POPFileManager_eta : Eta POPFileManager :=
  λ m, MkManager (psn_ap m) (pfm_neighbors m) (strips m).

(** [writeToRemoteStrip] on its way: the strip, the data, and the manager that has it. *)
Record write_call : Type := MkWrite { w_strip : chars; w_data : list byte; w_manager : chars }.

Record grid_files : Type := MkFiles {
  managers : gmap chars POPFileManager;
  in_flight : list write_call }.
#[export] Instance grid_files_eta : Eta grid_files := λ g, MkFiles (managers g) (in_flight g).

Section Manager.
(** Whether the manager at an access string may open a path to write, what the constructor of an
    interface throws for a manager that is not there, and what the search node at an access string
    answers. *)
Context (may_write : chars → chars → bool) (unreachable : chars → pop_exception) (neighbours_text : chars → pop_exception + chars).

(** ** On a node *)

(** [std::ofstream strip; strip.open(path)] empties the file. *)
Definition createStrip_here (ap path : chars) (m : POPFileManager) : bool * POPFileManager :=
  if may_write ap path then (true, m <| strips := <[path := []]> (strips m) |>) else (false, m).

(** [std::ios::app], and [data.c_str()]. *)
Definition writeToStrip_here (ap path : chars) (data : list byte) (m : POPFileManager) : POPFileManager :=
  if may_write ap path then m <| strips := <[path := default [] (strips m !! path) ++ before_nul data]> (strips m) |> else m.

(** A block of [offset] characters from [start]. The characters that could not be read were never
    written, so that the text is defined when all were, or when it ends before. *)
Definition readFromStrip_here (path : chars) (start offset : Z) (m : POPFileManager) : result (list byte) :=
  let file := strips m !! path in
  let length := match file with Some s => swrap 32 (zlen s) | None => -1 end in
  if length <=? start then Ok []
  else if offset <? 0 then Stuck
  else
    let buffer := if start <? 0 then [] else take (Z.to_nat offset) (drop (Z.to_nat start) (default [] file)) in
    if zlen buffer =? offset then Ok (before_nul buffer)
    else match c_string buffer with Some data => Ok data | None => Stuck end.

(** The access strings in the answer of the search node, each ended by a semicolon, with the port of
    the managers. *)
Definition neighbour_of (ap : chars) : option chars :=
  if decide (x3a ∈ ap) then Some (take (length ap - length (after_last x3a ap)) ap ++ string_bytes "2712") else None.
Fixpoint neighbours_of (fuel : nat) (lst : chars) : list chars :=
  match fuel with
  | O => []
  | S fuel' =>
      match find_from x3b lst 0 with
      | None => []
      | Some found =>
          let rest := neighbours_of fuel' (drop (S found) lst) in
          match neighbour_of (take found lst) with Some ap => ap :: rest | None => rest end
      end
  end.

(** ** From another node *)

Context {I : Type}.
Abbreviation P := (Throws grid_files I).

Definition bind_manager (ap : chars) : P POPFileManager :=
  let^ g := tget in
  match managers g !! ap with Some m => tret m | None => tthrow (PopExc (unreachable ap)) end.
Definition set_manager (ap : chars) (m : POPFileManager) : P () := tset (λ g, g <| managers := <[ap := m]> (managers g) |>).
Definition createStrip (ap path : chars) : P bool :=
  let^ m := bind_manager ap in
  let '(created, m) := createStrip_here ap path m in
  set_manager ap m ;;^ tret created.
Definition readFromStrip (ap path : chars) (start offset : Z) : P (list byte) :=
  let^ m := bind_manager ap in tcall (readFromStrip_here path start offset m).
Definition setPSNAccessPoint (me ap : chars) : P () :=
  let^ m := bind_manager me in set_manager me (m <| psn_ap := ap |>).
Definition getNeighborsFromPSN (me : chars) : P () :=
  let^ m := bind_manager me in
  match neighbours_text (psn_ap m) with
  | inl x => tthrow (PopExc x)
  | inr neighborsList =>
      let lst := before_nul neighborsList in
      set_manager me (m <| pfm_neighbors := pfm_neighbors m ++ neighbours_of (length lst) lst |>)
  end.

(** The strip of the next index is created on the next neighbour that accepts it, until there are
    [maxStrip]. The arrays have the length they are sent with. *)
Fixpoint find_strips (l : list chars) (index maxStrip : Z) (stripname : chars) (candidates stripNames : list chars) :
    P (Z * (list chars * list chars)) :=
  match l with
  | [] => tret (index, (candidates, stripNames))
  | ap :: l' =>
      let strip := stripname ++ decimal index in
      let^ created := createStrip ap strip in
      if created : bool then
        if (0 <=? index) && (index <? zlen candidates) && (index <? zlen stripNames) then
          let candidates := <[Z.to_nat index := ap]> candidates in
          let stripNames := <[Z.to_nat index := strip]> stripNames in
          if index + 1 =? maxStrip then tret (index + 1, (candidates, stripNames))
          else find_strips l' (index + 1) maxStrip stripname candidates stripNames
        else undefined
      else find_strips l' index maxStrip stripname candidates stripNames
  end.
Definition findResourcesForStrip (me : chars) (nb : Z) (candidates stripNames : list chars) (stripPrefix : chars) (local : bool) :
    P (Z * (list chars * list chars)) :=
  let^ m := bind_manager me in
  let index := if local then 1 else 0 in
  find_strips (pfm_neighbors m) index nb (before_nul stripPrefix ++ string_bytes "_strip") candidates stripNames.

(** ** Calls on their way *)

Definition writeToRemoteStrip (path : chars) (data : list byte) (ap : chars) : P () :=
  tset (λ g, g <| in_flight := in_flight g ++ [MkWrite path data ap] |>).

Definition write_at (c : write_call) (ms : gmap chars POPFileManager) : gmap chars POPFileManager :=
  alter (writeToStrip_here (w_manager c) (w_strip c) (w_data c)) (w_manager c) ms.
(** The call at a position is executed. *)
Definition deliver (i : nat) (g : grid_files) : grid_files :=
  match in_flight g !! i with
  | Some c => g <| managers := write_at c (managers g) |> <| in_flight := delete i (in_flight g) |>
  | None => g
  end.
(** Calls executed in some order, until there are none left. *)
Inductive delivered : grid_files → grid_files → list write_call → Prop :=
  | delivered_all g : in_flight g = [] → delivered g g []
  | delivered_one i c g g' l : in_flight g !! i = Some c → delivered (deliver i g) g' l → delivered g g' (c :: l).
End Manager.

(** ** Texts *)

Lemma find_from_first c s t : c ∉ s → find_from c (s ++ c :: t) 0 = Some (length s).
Proof.
  induction s as [|x s IH]; cbn [find_from app length]; [by rewrite decide_True |].
  rewrite not_elem_of_cons. intros [Hx Hs]. by rewrite decide_False, IH by done.
Qed.
Lemma find_from_none c s : c ∉ s → find_from c s 0 = None.
Proof.
  induction s as [|x s IH]; cbn [find_from]; [done |]. rewrite not_elem_of_cons. intros [Hx Hs].
  by rewrite decide_False, IH by done.
Qed.

(** The list a search node gives: every identifier, ended by a semicolon. *)
Definition listed (aps : list chars) : chars := concat ((λ i, i ++ [x3b]) <$> aps).
Lemma neighbours_listed fuel aps :
  Forall (λ ap, x3b ∉ ap) aps → (length aps ≤ fuel)%nat → neighbours_of fuel (listed aps) = omap neighbour_of aps.
Proof.
  intros Haps. revert fuel. induction Haps as [|ap aps Hap Haps IH]; intros [|fuel] Hf; cbn [length] in Hf; try lia; [done.. |].
  change (listed (ap :: aps)) with ((ap ++ [x3b]) ++ listed aps). rewrite <- app_assoc. cbn [neighbours_of app].
  rewrite find_from_first by done. rewrite take_app_length.
  change (ap ++ x3b :: listed aps) with (ap ++ [x3b] ++ listed aps).
  rewrite (app_assoc ap [x3b]), (drop_app_len (ap ++ [x3b])) by (rewrite length_app; cbn; lia). rewrite IH by lia. cbn [omap list_omap]. by destruct (neighbour_of ap).
Qed.
Lemma listed_length aps : (length aps ≤ length (listed aps))%nat.
Proof.
  induction aps as [|ap aps IH]; [done |]. change (listed (ap :: aps)) with ((ap ++ [x3b]) ++ listed aps).
  rewrite !length_app. cbn. lia.
Qed.
Lemma listed_plain aps : Forall (λ ap, x00 ∉ ap) aps → x00 ∉ listed aps.
Proof.
  induction 1 as [|ap aps Hap Haps IH]; [by apply not_elem_of_nil |].
  change (listed (ap :: aps)) with ((ap ++ [x3b]) ++ listed aps). rewrite !elem_of_app, list_elem_of_singleton. by intros [[?|?]|?].
Qed.
(** The port of an access string is replaced. *)
Lemma neighbour_of_port address port : x3a ∉ port → neighbour_of (address ++ x3a :: port) = Some (address ++ x3a :: string_bytes "2712").
Proof.
  intros Hp. unfold neighbour_of. rewrite decide_True by set_solver. rewrite after_last_app by done.
  replace (address ++ x3a :: port) with ((address ++ [x3a]) ++ port) by (by rewrite <- app_assoc).
  rewrite (take_app_len (address ++ [x3a])) by (rewrite !length_app; cbn; lia). by rewrite <- app_assoc.
Qed.

Section Properties.
Context (may_write : chars → chars → bool) (unreachable : chars → pop_exception) (neighbours_text : chars → pop_exception + chars) {I : Type}.
Abbreviation P := (Throws grid_files I).

(** ** The neighbours *)

Lemma concat_before_nul (ids : list string) : Forall nul_free ids →
  concat ((λ i, before_nul (string_bytes i) ++ [x3b]) <$> ids) = listed (string_bytes <$> ids).
Proof.
  unfold listed. induction 1 as [|i ids Hi Hids IH]; [done |]. cbn. by rewrite IH, (before_nul_plain (string_bytes i) Hi).
Qed.

(** The managers of the neighbours. A manager that asks the search node of its host adds, for every
    neighbour of this node in order, the manager at the address of the neighbour and the port 2712. *)
Theorem getNeighborsFromPSN_adds g me m peers n n' out text ids :
  managers g !! me = Some m →
  getNeighborsAsString peers n = (n', out, Ok text) → neighbours_text (psn_ap m) = inr (string_bytes text) →
  getNeighbors_of peers (neighborsList n) = Ok ids → Forall (λ i, nul_free i ∧ x3b ∉ string_bytes i) ids →
  getNeighborsFromPSN unreachable neighbours_text me g =
    Some (Ok (inr (A := exc I) (), g <| managers := <[me := m <| pfm_neighbors := pfm_neighbors m ++ omap neighbour_of (string_bytes <$> ids) |>]> (managers g) |>)).
Proof.
  intros Hm Ht Hpsn Hids Hplain. unfold getNeighborsAsString, nbind, nget, nlift, nret in Ht. rewrite Hids in Ht. cbn in Ht.
  injection Ht as <- <- <-. apply Forall_and in Hplain as [Hnul Hsemi]. rewrite concat_before_nul in Hpsn by done.
  set (aps := string_bytes <$> ids) in *.
  assert (Hn : x00 ∉ listed aps) by (by apply listed_plain, Forall_fmap).
  unfold c_str in Hpsn. rewrite !string_bytes_string, (before_nul_plain (listed aps) Hn) in Hpsn.
  unfold getNeighborsFromPSN. rewrite (tbind_eq _ _ g m g); cycle 1.
  { unfold bind_manager. rewrite (tbind_eq _ _ g g g) by done. by rewrite Hm. }
  rewrite Hpsn, (before_nul_plain _ Hn).
  rewrite neighbours_listed; [done | by apply Forall_fmap | apply listed_length].
Qed.

(** ** Reading *)

(** What is read from a strip without NUL characters is the block asked for when the strip has all
    of it, and not defined when the strip ends before: the buffer is not filled. *)
Theorem readFromStrip_exact path s start offset m :
  strips m !! path = Some s → x00 ∉ s → 0 ≤ start < zlen s → zlen s < 2 ^ 31 → 0 ≤ offset →
  readFromStrip_here path start offset m =
    if start + offset <=? zlen s then Ok (take (Z.to_nat offset) (drop (Z.to_nat start) s)) else Stuck.
Proof.
  intros Hs Hnul Hstart Hlen Hoff. unfold readFromStrip_here. rewrite Hs. cbn [default from_option].
  rewrite swrap_small by (try lia; apply in_sint32; lia).
  rewrite (proj2 (Z.leb_gt (zlen s) start)), (proj2 (Z.ltb_ge offset 0)), (proj2 (Z.ltb_ge start 0)) by lia. cbn [id].
  set (b := take _ _). assert (Hb : x00 ∉ b).
  { intros Hb. apply Hnul. unfold b in Hb. apply elem_of_take in Hb as (i & Hb & _). rewrite lookup_drop in Hb. by eapply list_elem_of_lookup_2. }
  assert (Hl : zlen b = Z.min offset (zlen s - start)) by (unfold b; rewrite length_take, length_drop; lia).
  rewrite Hl. destruct (start + offset <=? zlen s) eqn:E; reflect_bools.
  - rewrite (proj2 (Z.eqb_eq _ _)) by lia. by rewrite before_nul_plain.
  - rewrite (proj2 (Z.eqb_neq _ _)), (proj2 (c_string_None b) Hb) by lia. done.
Qed.

(** ** Finding places for strips *)

(** Empty strips and managers stay where they are, and no call is made. *)
Record kept (g g' : grid_files) : Prop := {
  kept_calls : in_flight g' = in_flight g;
  kept_managers : ∀ ap m, managers g !! ap = Some m → ∃ m', managers g' !! ap = Some m' ∧ pfm_neighbors m' = pfm_neighbors m;
  kept_empty : ∀ ap m p, managers g !! ap = Some m → strips m !! p = Some [] → ∃ m', managers g' !! ap = Some m' ∧ strips m' !! p = Some [] }.
#[export] Instance kept_preorder : PreOrder kept.
Proof.
  split; [intros g; split; [done | by intros ap m; exists m | by intros ap m p; exists m] |].
  intros g1 g2 g3 [H1 H2 H3] [H4 H5 H6]. split; [congruence | |].
  { intros ap m Hm. destruct (H2 _ _ Hm) as (m1 & Hm1 & E1). destruct (H5 _ _ Hm1) as (m2 & Hm2 & E2). exists m2. split; [done | congruence]. }
  intros ap m p Hm Hp. destruct (H3 _ _ _ Hm Hp) as (m' & ? & ?). by eapply H6.
Qed.
(** The places that were filled: the neighbour accepted the strip, which is empty. *)
Definition placed (g : grid_files) (l : list chars) (name : chars) (i : Z) (cs ns : list chars) : Prop :=
  ∃ ap m, ap ∈ l ∧ cs !! Z.to_nat i = Some ap ∧ ns !! Z.to_nat i = Some (name ++ decimal i) ∧
    managers g !! ap = Some m ∧ strips m !! (name ++ decimal i) = Some [] ∧ may_write ap (name ++ decimal i) = true.
Definition found (l : list chars) (name : chars) (index maxStrip : Z) (cs ns : list chars) (g : grid_files)
    (r : exc I + Z * (list chars * list chars)) (g' : grid_files) : Prop :=
  match r with
  | inl _ => True
  | inr (k, (cs', ns')) =>
      index ≤ k ≤ maxStrip ∧ kept g g' ∧ length cs' = length cs ∧ length ns' = length ns ∧
      (∀ j, index ≤ j < k → placed g' l name j cs' ns') ∧
      (∀ j, 0 ≤ j → j < index ∨ k ≤ j → cs' !! Z.to_nat j = cs !! Z.to_nat j ∧ ns' !! Z.to_nat j = ns !! Z.to_nat j) ∧
      ((∀ ap i, ap ∈ l → may_write ap (name ++ decimal i) = true) → k = Z.min maxStrip (index + zlen l))
  end.
Lemma createStrip_wp ap path g :
  wp true (createStrip (I := I) may_write unreachable ap path) (λ r g', match r with
    | inl _ => True
    | inr b => b = may_write ap path ∧ kept g g' ∧
        (b = true → ∃ m, managers g' !! ap = Some m ∧ strips m !! path = Some [])
    end) g.
Proof.
  unfold createStrip, bind_manager, set_manager. twp_steps. destruct (managers g !! ap) as [m|] eqn:Hm; twp_steps; [|done].
  unfold createStrip_here. destruct (may_write ap path) eqn:Ha; twp_steps; (split; [done |]); split.
  - split; cbn; [done | |].
    + intros ap' m' Hm'. destruct (decide (ap = ap')) as [->|]; [rewrite lookup_insert_eq; simplify_eq; by eexists | rewrite lookup_insert_ne by done; by exists m'].
    + intros ap' m' p Hm' Hp. destruct (decide (ap = ap')) as [->|Hne].
      * rewrite lookup_insert_eq. eexists. split; [done |]. cbn. simplify_eq.
        destruct (decide (path = p)) as [->|]; [by rewrite lookup_insert_eq | by rewrite lookup_insert_ne].
      * exists m'. by rewrite lookup_insert_ne.
  - intros _. eexists. cbn. rewrite lookup_insert_eq. split; [done |]. cbn. by rewrite lookup_insert_eq.
  - replace (g <| managers := _ |>) with g by (destruct g; cbn in *; by rewrite insert_id). done.
  - done.
Qed.
Lemma found_skip ap l name index maxStrip cs ns g g1 r g' :
  may_write ap (name ++ decimal index) = false → kept g g1 →
  found l name index maxStrip cs ns g1 r g' → found (ap :: l) name index maxStrip cs ns g r g'.
Proof.
  intros Hap Hk. destruct r as [|[k [cs' ns']]]; [done |]. intros (Hi & Hk1 & Hl1 & Hl2 & Hp & Hs & Hm). cbn. split_and!; try done; try lia.
  - by transitivity g1.
  - intros j Hj. destruct (Hp j Hj) as (a & m & Ha & ?). exists a, m. split; [by right | done].
  - intros Hall. specialize (Hall ap index (list_elem_of_here _ _)). congruence.
Qed.
Lemma found_take ap l name index maxStrip cs ns g g1 r g' :
  0 ≤ index < maxStrip → maxStrip ≤ zlen cs → zlen ns = zlen cs → kept g g1 →
  may_write ap (name ++ decimal index) = true → (∃ m, managers g1 !! ap = Some m ∧ strips m !! (name ++ decimal index) = Some []) →
  found l name (index + 1) maxStrip (<[Z.to_nat index := ap]> cs) (<[Z.to_nat index := name ++ decimal index]> ns) g1 r g' →
  found (ap :: l) name index maxStrip cs ns g r g'.
Proof.
  intros Hr Hcs Hns Hk Hmay (m & Hm1 & Hs1). destruct r as [|[k [cs' ns']]]; [done |]. intros (Hi & Hk1 & Hl1 & Hl2 & Hp & Hs & Hm).
  rewrite length_insert in Hl1, Hl2. cbn [found length]. split_and!; try done; try lia.
  - by transitivity g1.
  - intros j Hj. destruct (decide (j = index)) as [->|Hne].
    + destruct (Hs index) as [E1 E2]; [lia | left; lia |]. destruct (kept_empty _ _ Hk1 _ _ _ Hm1 Hs1) as (m' & ? & ?).
      exists ap, m'. rewrite E1, E2. split_and!; try done; [by left | |]; apply list_lookup_insert_eq; lia.
    + destruct (Hp j) as (a & m' & Ha & ?); [lia |]. exists a, m'. split; [by right | done].
  - intros j Hj0 Hj. destruct (Hs j Hj0) as [E1 E2]; [lia |]. rewrite E1, E2. by rewrite !list_lookup_insert_ne by lia.
  - intros Hall. rewrite Hm; [lia |]. intros ap' i Ha. apply Hall. by right.
Qed.
Lemma find_strips_found l name index maxStrip cs ns g :
  0 ≤ index < maxStrip → maxStrip ≤ zlen cs → zlen ns = zlen cs →
  wp true (find_strips may_write unreachable l index maxStrip name cs ns) (found l name index maxStrip cs ns g) g.
Proof.
  revert index cs ns g. induction l as [|ap l IH]; intros index cs ns g Hi Hcs Hns; cbn [find_strips].
  { twp_steps. cbn. by split_and!; try lia. }
  twp_steps. eapply wp_mono; [|apply createStrip_wp]. intros [x|b] g1; [done |]. intros (Hb & Hk & Hc).
  destruct b; [|eapply wp_mono; [|by apply IH]; intros r g'; by apply found_skip].
  rewrite (proj2 (Z.leb_le 0 index)), !(proj2 (Z.ltb_lt _ _)) by lia. cbn [andb].
  destruct (Z.eqb_spec (index + 1) maxStrip) as [E|E].
  - twp_steps. apply (found_take ap l name index maxStrip cs ns g g1 (inr _) g1); try done; [by apply Hc |].
    cbn. by split_and!; try lia.
  - eapply wp_mono; [|apply IH; rewrite ?length_insert; lia]. intros r g'. apply found_take; try done. by apply Hc.
Qed.

(** Places for the strips of a file. With room for the strips that are wanted, a manager fills the
    places that follow its own with neighbours that have created an empty strip of this number, in
    order; when all of them would, there are as many as wanted or as there are neighbours. *)
Theorem findResourcesForStrip_finds me nb cs ns name (local : bool) g m :
  managers g !! me = Some m → (if local then 1 else 0) < nb → zlen cs = nb → zlen ns = nb → x00 ∉ name →
  wp true (findResourcesForStrip may_write unreachable me nb cs ns name local)
    (found (pfm_neighbors m) (name ++ string_bytes "_strip") (if local then 1 else 0) nb cs ns g) g.
Proof.
  intros Hm Hnb Hcs Hns Hname. unfold findResourcesForStrip, bind_manager. twp_steps. rewrite Hm. twp_steps.
  rewrite before_nul_plain by done. apply find_strips_found; [destruct local | |]; lia.
Qed.

(** One strip on the node of its manager leaves no place. When a neighbour creates a strip for a file
    that should have its only strip here, the arrays are overrun. *)
Theorem one_local_strip_overruns me ap l name cs ns g m :
  managers g !! me = Some m → pfm_neighbors m = ap :: l → is_Some (managers g !! ap) → zlen cs = 1 → zlen ns = 1 →
  may_write ap (before_nul name ++ string_bytes "_strip1") = true →
  findResourcesForStrip (I := I) may_write unreachable me 1 cs ns name true g = Some Stuck.
Proof.
  intros Hm Hl [m' Ha] Hcs Hns Hmay. unfold findResourcesForStrip, bind_manager.
  rewrite (tbind_eq _ _ g m g); cycle 1. { rewrite (tbind_eq _ _ g g g) by done. by rewrite Hm. }
  rewrite Hl. cbn [find_strips]. rewrite <- app_assoc. change (string_bytes "_strip" ++ decimal 1) with (string_bytes "_strip1").
  unfold createStrip, bind_manager, createStrip_here, set_manager. rewrite Hmay.
  set (g1 := g <| managers := <[ap := m' <| strips := <[before_nul name ++ string_bytes "_strip1" := []]> (strips m') |>]> (managers g) |>).
  rewrite (tbind_eq _ _ g true g1); cycle 1.
  { rewrite (tbind_eq _ _ g m' g); [done |]. rewrite (tbind_eq _ _ g g g) by done. by rewrite Ha. }
  by rewrite Hcs, Hns.
Qed.

(** ** Writing *)

(** What a strip receives from some calls. *)
Definition calls_to (ap path : chars) (l : list write_call) : list write_call :=
  filter (λ c, w_manager c = ap ∧ w_strip c = path) l.
Definition received (ap path : chars) (l : list write_call) : list byte :=
  if may_write ap path then concat ((λ c, before_nul (w_data c)) <$> calls_to ap path l) else [].
Definition content (g : grid_files) (ap path : chars) : list byte :=
  match managers g !! ap with Some m => default [] (strips m !! path) | None => [] end.
Lemma delivered_Permutation g g' l : delivered may_write g g' l → in_flight g ≡ₚ l.
Proof.
  induction 1 as [g Hg|i c g g' l Hi _ IH]; [by rewrite Hg |].
  rewrite (delete_Permutation _ _ _ Hi). f_equiv. rewrite <- IH. unfold deliver. by rewrite Hi.
Qed.
Lemma deliver_managers i g ap : is_Some (managers (deliver may_write i g) !! ap) ↔ is_Some (managers g !! ap).
Proof.
  unfold deliver. destruct (in_flight g !! i) as [c|]; [|done]. cbn. unfold write_at.
  destruct (decide (w_manager c = ap)) as [<-|Hne]; [rewrite lookup_alter_eq; by rewrite fmap_is_Some | by rewrite lookup_alter_ne].
Qed.
Lemma deliver_content i c g ap path :
  in_flight g !! i = Some c → is_Some (managers g !! ap) →
  content (deliver may_write i g) ap path = content g ap path ++ received ap path [c].
Proof.
  intros Hi [m Hm]. unfold deliver, content, received, calls_to, write_at. rewrite Hi. cbn. rewrite Hm.
  destruct (decide (w_manager c = ap)) as [<-|Hne].
  - rewrite lookup_alter_eq, Hm. cbn. unfold writeToStrip_here. destruct (decide (w_strip c = path)) as [<-|Hp].
    + rewrite decide_True by done. destruct (may_write _ _); cbn; [|by rewrite app_nil_r]. by rewrite lookup_insert_eq, app_nil_r.
    + rewrite decide_False by naive_solver. cbn. destruct (may_write (w_manager c) (w_strip c)); cbn; [rewrite lookup_insert_ne by done|];
        destruct (may_write _ path); by rewrite app_nil_r.
  - rewrite lookup_alter_ne, Hm by done. rewrite decide_False by naive_solver. destruct (may_write _ _); by rewrite app_nil_r.
Qed.

(** What a strip holds after all calls on their way have been executed, in any order: what it held,
    then the data of the calls for this strip, in the order they were executed; and every call was. *)
Theorem delivered_content g g' l ap path :
  delivered may_write g g' l → is_Some (managers g !! ap) →
  in_flight g ≡ₚ l ∧ content g' ap path = content g ap path ++ received ap path l.
Proof.
  intros Hd Hm. split; [by eapply delivered_Permutation |]. revert Hm.
  induction Hd as [g Hg|i c g g' l Hi Hd IH]; intros Hm.
  - unfold received. cbn. by destruct (may_write ap path); rewrite app_nil_r.
  - rewrite IH by (by apply deliver_managers). rewrite (deliver_content i c) by done. rewrite <- app_assoc. f_equal.
    unfold received, calls_to. destruct (may_write ap path); [|done].
    change (c :: l) with ([c] ++ l). by rewrite filter_app, fmap_app, concat_app.
Qed.
End Properties.
