(* ===== verification/StripFile.v ===== *)
(** * Parallel files

    [POPFStream] (dev/popfile/popfile.cpp) with its buffers ([POPFileBuffer], popfilebuffer.cpp), its
    readers ([POPFileReader], popfilereader.cc) and its grips (popfile_grip.cpp): a file whose blocks
    are dealt in turn to strips on several nodes. A block that is full is sent to the manager of its
    strip; a reader fetches the blocks of one strip.

    The strings are characters ([GetString] is [c_str]). The local files are texts and documents. What
    the standard stream of an ordinary file answers, the texts of floating-point numbers, which local
    files can be opened and what TinyXML reads from a document it wrote are parameters. A reader
    serves its calls in order and nobody writes to the strips that are read, so a block is fetched when
    it is asked for. The messages on the terminal and the clocks are left out. *)

From S2P Require Import Prelude Machine Exceptions Utils Effects Throwing StripMetadata StripManager.

(** ** Buffers, readers, grips *)

Record POPFileBuffer : Type := MkBuffer {
  popfile_buffer_out : list byte; capacity : Z; remainingCapacity : Z; identifier : Z; stripPath : chars; associatedPFM : option chars }.
#[export] Instance POPFileBuffer_eta : Eta POPFileBuffer :=
  λ b, MkBuffer (popfile_buffer_out b) (capacity b) (remainingCapacity b) (identifier b) (stripPath b) (associatedPFM b).
Definition POPFileBuffer_new : POPFileBuffer := MkBuffer [] 1024 1024 0 [] None.
Definition FULL : chars := string_bytes "FULL".
Definition buffer_capacity (value : Z) (b : POPFileBuffer) : POPFileBuffer := b <| capacity := value |> <| remainingCapacity := value |>.

(** The input of a reader is a stream of which the text is replaced when something is taken: what is
    added then is written over it from the start. *)
Record POPFileReader : Type := MkReader {
  popfile_buffer_in : list byte; put_at : nat; reader_capacity : Z; pfm_ref : option chars; strip_path : chars }.
#[export] Instance POPFileReader_eta : Eta POPFileReader :=
  λ r, MkReader (popfile_buffer_in r) (put_at r) (reader_capacity r) (pfm_ref r) (strip_path r).
Definition POPFileReader_new : POPFileReader := MkReader [] 0 1024 None [].
Definition add_data (data : list byte) (r : POPFileReader) : POPFileReader :=
  let data := before_nul data in let l := popfile_buffer_in r in
  r <| popfile_buffer_in := take (put_at r) l ++ data ++ drop (put_at r + length data) l |> <| put_at := (put_at r + length data)%nat |>.
(** [None]: the end of the function without a value. *)
Definition buffer_get (size : Z) (r : POPFileReader) : option (list byte * POPFileReader) :=
  if zlen (popfile_buffer_in r) <? uwrap 64 size then None
  else Some (take (Z.to_nat (uwrap 64 size)) (popfile_buffer_in r),
             r <| popfile_buffer_in := drop (Z.to_nat (uwrap 64 size)) (popfile_buffer_in r) |> <| put_at := O |>).

Record POPFileGrip : Type := MkGrip {
  popfilegrip_size : Z; popfilegrip_first_read : Z; popfilegrip_first_reader : Z; popfilegrip_order : Z }.
#[export] Instance POPFileGrip_eta : Eta POPFileGrip :=
  λ g, MkGrip (popfilegrip_size g) (popfilegrip_first_read g) (popfilegrip_first_reader g) (popfilegrip_order g).
Definition POPFileGrip_new : POPFileGrip := MkGrip 0 0 0 0.

(** ** The stream *)

Record stream : Type := MkStream {
  grid : grid_files;
  xml_files : gmap chars (list xml);
  files : gmap chars (list byte);
  popfile_parallel : bool;
  popfile_open : bool;
  popfile_offset : Z;
  popfile_strip_number : Z;
  popfile_current_output_buffer : Z;
  popfile_current_input_buffer : Z;
  popfile_badflag : bool;
  popfile_filename : chars;
  popfile_metadata_filename : chars;
  popfile_metadata : POPFileMetaData;
  popfile_writebuffers : list POPFileBuffer;
  popfile_fstream : option chars;
  pfm_ap : chars;
  popfile_reader_ref : option (list POPFileReader);
  popfile_internal_read_pointer : Z;
  popfile_total_bytes : Z;
  popfile_first_write_pointer : Z;
  popfile_current_reader : Z;
  popfile_current_reader_offset : Z;
  popfile_current_grip : Z;
  popfile_served_grip : Z }.
#[export] Instance stream_eta : Eta stream := λ w,
  MkStream (grid w) (xml_files w) (files w) (popfile_parallel w) (popfile_open w) (popfile_offset w) (popfile_strip_number w)
    (popfile_current_output_buffer w) (popfile_current_input_buffer w) (popfile_badflag w) (popfile_filename w)
    (popfile_metadata_filename w) (popfile_metadata w) (popfile_writebuffers w) (popfile_fstream w) (pfm_ap w)
    (popfile_reader_ref w) (popfile_internal_read_pointer w) (popfile_total_bytes w) (popfile_first_write_pointer w)
    (popfile_current_reader w) (popfile_current_reader_offset w) (popfile_current_grip w) (popfile_served_grip w).

Definition POPFILE_METADATA_PREFIX : chars := string_bytes ".popfile_".
Definition POPFILE_METADATA_SUFFIX : chars := string_bytes ".xml".
Definition POPFILE_POPFILEMANAGER_LOCAL : chars := string_bytes "socket://127.0.0.1:2712".
Definition POPFILE_SCATTER_STRIP_NUMBER : Z := 4.
Definition POPFILE_SCATTER_STRIP_FACTOR : Z := 1024.

Definition popfile_init (w : stream) : stream :=
  MkStream (grid w) (xml_files w) (files w) false false 0 0 0 0 false (popfile_filename w) (popfile_metadata_filename w)
    (popfile_metadata w) [] (popfile_fstream w) POPFILE_POPFILEMANAGER_LOCAL None 0 0 0 0 0 0 0.
Definition metadata_file (filename : chars) : chars := POPFILE_METADATA_PREFIX ++ filename ++ POPFILE_METADATA_SUFFIX.
Definition popfile_init_filename (filename : chars) (w : stream) : stream :=
  w <| popfile_filename := filename |> <| popfile_metadata_filename := metadata_file filename |>.
(** A stream with the files of its program, and the metadata its memory held. *)
Definition POPFStream_new (g : grid_files) (xs : gmap chars (list xml)) (fs : gmap chars (list byte)) (m : POPFileMetaData) : stream :=
  MkStream g xs fs false false 0 0 0 0 false [] [] m [] None POPFILE_POPFILEMANAGER_LOCAL None 0 0 0 0 0 0 0.

Section Stream.
Context (may_write : chars → chars → bool) (unreachable : chars → pop_exception).
Context (can_open : chars → bool) (cwd : option chars) (reread : list xml → option (list xml)).
Context {I : Type}.
Abbreviation P := (Throws stream I).

Definition on_grid {A : Type} (m : Throws grid_files I A) : P A := λ w,
  match m (grid w) with
  | Some (Ok (r, g)) => Some (Ok (r, w <| grid := g |>))
  | Some (Throw c i) => Some (Throw c i)
  | Some Stuck => Some Stuck
  | None => None
  end.
Definition to_int (z : Z) : P Z := tcall (check_int z).
Definition to_long (z : Z) : P Z := tneed (if in_sint 64 z then Some z else None).
Definition at_index {A : Type} (l : list A) (i : Z) : option A := if i <? 0 then None else l !! Z.to_nat i.
(** A question to the metadata, which may gain a strip. *)
Definition ask_metadata {A : Type} (f : POPFileMetaData → A * POPFileMetaData) : P A :=
  let^ w := tget in
  let '(a, m) := f (popfile_metadata w) in
  tset (λ w, w <| popfile_metadata := m |>) ;;^ tret a.

(** ** Writing *)

Definition set_writebuffer (i : Z) (b : POPFileBuffer) : P () :=
  tset (λ w, w <| popfile_writebuffers := <[Z.to_nat i := b]> (popfile_writebuffers w) |>).
Definition writebuffer (i : Z) : P POPFileBuffer := let^ w := tget in tneed (at_index (popfile_writebuffers w) i).
Definition set_capacity (i value : Z) : P () := let^ b := writebuffer i in set_writebuffer i (buffer_capacity value b).
Definition flush_buffer (i : Z) : P () :=
  let^ b := writebuffer i in
  if remainingCapacity b <? capacity b then
    let^ ap := tneed (associatedPFM b) in
    on_grid (writeToRemoteStrip (stripPath b) (before_nul (popfile_buffer_out b)) ap) ;;^
    set_writebuffer i (b <| popfile_buffer_out := [] |> <| remainingCapacity := capacity b |>)
  else tret ().
Definition buffer_add (i : Z) (value : list byte) : P (list byte) :=
  let^ b := writebuffer i in
  let room := uwrap 64 (remainingCapacity b) in
  if zlen value <? room then
    set_writebuffer i (b <| popfile_buffer_out := popfile_buffer_out b ++ value |>
                         <| remainingCapacity := swrap 64 (remainingCapacity b - zlen value) |>) ;;^
    tret []
  else
    let remaining := drop (Z.to_nat room) value in
    let toadd := take (Z.to_nat room) value in
    set_writebuffer i (b <| popfile_buffer_out := popfile_buffer_out b ++ toadd |>
                         <| remainingCapacity := swrap 64 (remainingCapacity b - zlen toadd) |>) ;;^
    flush_buffer i ;;^
    tret (if bool_decide (remaining = []) then FULL else remaining).

(** The next index of a ring. *)
Definition next_of (i n : Z) : P Z :=
  let^ i := to_int (i + 1) in
  if n =? 0 then undefined else tret (if Z.rem i n =? 0 then 0 else i).
Definition get_next_buffer : P () :=
  let^ w := tget in
  let^ i := next_of (popfile_current_output_buffer w) (popfile_strip_number w) in
  tset (λ w, w <| popfile_current_output_buffer := i |>).
(** After a block that was sent: the buffer gets its capacity back, and the next one is current. *)
Definition next_block : P () :=
  let^ w := tget in
  let^ offset := ask_metadata (get_offset_for_strip (popfile_current_output_buffer w)) in
  set_capacity (popfile_current_output_buffer w) offset ;;^
  get_next_buffer.
Fixpoint write_loop (fuel : nat) (remaining : list byte) : P () :=
  if bool_decide (remaining = []) then tret ()
  else
    match fuel with
    | O => out_of_fuel
    | S fuel' =>
        next_block ;;^
        if bool_decide (remaining = FULL) then tret ()
        else
          let^ w := tget in
          let^ remaining := buffer_add (popfile_current_output_buffer w) remaining in
          write_loop fuel' remaining
    end.
Definition popfile_writeToBuffer (fuel : nat) (value : list byte) : P () :=
  tset (λ w, w <| popfile_badflag := false |>) ;;^
  let^ w := tget in
  (if popfile_first_write_pointer w =? 0 then tret ()
   else set_capacity (popfile_current_output_buffer w) (popfile_first_write_pointer w) ;;^
        tset (λ w, w <| popfile_first_write_pointer := 0 |>)) ;;^
  tset (λ w, w <| popfile_total_bytes := swrap 64 (popfile_total_bytes w + zlen value) |>) ;;^
  let^ remaining := buffer_add (popfile_current_output_buffer w) value in
  write_loop fuel remaining.

(** [popfile_fstream << text]: the stream appends, and does nothing when it is not open. *)
Definition append_file (text : list byte) : P () :=
  tset (λ w, match popfile_fstream w with
    | Some name => w <| files := <[name := default [] (files w !! name) ++ text]> (files w) |>
    | None => w
    end).
Definition write_string (fuel : nat) (value : list byte) : P () :=
  let^ w := tget in
  if popfile_parallel w then popfile_writeToBuffer fuel value else append_file (before_nul value).
(** [write(s, n)]: up to the first NUL, whatever the size. *)
Definition write_chars (fuel : nat) (s : list byte) : P () :=
  match c_string s with
  | None => undefined
  | Some value => let^ w := tget in if popfile_parallel w then popfile_writeToBuffer fuel value else tret ()
  end.
(** [write(char)], [write(int)], [write(long)], and the texts of [float] and [double]. *)
Definition write_text (fuel : nat) (text : list byte) : P () :=
  let^ w := tget in if popfile_parallel w then popfile_writeToBuffer fuel text else tret ().
Definition write_char (fuel : nat) (a : byte) : P () := write_text fuel [a].
Definition write_int (fuel : nat) (a : Z) : P () := write_text fuel (decimal a).
Definition write_long (fuel : nat) (a : Z) : P () := write_text fuel (decimal_long a).
Fixpoint flush_buffers (n : nat) (i : Z) : P () :=
  match n with O => tret () | S n' => flush_buffer i ;;^ flush_buffers n' (i + 1) end.
Definition flush : P () := let^ w := tget in flush_buffers (Z.to_nat (popfile_strip_number w)) 0.

(** ** Reading *)

Definition readers_of (w : stream) : option (list POPFileReader) := popfile_reader_ref w.
Definition reader (i : Z) : P POPFileReader :=
  let^ w := tget in tneed (l ← readers_of w; at_index l i).
Definition set_reader (i : Z) (r : POPFileReader) : P () :=
  tset (λ w, w <| popfile_reader_ref := (λ l, <[Z.to_nat i := r]> l) <$> popfile_reader_ref w |>).
(** What the call throws stays in the process of the reader. *)
Definition read_in_strip (i start offset : Z) : P () :=
  let^ r := reader i in
  let^ pfm := tneed (pfm_ref r) in
  let^ data := on_grid (let? x := readFromStrip (I := I) unreachable pfm (strip_path r) start offset in ret (inr (A := exc I) x)) in
  match data with inl _ => tret () | inr data => set_reader i (add_data data r) end.
(** A reader without enough data waits for ever: no other call is served meanwhile. *)
Definition read_current_buffer (i size : Z) : P (list byte) :=
  let^ r := reader i in
  if zlen (popfile_buffer_in r) <? size then out_of_fuel
  else
    let^ (data, r) := tneed (buffer_get (if size =? -1 then reader_capacity r else size) r) in
    set_reader i r ;;^ tret (before_nul data).

Definition get_next_reader : P () :=
  let^ w := tget in
  let^ i := to_int (popfile_current_reader w + 1) in
  if popfile_strip_number w =? 0 then undefined
  else if Z.rem i (popfile_strip_number w) =? 0 then
    tset (λ w, w <| popfile_current_reader := 0 |>
                 <| popfile_current_reader_offset := swrap 32 (popfile_current_reader_offset w + popfile_offset w) |>)
  else tset (λ w, w <| popfile_current_reader := i |>).
Definition get_next_input_buffer : P () :=
  let^ w := tget in
  let^ i := next_of (popfile_current_input_buffer w) (popfile_strip_number w) in
  tset (λ w, w <| popfile_current_input_buffer := i |>).

(** The readers, made for the first block that is read. *)
Fixpoint init_readers (n : nat) (i : Z) : P () :=
  match n with
  | O => tret ()
  | S n' =>
      let^ ap := ask_metadata (get_accessstring_for_strip i) in
      on_grid (bind_manager unreachable ap) ;;^
      let^ path := ask_metadata (get_filepath_for_strip i) in
      let^ offset := ask_metadata (get_offset_for_strip i) in
      let^ r := reader i in
      set_reader i (r <| pfm_ref := Some ap |> <| strip_path := path |> <| reader_capacity := offset |>) ;;^
      init_readers n' (i + 1)
  end.
Definition make_readers : P () :=
  let^ w := tget in
  match popfile_reader_ref w with
  | Some _ => tret ()
  | None =>
      let n := Z.to_nat (popfile_strip_number w) in
      tset (λ w, w <| popfile_reader_ref := Some (replicate n POPFileReader_new) |>) ;;^ init_readers n 0
  end.

(** Whole blocks while there are: the rest of the current one first, when one was read in part. *)
Fixpoint background_loop (fuel : nat) (size : Z) (grip : POPFileGrip) : P (Z * POPFileGrip) :=
  let^ w := tget in
  if popfile_offset w <=? size then
    match fuel with
    | O => out_of_fuel
    | S fuel' =>
        let pointer := popfile_internal_read_pointer w in
        let^ (size, grip) :=
          if pointer =? 0 then
            read_in_strip (popfile_current_reader w) (popfile_current_reader_offset w) (popfile_offset w) ;;^
            let^ size := to_long (size - popfile_offset w) in tret (size, grip)
          else
            read_in_strip (popfile_current_reader w) (popfile_current_reader_offset w) pointer ;;^
            let^ size := to_long (size - pointer) in
            tset (λ w, w <| popfile_internal_read_pointer := 0 |>) ;;^
            tret (size, grip <| popfilegrip_first_read := pointer |>) in
        get_next_reader ;;^ background_loop fuel' size grip
    end
  else tret (size, grip).
Definition read_in_background (fuel : nat) (size : Z) : P POPFileGrip :=
  tset (λ w, w <| popfile_badflag := false |>) ;;^
  let^ w := tget in
  if popfile_parallel w then
    make_readers ;;^
    let grip := MkGrip size 0 (popfile_current_reader w) (popfile_current_grip w) in
    let^ order := to_int (popfile_current_grip w + 1) in
    tset (λ w, w <| popfile_current_grip := order |>) ;;^
    let^ (size, grip) := background_loop fuel size grip in
    (if 0 <? size then
       let^ w := tget in
       read_in_strip (popfile_current_reader w) (popfile_current_reader_offset w) size ;;^
       let^ pointer := to_long (popfile_offset w - size) in
       tset (λ w, w <| popfile_internal_read_pointer := pointer |>)
     else tret ()) ;;^
    tret grip
  else tret POPFileGrip_new.

Fixpoint get_loop (fuel : nat) (size first_read : Z) (data : list byte) : P (Z * list byte) :=
  let^ w := tget in
  if popfile_offset w <? size then
    match fuel with
    | O => out_of_fuel
    | S fuel' =>
        let i := popfile_current_input_buffer w in
        if first_read =? 0 then
          let^ block := read_current_buffer i (-1) in
          let^ size := to_long (size - popfile_offset w) in
          get_next_input_buffer ;;^ get_loop fuel' size 0 (data ++ block)
        else
          let^ block := read_current_buffer i first_read in
          let^ size := to_long (size - first_read) in
          get_next_input_buffer ;;^ get_loop fuel' size 0 (data ++ block)
    end
  else tret (size, data).
Definition get_read (fuel : nat) (grip : POPFileGrip) : P (list byte) :=
  let^ w := tget in
  if popfilegrip_order grip =? popfile_served_grip w then
    let size := popfilegrip_size grip in
    tset (λ w, w <| popfile_current_input_buffer := popfilegrip_first_reader grip |>) ;;^
    let^ data :=
      if popfile_offset w <? size then
        let^ (size, data) := get_loop fuel size (popfilegrip_first_read grip) [] in
        if 0 <? size then
          let^ w := tget in
          let^ block := read_current_buffer (popfile_current_input_buffer w) size in
          get_next_input_buffer ;;^ tret (data ++ block)
        else tret data
      else
        let^ block := read_current_buffer (popfilegrip_first_reader grip) size in
        get_next_input_buffer ;;^ tret block in
    let^ w := tget in
    let^ served := to_int (popfile_served_grip w + 1) in
    tset (λ w, w <| popfile_served_grip := served |>) ;;^ tret data
  else tset (λ w, w <| popfile_badflag := true |>) ;;^ tret [].
Definition read (fuel : nat) (size : Z) : P (list byte) :=
  tset (λ w, w <| popfile_badflag := false |>) ;;^
  let^ grip := read_in_background fuel size in get_read fuel grip.

(** ** Positions and states *)

Definition tellg : P Z := let^ w := tget in tret (popfile_internal_read_pointer w).
Fixpoint seek_loop (fuel : nat) (b : Z) : P () :=
  let^ w := tget in
  if popfile_offset w <? b then
    match fuel with
    | O => out_of_fuel
    | S fuel' =>
        let^ b := to_long (b - popfile_offset w) in
        let^ i := to_int (popfile_current_reader w + 1) in
        tset (λ w, w <| popfile_current_reader := if popfile_strip_number w <? i then 0 else i |>) ;;^
        seek_loop fuel' b
    end
  else tret ().
Definition seekg (fuel : nat) (a : Z) : P () :=
  tset (λ w, w <| popfile_current_reader := 0 |>) ;;^
  seek_loop fuel a ;;^
  let^ w := tget in
  if popfile_offset w =? 0 then undefined
  else tset (λ w, w <| popfile_internal_read_pointer := Z.rem a (popfile_offset w) |>).
(** [fstream_bad] and the like are the answers of the standard stream. [eof] assigns where it means to
    compare. *)
Definition bad (fstream_bad : bool) : P bool := let^ w := tget in tret (if popfile_parallel w then popfile_badflag w else fstream_bad).
Definition fail (fstream_bad : bool) : P bool := let^ w := tget in tret (if popfile_parallel w then false else fstream_bad).
Definition eof (fstream_eof : bool) : P bool :=
  let^ w := tget in
  if popfile_parallel w then
    tset (λ w, w <| popfile_internal_read_pointer := popfile_total_bytes w |>) ;;^ tret (negb (popfile_total_bytes w =? 0))
  else tret fstream_eof.
Definition good (fstream_good : bool) : P bool :=
  let^ w := tget in
  if popfile_parallel w then
    let^ b := bad false in
    if (b : bool) then tret false
    else let^ e := eof false in if (e : bool) then tret false else let^ f := fail false in tret (negb f)
  else tret fstream_good.
Definition is_open : P bool :=
  let^ w := tget in
  tret (if popfile_parallel w then meta_loaded (popfile_metadata w) else match popfile_fstream w with Some _ => true | None => false end).
Definition is_parallel : P bool := let^ w := tget in tret (popfile_parallel w).
(** The number of strips and the offset of a parallel file. *)
Definition get_infos : P (option (Z * Z)) :=
  let^ w := tget in
  tret (if popfile_parallel w then Some (zlen (meta_strips (popfile_metadata w)), meta_offset (popfile_metadata w)) else None).

(** ** Opening and closing *)

(** The buffers of the strips the metadata name. *)
Fixpoint open_buffers (l : MetaDataStripMap) (i : Z) : P () :=
  match l with
  | [] => tret ()
  | (_, s) :: l' =>
      let^ ap := ask_metadata (get_accessstring_for_strip (strip_identifier s)) in
      let^ b := writebuffer i in
      let b := buffer_capacity (strip_offset s) b <| identifier := strip_identifier s |> <| stripPath := before_nul (strip_name s) |> in
      on_grid (bind_manager unreachable ap) ;;^
      let^ w := tget in
      on_grid (bind_manager unreachable (pfm_ap w)) ;;^
      set_writebuffer i (b <| associatedPFM := Some ap |>) ;;^
      let^ n := to_int (popfile_strip_number w + 1) in
      tset (λ w, w <| popfile_strip_number := n |>) ;;^
      open_buffers l' (i + 1)
  end.
Definition popfile_try_open_parallel : P bool :=
  let^ w := tget in
  match xml_files w !! popfile_metadata_filename w with
  | None => tret false
  | Some doc =>
      let^ (isLoaded, m) := tcall (load (reread doc) (popfile_metadata w)) in
      tset (λ w, w <| popfile_metadata := m |> <| popfile_writebuffers := replicate (Z.to_nat (get_strips_count m)) POPFileBuffer_new |>) ;;^
      open_buffers (meta_strips m) 0 ;;^
      let^ offset := ask_metadata (get_offset_for_strip 0) in
      let strip := info_ending_strip (meta_info m) in
      let pointer := info_ending_pointer (meta_info m) in
      tset (λ w, w <| popfile_offset := offset |> <| popfile_current_output_buffer := strip |> <| popfile_total_bytes := pointer |>) ;;^
      let^ offset := ask_metadata (get_offset_for_strip strip) in
      if offset =? 0 then undefined
      else
        let^ first := to_long (offset - Z.rem pointer offset) in
        tset (λ w, w <| popfile_first_write_pointer := first |>) ;;^
        tret isLoaded
  end.
(** [open(filename)]: an ordinary file when there are no metadata. A standard stream that is open stays
    as it is. *)
Definition open (filename : chars) : P () :=
  let^ w := tget in
  if popfile_open w then tret ()
  else
    tset (popfile_init_filename filename) ;;^
    let^ parallel := popfile_try_open_parallel in
    if parallel : bool then tset (λ w, w <| popfile_parallel := true |>)
    else
      tset (λ w, w <| popfile_parallel := false |>) ;;^
      if match popfile_fstream w with Some _ => true | None => false end then tset (λ w, w <| popfile_open := true |>)
      else if can_open filename then
        tset (λ w, w <| files := <[filename := default [] (files w !! filename)]> (files w) |>
                     <| popfile_fstream := Some filename |> <| popfile_open := true |>)
      else tset (λ w, w <| popfile_fstream := None |>).

(** The strips that were found, [n] places from the place [i]. *)
Fixpoint create_buffers (n : nat) (i : Z) (candidates stripNames : list chars) (offset : Z) (local : bool) : P () :=
  match n with
  | O => tret ()
  | S n' =>
      let^ ap := tneed (at_index candidates i) in
      let^ strip_name := tneed (at_index stripNames i) in
      (if bool_decide (ap = []) then tret ()
       else
         let is_local := (i =? 0) && local in
         let^ w := tget in
         let^ added := tcall (addStripInfo is_local i (string_bytes "/tmp/") (before_nul strip_name) offset ap (popfile_metadata w)) in
         match added with
         | None => tthrow (LogicError "basic_string::substr")
         | Some m =>
             tset (λ w, w <| popfile_metadata := m |>) ;;^
             (if is_local then tret ()
              else let^ n := to_int (popfile_strip_number w + 1) in tset (λ w, w <| popfile_strip_number := n |>)) ;;^
             let^ b := writebuffer i in
             on_grid (bind_manager unreachable ap) ;;^
             on_grid (bind_manager unreachable (pfm_ap w)) ;;^
             set_writebuffer i (buffer_capacity offset b <| identifier := i |> <| stripPath := before_nul strip_name |> <| associatedPFM := Some ap |>)
         end) ;;^
      create_buffers n' (i + 1) candidates stripNames offset local
  end.
Definition create (filename : chars) (stripnumber offset : Z) (local : bool) : P bool :=
  let stripPrefix := string_bytes "/tmp/." ++ filename in
  let localStrip := stripPrefix ++ string_bytes "_strip0" in
  if stripnumber <=? 0 then undefined
  else
    let candidates := replicate (Z.to_nat stripnumber) ([] : chars) in
    let stripNames := replicate (Z.to_nat stripnumber) ([] : chars) in
    let^ w := tget in
    on_grid (bind_manager unreachable (pfm_ap w)) ;;^
    let^ created := if local then on_grid (createStrip may_write unreachable (pfm_ap w) localStrip) else tret true in
    if (created : bool) then
      (if local then let^ n := to_int (popfile_strip_number w + 1) in tset (λ w, w <| popfile_strip_number := n |>) else tret ()) ;;^
      let '(candidates, stripNames) :=
        if local then (<[O := pfm_ap w]> candidates, <[O := localStrip]> stripNames) else (candidates, stripNames) in
      let^ (resources, (candidates, stripNames)) :=
        on_grid (findResourcesForStrip may_write unreachable (pfm_ap w) stripnumber candidates stripNames stripPrefix local) in
      if resources =? 0 then tret false
      else
        let path := match cwd with None => string_bytes "/tmp" | Some path => path end ++ string_bytes "/" in
        tset (λ w, w <| popfile_metadata := set_offset offset (set_filename filename path (popfile_metadata w)) |>
                     <| popfile_writebuffers := replicate (Z.to_nat resources) POPFileBuffer_new |>) ;;^
        create_buffers (Z.to_nat stripnumber) 0 candidates stripNames offset local ;;^
        tret true
    else tret false.
(** [open(filename, stripnumber, offset, local)]; the offset is in kilobytes. *)
Definition open_strips (filename : chars) (stripnumber offset : Z) (local : bool) : P bool :=
  let^ offset := to_long ((if offset <=? 0 then 1 else offset) * 1024) in
  tset (popfile_init_filename filename) ;;^
  let^ opened := popfile_try_open_parallel in
  let^ ready := if (opened : bool) then tret true else create filename stripnumber offset local in
  if (ready : bool) then tset (λ w, w <| popfile_parallel := true |>) ;;^ tret true else tret false.

Definition close : P () :=
  let^ w := tget in
  if popfile_parallel w then
    flush ;;^
    let^ w := tget in
    let m := set_ending_strip (popfile_current_output_buffer w) (set_ending_pointer (popfile_total_bytes w) (popfile_metadata w)) in
    let^ (doc, m) := tcall (save m) in
    tset (λ w, w <| popfile_metadata := m |> <| xml_files := <[popfile_metadata_filename w := doc]> (xml_files w) |>) ;;^
    tset popfile_init
  else tset (λ w, w <| popfile_fstream := None |>).
Definition destroy : P () := let^ b := is_open in if (b : bool) then close else tret ().

(** ** Scattering and gathering *)

Definition CHUNK : Z := 10000000.
(** The chunks of an ordinary file that is read into an array of [CHUNK] characters, which is not
    ended by a NUL. *)
Fixpoint scatter_loop (fuel : nat) (text : list byte) (size : Z) : P () :=
  match fuel with
  | O => out_of_fuel
  | S fuel' =>
      if CHUNK <? size then
        match c_string (take (Z.to_nat CHUNK) text) with
        | None => undefined
        | Some value => write_string fuel value ;;^ scatter_loop fuel' (drop (Z.to_nat CHUNK) text) (size - CHUNK)
        end
      else if size =? CHUNK then undefined
      else write_chars fuel (text ++ [x00])
  end.
Definition scatter (fuel : nat) : P () :=
  let^ w := tget in
  if popfile_parallel w then tret ()
  else
    match popfile_fstream w with
    | None => tret ()
    | Some name =>
        open_strips (popfile_filename w) POPFILE_SCATTER_STRIP_NUMBER POPFILE_SCATTER_STRIP_FACTOR true ;;^
        let^ w := tget in
        let text := default [] (files w !! name) in
        scatter_loop fuel text (zlen text)
    end.

Fixpoint gather_loop (fuel : nat) (fullsize : Z) (gathered : list byte → P ()) : P () :=
  let^ w := tget in
  if popfile_offset w <? fullsize then
    match fuel with
    | O => out_of_fuel
    | S fuel' =>
        let^ data := read fuel (popfile_offset w) in
        let^ fullsize := to_long (fullsize - popfile_offset w) in
        gathered data ;;^ gather_loop fuel' fullsize gathered
    end
  else if 0 <? fullsize then let^ data := read fuel fullsize in gathered data
  else tret ().
Definition gather (fuel : nat) : P () :=
  let^ w := tget in
  if popfile_parallel w then
    let^ opened := is_open in
    if (opened : bool) then
      let name := popfile_filename w in
      if can_open name then
        tset (λ w, w <| files := <[name := []]> (files w) |>) ;;^
        gather_loop fuel (popfile_total_bytes w) (λ data, tset (λ w, w <| files := <[name := default [] (files w !! name) ++ data]> (files w) |>))
      else gather_loop fuel (popfile_total_bytes w) (λ _, tret ())
    else tret ()
  else tret ().
End Stream.

(** ** How a file is striped

    The byte at the position [p] lies in the block [p / c], which is dealt to the strip
    [(p / c) mod n]; a strip keeps its bytes in order. *)
Definition in_stripe (n c i : Z) (p : Z) (b : byte) : list byte := if (p / c) mod n =? i then [b] else [].
Definition stripe_from (n c i p : Z) (d : list byte) : list byte := concat (imap (λ k b, in_stripe n c i (p + Z.of_nat k) b) d).
Definition stripe (n c i : Z) (d : list byte) : list byte := stripe_from n c i 0 d.

Lemma stripe_from_cons n c i p b d : stripe_from n c i p (b :: d) = in_stripe n c i p b ++ stripe_from n c i (p + 1) d.
Proof.
  unfold stripe_from. cbn [imap concat]. rewrite Z.add_0_r. f_equal. f_equal. apply imap_ext. intros k x _. cbn. f_equal. lia.
Qed.
Lemma stripe_from_app n c i p d e : stripe_from n c i p (d ++ e) = stripe_from n c i p d ++ stripe_from n c i (p + zlen d) e.
Proof.
  revert p. induction d as [|b d IH]; intros p; [cbn; by rewrite Z.add_0_r |].
  cbn [app]. rewrite !stripe_from_cons, IH, app_assoc. f_equal. f_equal. cbn [length]. lia.
Qed.
(** Inside one block everything goes to one strip. *)
Lemma stripe_from_block n c i p d k : 0 < c → p / c = k → p mod c + zlen d ≤ c → stripe_from n c i p d = if k mod n =? i then d else [].
Proof.
  intros Hc Hk. revert p Hk. induction d as [|b d IH]; intros p Hk Hd; [by destruct (_ =? _) |].
  rewrite stripe_from_cons. unfold in_stripe. rewrite Hk. cbn [length] in Hd.
  destruct (decide (d = [])) as [->|Hne]; [cbn; by destruct (_ =? _) |].
  assert (0 < zlen d) by (destruct d; [done | cbn [length]; lia]).
  pose proof (Z.div_mod p c ltac:(lia)). pose proof (Z.mod_pos_bound p c ltac:(lia)).
  rewrite IH; [by destruct (_ =? _) | |].
  - rewrite <- Hk. symmetry. apply (Z.div_unique _ c (p / c) (p mod c + 1)); lia.
  - rewrite <- (Z.mod_unique (p + 1) c (p / c) (p mod c + 1)) by lia. lia.
Qed.
Lemma stripe_app_block n c i d e : 0 < c → zlen d mod c + zlen e ≤ c →
  stripe n c i (d ++ e) = stripe n c i d ++ (if (zlen d / c) mod n =? i then e else []).
Proof. intros Hc He. unfold stripe. rewrite stripe_from_app. f_equal. by apply stripe_from_block. Qed.

(** The number of blocks among the first [k] that a strip has. *)
Lemma rounds_step n i k : 0 ≤ i < n → 0 ≤ k →
  (k + 1 + (n - 1 - i)) / n = (k + (n - 1 - i)) / n + (if k mod n =? i then 1 else 0).
Proof.
  intros Hi Hk. pose proof (Z.div_mod k n ltac:(lia)) as E. pose proof (Z.mod_pos_bound k n ltac:(lia)) as Hr.
  set (q := k / n) in *. set (r := k mod n) in *. destruct (Z.eqb_spec r i) as [->|Hne].
  - rewrite <- (Z.div_unique (k + 1 + (n - 1 - i)) n (q + 1) 0), <- (Z.div_unique (k + (n - 1 - i)) n q (n - 1)); lia.
  - destruct (Z_lt_le_dec r i).
    + rewrite <- (Z.div_unique (k + 1 + (n - 1 - i)) n q (r + n - i)), <- (Z.div_unique (k + (n - 1 - i)) n q (r + n - 1 - i)); lia.
    + rewrite <- (Z.div_unique (k + 1 + (n - 1 - i)) n (q + 1) (r - i)), <- (Z.div_unique (k + (n - 1 - i)) n (q + 1) (r - 1 - i)); lia.
Qed.
Lemma stripe_length n c i (k : nat) d : 0 < c → 0 ≤ i < n → zlen d = Z.of_nat k * c →
  zlen (stripe n c i d) = c * ((Z.of_nat k + (n - 1 - i)) / n).
Proof.
  intros Hc Hi. revert d. induction k as [|k IH]; intros d Hd.
  - destruct d; [|cbn [length] in Hd; lia]. rewrite Z.div_small by lia. cbn. lia.
  - rewrite <- (take_drop (Z.to_nat (Z.of_nat k * c)) d). set (a := take _ d). set (e := drop _ d).
    assert (Ha : zlen a = Z.of_nat k * c) by (unfold a; rewrite length_take; lia).
    assert (He : zlen e = c) by (unfold e; rewrite length_drop; lia).
    assert (Hq : zlen a / c = Z.of_nat k) by (rewrite Ha; apply Z.div_mul; lia).
    rewrite (stripe_app_block _ _ _ _ _ Hc) by (rewrite Ha, Z.mod_mul by lia; lia). rewrite zlen_app, (IH a Ha), Hq.
    rewrite Nat2Z.inj_succ, <- Z.add_1_r, rounds_step by lia. destruct (_ =? i); cbn [length]; lia.
Qed.
(** A block, or the start of one, is in its strip behind the blocks of the rounds before. *)
Lemma stripe_block n c j x d : 0 < c → 0 < n → 0 ≤ j → 0 ≤ x ≤ c → j * c + x ≤ zlen d →
  ∃ front rest, stripe n c (j mod n) d = front ++ take (Z.to_nat x) (drop (Z.to_nat (j * c)) d) ++ rest ∧ zlen front = j / n * c.
Proof.
  intros Hc Hn Hj Hx Hd. pose proof (Z.mod_pos_bound j n Hn) as Hm. pose proof (Z.div_mod j n ltac:(lia)) as Ej.
  set (a := take (Z.to_nat (j * c)) d). set (e := drop (Z.to_nat (j * c)) d).
  assert (Ha : zlen a = j * c) by (unfold a; rewrite length_take; lia).
  assert (He : zlen e = zlen d - j * c) by (unfold e; rewrite length_drop; lia).
  exists (stripe n c (j mod n) a), (stripe_from n c (j mod n) (j * c + x) (drop (Z.to_nat x) e)). split.
  - rewrite <- (take_drop (Z.to_nat (j * c)) d) at 1. fold a e. unfold stripe. rewrite stripe_from_app. f_equal.
    rewrite <- (take_drop (Z.to_nat x) e) at 1. rewrite stripe_from_app. rewrite Z.add_0_l, Ha. f_equal.
    + rewrite (stripe_from_block n c _ (j * c) _ j), Z.eqb_refl; [done | lia | by apply Z.div_mul; lia |].
      rewrite Z.mod_mul, length_take by lia. lia.
    + f_equal. rewrite length_take. lia.
  - rewrite (stripe_length n c (j mod n) (Z.to_nat j) a) by lia. rewrite Z2Nat.id by lia.
    rewrite <- (Z.div_unique (j + (n - 1 - j mod n)) n (j / n) (n - 1)); lia.
Qed.
Lemma elem_of_stripe_from x n c i p d : x ∈ stripe_from n c i p d → x ∈ d.
Proof.
  revert p. induction d as [|b d IH]; intros p; [done |]. rewrite stripe_from_cons, elem_of_app, elem_of_cons.
  unfold in_stripe. intros [H|H]; [left | right; by eapply IH]. destruct (_ =? _); [by apply list_elem_of_singleton in H | by apply elem_of_nil in H].
Qed.
Lemma stripe_plain n c i d : x00 ∉ d → x00 ∉ stripe n c i d.
Proof. intros Hd H. by apply elem_of_stripe_from in H. Qed.

Lemma at_index_nat {A : Type} (l : list A) (i : nat) : at_index l (Z.of_nat i) = l !! i.
Proof. unfold at_index. by rewrite (proj2 (Z.ltb_ge _ _)), Nat2Z.id by lia. Qed.

(** ** Writing deals the blocks in turn *)

Section Writing.
Context (may_write : chars → chars → bool) {I : Type}.
Abbreviation P := (Throws stream I).
(** The number of strips, the size of a block, and the managers and paths of the strips. *)
Context (n c : Z) (places : list (chars * chars)).

(** What a strip has received when the calls on their way are executed in order. *)
Definition sent (g : grid_files) (e : chars * chars) : list byte :=
  content g e.1 e.2 ++ received may_write e.1 e.2 (in_flight g).
(** Offsets of blocks in the metadata. *)
Definition offsets_known (m : POPFileMetaData) : Prop :=
  ∀ i, 0 ≤ i < n → ∃ s, List.find (λ e, e.1 =? i) (meta_strips m) = Some (i, s) ∧ strip_offset s = c.
Record shape (w : stream) : Prop := {
  s_parallel : popfile_parallel w = true;
  s_number : popfile_strip_number w = n;
  s_buffers : length (popfile_writebuffers w) = length places;
  s_paths : ∀ i e b, places !! i = Some e → popfile_writebuffers w !! i = Some b → stripPath b = e.2 ∧ associatedPFM b = Some e.1;
  s_offsets : offsets_known (popfile_metadata w) }.
Record layout : Prop := {
  l_number : n = zlen places;
  l_positive : 0 < n ≤ 2 ^ 30;
  l_block : 0 < c < 2 ^ 62;
  l_distinct : NoDup places;
  l_may : ∀ e, e ∈ places → may_write e.1 e.2 = true;
  l_paths : ∀ e, e ∈ places → x00 ∉ e.2 }.
(** The strips and buffers hold a text. *)
Record striped (d : list byte) (w : stream) : Prop := {
  t_shape : shape w;
  t_plain : x00 ∉ d;
  t_holds : ∀ i e b, places !! i = Some e → popfile_writebuffers w !! i = Some b →
    sent (grid w) e ++ popfile_buffer_out b = stripe n c (Z.of_nat i) d }.
Definition empty_buffer (b : POPFileBuffer) : Prop := popfile_buffer_out b = [] ∧ capacity b = c ∧ remainingCapacity b = c.
Definition others_empty (w : stream) : Prop :=
  ∀ i b, Z.of_nat i ≠ popfile_current_output_buffer w → popfile_writebuffers w !! i = Some b → empty_buffer b.
(** The current buffer has room for the rest of a block. *)
Record open_at (d : list byte) (w : stream) : Prop := {
  o_striped : striped d w;
  o_current : popfile_current_output_buffer w = (zlen d / c) mod n;
  o_others : others_empty w;
  o_room : ∃ b, at_index (popfile_writebuffers w) (popfile_current_output_buffer w) = Some b ∧
    remainingCapacity b = c - zlen d mod c ∧ capacity b = remainingCapacity b + zlen (popfile_buffer_out b) ∧ capacity b ≤ c }.
(** The current buffer has just been sent. *)
Record full_at (d : list byte) (w : stream) : Prop := {
  f_striped : striped d w;
  f_whole : zlen d mod c = 0 ∧ 0 < zlen d;
  f_current : popfile_current_output_buffer w = (zlen d / c - 1) mod n;
  f_others : others_empty w;
  f_sent : ∃ b, at_index (popfile_writebuffers w) (popfile_current_output_buffer w) = Some b ∧ popfile_buffer_out b = [] }.
(** What writing changes. *)
Definition moved (w w' : stream) : Prop :=
  ∃ l bs i, w' = w <| grid := (grid w) <| in_flight := l |> |> <| popfile_writebuffers := bs |> <| popfile_current_output_buffer := i |>.
#[export] Instance moved_preorder : PreOrder moved.
Proof.
  split.
  - intros w. exists (in_flight (grid w)), (popfile_writebuffers w), (popfile_current_output_buffer w). destruct w as [[] ]. done.
  - intros w1 w2 w3 (l & bs & i & ->) (l' & bs' & i' & ->). by exists l', bs', i'.
Qed.

Lemma moved_send (w : stream) l bs : moved w (w <| grid := (grid w) <| in_flight := l |> |> <| popfile_writebuffers := bs |>).
Proof. by exists l, bs, (popfile_current_output_buffer w). Qed.
Lemma moved_buffers (w : stream) bs : moved w (w <| popfile_writebuffers := bs |>).
Proof. exists (in_flight (grid w)), bs, (popfile_current_output_buffer w). by destruct w as [[] ]. Qed.
Lemma moved_next (w : stream) i : moved w (w <| popfile_current_output_buffer := i |>).
Proof. exists (in_flight (grid w)), (popfile_writebuffers w), i. by destruct w as [[] ]. Qed.

Hypothesis Hlayout : layout.

Lemma place_of x d : x = d mod n → ∃ j e, x = Z.of_nat j ∧ places !! j = Some e.
Proof.
  intros ->. pose proof (l_number Hlayout). pose proof (l_positive Hlayout). pose proof (Z.mod_pos_bound d n ltac:(lia)).
  destruct (lookup_lt_is_Some_2 places (Z.to_nat (d mod n))) as [e He]; [lia |]. exists (Z.to_nat (d mod n)), e. split; [lia | done].
Qed.
Lemma shape_buffer (w : stream) j b : shape w → is_Some (popfile_writebuffers w !! j) →
  (∀ e b0, places !! j = Some e → popfile_writebuffers w !! j = Some b0 → stripPath b = stripPath b0 ∧ associatedPFM b = associatedPFM b0) →
  shape (w <| popfile_writebuffers := <[j := b]> (popfile_writebuffers w) |>).
Proof.
  intros [H1 H2 H3 H4 H5] [b0 Hb0] Hb. split; cbn; [done | done | by rewrite length_insert | | done].
  intros i e b' He. destruct (decide (i = j)) as [->|Hne].
  - rewrite list_lookup_insert_eq by (by eapply lookup_lt_Some). intros [= <-]. destruct (Hb e b0 He Hb0) as [-> ->]. by eapply H4.
  - rewrite list_lookup_insert_ne by done. by apply H4.
Qed.

Lemma striped_add d w j b b' a :
  striped d w → popfile_writebuffers w !! j = Some b → (zlen d / c) mod n = Z.of_nat j → zlen d mod c + zlen a ≤ c → x00 ∉ a →
  popfile_buffer_out b' = popfile_buffer_out b ++ a → stripPath b' = stripPath b → associatedPFM b' = associatedPFM b →
  striped (d ++ a) (w <| popfile_writebuffers := <[j := b']> (popfile_writebuffers w) |>).
Proof.
  intros [Hsh Hp Hh] Hb Hj Ha Ha0 Eo Es Ea. pose proof (l_block Hlayout) as Hc. split.
  - apply shape_buffer; [done | by eexists |]. intros e b0 _ Hb0. by simplify_eq.
  - rewrite elem_of_app. tauto.
  - cbn. intros i e b1 He. rewrite stripe_app_block, Hj by lia. destruct (decide (i = j)) as [->|Hne].
    + rewrite list_lookup_insert_eq by (by eapply lookup_lt_Some). intros [= <-]. by rewrite Eo, app_assoc, (Hh j e b He Hb), Z.eqb_refl.
    + rewrite list_lookup_insert_ne by done. intros Hb1. by rewrite (Hh i e b1 He Hb1), (proj2 (Z.eqb_neq _ _)), app_nil_r by lia.
Qed.
Lemma sent_call g e path data ap :
  e ∈ places → sent (g <| in_flight := in_flight g ++ [MkWrite path data ap] |>) e =
    sent g e ++ (if decide (ap = e.1 ∧ path = e.2) then before_nul data else []).
Proof.
  intros He. unfold sent, received, calls_to, content. cbn. rewrite (l_may Hlayout e He), filter_app, fmap_app, concat_app, <- app_assoc. f_equal. f_equal.
  cbn. case_decide; cbn; [by rewrite app_nil_r | done].
Qed.

Lemma places_distinct i j e : places !! i = Some e → places !! j = Some e → i = j.
Proof. apply NoDup_lookup, (l_distinct Hlayout). Qed.
(** The content of a buffer is sent to its strip. *)
Lemma striped_send d w j e b b' :
  striped d w → popfile_writebuffers w !! j = Some b → places !! j = Some e → x00 ∉ popfile_buffer_out b →
  popfile_buffer_out b' = [] → stripPath b' = stripPath b → associatedPFM b' = associatedPFM b →
  striped d (w <| grid := (grid w) <| in_flight := in_flight (grid w) ++ [MkWrite e.2 (popfile_buffer_out b) e.1] |> |>
               <| popfile_writebuffers := <[j := b']> (popfile_writebuffers w) |>).
Proof.
  intros [Hsh Hp Hh] Hb He Hout Eo Es Ea. split; [| done |].
  - destruct (shape_buffer w j b' Hsh) as [H1 H2 H3 H4 H5]; [by eexists | intros; by simplify_eq | by split].
  - cbn. intros i e1 b1 He1. rewrite sent_call by (by eapply list_elem_of_lookup_2). destruct (decide (i = j)) as [->|Hne].
    + rewrite list_lookup_insert_eq by (by eapply lookup_lt_Some). intros [= <-]. simplify_eq.
      rewrite decide_True, before_nul_plain, Eo, app_nil_r by done. by apply Hh.
    + rewrite list_lookup_insert_ne by done. intros Hb1. rewrite decide_False, app_nil_r; [by apply Hh |].
      intros [E1 E2]. apply Hne. eapply places_distinct; [exact He1 |]. rewrite He. f_equal. destruct e, e1. cbn in *. by subst.
Qed.
Lemma striped_out_plain d w j b : striped d w → popfile_writebuffers w !! j = Some b → x00 ∉ popfile_buffer_out b.
Proof.
  intros [Hsh Hp Hh] Hb Hin. destruct (lookup_lt_is_Some_2 places j) as [e He].
  { rewrite <- (s_buffers _ Hsh). by eapply lookup_lt_Some. }
  apply (stripe_plain n c (Z.of_nat j) d Hp). rewrite <- (Hh j e b He Hb). apply elem_of_app. by right.
Qed.

Lemma writebuffer_wp total (w : stream) j b Q :
  popfile_writebuffers w !! j = Some b → Q (inr b) w → wp total (writebuffer (I := I) (Z.of_nat j)) Q w.
Proof. intros Hb HQ. unfold writebuffer. twp_steps. unfold tneed. rewrite at_index_nat, Hb. by wp_steps. Qed.
(** A buffer with something in it is sent. *)
Lemma flush_buffer_wp total d w j e b Q :
  striped d w → popfile_writebuffers w !! j = Some b → places !! j = Some e → remainingCapacity b < capacity b →
  (∀ w', striped d w' → moved w w' → popfile_current_output_buffer w' = popfile_current_output_buffer w →
     (∃ b', popfile_writebuffers w' !! j = Some b' ∧ popfile_buffer_out b' = [] ∧ capacity b' = capacity b ∧ remainingCapacity b' = capacity b) →
     (∀ i, i ≠ j → popfile_writebuffers w' !! i = popfile_writebuffers w !! i) → Q (inr ()) w') →
  wp total (flush_buffer (I := I) (Z.of_nat j)) Q w.
Proof.
  intros Ht Hb He Hcap HQ. unfold flush_buffer. twp_steps. apply (writebuffer_wp _ _ _ b); [done |].
  rewrite (proj2 (Z.ltb_lt _ _)) by done. destruct (s_paths _ (t_shape _ _ Ht) j e b He Hb) as [Ep Ea].
  unfold tneed. rewrite Ea. wp_steps. twp_steps. unfold on_grid. cbn.
  rewrite Ep, before_nul_plain, Nat2Z.id by (by eapply striped_out_plain). apply HQ.
  - eapply (striped_send d w j e b); try done. by eapply striped_out_plain.
  - apply moved_send.
  - done.
  - eexists. cbn. rewrite list_lookup_insert_eq by (by eapply lookup_lt_Some). done.
  - intros i Hi. cbn. by rewrite list_lookup_insert_ne.
Qed.

Lemma others_kept (w w' : stream) j : popfile_current_output_buffer w = Z.of_nat j → popfile_current_output_buffer w' = Z.of_nat j →
  (∀ i, i ≠ j → popfile_writebuffers w' !! i = popfile_writebuffers w !! i) → others_empty w → others_empty w'.
Proof. intros E1 E2 Hsame Ho i b. rewrite E2. intros Hi. rewrite Hsame by lia. apply Ho. lia. Qed.

(** What [buffer_add] does to the current buffer: the text fits, or fills the block. *)
Lemma buffer_add_wp total d w v Q :
  open_at d w → x00 ∉ v →
  (∀ w', zlen v < c - zlen d mod c → open_at (d ++ v) w' → moved w w' → Q (inr []) w') →
  (∀ w', c - zlen d mod c ≤ zlen v → full_at (d ++ take (Z.to_nat (c - zlen d mod c)) v) w' → moved w w' →
     Q (inr (if bool_decide (drop (Z.to_nat (c - zlen d mod c)) v = []) then FULL else drop (Z.to_nat (c - zlen d mod c)) v)) w') →
  wp total (buffer_add (I := I) (popfile_current_output_buffer w) v) Q w.
Proof.
  intros [Ht Hcur Ho (b & Hb & Hrem & Hcap & Hc)] Hv Hfit Hfill. pose proof (l_block Hlayout) as Hcb.
  destruct (place_of _ _ Hcur) as (j & e & Ej & He). rewrite Ej in Hb |- *. rewrite at_index_nat in Hb.
  pose proof (Z.mod_pos_bound (zlen d) c ltac:(lia)) as Hm. set (room := c - zlen d mod c) in *.
  assert (Hj : (zlen d / c) mod n = Z.of_nat j) by lia.
  unfold buffer_add. twp_steps. apply (writebuffer_wp _ _ _ b); [done |].
  rewrite Hrem. unfold uwrap. rewrite (Z.mod_small room) by lia. destruct (Z.ltb_spec (zlen v) room) as [Hlt|Hge]; unfold set_writebuffer; twp_steps.
  - rewrite swrap_small by (try lia; unfold in_sint; apply andb_true_iff; rewrite Z.leb_le, Z.ltb_lt; lia). rewrite Nat2Z.id. apply Hfit; [done | | apply moved_buffers].
    split; cbn.
    + eapply (striped_add d w j b); try done; cbn; lia.
    + rewrite Hcur, zlen_app. f_equal. apply (Z.div_unique _ c _ (zlen d mod c + zlen v)); [lia |]. pose proof (Z.div_mod (zlen d) c ltac:(lia)). lia.
    + eapply (others_kept w _ j); [done | done | | done]. intros i Hi. cbn. by rewrite list_lookup_insert_ne.
    + eexists. rewrite Ej, at_index_nat, list_lookup_insert_eq by (by eapply lookup_lt_Some). split; [done |]. cbn. rewrite !zlen_app.
      rewrite <- (Z.mod_unique (zlen d + zlen v) c (zlen d / c) (zlen d mod c + zlen v)); [lia | lia |].
      pose proof (Z.div_mod (zlen d) c ltac:(lia)). lia.
  - set (a := take _ v) in *. assert (Hla : zlen a = room) by (unfold a; rewrite length_take; lia).
    assert (Hpa : x00 ∉ a) by (unfold a; intros (i & Hi & _)%elem_of_take; apply Hv; by eapply list_elem_of_lookup_2).
    rewrite Hla, Z.sub_diag, Nat2Z.id. change (swrap 64 0) with 0. set (b1 := b <| popfile_buffer_out := _ |> <| remainingCapacity := 0 |>).
    set (w1 := w <| popfile_writebuffers := _ |>). assert (Hb1 : popfile_writebuffers w1 !! j = Some b1).
    { cbn. by rewrite list_lookup_insert_eq by (by eapply lookup_lt_Some). }
    assert (Ht1 : striped (d ++ a) w1) by (eapply (striped_add d w j b); try done; lia).
    apply (flush_buffer_wp _ (d ++ a) w1 j e b1); try done.
    { cbn. pose proof (zlen_nonneg (popfile_buffer_out b)). lia. }
    intros w' Ht' Hmoved Ecur (b' & Hb' & Eb' & _) Hsame. twp_steps. apply Hfill; [done | | transitivity w1; [apply moved_buffers | done]].
    pose proof (Z.div_mod (zlen d) c ltac:(lia)) as Ed.
    assert (Hlen : zlen (d ++ a) = (zlen d / c + 1) * c) by (rewrite zlen_app; lia).
    split; [done | | | |].
    + split; [rewrite Hlen; apply Z.mod_mul; lia |]. rewrite zlen_app. pose proof (zlen_nonneg d). lia.
    + rewrite Ecur, Hlen, Z.div_mul by lia. rewrite Z.add_simpl_r. exact Hcur.
    + eapply (others_kept w w' j); [done | by rewrite Ecur | | done]. intros i Hi. rewrite Hsame by done. cbn. by rewrite list_lookup_insert_ne.
    + exists b'. rewrite Ecur. change (popfile_current_output_buffer w1) with (popfile_current_output_buffer w). by rewrite Ej, at_index_nat.
Qed.

Lemma ask_offset_wp total (w : stream) i Q :
  offsets_known (popfile_metadata w) → 0 ≤ i < n → Q (inr c) w → wp total (ask_metadata (I := I) (get_offset_for_strip i)) Q w.
Proof.
  intros Hk Hi HQ. destruct (Hk i Hi) as (s & Hs & Ho). unfold ask_metadata, get_offset_for_strip, at_strip. twp_steps. rewrite Hs.
  twp_steps. cbn. rewrite Ho. by destruct w as [? ? ? ? ? ? ? ? ? ? ? ? [] ].
Qed.
(** The next buffer, after one that was sent. *)
Lemma next_block_wp total d w Q :
  full_at d w → (∀ w', open_at d w' → moved w w' → Q (inr ()) w') → wp total (next_block (I := I)) Q w.
Proof.
  unfold next_block. intros [Ht [Hz Hpos] Hcur Ho (b & Hb & Hout)] HQ. pose proof (l_positive Hlayout) as Hn. pose proof (l_block Hlayout) as Hc.
  destruct (place_of _ _ Hcur) as (j & e & Ej & He). rewrite Ej, at_index_nat in Hb.
  pose proof (Z.mod_pos_bound (zlen d / c - 1) n ltac:(lia)) as Hr. rewrite <- Hcur, Ej in Hr.
  twp_steps. rewrite Ej. apply ask_offset_wp; [apply (t_shape _ _ Ht) | done |].
  unfold set_capacity, set_writebuffer. twp_steps. apply (writebuffer_wp _ _ _ b); [done |]. twp_steps. rewrite Nat2Z.id.
  set (b1 := buffer_capacity c b). set (w1 := w <| popfile_writebuffers := <[j := b1]> (popfile_writebuffers w) |>).
  unfold get_next_buffer, next_of, to_int. twp_steps. change (popfile_current_output_buffer w1) with (popfile_current_output_buffer w).
  rewrite Ej, check_int_Ok by (apply in_sint32; lia). cbn [tcall]. twp_steps.
  change (popfile_strip_number w1) with (popfile_strip_number w). rewrite (s_number _ (t_shape _ _ Ht)), (proj2 (Z.eqb_neq n 0)) by lia. twp_steps.
  rewrite Z.rem_mod_nonneg by lia. set (k := if (Z.of_nat j + 1) mod n =? 0 then 0 else Z.of_nat j + 1).
  assert (Hk : k = (zlen d / c) mod n).
  { replace (zlen d / c) with ((zlen d / c - 1) + 1) by lia. rewrite <- Z.add_mod_idemp_l, <- Hcur, Ej by lia. unfold k.
    destruct (decide (Z.of_nat j + 1 = n)) as [->|E]; [by rewrite Z_mod_same_full |].
    rewrite (Z.mod_small (Z.of_nat j + 1)) by lia. by rewrite (proj2 (Z.eqb_neq _ 0)) by lia. }
  apply HQ; [|transitivity w1; [apply moved_buffers | apply moved_next]].
  assert (Hj : (j < length (popfile_writebuffers w))%nat) by (by eapply lookup_lt_Some).
  assert (Hb1 : ∀ i b', <[j := b1]> (popfile_writebuffers w) !! i = Some b' → empty_buffer b').
  { intros i b'. destruct (decide (i = j)) as [->|Hne].
    - rewrite list_lookup_insert_eq by done. by intros [= <-].
    - rewrite list_lookup_insert_ne by done. apply Ho. rewrite Ej. lia. }
  split.
  - destruct Ht as [[H1 H2 H3 H4 H5] Hp Hh]. split; [|done|].
    + destruct (shape_buffer w j b1 (Build_shape w H1 H2 H3 H4 H5)) as [G1 G2 G3 G4 G5]; [by eexists | intros; by simplify_eq | by split].
    + cbn. intros i e' b' He' Hb'. destruct (decide (i = j)) as [->|Hne].
      * rewrite list_lookup_insert_eq in Hb' by done. injection Hb' as <-. by apply (Hh j e' b).
      * rewrite list_lookup_insert_ne in Hb' by done. by apply Hh.
  - exact Hk.
  - intros i b' _. cbn. apply Hb1.
  - cbn. destruct (place_of k _ Hk) as (j' & e' & Ej' & He').
    rewrite Ej', at_index_nat. destruct (lookup_lt_is_Some_2 (<[j := b1]> (popfile_writebuffers w)) j') as [b' Hb'].
    { rewrite length_insert, (s_buffers _ (t_shape _ _ Ht)). by eapply lookup_lt_Some. }
    exists b'. destruct (Hb1 _ _ Hb') as (E1 & E2 & E3). rewrite E1, E2, E3, Hz. split_and!; [done | lia | cbn; lia | lia].
Qed.

(** A text that does not end in the word the buffers answer with. *)
Definition no_full (v : list byte) : Prop := ¬ FULL `suffix_of` v.
Lemma no_full_drop k v : no_full v → no_full (drop k v).
Proof. intros Hv [l El]. apply Hv. exists (take k v ++ l). by rewrite <- app_assoc, <- El, take_drop. Qed.
Lemma plain_drop k v : x00 ∉ v → x00 ∉ drop k v.
Proof. intros Hv Hin. apply Hv. rewrite <- (take_drop k v). apply elem_of_app. by right. Qed.
Lemma write_loop_wp fuel d w rest Q :
  full_at d w → x00 ∉ rest → no_full rest → (length rest < fuel)%nat →
  (∀ w', open_at (d ++ rest) w' → moved w w' → Q (inr ()) w') →
  wp true (write_loop (I := I) fuel (if bool_decide (rest = []) then FULL else rest)) Q w.
Proof.
  revert d w rest. induction fuel as [|fuel IH]; intros d w rest Hf Hp Hn Hl HQ; [lia |].
  cbn [write_loop]. set (r := if bool_decide (rest = []) then FULL else rest).
  assert (Hr : r ≠ []) by (unfold r; by case_bool_decide). rewrite (bool_decide_eq_false_2 (r = [])) by done.
  twp_steps. apply (next_block_wp _ d); [done |]. intros w1 Ho Hm. unfold r. clear r Hr. destruct (decide (rest = [])) as [Er|Er].
  { subst rest. rewrite !bool_decide_eq_true_2 by done. twp_steps. apply HQ; [by rewrite app_nil_r | done]. }
  rewrite (bool_decide_eq_false_2 (rest = [])) by done. rewrite (bool_decide_eq_false_2 (rest = FULL)); cycle 1. { intros ->. apply Hn. by exists []. }
  twp_steps. apply (buffer_add_wp _ d); [done | done | |].
  - intros w2 _ Ho2 Hm2. destruct fuel; cbn [write_loop]; twp_steps; (apply HQ; [done | by transitivity w1]).
  - intros w2 Hge Hf2 Hm2. set (k := Z.to_nat _) in *. pose proof (l_block Hlayout) as Hc. pose proof (Z.mod_pos_bound (zlen d) c ltac:(lia)).
    apply (IH (d ++ take k rest)); [done | by apply plain_drop | by apply no_full_drop | rewrite length_drop; unfold k; lia |].
    intros w3. rewrite <- app_assoc, take_drop. intros Ho3 Hm3. apply HQ; [done | by transitivity w2; [transitivity w1 |]].
Qed.

(** The members the output depends on. *)
Definition same_output (w w' : stream) : Prop :=
  grid w' = grid w ∧ popfile_writebuffers w' = popfile_writebuffers w ∧ popfile_current_output_buffer w' = popfile_current_output_buffer w ∧
  popfile_parallel w' = popfile_parallel w ∧ popfile_strip_number w' = popfile_strip_number w ∧ popfile_metadata w' = popfile_metadata w.
Lemma striped_same d w w' : same_output w w' → striped d w → striped d w'.
Proof.
  intros (Eg & Eb & Ec & Ep & En & Em) [[H1 H2 H3 H4 H5] Hp Hh]. split; [split| done|].
  all: rewrite ?Eg, ?Eb, ?Ep, ?En, ?Em; done.
Qed.
Lemma open_at_same d w w' : same_output w w' → open_at d w → open_at d w'.
Proof.
  intros Hs [Ht Hc Ho Hr]. pose proof Hs as (Eg & Eb & Ec & _). split; [by eapply striped_same | | |].
  - by rewrite Ec.
  - intros i b. rewrite Ec, Eb. apply Ho.
  - rewrite Ec, Eb. done.
Qed.

(** A parallel file that holds a text and can be written: the blocks written before it was opened end
    where the first capacity says. *)
Record ready (d : list byte) (w : stream) : Prop := {
  r_total : popfile_total_bytes w = zlen d;
  r_room : if popfile_first_write_pointer w =? 0 then open_at d w
    else striped d w ∧ popfile_current_output_buffer w = (zlen d / c) mod n ∧
      popfile_first_write_pointer w = c - zlen d mod c ∧ ∀ i b, popfile_writebuffers w !! i = Some b → empty_buffer b }.
(** What writing leaves as it is. *)
Definition files_kept (w w' : stream) : Prop :=
  managers (grid w') = managers (grid w) ∧ xml_files w' = xml_files w ∧ files w' = files w ∧ popfile_metadata w' = popfile_metadata w ∧
  popfile_filename w' = popfile_filename w ∧ popfile_metadata_filename w' = popfile_metadata_filename w.
Lemma moved_files w w' : moved w w' → files_kept w w'.
Proof. by intros (l & bs & i & ->). Qed.

(** Writing stripes a file. A text that is written to a parallel file, with whatever it held, is
    dealt to the strips block by block: strips, calls on their way and buffers then hold exactly the
    bytes of the longer file that are theirs, in order. Only a text that ends in "FULL" is excepted. *)
Lemma writeToBuffer_wp fuel d v w :
  ready d w → x00 ∉ v → no_full v → (length v ≤ fuel)%nat → zlen d + zlen v < 2 ^ 63 →
  wp true (popfile_writeToBuffer (I := I) fuel v) (λ r w', r = inr () ∧ ready (d ++ v) w' ∧ files_kept w w') w.
Proof.
  intros [Htot Hroom] Hv Hn Hfuel Hlen. unfold popfile_writeToBuffer. twp_steps. cbn.
  set (w0 := w <| popfile_badflag := false |>). set (start := if popfile_first_write_pointer w =? 0 then _ else _).
  assert (Hstart : wp true start (λ r w', r = inr () ∧ open_at d w' ∧ popfile_first_write_pointer w' = 0 ∧
            popfile_total_bytes w' = zlen d ∧ popfile_current_output_buffer w' = popfile_current_output_buffer w ∧ files_kept w w') w0).
  { unfold start. destruct (popfile_first_write_pointer w =? 0) eqn:Efw; reflect_bools; twp_steps.
    { split_and!; try done. by apply (open_at_same d w). }
    destruct Hroom as (Ht & Hcur & Hfw & Hempty). destruct (place_of _ _ Hcur) as (j & e & Ej & He). rewrite Ej.
    destruct (lookup_lt_is_Some_2 (popfile_writebuffers w) j) as [b Hb].
    { rewrite (s_buffers _ (t_shape _ _ Ht)). by eapply lookup_lt_Some. }
    destruct (Hempty j b Hb) as (Eo & Ec & Er). pose proof (Z.mod_pos_bound (zlen d) c ltac:(pose proof (l_block Hlayout); lia)) as Hm.
    unfold set_capacity, set_writebuffer. twp_steps. apply (writebuffer_wp _ _ _ b); [done |]. twp_steps. rewrite Nat2Z.id.
    split_and!; try done. split; cbn; [| exact Hcur | |].
    - destruct Ht as [[H1 H2 H3 H4 H5] Hp Hh]. split; [|done|].
      + destruct (shape_buffer w j (buffer_capacity (popfile_first_write_pointer w) b) (Build_shape w H1 H2 H3 H4 H5)) as [G1 G2 G3 G4 G5];
          [by eexists | intros; by simplify_eq | by split].
      + cbn. intros i e' b' He' Hb'. destruct (decide (i = j)) as [->|Hne].
        * rewrite list_lookup_insert_eq in Hb' by (by eapply lookup_lt_Some). injection Hb' as <-. by apply (Hh j e' b).
        * rewrite list_lookup_insert_ne in Hb' by done. by apply Hh.
    - intros i b' Hi Hb'. cbn in Hi, Hb'. rewrite list_lookup_insert_ne in Hb' by lia. by eapply Hempty.
    - eexists. rewrite Ej, at_index_nat, list_lookup_insert_eq by (by eapply lookup_lt_Some). split; [done |]. cbn.
      rewrite Eo, Hfw. cbn. lia. }
  eapply wp_mono; [|exact Hstart]. intros r w1 (-> & Ho & Hfw & Htot1 & Ecur & Hk). cbv beta iota.
  twp_steps. set (w2 := w1 <| popfile_total_bytes := _ |>). rewrite <- Ecur.
  assert (Ho2 : open_at d w2) by (by apply (open_at_same d w1)).
  assert (Hend : ∀ w', open_at (d ++ v) w' → moved w2 w' → ready (d ++ v) w' ∧ files_kept w w').
  { intros w' Ho' Hm. pose proof (moved_files _ _ Hm) as (K1 & K2 & K3 & K4 & K5 & K6). destruct Hk as (J1 & J2 & J3 & J4 & J5 & J6).
    split; [|by split_and!; etransitivity]. destruct Hm as (l & bs & i & ->). split; cbn.
    - rewrite Htot1, zlen_app. apply swrap_small; [lia |]. unfold in_sint. apply andb_true_iff. rewrite Z.leb_le, Z.ltb_lt.
      pose proof (zlen_nonneg d). pose proof (zlen_nonneg v). lia.
    - rewrite Hfw. exact Ho'. }
  change (popfile_current_output_buffer w1) with (popfile_current_output_buffer w2).
  apply (buffer_add_wp _ d); [done | done | |].
  - intros w3 _ Ho3 Hm3. destruct fuel; cbn [write_loop]; twp_steps; (split; [done | by apply Hend]).
  - intros w3 Hge Hf3 Hm3. set (k := Z.to_nat _) in *. pose proof (l_block Hlayout) as Hc. pose proof (Z.mod_pos_bound (zlen d) c ltac:(lia)).
    apply (write_loop_wp fuel (d ++ take k v)); [done | by apply plain_drop | by apply no_full_drop | rewrite length_drop; unfold k; lia |].
    intros w4. rewrite <- app_assoc, take_drop. intros Ho4 Hm4. split; [done |]. apply Hend; [done | by transitivity w3].
Qed.

(** ** Closing *)

(** A buffer's room and content make its capacity. *)
Definition buffers_fit (w : stream) : Prop :=
  ∀ i b, popfile_writebuffers w !! i = Some b → capacity b = remainingCapacity b + zlen (popfile_buffer_out b).
Lemma ready_fit d w : ready d w → buffers_fit w ∧ striped d w ∧ popfile_current_output_buffer w = (zlen d / c) mod n.
Proof.
  intros [_ Hr]. destruct (_ =? 0).
  - destruct Hr as [Ht Hc Ho (b & Hb & _ & Hcap & _)]. split_and!; [|done..]. intros i b' Hb'.
    destruct (decide (Z.of_nat i = popfile_current_output_buffer w)) as [E|E].
    + rewrite <- E, at_index_nat in Hb. by simplify_eq.
    + destruct (Ho i b' E Hb') as (-> & -> & ->). cbn. lia.
  - destruct Hr as (Ht & Hc & _ & He). split_and!; [|done..]. intros i b Hb. destruct (He i b Hb) as (-> & -> & ->). cbn. lia.
Qed.
Lemma flush_buffers_wp k i d w Q :
  striped d w → buffers_fit w → (i + k = length places)%nat →
  (∀ j b, (j < i)%nat → popfile_writebuffers w !! j = Some b → popfile_buffer_out b = []) →
  (∀ w', striped d w' → moved w w' → popfile_current_output_buffer w' = popfile_current_output_buffer w →
     (∀ j b, popfile_writebuffers w' !! j = Some b → popfile_buffer_out b = []) → Q (inr ()) w') →
  wp true (flush_buffers (I := I) k (Z.of_nat i)) Q w.
Proof.
  revert i w. induction k as [|k IH]; intros i w Ht Hfit Hk Hdone HQ; cbn [flush_buffers].
  { twp_steps. apply HQ; [done.. |]. intros j b Hb. apply (Hdone j b); [|done]. rewrite Nat.add_0_r in Hk. rewrite Hk, <- (s_buffers _ (t_shape _ _ Ht)). by eapply lookup_lt_Some. }
  destruct (lookup_lt_is_Some_2 places i) as [e He]; [lia |].
  destruct (lookup_lt_is_Some_2 (popfile_writebuffers w) i) as [b Hb]; [rewrite (s_buffers _ (t_shape _ _ Ht)); lia |].
  pose proof (Hfit i b Hb) as Hcap. pose proof (zlen_nonneg (popfile_buffer_out b)). replace (Z.of_nat i + 1) with (Z.of_nat (S i)) by lia. twp_steps.
  destruct (decide (popfile_buffer_out b = [])) as [E|E].
  - unfold flush_buffer. twp_steps. apply (writebuffer_wp _ _ _ b); [done |]. rewrite E in Hcap. cbn in Hcap.
    rewrite (proj2 (Z.ltb_ge _ _)) by lia. twp_steps. apply IH; [done | done | lia | |done].
    intros j b' Hj Hb'. destruct (decide (j = i)) as [->|]; [by simplify_eq |]. apply (Hdone j b'); [lia | done].
  - apply (flush_buffer_wp _ d w i e b); [done | done | done | |].
    { destruct (popfile_buffer_out b); [done | cbn [length] in *; lia]. }
    intros w1 Ht1 Hm1 Ec1 (b1 & Hb1 & Eo1 & Ecap1 & Er1) Hsame. apply IH; [done | | lia | |].
    + intros j b' Hb'. destruct (decide (j = i)) as [->|Hne]; [|rewrite Hsame in Hb' by done; by eapply Hfit].
      assert (b' = b1) as -> by congruence. rewrite Eo1. cbn. lia.
    + intros j b' Hj Hb'. destruct (decide (j = i)) as [->|Hne]; [congruence |]. rewrite Hsame in Hb' by done. apply (Hdone j b'); [lia | done].
    + intros w2 Ht2 Hm2 Ec2. apply HQ; [done | by transitivity w1 | by rewrite Ec2].
Qed.

(** The metadata of the strips. *)
Definition described (l : MetaDataStripMap) : Prop :=
  length l = length places ∧ ∀ i e, places !! i = Some e → ∃ s ip port, l !! i = Some (Z.of_nat i, s) ∧ strip_identifier s = Z.of_nat i ∧
    strip_offset s = c ∧ strip_name s = e.2 ∧ is_Some (strip_is_local s) ∧ accesspoint_ip_address (strip_accesspoint s) = ip ∧
    accesspoint_port (strip_accesspoint s) = port ∧ in_sint 32 port = true ∧ ip ≠ NULL_text ∧ e.1 = string_bytes "socket://" ++ ip ++ x3a :: decimal port.
Lemma described_lookup l i k s : described l → l !! i = Some (k, s) → k = Z.of_nat i ∧ strip_ok (k, s) ∧ strip_offset s = c.
Proof.
  intros [Hl Hd] Hi. destruct (lookup_lt_is_Some_2 places i) as [e He]; [rewrite <- Hl; by eapply lookup_lt_Some |].
  destruct (Hd i e He) as (s' & ip & port & Hi' & Eid & Eo & _ & Hloc & _ & Ep & Hp & _). rewrite Hi in Hi'. injection Hi' as -> ->.
  pose proof (l_number Hlayout). pose proof (l_positive Hlayout). pose proof (l_block Hlayout). apply lookup_lt_Some in He.
  split_and!; [done | | done]. unfold strip_ok. cbn. rewrite Eid, Eo, Ep. split_and!; try done.
  - apply in_sint32. lia.
  - unfold in_sint. apply andb_true_iff. rewrite Z.leb_le, Z.ltb_lt. lia.
Qed.
Lemma increasing_keys (l : MetaDataStripMap) a : (∀ i e, l !! i = Some e → e.1 = Z.of_nat (a + i)) → StronglySorted Z.lt l.*1.
Proof.
  revert a. induction l as [|x l IH]; intros a Ha; cbn; constructor.
  - apply (IH (S a)). intros i e Hi. rewrite (Ha (S i) e Hi). lia.
  - apply Forall_fmap, Forall_lookup_2. intros i e Hi. cbn. rewrite (Ha 0%nat x eq_refl), (Ha (S i) e Hi). lia.
Qed.
Lemma described_ok l : described l → Forall strip_ok l ∧ StronglySorted Z.lt l.*1.
Proof.
  intros Hd. split.
  - apply Forall_lookup_2. intros i [k s] Hi. apply (described_lookup l i k s Hd Hi).
  - apply (increasing_keys l 0). intros i [k s] Hi. by destruct (described_lookup l i k s Hd Hi) as [-> _].
Qed.
Lemma find_key (l : MetaDataStripMap) a i e : (∀ i e, l !! i = Some e → e.1 = Z.of_nat (a + i)) → l !! i = Some e →
  List.find (λ e, e.1 =? Z.of_nat (a + i)) l = Some e.
Proof.
  revert a i. induction l as [|x l IH]; intros a i Ha Hi; [done |]. cbn [List.find]. rewrite (Ha 0%nat x eq_refl).
  destruct i as [|i]; [injection Hi as ->; by rewrite Z.eqb_refl |]. rewrite (proj2 (Z.eqb_neq _ _)) by lia.
  replace (a + S i)%nat with (S a + i)%nat by lia. apply IH; [|done]. intros j y Hj. rewrite (Ha (S j) y Hj). lia.
Qed.
Lemma described_find l i e : described l → places !! i = Some e → ∃ s ip port, List.find (λ e, e.1 =? Z.of_nat i) l = Some (Z.of_nat i, s) ∧
  strip_offset s = c ∧ strip_name s = e.2 ∧ accesspoint_ip_address (strip_accesspoint s) = ip ∧
  accesspoint_port (strip_accesspoint s) = port ∧ e.1 = string_bytes "socket://" ++ ip ++ x3a :: decimal port.
Proof.
  intros Hd He. destruct (proj2 Hd i e He) as (s & ip & port & Hi & _ & Ho & Hn & _ & Eip & Ep & _ & _ & Ee).
  exists s, ip, port. split; [|done]. rewrite <- (Nat.add_0_l i). apply find_key; [|done].
  intros j [k s'] Hj. by destruct (described_lookup l j k s' Hd Hj) as [-> _].
Qed.
Lemma described_offsets m : described (meta_strips m) → offsets_known m.
Proof.
  intros Hd i Hi. pose proof (l_number Hlayout). destruct (lookup_lt_is_Some_2 places (Z.to_nat i)) as [e He]; [lia |].
  destruct (described_find _ _ e Hd He) as (s & ip & port & Hf & Ho & _). rewrite Z2Nat.id in Hf by lia. by exists s.
Qed.
Lemma save_described l : described l → is_Some (save_strips l).
Proof.
  intros Hd. apply described_ok in Hd as [Hok _]. unfold save_strips. induction Hok as [|[k s] l Hs Hl IH]; [by eexists |].
  cbn [map_option snd]. destruct Hs as (_ & [b Hb] & _). cbn in Hb. rewrite Hb. cbn. destruct IH as [ys ->]. by eexists.
Qed.
(** No address of a strip is the text NULL, so that the strips are read back as they were. *)
Lemma described_reloaded l : described l → described (prod_map id reloaded <$> l).
Proof.
  intros [Hl Hd]. split; [by rewrite length_fmap |]. intros i e He. destruct (Hd i e He) as (s & ip & port & Hi & Eid & Eo & En & Hloc & Eip & Ep & Hp & Hip & Ee).
  assert (Hi' : (prod_map id reloaded <$> (l : list (Z * MetaDataStrip))) !! i = Some (Z.of_nat i, reloaded s)) by (unfold MetaDataStripMap in *; by rewrite list_lookup_fmap, Hi).
  exists (reloaded s), ip, port. split_and!; try done. cbn. unfold from_NULL. rewrite Eip. by rewrite bool_decide_eq_false_2.
Qed.

(** ** A closed file *)

(** What is kept of a file: the document, which is read back as its metadata, and the strips. *)
Record stored (reread : list xml → option (list xml)) (d : list byte) (name : chars) (g : grid_files) (xs : gmap chars (list xml)) : Prop := {
  k_document : ∃ doc m, xs !! metadata_file name = Some doc ∧ described (meta_strips m) ∧ meta_plain m ∧
    info_ending_pointer (meta_info m) = zlen d ∧ info_ending_strip (meta_info m) = (zlen d / c) mod n ∧
    ∀ m0, ∃ o, load (reread doc) m0 = Ok (true, MkMeta (meta_info m) (meta_strips m) true o);
  k_plain : x00 ∉ d;
  k_calls : in_flight g = [];
  k_managers : ∀ e, e ∈ places → is_Some (managers g !! e.1);
  k_strips : ∀ i e, places !! i = Some e → content g e.1 e.2 = stripe n c (Z.of_nat i) d }.
Definition closed (w : stream) : Prop := popfile_init w = w.
(** The calls for a strip are executed in the order they were made. *)
Definition in_order (l l' : list write_call) : Prop := ∀ e, e ∈ places → calls_to e.1 e.2 l' = calls_to e.1 e.2 l.
Lemma close_stores reread d name w :
  rereads reread → ready d w → popfile_metadata_filename w = metadata_file name → described (meta_strips (popfile_metadata w)) →
  meta_plain (popfile_metadata w) → (∀ e, e ∈ places → is_Some (managers (grid w) !! e.1)) → zlen d < 2 ^ 30 →
  wp true (close (I := I)) (λ r w', r = inr () ∧ closed w' ∧
    (∀ ap, is_Some (managers (grid w) !! ap) → is_Some (managers (grid w') !! ap)) ∧ files w' = files w ∧
    ∀ g' l, delivered may_write (grid w') g' l → in_order (in_flight (grid w')) l → stored reread d name g' (xml_files w')) w.
Proof.
  intros Hre Hr Hname Hd Hplain Hman Hlen. destruct (ready_fit d w Hr) as (Hfit & Ht & Hcur).
  unfold close, flush. twp_steps. rewrite (s_parallel _ (t_shape _ _ Ht)). twp_steps. rewrite (s_number _ (t_shape _ _ Ht)), (l_number Hlayout), Nat2Z.id.
  change 0 with (Z.of_nat 0). apply (flush_buffers_wp (length places) 0 d); [done | done | done | lia |].
  intros w1 Ht1 Hm1 Ecur Hout. pose proof (moved_files _ _ Hm1) as (K1 & K2 & K3 & K4 & K5 & K6).
  assert (Htot : popfile_total_bytes w1 = zlen d) by (destruct Hm1 as (? & ? & ? & ->); apply Hr).
  rewrite Hname in K6. twp_steps. rewrite K4, Ecur, Htot. set (m := set_ending_strip _ _).
  unfold save. change (meta_strips m) with (meta_strips (popfile_metadata w)).
  destruct (save_described _ Hd) as [xs Hxs]. rewrite Hxs. cbn [tcall]. twp_steps. set (doc := [Declaration; _; _]).
  split_and!; [done | done | | done |].
  - intros ap Hap. cbn. by rewrite K1.
  - intros g' l Hdel Hord. cbn in Hdel, Hord |- *.
    assert (Hsave : save m = Ok (doc, m <| meta_loaded := false |> <| meta_strips := [] |>)).
    { unfold save. change (meta_strips m) with (meta_strips (popfile_metadata w)). by rewrite Hxs. }
    assert (Hmo : meta_ok m).
    { destruct (described_ok _ Hd) as [Hok Hsort]. pose proof (zlen_nonneg d). pose proof (l_positive Hlayout).
      split; [exact Hok | exact Hsort | |]; cbn.
      - unfold in_sint. apply andb_true_iff. rewrite Z.leb_le, Z.ltb_lt. lia.
      - apply in_sint32. rewrite Hcur. pose proof (Z.mod_pos_bound (zlen d / c) n ltac:(lia)). lia. }
    split.
    + exists doc, (m <| meta_strips := prod_map id reloaded <$> meta_strips m |>).
      split_and!; [rewrite K6; apply lookup_insert_eq | by apply described_reloaded | by apply meta_plain_reloaded | done | by cbn; rewrite Hcur |].
      intros m0. rewrite (Hre m doc _ Hplain Hsave), (load_save m doc _ m0 Hmo Hsave). by eexists.
    + apply Ht1.
    + clear -Hdel. by induction Hdel.
    + intros e He. destruct (Hman e He) as [x Hx]. assert (Hx1 : is_Some (managers (grid w1) !! e.1)) by (rewrite K1, Hx; by eexists).
      clear -Hdel Hx1. induction Hdel as [|k call g g' l Hk _ IH]; [done |]. apply IH. by apply deliver_managers.
    + intros i e He. assert (Hin : e ∈ places) by (by eapply list_elem_of_lookup_2).
      destruct (delivered_content may_write _ _ _ e.1 e.2 Hdel) as [_ ->]; [rewrite K1; by apply Hman |].
      unfold received. rewrite (Hord e Hin). destruct (lookup_lt_is_Some_2 (popfile_writebuffers w1) i) as [b Hb].
      { rewrite (s_buffers _ (t_shape _ _ Ht1)). by eapply lookup_lt_Some. }
      rewrite <- (t_holds _ _ Ht1 i e b He Hb), (Hout i b Hb), app_nil_r. done.
Qed.

(** ** Opening *)

Lemma ask_same_wp {A : Type} total (w : stream) (f : POPFileMetaData → A * POPFileMetaData) a Q :
  f (popfile_metadata w) = (a, popfile_metadata w) → Q (inr a) w → wp total (ask_metadata (I := I) f) Q w.
Proof.
  intros E HQ. unfold ask_metadata. twp_steps. rewrite E. twp_steps. by replace (w <| popfile_metadata := popfile_metadata w |>) with w by (by destruct w).
Qed.
Lemma strip_answers m i e : described (meta_strips m) → places !! i = Some e →
  get_accessstring_for_strip (Z.of_nat i) m = (e.1, m) ∧ get_filepath_for_strip (Z.of_nat i) m = (e.2, m) ∧ get_offset_for_strip (Z.of_nat i) m = (c, m).
Proof.
  intros Hd He. destruct (described_find _ _ e Hd He) as (s & ip & port & Hf & Ho & Hn & Hip & Hport & Ee).
  unfold get_accessstring_for_strip, get_filepath_for_strip, get_offset_for_strip, at_strip. rewrite Hf. cbv beta iota. cbn [snd].
  rewrite Hip, Hport, Ho, Hn, <- Ee. by replace (m <| meta_strips := meta_strips m |>) with m by (by destruct m).
Qed.
Lemma to_long_wp total z w (Q : exc I + Z → stream → Prop) : - 2 ^ 63 ≤ z < 2 ^ 63 → Q (inr z) w → wp total (to_long (I := I) z) Q w.
Proof.
  intros Hz HQ. unfold to_long. assert (E : in_sint 64 z = true) by (unfold in_sint; apply andb_true_iff; rewrite Z.leb_le, Z.ltb_lt; lia).
  rewrite E. unfold tneed. by wp_steps.
Qed.
Lemma bind_manager_wp total unreachable (w : stream) ap Q :
  is_Some (managers (grid w) !! ap) → (∀ m, Q (inr m) w) → wp total (on_grid (I := I) (bind_manager unreachable ap)) Q w.
Proof.
  intros [m Hm] HQ. unfold wp, on_grid. assert (E : bind_manager (I := I) unreachable ap (grid w) = Some (Ok (inr m, grid w))).
  { unfold bind_manager. rewrite (tbind_eq _ _ (grid w) (grid w) (grid w)) by done. by rewrite Hm. }
  rewrite E. replace (w <| grid := grid w |>) with w by (by destruct w). apply HQ.
Qed.
Definition opened_buffer (e : chars * chars) (b : POPFileBuffer) : Prop :=
  empty_buffer b ∧ stripPath b = e.2 ∧ associatedPFM b = Some e.1.
Lemma open_buffers_wp unreachable l i w Q :
  described (meta_strips (popfile_metadata w)) → drop i (meta_strips (popfile_metadata w)) = l → (i + length l = length places)%nat →
  (∀ e, e ∈ places → is_Some (managers (grid w) !! e.1)) → is_Some (managers (grid w) !! pfm_ap w) →
  popfile_strip_number w = Z.of_nat i → length (popfile_writebuffers w) = length places →
  (∀ j b, popfile_writebuffers w !! j = Some b → popfile_buffer_out b = []) →
  (∀ j e b, (j < i)%nat → places !! j = Some e → popfile_writebuffers w !! j = Some b → opened_buffer e b) →
  (∀ bs, length bs = length places → (∀ j e b, places !! j = Some e → bs !! j = Some b → opened_buffer e b) →
     Q (inr ()) (w <| popfile_writebuffers := bs |> <| popfile_strip_number := n |>)) →
  wp true (open_buffers (I := I) unreachable l (Z.of_nat i)) Q w.
Proof.
  revert i w. induction l as [|[k s] l IH]; intros i w Hd Hl Hil Hman Hloc Hn Hlen Hout Hdone HQ; cbn [open_buffers].
  { twp_steps. cbn in Hil. specialize (HQ (popfile_writebuffers w) Hlen).
    replace (w <| popfile_writebuffers := popfile_writebuffers w |> <| popfile_strip_number := n |>) with w in HQ; cycle 1.
    { pose proof (l_number Hlayout) as E. rewrite <- Hil, Nat.add_0_r, <- Hn in E. rewrite E. by destruct w. }
    apply HQ. intros j e b He. apply Hdone; [|done]. apply lookup_lt_Some in He. lia. }
  assert (Hs : meta_strips (popfile_metadata w) !! i = Some (k, s)).
  { pose proof (lookup_drop (meta_strips (popfile_metadata w)) i 0) as E. rewrite Nat.add_0_r, Hl in E. symmetry. exact E. }
  destruct (lookup_lt_is_Some_2 places i) as [e He]; [cbn in Hil; lia |].
  destruct (proj2 Hd i e He) as (s' & ip & port & Hs' & Eid & Eo & En & _). rewrite Hs in Hs'. injection Hs' as -> <-.
  destruct (lookup_lt_is_Some_2 (popfile_writebuffers w) i) as [b Hb]; [apply lookup_lt_Some in He; lia |].
  rewrite Eid, Eo, En. destruct (strip_answers _ _ e Hd He) as (Hap & _ & _).
  twp_steps. eapply ask_same_wp; [exact Hap |]. twp_steps. apply (writebuffer_wp _ _ _ b); [done |].
  twp_steps. apply bind_manager_wp; [apply Hman; by eapply list_elem_of_lookup_2 |]. intros _. twp_steps.
  apply bind_manager_wp; [done |]. intros _. unfold set_writebuffer, to_int. twp_steps. rewrite Nat2Z.id. cbn [popfile_strip_number].
  match goal with |- context [<[i := ?x]> (popfile_writebuffers w)] => set (b1 := x) end.
  set (w1 := w <| popfile_writebuffers := _ |>). change (popfile_strip_number w1) with (popfile_strip_number w).
  pose proof (l_number Hlayout). pose proof (l_positive Hlayout). pose proof He as Hlt. apply lookup_lt_Some in Hlt.
  rewrite Hn, check_int_Ok by (apply in_sint32; lia). cbn [tcall]. twp_steps. replace (Z.of_nat i + 1) with (Z.of_nat (S i)) by lia.
  assert (Hb1 : opened_buffer e b1).
  { split; [split_and!; [by apply (Hout i b Hb) | done | done] | split; [|done]].
    apply before_nul_plain, (l_paths Hlayout). by eapply list_elem_of_lookup_2. }
  assert (Hlt' : (i < length (popfile_writebuffers w))%nat) by (rewrite Hlen; done).
  apply (IH (S i)); cbn; try done.
  - replace (S i) with (i + 1)%nat by lia. rewrite <- (drop_drop _ 1 i). rewrite Hl. done.
  - cbn in Hil. lia.
  - by rewrite length_insert.
  - intros j b' Hb'. destruct (decide (j = i)) as [->|]; [rewrite list_lookup_insert_eq in Hb' by done; injection Hb' as <-; apply Hb1 |].
    rewrite list_lookup_insert_ne in Hb' by done. by eapply Hout.
  - intros j e' b' Hj He' Hb'. destruct (decide (j = i)) as [->|].
    + rewrite list_lookup_insert_eq in Hb' by done. injection Hb' as <-. assert (e' = e) as -> by congruence. done.
    + rewrite list_lookup_insert_ne in Hb' by done. eapply Hdone; [|done..]. lia.
Qed.

(** A reader of a strip that has given all it fetched. *)
Definition idle_reader (e : chars * chars) (r : POPFileReader) : Prop :=
  popfile_buffer_in r = [] ∧ put_at r = O ∧ pfm_ref r = Some e.1 ∧ strip_path r = e.2.
(** An open file of which [j] blocks have been read, by [k] readings. *)
Record reading (d : list byte) (j k : Z) (w : stream) : Prop := {
  g_parallel : popfile_parallel w = true;
  g_loaded : meta_loaded (popfile_metadata w) = true;
  g_number : popfile_strip_number w = n;
  g_offset : popfile_offset w = c;
  g_reader : popfile_current_reader w = j mod n;
  g_position : popfile_current_reader_offset w = j / n * c;
  g_pointer : popfile_internal_read_pointer w = 0;
  g_grip : popfile_current_grip w = k ∧ popfile_served_grip w = k;
  g_described : described (meta_strips (popfile_metadata w));
  g_managers : ∀ e, e ∈ places → is_Some (managers (grid w) !! e.1);
  g_plain : x00 ∉ d;
  g_contents : ∀ i e, places !! i = Some e → content (grid w) e.1 e.2 = stripe n c (Z.of_nat i) d;
  g_readers : ∀ l, popfile_reader_ref w = Some l → length l = length places ∧ ∀ i e r, places !! i = Some e → l !! i = Some r → idle_reader e r }.

Lemma open_stored unreachable can_open reread d name w :
  closed w → stored reread d name (grid w) (xml_files w) → is_Some (managers (grid w) !! POPFILE_POPFILEMANAGER_LOCAL) →
  zlen d < 2 ^ 62 →
  wp true (open (I := I) unreachable can_open reread name) (λ r w', r = inr () ∧ ready d w' ∧ reading d 0 0 w' ∧
    popfile_filename w' = name ∧ popfile_metadata_filename w' = metadata_file name ∧
    meta_plain (popfile_metadata w') ∧
    grid w' = grid w ∧ files w' = files w ∧ xml_files w' = xml_files w) w.
Proof.
  intros Hc [(doc & m & Hdoc & Hd & Hmp & Hptr & Hend & Hload) Hplain Hcalls Hman Hstrips] Hloc Hlen.
  unfold closed in Hc. assert (Eo : popfile_open w = false) by by rewrite <- Hc. unfold open. twp_steps. rewrite Eo. clear Eo. twp_steps.
  unfold popfile_try_open_parallel. twp_steps. cbn [popfile_metadata_filename popfile_init_filename xml_files].
  set (w1 := popfile_init_filename name w). change (xml_files w1 !! popfile_metadata_filename w1) with (xml_files w !! metadata_file name).
  rewrite Hdoc. destruct (Hload (popfile_metadata w1)) as [o Eo]. twp_steps. rewrite Eo. cbn [tcall]. twp_steps.
  set (w2 := w1 <| popfile_metadata := _ |> <| popfile_writebuffers := _ |>). cbn [meta_strips meta_info].
  pose proof (l_number Hlayout) as Hn. pose proof (l_positive Hlayout) as Hpos. pose proof (l_block Hlayout) as Hcb.
  assert (Hcount : Z.to_nat (get_strips_count (MkMeta (meta_info m) (meta_strips m) true o)) = length places).
  { unfold get_strips_count. cbn. rewrite (proj1 Hd), swrap_small by (try lia; apply in_sint32; lia). lia. }
  change 0 with (Z.of_nat 0). apply (open_buffers_wp unreachable (meta_strips m) 0 w2).
  - done.
  - done.
  - apply Hd.
  - done.
  - change (pfm_ap w2) with (pfm_ap w). rewrite <- Hc. exact Hloc.
  - change (popfile_strip_number w2) with (popfile_strip_number w). by rewrite <- Hc.
  - cbn. by rewrite length_replicate, Hcount.
  - cbn. intros j b Hb. apply lookup_replicate_1 in Hb as [-> _]. done.
  - intros j e b Hj. lia.
  - intros bs Hbs Hopened. change (Z.of_nat 0) with 0. twp_steps.
    pose proof (Z.mod_pos_bound (zlen d) c ltac:(lia)) as Hm. pose proof (zlen_nonneg d) as H0.
    destruct (lookup_lt_is_Some_2 places 0) as [e0 He0]; [lia |].
    match goal with |- wp _ _ _ ?x => set (w3 := x) end.
    destruct (strip_answers (popfile_metadata w3) 0 e0 Hd He0) as (_ & _ & Ho0).
    apply (ask_same_wp _ w3 _ c); [exact Ho0 |]. twp_steps. rewrite Hend, Hptr.
    match goal with |- wp _ _ _ ?x => set (w4 := x) end.
    destruct (place_of _ _ eq_refl : ∃ j e, (zlen d / c) mod n = Z.of_nat j ∧ places !! j = Some e) as (j & e & Ej & He). rewrite Ej.
    destruct (strip_answers (popfile_metadata w4) j e Hd He) as (_ & _ & Hoj).
    apply (ask_same_wp _ w4 _ c); [exact Hoj |]. rewrite (proj2 (Z.eqb_neq c 0)), Z.rem_mod_nonneg by lia. twp_steps.
    apply to_long_wp; [lia |]. twp_steps.
    unfold w4, w3, w2, w1. split_and!; try done.
    + split; [done |]. cbn. rewrite (proj2 (Z.eqb_neq _ 0)) by lia.
      assert (Hshape : ∀ i b, bs !! i = Some b → ∃ e, places !! i = Some e ∧ opened_buffer e b).
      { intros i b Hb. destruct (lookup_lt_is_Some_2 places i) as [e' He']; [rewrite <- Hbs; by eapply lookup_lt_Some |].
        exists e'. split; [done |]. by eapply Hopened. }
      split_and!; [split; [split | done |] | done | done |].
      * done.
      * done.
      * exact Hbs.
      * intros i e' b He' Hb. by destruct (Hopened i e' b He' Hb) as [_ ?].
      * apply described_offsets. exact Hd.
      * intros i e' b He' Hb. destruct (Hopened i e' b He' Hb) as [(Eb & _) _]. unfold sent, received, calls_to.
        change (in_flight _) with (in_flight (grid w)). rewrite Hcalls, Eb. cbn. rewrite (l_may Hlayout e') by (by eapply list_elem_of_lookup_2).
        rewrite !app_nil_r. by apply Hstrips.
      * intros i b Hb. destruct (Hshape i b Hb) as (e' & _ & H & _). exact H.
    + split; try done; cbn.
      * rewrite <- Hc. cbn. by rewrite Zmod_0_l.
      * rewrite <- Hc. cbn. by rewrite Zdiv_0_l.
      * by rewrite <- Hc.
      * by rewrite <- Hc.
      * rewrite <- Hc. done.
Qed.

(** ** Reading *)

Lemma reader_wp total (w : stream) l i r (Q : exc I + POPFileReader → stream → Prop) :
  popfile_reader_ref w = Some l → l !! i = Some r → Q (inr r) w → wp total (reader (I := I) (Z.of_nat i)) Q w.
Proof. intros Hl Hr HQ. unfold reader, readers_of, tneed. twp_steps. rewrite Hl. cbn. rewrite at_index_nat, Hr. by wp_steps. Qed.
Definition idle_readers (l : list POPFileReader) : Prop :=
  length l = length places ∧ ∀ i e r, places !! i = Some e → l !! i = Some r → idle_reader e r.
Lemma init_readers_wp unreachable k i l (w : stream) (Q : exc I + () → stream → Prop) :
  described (meta_strips (popfile_metadata w)) → (∀ e, e ∈ places → is_Some (managers (grid w) !! e.1)) →
  popfile_reader_ref w = Some l → length l = length places → (i + k = length places)%nat →
  (∀ j r, l !! j = Some r → popfile_buffer_in r = [] ∧ put_at r = O) →
  (∀ j e r, (j < i)%nat → places !! j = Some e → l !! j = Some r → idle_reader e r) →
  (∀ l', idle_readers l' → Q (inr ()) (w <| popfile_reader_ref := Some l' |>)) →
  wp true (init_readers (I := I) unreachable k (Z.of_nat i)) Q w.
Proof.
  revert i l w. induction k as [|k IH]; intros i l w Hd Hman Hl Hlen Hik Hempty Hdone HQ; cbn [init_readers].
  { twp_steps. replace w with (w <| popfile_reader_ref := Some l |>) by (rewrite <- Hl; by destruct w). apply HQ. split; [done |].
    intros j e r He. apply Hdone; [|done]. apply lookup_lt_Some in He. lia. }
  destruct (lookup_lt_is_Some_2 places i) as [e He]; [lia |]. destruct (lookup_lt_is_Some_2 l i) as [r Hr]; [lia |].
  destruct (strip_answers _ _ e Hd He) as (Hap & Hpath & Hoff). destruct (Hempty i r Hr) as [Ein Eput].
  twp_steps. apply (ask_same_wp _ _ _ e.1); [done |]. twp_steps. apply bind_manager_wp; [apply Hman; by eapply list_elem_of_lookup_2 |].
  intros _. twp_steps. apply (ask_same_wp _ _ _ e.2); [done |]. twp_steps. apply (ask_same_wp _ _ _ c); [done |].
  twp_steps. apply (reader_wp _ _ l i r); [done.. |]. unfold set_reader. twp_steps. rewrite Nat2Z.id.
  replace (Z.of_nat i + 1) with (Z.of_nat (S i)) by lia.
  match goal with |- wp _ _ _ ?x => set (w1 := x) end. set (r1 := r <| pfm_ref := _ |> <| strip_path := _ |> <| reader_capacity := _ |>) in w1.
  assert (Hl1 : popfile_reader_ref w1 = Some (<[i := r1]> l)) by (unfold w1; cbn; by rewrite Hl).
  assert (Hi : (i < length l)%nat) by lia.
  apply (IH (S i) (<[i := r1]> l)); [done | done | done | by rewrite length_insert | lia | | |].
  - intros j r' Hj. destruct (decide (j = i)) as [->|]; [rewrite list_lookup_insert_eq in Hj by done; by injection Hj as <- |].
    rewrite list_lookup_insert_ne in Hj by done. by eapply Hempty.
  - intros j e' r' Hji He' Hj. destruct (decide (j = i)) as [->|].
    + rewrite list_lookup_insert_eq in Hj by done. injection Hj as <-. assert (e' = e) as -> by congruence. done.
    + rewrite list_lookup_insert_ne in Hj by done. eapply Hdone; [|done..]. lia.
  - intros l' Hl'. unfold w1. cbn. apply HQ. done.
Qed.
Lemma make_readers_wp unreachable d j k w (Q : exc I + () → stream → Prop) :
  reading d j k (w <| popfile_internal_read_pointer := 0 |>) → (∀ l, idle_readers l → Q (inr ()) (w <| popfile_reader_ref := Some l |>)) →
  wp true (make_readers (I := I) unreachable) Q w.
Proof.
  intros Hg HQ. unfold make_readers. twp_steps. destruct (popfile_reader_ref w) as [l|] eqn:El; twp_steps.
  - replace w with (w <| popfile_reader_ref := Some l |>) by (rewrite <- El; by destruct w). apply HQ. by apply (g_readers _ _ _ _ Hg).
  - rewrite (g_number _ _ _ _ Hg : popfile_strip_number w = n), (l_number Hlayout), Nat2Z.id. change 0 with (Z.of_nat 0).
    apply (init_readers_wp unreachable _ 0 (replicate (length places) POPFileReader_new)); [apply Hg | apply Hg | done | by rewrite length_replicate | done | | |].
    + intros i r Hr. by apply lookup_replicate_1 in Hr as [-> _].
    + intros i e r Hi. lia.
    + intros l Hl. cbn. by apply HQ.
Qed.

Lemma tneed_wp {A : Type} total (o : option A) a (w : stream) (Q : exc I + A → stream → Prop) :
  o = Some a → Q (inr a) w → wp total (tneed (I := I) o) Q w.
Proof. intros -> HQ. unfold tneed. by wp_steps. Qed.
(** What a reader that has fetched a block holds. *)
Definition fetched (block : list byte) (r : POPFileReader) : POPFileReader := r <| popfile_buffer_in := block |> <| put_at := length block |>.
Definition block_of (d : list byte) (j x : Z) : list byte := take (Z.to_nat x) (drop (Z.to_nat (j * c)) d).
Lemma block_plain d j x : x00 ∉ d → x00 ∉ block_of d j x.
Proof. intros Hd (i & Hi & _)%elem_of_take. rewrite lookup_drop in Hi. apply Hd. by eapply list_elem_of_lookup_2. Qed.
Lemma block_length d j x : 0 ≤ j → 0 ≤ x → j * c + x ≤ zlen d → zlen (block_of d j x) = x.
Proof. intros Hj Hx Hd. pose proof (l_block Hlayout). unfold block_of. rewrite length_take, length_drop. nia. Qed.
Lemma read_strip_block unreachable d g i e j x :
  (∀ i e, places !! i = Some e → content g e.1 e.2 = stripe n c (Z.of_nat i) d) → is_Some (managers g !! e.1) → x00 ∉ d → zlen d < 2 ^ 30 →
  places !! i = Some e → j mod n = Z.of_nat i → 0 ≤ j → 0 < x ≤ c → j * c + x ≤ zlen d →
  readFromStrip (I := I) unreachable e.1 e.2 (j / n * c) x g = Some (Ok (inr (block_of d j x), g)).
Proof.
  intros Hcont [m Hm] Hp Hlen He Hj Hj0 Hx Hd. pose proof (l_positive Hlayout) as Hn. pose proof (l_block Hlayout) as Hc.
  unfold readFromStrip, bind_manager. rewrite (tbind_eq _ _ g m g); cycle 1. { rewrite (tbind_eq _ _ g g g) by done. by rewrite Hm. }
  destruct (stripe_block n c j x d) as (front & rest & Es & Hfront); [lia.. |]. fold (block_of d j x) in Es.
  pose proof (Hcont i e He) as Hs. unfold content in Hs. rewrite Hm, <- Hj, Es in Hs.
  pose proof (block_length d j x Hj0 ltac:(lia) Hd) as Hb. pose proof (zlen_nonneg front). pose proof (zlen_nonneg rest).
  set (s := front ++ block_of d j x ++ rest) in *. assert (Hsl : zlen s = zlen front + x + zlen rest) by (unfold s; rewrite !zlen_app, Hb; lia).
  assert (Hsome : strips m !! e.2 = Some s).
  { destruct (strips m !! e.2) as [s'|]; cbn in Hs; [by rewrite Hs |]. rewrite <- Hs in Hsl. cbn in Hsl. lia. }
  assert (Hnul : x00 ∉ s) by (rewrite <- Es; by apply stripe_plain).
  assert (Hsmall : zlen s ≤ zlen d).
  { rewrite <- Es. clear. unfold stripe. generalize 0 as p. induction d as [|b d IH]; intros p; [done |]. rewrite stripe_from_cons, zlen_app. specialize (IH (p + 1)).
    unfold in_stripe. cbn [length]. destruct (_ =? _); cbn [length]; lia. }
  rewrite (readFromStrip_exact e.2 s (j / n * c) x m Hsome Hnul) by lia. rewrite (proj2 (Z.leb_le _ _)) by lia.
  cbn [tcall]. unfold s. rewrite drop_app_len by lia. rewrite take_app_len by lia. done.
Qed.
Lemma fetch_wp unreachable d j x i e l r (w : stream) (Q : exc I + () → stream → Prop) :
  (∀ i e, places !! i = Some e → content (grid w) e.1 e.2 = stripe n c (Z.of_nat i) d) → is_Some (managers (grid w) !! e.1) → x00 ∉ d → zlen d < 2 ^ 30 →
  places !! i = Some e → j mod n = Z.of_nat i → 0 ≤ j → 0 < x ≤ c → j * c + x ≤ zlen d →
  popfile_reader_ref w = Some l → l !! i = Some r → idle_reader e r →
  Q (inr ()) (w <| popfile_reader_ref := Some (<[i := fetched (block_of d j x) r]> l) |>) →
  wp true (read_in_strip (I := I) unreachable (j mod n) (j / n * c) x) Q w.
Proof.
  intros Hcont Hm Hp Hlen He Hj Hj0 Hx Hd Hl Hr (Ein & Eput & Epfm & Epath) HQ. rewrite Hj. unfold read_in_strip. twp_steps.
  apply (reader_wp _ _ l i r); [done.. |]. twp_steps. apply (tneed_wp _ _ e.1); [done |].
  twp_steps. unfold on_grid, wp at 1. unfold bind at 1. rewrite Epath, (read_strip_block unreachable d (grid w) i e j x) by done. cbn [ret].
  replace (w <| grid := grid w |>) with w by (by destruct w). unfold set_reader. twp_steps. rewrite Nat2Z.id.
  replace (add_data (block_of d j x) r) with (fetched (block_of d j x) r); cycle 1.
  { unfold add_data, fetched. rewrite before_nul_plain by (by apply block_plain). rewrite Ein, Eput. cbn. by rewrite drop_nil, app_nil_r. }
  by rewrite Hl.
Qed.
Lemma take_block_wp e block i l r (w : stream) (Q : exc I + list byte → stream → Prop) :
  popfile_reader_ref w = Some l → l !! i = Some (fetched block r) → idle_reader e r → x00 ∉ block → 0 < zlen block < 2 ^ 63 →
  Q (inr block) (w <| popfile_reader_ref := Some (<[i := r]> l) |>) →
  wp true (read_current_buffer (I := I) (Z.of_nat i) (zlen block)) Q w.
Proof.
  intros Hl Hr (Ein & Eput & _) Hp Hlen HQ. unfold read_current_buffer. twp_steps. apply (reader_wp _ _ l i (fetched block r)); [done.. |].
  cbn [popfile_buffer_in fetched]. rewrite Z.ltb_irrefl, (proj2 (Z.eqb_neq _ (-1))) by lia. twp_steps.
  apply (tneed_wp _ _ (block, r)).
  - unfold buffer_get, uwrap. cbn [popfile_buffer_in fetched]. rewrite Z.mod_small by lia. rewrite Z.ltb_irrefl, Nat2Z.id, take_ge, drop_ge by done.
    f_equal. f_equal. destruct r. cbn in *. by subst.
  - unfold set_reader. twp_steps. rewrite Nat2Z.id, before_nul_plain, Hl by done. exact HQ.
Qed.
(** The next reader, and the position in the strips. *)
Lemma ring_next j : 0 ≤ j → 0 < n →
  (if (j mod n + 1) mod n =? 0 then (j + 1) mod n = 0 ∧ (j + 1) / n = j / n + 1 else (j + 1) mod n = j mod n + 1 ∧ (j + 1) / n = j / n).
Proof.
  intros Hj Hn. pose proof (Z.mod_pos_bound j n Hn) as Hm. pose proof (Z.div_mod j n ltac:(lia)) as E.
  destruct (Z.eqb_spec ((j mod n + 1) mod n) 0) as [H|H].
  - assert (j mod n + 1 = n). { destruct (decide (j mod n + 1 = n)); [done |]. rewrite Z.mod_small in H by lia. lia. }
    split; symmetry; [apply (Z.mod_unique _ _ (j / n + 1)) | apply (Z.div_unique _ _ _ 0)]; lia.
  - assert (j mod n + 1 < n). { destruct (decide (j mod n + 1 = n)) as [E'|]; [|lia]. rewrite E', Z_mod_same_full in H. done. }
    split; symmetry; [apply (Z.mod_unique _ _ (j / n)) | apply (Z.div_unique _ _ _ (j mod n + 1))]; lia.
Qed.
Lemma next_reader_wp j (w : stream) (Q : exc I + () → stream → Prop) :
  0 ≤ j → j / n * c + c < 2 ^ 31 → popfile_strip_number w = n → popfile_offset w = c →
  popfile_current_reader w = j mod n → popfile_current_reader_offset w = j / n * c →
  Q (inr ()) (w <| popfile_current_reader := (j + 1) mod n |> <| popfile_current_reader_offset := (j + 1) / n * c |>) →
  wp true (get_next_reader (I := I)) Q w.
Proof.
  intros Hj Hbig Hn Hc Hr Hp HQ. pose proof (l_positive Hlayout) as Hpos. pose proof (l_block Hlayout). pose proof (Z.mod_pos_bound j n ltac:(lia)).
  pose proof (Z.div_pos j n Hj ltac:(lia)).
  unfold get_next_reader, to_int. twp_steps. rewrite Hr, check_int_Ok by (apply in_sint32; lia). cbn [tcall]. twp_steps.
  rewrite Hn, (proj2 (Z.eqb_neq n 0)), Z.rem_mod_nonneg by lia. pose proof (ring_next j Hj ltac:(lia)) as E. destruct (_ =? 0); destruct E as [E1 E2].
  - twp_steps. rewrite Hp, Hc, swrap_small by (try lia; apply in_sint32; nia). rewrite E1, E2 in HQ.
    replace (j / n * c + c) with ((j / n + 1) * c) by lia. exact HQ.
  - twp_steps. rewrite E1, E2, <- Hp in HQ.
    replace (w <| popfile_current_reader := j mod n + 1 |>) with (w <| popfile_current_reader := j mod n + 1 |> <| popfile_current_reader_offset := popfile_current_reader_offset w |>)
      by (by destruct w). exact HQ.
Qed.
Lemma next_input_wp (w : stream) (Q : exc I + () → stream → Prop) :
  popfile_strip_number w = n → 0 ≤ popfile_current_input_buffer w < n →
  (∀ i, Q (inr ()) (w <| popfile_current_input_buffer := i |>)) → wp true (get_next_input_buffer (I := I)) Q w.
Proof.
  intros Hn Hi HQ. pose proof (l_positive Hlayout). unfold get_next_input_buffer, next_of, to_int. twp_steps.
  rewrite check_int_Ok by (apply in_sint32; lia). cbn [tcall]. twp_steps. rewrite Hn, (proj2 (Z.eqb_neq n 0)) by lia. twp_steps. apply HQ.
Qed.
(** A block that was fetched is handed out. *)
Lemma get_read_wp fuel x j k i e l r d (w : stream) (Q : exc I + list byte → stream → Prop) :
  popfile_served_grip w = k → 0 ≤ k < 2 ^ 30 → popfile_offset w = c → popfile_strip_number w = n → j mod n = Z.of_nat i → 0 ≤ j →
  popfile_reader_ref w = Some l → l !! i = Some (fetched (block_of d j x) r) → idle_reader e r → x00 ∉ d → 0 < x ≤ c → j * c + x ≤ zlen d →
  (∀ input, Q (inr (block_of d j x)) (w <| popfile_current_input_buffer := input |> <| popfile_reader_ref := Some (<[i := r]> l) |> <| popfile_served_grip := k + 1 |>)) →
  wp true (get_read (I := I) fuel (MkGrip x 0 (j mod n) k)) Q w.
Proof.
  intros Hk Hkr Hc Hn Hi Hj Hl Hr Hidle Hp Hx Hd HQ. pose proof (l_positive Hlayout) as Hpos. pose proof (l_block Hlayout). pose proof (Z.mod_pos_bound j n ltac:(lia)) as Hm.
  unfold get_read. twp_steps. cbn [popfilegrip_order popfilegrip_size popfilegrip_first_reader]. rewrite Hk, Z.eqb_refl. twp_steps.
  rewrite Hc, (proj2 (Z.ltb_ge c x)) by lia. twp_steps. rewrite Hi.
  pose proof (block_length d j x Hj ltac:(lia) Hd) as Hb. rewrite <- Hb.
  set (w1 := w <| popfile_current_input_buffer := _ |>).
  apply (take_block_wp e _ i l r); [done | done | done | by apply block_plain | lia |]. twp_steps.
  set (w2 := w1 <| popfile_reader_ref := _ |>). apply next_input_wp; [exact Hn | change (popfile_current_input_buffer w2) with (Z.of_nat i); lia |].
  intros input. unfold to_int. twp_steps. match goal with |- wp _ _ _ ?y => set (w3 := y) end.
  change (popfile_served_grip w3) with (popfile_served_grip w). rewrite Hk, check_int_Ok by (apply in_sint32; lia).
  cbn [tcall]. twp_steps. exact (HQ input).
Qed.
Lemma read_wp unreachable fuel d j k x w :
  reading d j k (w <| popfile_internal_read_pointer := 0 |>) → (x = c → popfile_internal_read_pointer w = 0) →
  0 ≤ j → 0 ≤ k < 2 ^ 30 → 0 < x ≤ c → j * c + x ≤ zlen d → zlen d < 2 ^ 30 → (0 < fuel)%nat → c ≤ 2 ^ 30 →
  wp true (read (I := I) unreachable fuel x) (λ r w', r = inr (block_of d j x) ∧
    (if x =? c then reading d (j + 1) (k + 1) w' else reading d j (k + 1) (w' <| popfile_internal_read_pointer := 0 |>)) ∧
    files w' = files w ∧ popfile_offset w' = c) w.
Proof.
  intros Hg Hptr Hj Hk Hx Hd Hlen Hfuel Hcs. pose proof (l_positive Hlayout) as Hpos. pose proof (l_block Hlayout) as Hc.
  pose proof Hg as [G1 G2 G3 G4 G5 G6 G7 [G8 G9] G10 G11 G12 G13 G14].
  destruct (place_of _ _ eq_refl : ∃ i e, j mod n = Z.of_nat i ∧ places !! i = Some e) as (i & e & Hi & He).
  unfold read, read_in_background. twp_steps. set (w0 := w <| popfile_badflag := false |> <| popfile_badflag := false |>).
  change (popfile_parallel w0) with (popfile_parallel w). rewrite (G1 : popfile_parallel w = true). twp_steps.
  assert (Hg0 : reading d j k (w0 <| popfile_internal_read_pointer := 0 |>)) by (by split).
  apply (make_readers_wp unreachable d j k); [done |]. intros l [Hll Hidle]. destruct (lookup_lt_is_Some_2 l i) as [r Hr].
  { rewrite Hll. by eapply lookup_lt_Some. }
  unfold to_int. twp_steps. change (popfile_current_grip w0) with (popfile_current_grip w). change (popfile_current_reader w0) with (popfile_current_reader w).
  rewrite (G8 : popfile_current_grip w = k), (G5 : popfile_current_reader w = j mod n), check_int_Ok by (apply in_sint32; lia). cbn [tcall]. twp_steps.
  match goal with |- wp _ _ _ ?y => set (w1 := y) end.
  set (l1 := <[i := fetched (block_of d j x) r]> l). assert (Hli : l1 !! i = Some (fetched (block_of d j x) r)).
  { unfold l1. rewrite list_lookup_insert_eq by (by eapply lookup_lt_Some). done. }
  assert (Hback : <[i := r]> l1 = l) by (unfold l1; rewrite list_insert_insert_eq; by apply list_insert_id).
  assert (Hin : idle_reader e r) by (by eapply Hidle). assert (Hman : is_Some (managers (grid w1) !! e.1)) by (apply G11; by eapply list_elem_of_lookup_2).
  assert (Eoff : popfile_offset w1 = c) by exact G4.
  assert (Erd : popfile_current_reader w1 = j mod n) by exact G5. assert (Epos : popfile_current_reader_offset w1 = j / n * c) by exact G6.
  assert (Hq : j / n * c ≤ zlen d).
  { pose proof (Z.div_mod j n ltac:(lia)). pose proof (Z.mod_pos_bound j n ltac:(lia)). pose proof (Z.div_pos j n Hj ltac:(lia)). nia. }
  destruct fuel as [|fuel]; [lia |]. cbn [background_loop]. twp_steps. rewrite Eoff. destruct (Z.eqb_spec x c) as [->|Hne].
  - assert (Eptr : popfile_internal_read_pointer w1 = 0) by by apply Hptr.
    rewrite Eptr, Z.leb_refl, Erd, Epos. cbn [Z.eqb]. twp_steps. apply (fetch_wp unreachable d j c i e l r); try done.
    set (w2 := w1 <| popfile_reader_ref := _ |>). twp_steps. rewrite Z.sub_diag. apply to_long_wp; [lia |]. twp_steps.
    apply (next_reader_wp j); try done; [lia |]. set (w3 := w2 <| popfile_current_reader := _ |> <| popfile_current_reader_offset := _ |>).
    assert (E3 : popfile_offset w3 = c) by exact G4.
    assert (Hloop : ∀ g Q, Q (inr (0, g)) w3 → wp true (background_loop (I := I) unreachable fuel 0 g) Q w3).
    { intros g Q HQ. destruct fuel; cbn [background_loop]; twp_steps; rewrite E3, (proj2 (Z.leb_gt c 0)) by lia; by twp_steps. }
    apply Hloop. cbn [Z.ltb Z.compare]. twp_steps. apply (get_read_wp _ c j k i e l1 r d); try done.
    intros input. rewrite Hback. split_and!; try done. split; try done. by intros l' [= <-].
  - rewrite (proj2 (Z.leb_gt c x)) by lia. twp_steps. rewrite (proj2 (Z.ltb_lt 0 x)) by lia. twp_steps.
    rewrite Erd, Epos. apply (fetch_wp unreachable d j x i e l r); try done. set (w2 := w1 <| popfile_reader_ref := _ |>). twp_steps.
    rewrite Eoff. apply to_long_wp; [lia |]. twp_steps. apply (get_read_wp _ x j k i e l1 r d); try done.
    intros input. rewrite Hback. split_and!; try done. split; try done. by intros l' [= <-].
Qed.

(** ** Gathering *)

Definition append_to (name : chars) (data : list byte) : P () :=
  tset (λ w, w <| files := <[name := default [] (files w !! name) ++ data]> (files w) |>).
Lemma gather_loop_wp unreachable fuel d j name (w : stream) :
  reading d j j w → 0 ≤ j → j * c ≤ zlen d → zlen d < 2 ^ 30 → c ≤ 2 ^ 30 → files w !! name = Some (take (Z.to_nat (j * c)) d) →
  (Z.to_nat (zlen d - j * c) < fuel)%nat →
  wp true (gather_loop (I := I) unreachable fuel (zlen d - j * c) (append_to name)) (λ r w', r = inr () ∧ files w' !! name = Some d ∧
    ∀ f, f ≠ name → files w' !! f = files w !! f) w.
Proof.
  revert j w. induction fuel as [|fuel IH]; intros j w Hg Hj Hjc Hlen Hc Hf Hfuel; [lia |]. pose proof (l_block Hlayout) as Hb.
  cbn [gather_loop]. twp_steps. rewrite (g_offset _ _ _ _ Hg).
  assert (Happ : ∀ x (w1 : stream), 0 ≤ x → j * c + x ≤ zlen d → files w1 = files w →
    default [] (files w1 !! name) ++ block_of d j x = take (Z.to_nat (j * c + x)) d).
  { intros x w1 Hx Hd ->. rewrite Hf. cbn. unfold block_of. rewrite Z2Nat.inj_add by nia. by rewrite <- take_take_drop. }
  destruct (Z.ltb_spec c (zlen d - j * c)) as [Hlt|Hge].
  - twp_steps. eapply wp_mono; [|apply (read_wp unreachable (S fuel) d j j c); [by destruct Hg; split | intros _; apply Hg | try done; nia ..] ].
    intros r w1 (-> & Hnext & Hfiles & Hoff). cbv beta iota. rewrite Z.eqb_refl in Hnext. twp_steps.
    apply to_long_wp; [nia |]. unfold append_to. twp_steps. rewrite (Happ c w1), Hfiles by (done || lia).
    set (w2 := w1 <| files := _ |>). replace (zlen d - j * c - c) with (zlen d - (j + 1) * c) by lia.
    assert (Hw2 : files w2 !! name = Some (take (Z.to_nat ((j + 1) * c)) d)) by (unfold w2; cbn [files]; rewrite Z.mul_add_distr_r, Z.mul_1_l; apply lookup_insert_eq).
    eapply wp_mono; [|apply (IH (j + 1) w2); try nia; [by destruct Hnext; split | exact Hw2]].
    intros r w3 (-> & Hd3 & Hother). split_and!; [done | done |]. intros f Hne. rewrite Hother by done. unfold w2. cbn. by rewrite lookup_insert_ne.
  - destruct (Z.ltb_spec 0 (zlen d - j * c)) as [Hpos|Hzero].
    + twp_steps. eapply wp_mono; [|apply (read_wp unreachable (S fuel) d j j (zlen d - j * c)); [by destruct Hg; split | intros _; apply Hg | try done; nia ..] ].
      intros r w1 (-> & _ & Hfiles & _). cbv beta iota. unfold append_to. twp_steps. rewrite (Happ (zlen d - j * c) w1), Hfiles by (done || lia). cbn.
      split_and!; [done | rewrite lookup_insert_eq; f_equal; apply take_ge; lia | intros f Hne; by rewrite lookup_insert_ne].
    + twp_steps. split_and!; [done | | done]. rewrite Hf. f_equal. apply take_ge. lia.
Qed.

(** Gathering restores a file. Whoever opens a file that is stored in strips and gathers it writes
    its text, byte for byte, to the ordinary file of its name, and touches no other. *)
Lemma gather_wp unreachable can_open reread fuel d name w :
  closed w → stored reread d name (grid w) (xml_files w) → is_Some (managers (grid w) !! POPFILE_POPFILEMANAGER_LOCAL) →
  can_open name = true → zlen d < 2 ^ 30 → c ≤ 2 ^ 30 → (length d < fuel)%nat →
  wp true (open (I := I) unreachable can_open reread name ;;^ gather unreachable can_open fuel)
    (λ r w', r = inr () ∧ files w' !! name = Some d ∧ ∀ f, f ≠ name → files w' !! f = files w !! f) w.
Proof.
  intros Hcl Hst Hloc Hopen Hlen Hc Hfuel. twp_steps.
  eapply wp_mono; [|apply (open_stored unreachable can_open reread d name w); try done; lia].
  intros r w1 (-> & Hr & Hg & Hname & _ & _ & Hgrid & Hfiles & _). cbv beta iota. unfold gather. twp_steps. rewrite (g_parallel _ _ _ _ Hg). twp_steps.
  unfold is_open. twp_steps. rewrite (g_parallel _ _ _ _ Hg), (g_loaded _ _ _ _ Hg). cbv iota. rewrite Hname, Hopen. twp_steps.
  set (w2 := w1 <| files := _ |>). rewrite (r_total _ _ Hr).
  replace (zlen d) with (zlen d - 0 * c) at 1 by lia.
  eapply wp_mono; [|apply (gather_loop_wp unreachable fuel d 0 name w2); try lia; [by destruct Hg; split | unfold w2; cbn; apply lookup_insert_eq]].
  intros r w3 (-> & Hd & Hother). split_and!; [done.. |]. intros f Hne. rewrite Hother by done. unfold w2. cbn. by rewrite lookup_insert_ne, Hfiles.
Qed.

(** ** Creating *)

(** An access string that the metadata can hold. *)
Definition well_addressed (ap : chars) : Prop :=
  ∃ ip port, ap = string_bytes "socket://" ++ ip ++ x3a :: decimal port ∧ ip ≠ [] ∧ ip ≠ NULL_text ∧ in_sint 32 port = true ∧ zlen ip < 2 ^ 32.
Lemma create_skip unreachable k i cs ns offset local (w : stream) (Q : exc I + () → stream → Prop) :
  (∀ j, (i ≤ j < i + k)%nat → cs !! j = Some [] ∧ is_Some (ns !! j)) → Q (inr ()) w →
  wp true (create_buffers (I := I) unreachable k (Z.of_nat i) cs ns offset local) Q w.
Proof.
  revert i. induction k as [|k IH]; intros i Hj HQ; cbn [create_buffers]; [by twp_steps |].
  destruct (Hj i) as [Hc [x Hx]]; [lia |]. twp_steps. apply (tneed_wp _ _ []); [by rewrite at_index_nat |].
  twp_steps. apply (tneed_wp _ _ x); [by rewrite at_index_nat |]. twp_steps. rewrite bool_decide_eq_true_2 by done. twp_steps.
  replace (Z.of_nat i + 1) with (Z.of_nat (S i)) by lia. apply IH; [|done]. intros j Hj'. apply Hj. lia.
Qed.
(** The strips added so far. *)
Definition added (local : bool) (i : nat) (l : MetaDataStripMap) : Prop :=
  length l = i ∧ ∀ j e, (j < i)%nat → places !! j = Some e → ∃ s ip port, l !! j = Some (Z.of_nat j, s) ∧ strip_identifier s = Z.of_nat j ∧
    strip_offset s = c ∧ strip_name s = e.2 ∧ is_Some (strip_is_local s) ∧ accesspoint_ip_address (strip_accesspoint s) = ip ∧
    accesspoint_port (strip_accesspoint s) = port ∧ in_sint 32 port = true ∧ ip ≠ NULL_text ∧ e.1 = string_bytes "socket://" ++ ip ++ x3a :: decimal port ∧
    strip_absolute_path s = string_bytes "/tmp/" ∧ accesspoint_hostname (strip_accesspoint s) = NULL_text.
Definition counted (local : bool) (i : nat) : Z := if local then Z.max 1 (Z.of_nat i) else Z.of_nat i.
Lemma create_buffers_wp unreachable k i rest cs ns local (w : stream) (Q : exc I + () → stream → Prop) :
  (i + k = length places)%nat → (∀ e, e ∈ places → well_addressed e.1) → (∀ e, e ∈ places → is_Some (managers (grid w) !! e.1)) →
  is_Some (managers (grid w) !! pfm_ap w) →
  (∀ j e, places !! j = Some e → cs !! j = Some e.1 ∧ ns !! j = Some e.2) →
  (∀ j, (length places ≤ j < length places + rest)%nat → cs !! j = Some [] ∧ is_Some (ns !! j)) →
  added local i (meta_strips (popfile_metadata w)) → popfile_strip_number w = counted local i → length (popfile_writebuffers w) = length places →
  (∀ j b, popfile_writebuffers w !! j = Some b → popfile_buffer_out b = []) →
  (∀ j e b, (j < i)%nat → places !! j = Some e → popfile_writebuffers w !! j = Some b → opened_buffer e b) →
  (∀ l bs, added local (length places) l → length bs = length places → (∀ j e b, places !! j = Some e → bs !! j = Some b → opened_buffer e b) →
     Q (inr ()) (w <| popfile_metadata := (popfile_metadata w) <| meta_strips := l |> |> <| popfile_writebuffers := bs |> <| popfile_strip_number := counted local (length places) |>)) →
  wp true (create_buffers (I := I) unreachable (k + rest) (Z.of_nat i) cs ns c local) Q w.
Proof.
  revert i w. induction k as [|k IH]; intros i w Hik Haddr Hman Hloc Hcs Hrest Hadd Hn Hlen Hout Hdone HQ.
  { cbn [Nat.add]. rewrite Nat.add_0_r in Hik. subst i. apply create_skip; [done |].
    specialize (HQ (meta_strips (popfile_metadata w)) (popfile_writebuffers w) Hadd Hlen). rewrite <- Hn in HQ.
    replace (w <| popfile_metadata := _ |> <| popfile_writebuffers := _ |> <| popfile_strip_number := _ |>) with w in HQ; [|by destruct w as [? ? ? ? ? ? ? ? ? ? ? ? [] ]].
    apply HQ. intros j e b He. apply Hdone; [|done]. by eapply lookup_lt_Some. }
  destruct (lookup_lt_is_Some_2 places i) as [e He]; [lia |]. destruct (Hcs i e He) as [Hce Hne].
  destruct (lookup_lt_is_Some_2 (popfile_writebuffers w) i) as [b Hb]; [lia |].
  assert (Hin : e ∈ places) by (by eapply list_elem_of_lookup_2). destruct (Haddr e Hin) as (ip & port & Ee & Hip & Hnull & Hport & Hiplen).
  cbn [create_buffers Nat.add]. twp_steps. apply (tneed_wp _ _ e.1); [by rewrite at_index_nat |]. twp_steps.
  apply (tneed_wp _ _ e.2); [by rewrite at_index_nat |]. twp_steps. rewrite (bool_decide_eq_false_2 (e.1 = [])) by (by rewrite Ee). twp_steps.
  unfold addStripInfo. rewrite Ee, (accesspoint_of_socket ip port) by done. cbn [rbind tcall]. twp_steps. rewrite <- Ee.
  rewrite (before_nul_plain e.2) by (by apply (l_paths Hlayout)). set (strip := MkStrip _ _ _ _ _ _). set (w1 := w <| popfile_metadata := _ |>).
  pose proof (l_positive Hlayout) as Hpos. pose proof (l_number Hlayout) as Hnum.
  eapply (wp_mono _ _ (λ r w', r = inr () ∧ w' = w1 <| popfile_strip_number := counted local (S i) |>)); cycle 1.
  { assert (E : popfile_strip_number w1 = counted local i) by exact Hn. unfold counted in *. destruct ((Z.of_nat i =? 0) && local) eqn:Ei.
    - apply andb_true_iff in Ei as [Ei ->]. apply Z.eqb_eq in Ei. twp_steps. split; [done |].
      replace (Z.max 1 (Z.of_nat (S i))) with (popfile_strip_number w1) by (rewrite E; lia). by destruct w1.
    - unfold to_int. rewrite Hn, check_int_Ok; [|apply in_sint32; destruct local; lia]. cbn [tcall]. twp_steps. split; [done |].
      assert (En : (if local then Z.max 1 (Z.of_nat i) else Z.of_nat i) + 1 = if local then Z.max 1 (Z.of_nat (S i)) else Z.of_nat (S i)).
      { destruct local; [|lia]. rewrite andb_true_r in Ei. apply Z.eqb_neq in Ei. lia. }
      by rewrite En. }
  intros r w2 (-> & ->). set (w2 := w1 <| popfile_strip_number := _ |>). cbv beta iota.
  twp_steps. apply (writebuffer_wp _ _ _ b); [done |]. twp_steps. apply bind_manager_wp; [by apply Hman |]. intros _. twp_steps.
  apply bind_manager_wp; [done |]. intros _. unfold set_writebuffer. twp_steps. rewrite Nat2Z.id. replace (Z.of_nat i + 1) with (Z.of_nat (S i)) by lia.
  match goal with |- context [<[i := ?x]> (popfile_writebuffers w2)] => set (b1 := x) end.
  assert (Hlt' : (i < length (popfile_writebuffers w))%nat) by lia.
  assert (Hb1 : opened_buffer e b1) by (split; [split_and!; [by apply (Hout i b Hb) | done | done] | by split]).
  assert (Eput : put (Z.of_nat i) strip (meta_strips (popfile_metadata w)) = meta_strips (popfile_metadata w) ++ [(Z.of_nat i, strip)]).
  { apply put_last, Forall_fmap, Forall_lookup_2. intros j [k' s'] Hj. cbn. assert (Hji : (j < i)%nat) by (rewrite <- (proj1 Hadd); by eapply lookup_lt_Some).
    destruct (lookup_lt_is_Some_2 places j) as [e' He']; [lia |]. destruct (proj2 Hadd j e' Hji He') as (s & ? & ? & Hs & _).
    unfold MetaDataStripMap in *. rewrite Hs in Hj. injection Hj as <- <-. lia. }
  apply (IH (S i)); try done; try (unfold w2, w1; cbn; done); try lia.
  - cbn. rewrite Eput. destruct Hadd as [Hal Had]. split; [rewrite length_app; cbn; lia |]. intros j e' Hj He'. destruct (decide (j = i)) as [->|Hne'].
    + exists strip, ip, port. assert (e' = e) as -> by congruence. unfold MetaDataStripMap in *. rewrite lookup_app_r, Hal, Nat.sub_diag by lia. by split_and!.
    + destruct (Had j e') as (s & ip' & port' & Hs & H); [lia | done |]. exists s, ip', port'. split; [|done].
      unfold MetaDataStripMap in *. by rewrite lookup_app_l by (by eapply lookup_lt_Some).
  - cbn. by rewrite length_insert.
  - cbn. intros j b' Hb'. destruct (decide (j = i)) as [->|]; [rewrite list_lookup_insert_eq in Hb' by done; injection Hb' as <-; apply Hb1 |].
    rewrite list_lookup_insert_ne in Hb' by done. by eapply Hout.
  - cbn. intros j e' b' Hj He' Hb'. destruct (decide (j = i)) as [->|].
    + rewrite list_lookup_insert_eq in Hb' by done. injection Hb' as <-. assert (e' = e) as -> by congruence. done.
    + rewrite list_lookup_insert_ne in Hb' by done. eapply Hdone; [|done..]. lia.
Qed.
End Writing.

(** ** From nothing to a file that can be written *)

Section Creation.
Context (may_write : chars → chars → bool) (unreachable : chars → pop_exception).
Context (cwd : option chars) (reread : list xml → option (list xml)) {I : Type}.
Abbreviation P := (Throws stream I).

Lemma on_grid_wp {A : Type} total (m : Throws grid_files I A) (Q : exc I + A → stream → Prop) w :
  wp total m (λ r g, Q r (w <| grid := g |>)) (grid w) → wp total (on_grid m) Q w.
Proof. unfold wp, on_grid. by destruct (m (grid w)) as [[[r g]|? ?|]|]. Qed.
Lemma decimal_inj i j : in_sint 32 i = true → in_sint 32 j = true → decimal i = decimal j → i = j.
Proof. intros Hi Hj E. pose proof (atoi_decimal i Hi) as H. rewrite E, (atoi_decimal j Hj) in H. congruence. Qed.

(** The name of a strip. *)
Definition strip_base (filename : chars) : chars := string_bytes "/tmp/." ++ filename ++ string_bytes "_strip".
(** A file that was created, with its strips, sizes and metadata. *)
Record created (filename : chars) (n c : Z) (places : list (chars * chars)) (w : stream) : Prop := {
  c_layout : layout may_write n c places;
  c_ready : ready may_write n c places [] w;
  c_described : described c places (meta_strips (popfile_metadata w));
  c_plain : meta_plain (popfile_metadata w);
  c_managers : ∀ e, e ∈ places → is_Some (managers (grid w) !! e.1);
  c_local : is_Some (managers (grid w) !! POPFILE_POPFILEMANAGER_LOCAL);
  c_name : popfile_filename w = filename ∧ popfile_metadata_filename w = metadata_file filename }.

(** The places that [findResourcesForStrip] and the local strip give. *)
Lemma places_of filename (local : bool) stripnumber l g g1 k cs ns :
  text_plain filename → Forall (λ ap, well_addressed ap ∧ text_plain ap) l → 0 < stripnumber ≤ 2 ^ 30 →
  found may_write (I := I) l (strip_base filename) (if local then 1 else 0) stripnumber
    (if local then <[O := POPFILE_POPFILEMANAGER_LOCAL]> (replicate (Z.to_nat stripnumber) []) else replicate (Z.to_nat stripnumber) [])
    (if local then <[O := strip_base filename ++ decimal 0]> (replicate (Z.to_nat stripnumber) []) else replicate (Z.to_nat stripnumber) []) g
    (inr (k, (cs, ns))) g1 →
  (local = true → may_write POPFILE_POPFILEMANAGER_LOCAL (strip_base filename ++ decimal 0) = true ∧
     ∃ m, managers g !! POPFILE_POPFILEMANAGER_LOCAL = Some m ∧ strips m !! (strip_base filename ++ decimal 0) = Some []) →
  k ≠ 0 →
  let places := take (Z.to_nat k) (zip cs ns) in
  zlen places = k ∧ 0 < k ≤ stripnumber ∧ length cs = Z.to_nat stripnumber ∧
  (∀ j e, places !! j = Some e → cs !! j = Some e.1 ∧ ns !! j = Some e.2 ∧ e.2 = strip_base filename ++ decimal (Z.of_nat j) ∧
     well_addressed e.1 ∧ text_plain e.1 ∧ may_write e.1 e.2 = true ∧ ∃ m, managers g1 !! e.1 = Some m ∧ strips m !! e.2 = Some []) ∧
  (∀ j, (Z.to_nat k ≤ j < Z.to_nat stripnumber)%nat → cs !! j = Some [] ∧ ns !! j = Some []).
Proof.
  intros Hname Hl HN (Hk & Hkept & Hlc & Hln & Hplaced & Hsame & _) Hlocal Hk0 places.
  assert (Hidx : 0 ≤ (if local then 1 else 0) ≤ 1) by (destruct local; lia).
  assert (Hlen : length cs = Z.to_nat stripnumber ∧ length ns = Z.to_nat stripnumber).
  { rewrite Hlc, Hln. destruct local; by rewrite ?length_insert, !length_replicate. }
  destruct Hlen as [Hlcs Hlns]. split_and!.
  - unfold places. rewrite length_take, length_zip_with, Hlcs, Hlns. lia.
  - lia.
  - lia.
  - done.
  - intros j e He. apply lookup_take_Some in He as [He Hj]. apply lookup_zip_with_Some in He as (x & y & -> & Hx & Hy). cbn [fst snd].
    split; [done |]. split; [done |]. destruct (decide ((if local then 1 else 0) ≤ Z.of_nat j)) as [Hge|Hlt].
    + destruct (Hplaced (Z.of_nat j)) as (ap & m & Hap & Hc & Hn & Hm & Hs & Hmay); [lia |]. rewrite Nat2Z.id in Hc, Hn.
      rewrite Hx in Hc. rewrite Hy in Hn. injection Hc as ->. injection Hn as ->. rewrite Forall_forall in Hl. destruct (Hl ap Hap).
      split_and!; try done. by exists m.
    + destruct local; [|lia]. assert (j = 0%nat) as -> by lia. destruct (Hlocal eq_refl) as (Hmay & m & Hm & Hs).
      destruct (Hsame 0) as [E1 E2]; [lia | left; lia |]. change (Z.to_nat 0) with O in E1, E2. rewrite Hx in E1. rewrite Hy in E2.
      rewrite list_lookup_insert_eq in E1, E2 by (rewrite length_replicate; lia). injection E1 as ->. injection E2 as ->.
      destruct (kept_empty _ _ Hkept _ _ _ Hm Hs) as (m' & ? & ?). split_and!; [done | | | done | by exists m'].
      * by exists (string_bytes "127.0.0.1"), 2712.
      * split; [done |]. by apply (bool_decide_unpack _).
  - intros j Hj. destruct (Hsame (Z.of_nat j)) as [E1 E2]; [lia | right; lia |]. rewrite Nat2Z.id in E1, E2. rewrite E1, E2.
    assert (Hj' : ∀ x : chars, (if local then <[O := x]> (replicate (Z.to_nat stripnumber) []) else replicate (Z.to_nat stripnumber) []) !! j = Some []).
    { intros x. destruct local; [rewrite list_lookup_insert_ne by lia|]; apply lookup_replicate_2; lia. }
    by rewrite !Hj'.
Qed.

Lemma text_plain_nul s : text_plain s → x00 ∉ s.
Proof. intros [_ Hs] Hin. rewrite Forall_forall in Hs. specialize (Hs _ Hin). by destruct Hs. Qed.
Lemma strip_name_plain filename j : text_plain filename → in_sint 32 j = true → text_plain (strip_base filename ++ decimal j).
Proof.
  intros [_ Hf] Hj. split; [done |]. unfold strip_base. rewrite !Forall_app. split_and!; [by apply (bool_decide_unpack _) | done | by apply (bool_decide_unpack _) |].
  apply Forall_forall. intros x [->|Hx]%decimal_plain; [done | | done]. unfold isdigit in Hx. reflect_bools. lia.
Qed.
Lemma added_described c places local l :
  added c places local (length places) l → described c places l ∧
  ((∀ e, e ∈ places → text_plain e.1 ∧ text_plain e.2) → Forall (λ x, strip_plain x.2) l).
Proof.
  intros [Hl Ha]. split; [split; [done |] |].
  - intros i e He. destruct (Ha i e) as (s & ip & port & H); [by eapply lookup_lt_Some | done |]. exists s, ip, port. tauto.
  - intros Hplain. apply Forall_lookup_2. intros i [k s] Hi. destruct (lookup_lt_is_Some_2 places i) as [e He]; [rewrite <- Hl; by eapply lookup_lt_Some |].
    destruct (Ha i e) as (s' & ip & port & Hs & _ & _ & Hn & _ & Hip & _ & _ & Hnull & Ee & Hpath & Hhost); [by eapply lookup_lt_Some | done |].
    unfold MetaDataStripMap in *. rewrite Hs in Hi. injection Hi as <- <-. destruct (Hplain e) as [[_ H1] H2]; [by eapply list_elem_of_lookup_2 |].
    unfold strip_plain. cbn [snd]. rewrite Hpath, Hn, Hhost, Hip. split_and!; [split; [done | by apply (bool_decide_unpack _)] | done | split; [done | by apply (bool_decide_unpack _)] |].
    unfold or_NULL. case_bool_decide as E; [split; [done | by apply (bool_decide_unpack _)] |]. split; [done |].
    rewrite Ee, !Forall_app in H1. apply H1.
Qed.
(** The state after the strips were added is that of an empty file. *)
Lemma created_of_added filename path offset local n c places bs l w0 w :
  w = w0 <| popfile_metadata := (popfile_metadata w0) <| meta_strips := l |> |> <| popfile_writebuffers := bs |> <| popfile_strip_number := n |> <| popfile_parallel := true |> →
  layout may_write n c places → added c places local (length places) l → length bs = length places →
  (∀ j e b, places !! j = Some e → bs !! j = Some b → opened_buffer c e b) →
  (∀ e, e ∈ places → text_plain e.1 ∧ text_plain e.2) → text_plain filename → text_plain path →
  popfile_metadata w0 = set_offset offset (set_filename filename path (popfile_metadata w0)) →
  popfile_first_write_pointer w0 = 0 → popfile_total_bytes w0 = 0 → popfile_current_output_buffer w0 = 0 → in_flight (grid w0) = [] →
  (∀ e, e ∈ places → ∃ m, managers (grid w0) !! e.1 = Some m ∧ strips m !! e.2 = Some []) → is_Some (managers (grid w0) !! POPFILE_POPFILEMANAGER_LOCAL) →
  popfile_filename w0 = filename → popfile_metadata_filename w0 = metadata_file filename → created filename n c places w.
Proof.
  intros -> Hlay Hadd Hbs Hopened Hplain Hf Hp Hmeta Hfw Htot Hcur Hcalls Hman Hloc Hn1 Hn2.
  destruct (added_described c places local l Hadd) as [Hd Hpl]. pose proof (l_number _ _ _ _ Hlay) as Hnum. pose proof (l_positive _ _ _ _ Hlay) as Hpos.
  pose proof (l_block _ _ _ _ Hlay) as Hcb.
  assert (Hman' : ∀ e, e ∈ places → is_Some (managers (grid w0) !! e.1)) by (intros e He; destruct (Hman e He) as (m & -> & _); by eexists).
  split; try done.
  - split; [done |]. cbn. rewrite Hfw. cbn [Z.eqb]. split; cbn.
    + split; [split; cbn | by apply not_elem_of_nil |].
      * done.
      * done.
      * done.
      * intros i e b He Hb. by destruct (Hopened i e b He Hb) as [_ ?].
      * by apply (described_offsets may_write n c places Hlay).
      * cbn. intros i e b He Hb. destruct (Hopened i e b He Hb) as [(Eb & _) _]. rewrite Eb. unfold sent, received, calls_to, content.
        destruct (Hman e) as (m & -> & Hs); [by eapply list_elem_of_lookup_2 |]. rewrite Hs, Hcalls. cbn. by destruct (may_write e.1 e.2).
    + rewrite Hcur, Zdiv_0_l, Zmod_0_l. done.
    + intros i b Hi Hb. cbn in Hb. destruct (lookup_lt_is_Some_2 places i) as [e He]; [rewrite <- Hbs; by eapply lookup_lt_Some |].
      by destruct (Hopened i e b He Hb).
    + rewrite Hcur. change 0 with (Z.of_nat 0) at 1. rewrite at_index_nat. destruct (lookup_lt_is_Some_2 bs 0) as [b Hb]; [lia |].
      destruct (lookup_lt_is_Some_2 places 0) as [e He]; [lia |]. destruct (Hopened 0%nat e b He Hb) as [(Eb & Ec & Er) _].
      exists b. rewrite Eb, Ec, Er, Zmod_0_l. split_and!; [done | lia | cbn; lia | lia].
  - unfold meta_plain. cbn. rewrite Hmeta. cbn. split_and!; [done | done | by apply Hpl].
Qed.

Definition cwd_path : chars := match cwd with None => string_bytes "/tmp" | Some path => path end ++ string_bytes "/".
(** What [open] needs to create a file. *)
Record creatable (filename : chars) (stripnumber offset : Z) (local : bool) (m : POPFileManager) (w : stream) : Prop := {
  a_closed : closed w;
  a_strips : meta_strips (popfile_metadata w) = [];
  a_new : xml_files w !! metadata_file filename = None;
  a_calls : in_flight (grid w) = [];
  a_name : text_plain filename;
  a_path : text_plain cwd_path;
  a_local : managers (grid w) !! POPFILE_POPFILEMANAGER_LOCAL = Some m;
  a_neighbours : Forall (λ ap, well_addressed ap ∧ text_plain ap) (pfm_neighbors m);
  a_offset : 1 ≤ offset ≤ 2 ^ 20;
  a_number : (if local then 1 else 0) < stripnumber ≤ 2 ^ 30 }.
(** The strips that were found are added. *)
Lemma add_found_creates filename path stripnumber offset (local : bool) k cs ns (w : stream) :
  let places := take (Z.to_nat k) (zip cs ns) in
  zlen places = k → 0 < k ≤ stripnumber → stripnumber ≤ 2 ^ 30 → 1 ≤ offset ≤ 2 ^ 20 → length cs = Z.to_nat stripnumber →
  (∀ j e, places !! j = Some e → cs !! j = Some e.1 ∧ ns !! j = Some e.2 ∧ e.2 = strip_base filename ++ decimal (Z.of_nat j) ∧
     well_addressed e.1 ∧ text_plain e.1 ∧ may_write e.1 e.2 = true ∧ ∃ m, managers (grid w) !! e.1 = Some m ∧ strips m !! e.2 = Some []) →
  (∀ j, (Z.to_nat k ≤ j < Z.to_nat stripnumber)%nat → cs !! j = Some [] ∧ ns !! j = Some []) →
  text_plain filename → text_plain path → popfile_strip_number w = counted local 0 → meta_strips (popfile_metadata w) = [] →
  popfile_first_write_pointer w = 0 → popfile_total_bytes w = 0 → popfile_current_output_buffer w = 0 → in_flight (grid w) = [] →
  pfm_ap w = POPFILE_POPFILEMANAGER_LOCAL → is_Some (managers (grid w) !! POPFILE_POPFILEMANAGER_LOCAL) →
  popfile_filename w = filename → popfile_metadata_filename w = metadata_file filename →
  wp true (tset (λ w, w <| popfile_metadata := set_offset (offset * 1024) (set_filename filename path (popfile_metadata w)) |>
                        <| popfile_writebuffers := replicate (Z.to_nat k) POPFileBuffer_new |>) ;;^
           create_buffers (I := I) unreachable (Z.to_nat stripnumber) 0 cs ns (offset * 1024) local ;;^ tret true)
    (λ r w', r = inr true ∧ created filename k (offset * 1024) places (w' <| popfile_parallel := true |>) ∧ files w' = files w) w.
Proof.
  intros places Hlen Hk HN Hoff Hcs Hplaces Hrest Hf Hp Hn Hst Hfw Htot Hcur Hcalls Hap Hloc Hn1 Hn2.
  assert (Hlay : layout may_write k (offset * 1024) places).
  { split; [done | lia | lia | | |].
    - apply NoDup_alt. intros i j e Hi Hj. destruct (Hplaces i e Hi) as (_ & _ & E1 & _). destruct (Hplaces j e Hj) as (_ & _ & E2 & _).
      rewrite E1 in E2. apply app_inv_head, decimal_inj in E2; [lia | |]; apply in_sint32; apply lookup_lt_Some in Hi, Hj; lia.
    - intros e [i Hi]%list_elem_of_lookup_1. by apply (Hplaces i e Hi).
    - intros e [i Hi]%list_elem_of_lookup_1. destruct (Hplaces i e Hi) as (_ & _ & -> & _).
      apply text_plain_nul, strip_name_plain; [done |]. apply in_sint32. apply lookup_lt_Some in Hi. lia. }
  assert (Hpl : ∀ e, e ∈ places → well_addressed e.1 ∧ (text_plain e.1 ∧ text_plain e.2) ∧ ∃ m, managers (grid w) !! e.1 = Some m ∧ strips m !! e.2 = Some []).
  { intros e [i Hi]%list_elem_of_lookup_1. destruct (Hplaces i e Hi) as (_ & _ & E & H1 & H2 & _ & H3). split_and!; try done.
    rewrite E. apply strip_name_plain; [done |]. apply in_sint32. apply lookup_lt_Some in Hi. lia. }
  twp_steps. set (w0 := w <| popfile_metadata := _ |> <| popfile_writebuffers := _ |>).
  replace (Z.to_nat stripnumber) with (length places + (Z.to_nat stripnumber - Z.to_nat k))%nat by lia. change 0 with (Z.of_nat 0).
  apply (create_buffers_wp may_write k (offset * 1024) places Hlay unreachable (length places) 0 _ cs ns local w0).
  - done.
  - intros e He. by apply Hpl.
  - intros e He. destruct (Hpl e He) as (_ & _ & m & Hm & _). change (grid w0) with (grid w). by rewrite Hm.
  - change (pfm_ap w0) with (pfm_ap w). by rewrite Hap.
  - intros j e He. by destruct (Hplaces j e He) as (? & ? & _).
  - intros j Hj. destruct (Hrest j) as [E1 E2]; [lia |]. split; [done |]. by rewrite E2.
  - change (meta_strips (popfile_metadata w0)) with (meta_strips (popfile_metadata w)). rewrite Hst. split; [done |]. intros j e Hj. lia.
  - exact Hn.
  - cbn. rewrite length_replicate. lia.
  - cbn. intros j b Hb. by apply lookup_replicate_1 in Hb as [-> _].
  - intros j e b Hj. lia.
  - intros l bs Hadd Hbs Hopened. twp_steps. split_and!; [done | | done].
    assert (Ec : counted local (length places) = k) by (unfold counted; destruct local; lia). rewrite Ec.
    eapply (created_of_added filename path (offset * 1024) local k (offset * 1024) places bs l w0); try done; intros e He; by apply Hpl.
Qed.

Lemma open_strips_creates filename stripnumber offset local m w :
  creatable filename stripnumber offset local m w →
  wp true (open_strips (I := I) may_write unreachable cwd reread filename stripnumber offset local) (λ r w', match r with
    | inr true => (∃ n places, created filename n (offset * 1024) places w' ∧ n ≤ stripnumber) ∧ files w' = files w
    | _ => True end) w.
Proof.
  intros [Hcl Hst Hnew Hcalls Hname Hpath Hm Hnb Hoff Hnum]. unfold closed in Hcl. pose proof (text_plain_nul _ Hname) as Hnul.
  unfold open_strips. twp_steps. rewrite (proj2 (Z.leb_gt offset 0)) by lia. apply to_long_wp; [lia |]. twp_steps.
  set (w1 := popfile_init_filename filename w). unfold popfile_try_open_parallel at 1. twp_steps.
  change (xml_files w1 !! popfile_metadata_filename w1) with (xml_files w !! metadata_file filename). rewrite Hnew. twp_steps.
  unfold create. rewrite (proj2 (Z.leb_gt stripnumber 0)) by (destruct local; lia). twp_steps.
  assert (Eap : pfm_ap w1 = POPFILE_POPFILEMANAGER_LOCAL) by (change (pfm_ap w1) with (pfm_ap w); by rewrite <- Hcl). rewrite Eap.
  assert (En : popfile_strip_number w1 = 0) by (change (popfile_strip_number w1) with (popfile_strip_number w); by rewrite <- Hcl).
  apply (bind_manager_wp true unreachable); [by exists m |]. intros _. twp_steps.
  assert (Ename : (string_bytes "/tmp/." ++ filename) ++ string_bytes "_strip0" = strip_base filename ++ decimal 0).
  { unfold strip_base. by rewrite <- !app_assoc. }
  rewrite Ename. set (Qlocal := λ (r : exc I + bool) w', match r with
    | inr true => ∃ g1, w' = w1 <| grid := g1 |> ∧ kept (grid w) g1 ∧
        (local = true → may_write POPFILE_POPFILEMANAGER_LOCAL (strip_base filename ++ decimal 0) = true ∧
          ∃ m, managers g1 !! POPFILE_POPFILEMANAGER_LOCAL = Some m ∧ strips m !! (strip_base filename ++ decimal 0) = Some [])
    | _ => True end).
  eapply (wp_mono _ _ Qlocal); cycle 1.
  { destruct local; [|twp_steps; exists (grid w); split_and!; [by destruct w | done | done]].
    apply on_grid_wp. eapply wp_mono; [|apply createStrip_wp]. intros [x|[] ] g1; [done | | done]. intros (Hmay & Hk & Hs).
    exists g1. split_and!; [done | done |]. intros _. split; [done | by apply Hs]. }
  unfold Qlocal. intros [x|[] ] w2; [done | | intros _; by twp_steps]. intros (g1 & -> & Hk1 & Hlocal). set (w2 := w1 <| grid := g1 |>).
  destruct (kept_managers _ _ Hk1 _ _ Hm) as (m1 & Hm1 & Enb).
  set (n0 := counted local 0). eapply twp_bind, (wp_mono _ _ (λ r w', r = inr () ∧ w' = w2 <| popfile_strip_number := n0 |>)); cycle 1.
  { unfold n0, counted. destruct local.
    - unfold to_int. rewrite En, check_int_Ok by done. cbn [tcall]. by twp_steps.
    - twp_steps. split; [done |]. assert (Heta : ∀ x : stream, x = x <| popfile_strip_number := popfile_strip_number x |>) by by intros [].
      rewrite (Heta w2) at 1. change (popfile_strip_number w2) with (popfile_strip_number w1). by rewrite En. }
  intros r w3 (-> & ->). set (w3 := w2 <| popfile_strip_number := n0 |>). cbv beta iota.
  assert (Ecs : (if local then (<[O := POPFILE_POPFILEMANAGER_LOCAL]> (replicate (Z.to_nat stripnumber) ([] : chars)), <[O := strip_base filename ++ decimal 0]> (replicate (Z.to_nat stripnumber) ([] : chars)))
      else (replicate (Z.to_nat stripnumber) [], replicate (Z.to_nat stripnumber) [])) =
    (if local then <[O := POPFILE_POPFILEMANAGER_LOCAL]> (replicate (Z.to_nat stripnumber) []) else replicate (Z.to_nat stripnumber) [],
     if local then <[O := strip_base filename ++ decimal 0]> (replicate (Z.to_nat stripnumber) []) else replicate (Z.to_nat stripnumber) [])) by by destruct local.
  rewrite Ecs. clear Ecs. cbv beta iota. twp_steps. apply on_grid_wp. change (grid w3) with g1.
  eapply wp_mono; [|apply (findResourcesForStrip_finds may_write unreachable _ _ _ _ _ _ g1 m1); try done; try lia].
  - intros [x|[k [cs ns] ] ] g2 Hfound; [done |]. destruct (Z.eqb_spec k 0) as [->|Hk]; [by twp_steps |].
    rewrite <- app_assoc, Enb in Hfound. fold (strip_base filename) in Hfound.
    destruct (places_of filename local stripnumber (pfm_neighbors m) g1 g2 k cs ns) as (Hlp & Hkr & Hlcs & Hpl & Hre); try done; [destruct local; lia |].
    destruct Hfound as (_ & Hk2 & _). destruct (kept_managers _ _ Hk2 _ _ Hm1) as (m2 & Hm2 & _).
    set (w4 := w3 <| grid := g2 |>). fold cwd_path.
    eapply wp_mono; [|apply (add_found_creates filename cwd_path stripnumber offset local k cs ns w4); try done; try lia].
    + intros r w5 (-> & Hcreated & Hfiles). twp_steps. split; [|done]. exists k, (take (Z.to_nat k) (zip cs ns)). split; [done | lia].
    + change (popfile_first_write_pointer w4) with (popfile_first_write_pointer w). by rewrite <- Hcl.
    + change (popfile_total_bytes w4) with (popfile_total_bytes w). by rewrite <- Hcl.
    + change (popfile_current_output_buffer w4) with (popfile_current_output_buffer w). by rewrite <- Hcl.
    + change (grid w4) with g2. rewrite (kept_calls _ _ Hk2), (kept_calls _ _ Hk1). done.
  - destruct local; rewrite ?length_insert, length_replicate; lia.
  - destruct local; rewrite ?length_insert, length_replicate; lia.
  - rewrite elem_of_app. intros [H|H]; [|done]. revert H. by apply (bool_decide_unpack (x00 ∉ string_bytes "/tmp/.")).
Qed.
End Creation.
