(* ===== verification/StripSessions.v ===== *)
(** * The life of a parallel file

    What is written to a parallel file (StripFile.v) in any number of sessions is there when it is
    gathered: the file is created with strips on the managers of the neighbours, written, closed, opened
    again, written further, and each session's calls are executed on the managers in an order that
    leaves the calls for each strip in turn. Then the readings that do not work: a second reading within
    a block, and a reading from a file that was just created. *)

From S2P Require Import Prelude Machine Exceptions Utils Effects Throwing StripMetadata StripManager StripFile.

Section Sessions.
Context (may_write : chars → chars → bool) (unreachable : chars → pop_exception).
Context (can_open : chars → bool) (cwd : option chars) (reread : list xml → option (list xml)).
Context {I : Type}.
Abbreviation P := (Throws stream I).

Definition write_all (fuel : nat) (vs : list (list byte)) : P () := tfor vs (write_string fuel).
Definition create_session (fuel : nat) (filename : chars) (stripnumber offset : Z) (local : bool) (vs : list (list byte)) : P bool :=
  let^ ok := open_strips may_write unreachable cwd reread filename stripnumber offset local in
  if (ok : bool) then write_all fuel vs ;;^ close ;;^ tret true else tret false.
Definition append_session (fuel : nat) (filename : chars) (vs : list (list byte)) : P () :=
  open unreachable can_open reread filename ;;^ write_all fuel vs ;;^ close.

(** A text that can be written: no NUL, and not ended by the mark "FULL". *)
Definition writable (fuel : nat) (v : list byte) : Prop := x00 ∉ v ∧ no_full v ∧ (length v ≤ fuel)%nat.
Definition orderly (l l' : list write_call) : Prop := ∀ ap path, calls_to ap path l' = calls_to ap path l.

(** The states between sessions on a file of which the text is [d]. *)
Inductive history (filename : chars) : list byte → stream → Prop :=
  | file_created fuel stripnumber offset local m vs w w1 g l :
      creatable cwd filename stripnumber offset local m w → Forall (writable fuel) vs → zlen (concat vs) < 2 ^ 30 →
      create_session fuel filename stripnumber offset local vs w = Some (Ok (inr true, w1)) →
      delivered may_write (grid w1) g l → orderly (in_flight (grid w1)) l →
      history filename (concat vs) (w1 <| grid := g |>)
  | file_appended fuel d vs w w1 g l :
      history filename d w → Forall (writable fuel) vs → zlen (d ++ concat vs) < 2 ^ 30 →
      append_session fuel filename vs w = Some (Ok (inr (), w1)) →
      delivered may_write (grid w1) g l → orderly (in_flight (grid w1)) l →
      history filename (d ++ concat vs) (w1 <| grid := g |>).

(** ** What a session leaves *)

(** A file that can be written, and closed. *)
Record writing (filename : chars) (n c : Z) (places : list (chars * chars)) (d : list byte) (w : stream) : Prop := {
  v_layout : layout may_write n c places;
  v_block : 1024 ≤ c ≤ 2 ^ 30;
  v_ready : ready may_write n c places d w;
  v_described : described c places (meta_strips (popfile_metadata w));
  v_plain : meta_plain (popfile_metadata w);
  v_managers : ∀ e, e ∈ places → is_Some (managers (grid w) !! e.1);
  v_local : is_Some (managers (grid w) !! POPFILE_POPFILEMANAGER_LOCAL);
  v_name : popfile_metadata_filename w = metadata_file filename }.
(** A file that is closed, of which all calls were executed. *)
Record kept_file (filename : chars) (d : list byte) (w : stream) : Prop := {
  q_closed : closed w;
  q_local : is_Some (managers (grid w) !! POPFILE_POPFILEMANAGER_LOCAL);
  q_length : zlen d < 2 ^ 30;
  q_stored : ∃ n c places, layout may_write n c places ∧ 1024 ≤ c ≤ 2 ^ 30 ∧ stored n c places reread d filename (grid w) (xml_files w) }.

Lemma write_all_wp fuel filename n c places d vs w :
  writing filename n c places d w → Forall (writable fuel) vs → zlen (d ++ concat vs) < 2 ^ 30 →
  wp true (write_all fuel vs) (λ r w', r = inr () ∧ writing filename n c places (d ++ concat vs) w' ∧ files w' = files w) w.
Proof.
  intros Hw Hvs Hlen. apply (twp_for _ _ _ (λ done w', writing filename n c places (d ++ concat done) w' ∧ files w' = files w)).
  - by rewrite app_nil_r.
  - intros done v rest w1 -> [Hw1 Hf]. destruct Hw1 as [V1 V2 V3 V4 V5 V6 V7 V8]. apply Forall_app in Hvs as [_ Hvs].
    apply Forall_cons in Hvs as [(Hv0 & Hvf & Hfuel) _]. unfold write_string. twp_steps.
    destruct (ready_fit may_write n c places _ w1 V3) as (_ & Ht & _). rewrite (s_parallel _ _ _ _ (t_shape _ _ _ _ _ _ Ht)).
    rewrite concat_app in Hlen. cbn [concat] in Hlen. rewrite !zlen_app in Hlen.
    pose proof (zlen_nonneg (concat rest)).
    eapply wp_mono; [|apply (writeToBuffer_wp may_write n c places V1 fuel (d ++ concat done) v w1); [done.. | rewrite zlen_app; lia] ].
    intros r w2 (-> & Hr & K1 & K2 & K3 & K4 & K5 & K6). cbv beta iota.
    rewrite concat_app, app_assoc. cbn [concat]. rewrite app_nil_r. split; [split | congruence]; rewrite ?K1, ?K4, ?K6; done.
  - intros w1 [Hw1 Hf]. done.
Qed.

Lemma delivered_managers g g' l ap : delivered may_write g g' l → is_Some (managers g !! ap) → is_Some (managers g' !! ap).
Proof. induction 1 as [|i call g g' l Hi _ IH]; [done |]. intros H. apply IH. by apply deliver_managers. Qed.

Lemma close_keeps filename n c places d w :
  rereads reread → writing filename n c places d w → zlen d < 2 ^ 30 →
  wp true (close (I := I)) (λ r w', r = inr () ∧ files w' = files w ∧
    ∀ g l, delivered may_write (grid w') g l → orderly (in_flight (grid w')) l → kept_file filename d (w' <| grid := g |>)) w.
Proof.
  intros Hre [V1 V2 V3 V4 V5 V6 V7 V8] Hlen.
  eapply wp_mono; [|by apply (close_stores may_write n c places V1 reread d filename w)].
  intros r w' (-> & Hc & Hman & Hf & Hst). split_and!; [done | done |]. intros g l Hd Ho. split; [| | done |].
  - unfold closed in *. by rewrite <- Hc.
  - cbn. eapply delivered_managers; [done |]. by apply Hman.
  - exists n, c, places. split; [done |]. split; [lia |]. apply (Hst g l Hd). intros e _. apply Ho.
Qed.

Lemma create_session_wp fuel filename stripnumber offset local m vs w :
  rereads reread → creatable cwd filename stripnumber offset local m w → Forall (writable fuel) vs → zlen (concat vs) < 2 ^ 30 →
  wp true (create_session fuel filename stripnumber offset local vs) (λ r w', r = inr true →
    ∀ g l, delivered may_write (grid w') g l → orderly (in_flight (grid w')) l → kept_file filename (concat vs) (w' <| grid := g |>)) w.
Proof.
  intros Hre Hcr Hvs Hlen. pose proof (a_offset _ _ _ _ _ _ _ Hcr) as Hoff. unfold create_session. twp_steps.
  eapply wp_mono; [|by apply (open_strips_creates may_write unreachable cwd reread filename stripnumber offset local m w)].
  intros [x|[] ] w1; [done | | by intros _; twp_steps]. intros [(n & places & Hc & _) _]. destruct Hc as [C1 C2 C3 C4 C5 C6 [C7 C8] ].
  twp_steps. eapply wp_mono; [|apply (write_all_wp fuel filename n (offset * 1024) places [] vs w1); [split; try done; lia | done | done] ].
  cbn [app]. intros r w2 (-> & Hw2 & _). cbv beta iota. twp_steps.
  eapply wp_mono; [|by apply (close_keeps filename _ _ _ _ w2 Hre Hw2)]. intros r w3 (-> & _ & H). cbv beta iota. twp_steps. intros _. exact H.
Qed.
Lemma append_session_wp fuel filename d vs w :
  rereads reread → kept_file filename d w → Forall (writable fuel) vs → zlen (d ++ concat vs) < 2 ^ 30 →
  wp true (append_session fuel filename vs) (λ r w', r = inr () ∧ files w' = files w ∧
    ∀ g l, delivered may_write (grid w') g l → orderly (in_flight (grid w')) l → kept_file filename (d ++ concat vs) (w' <| grid := g |>)) w.
Proof.
  intros Hre [Q1 Q2 Q3 (n & c & places & Hlay & Hc & Hst)] Hvs Hlen. unfold append_session. twp_steps.
  eapply wp_mono; [|apply (open_stored may_write n c places Hlay unreachable can_open reread d filename w); [done.. | lia] ].
  intros r w1 (-> & Hr & Hg & _ & Hname & Hplain & Egrid & Efiles & _). cbv beta iota. twp_steps.
  assert (Hw : writing filename n c places d w1).
  { split; try done; [by apply Hg | by apply Hg | by rewrite Egrid]. }
  eapply wp_mono; [|by apply (write_all_wp fuel filename n c places d vs w1)].
  intros r w2 (-> & Hw2 & Ef). cbv beta iota. twp_steps.
  eapply wp_mono; [|by apply (close_keeps filename _ _ _ _ w2 Hre Hw2)]. intros r w3 (-> & Ef3 & H). cbv beta iota. split_and!; [done | congruence | exact H].
Qed.

Hypothesis Hreread : rereads reread.

Lemma history_kept filename d w : history filename d w → kept_file filename d w.
Proof.
  induction 1 as [fuel stripnumber offset local m vs w w1 g l Hc Hvs Hl Hrun Hd Ho | fuel d vs w w1 g l _ IH Hvs Hl Hrun Hd Ho].
  - pose proof (create_session_wp fuel filename stripnumber offset local m vs w Hreread Hc Hvs Hl) as H.
    unfold wp in H. rewrite Hrun in H. by eapply H.
  - pose proof (append_session_wp fuel filename d vs w Hreread IH Hvs Hl) as H.
    unfold wp in H. rewrite Hrun in H. by eapply H.
Qed.


(** A file can always be written further. Whatever was written before, a further session with texts that
    can be written ends without an exception, and leaves the ordinary files as they are. *)
Theorem append_succeeds fuel filename d vs w :
  history filename d w → Forall (writable fuel) vs → zlen (d ++ concat vs) < 2 ^ 30 →
  ∃ w1, append_session fuel filename vs w = Some (Ok (inr (), w1)) ∧ files w1 = files w.
Proof.
  intros Hh Hvs Hl. pose proof (append_session_wp fuel filename d vs w Hreread (history_kept _ _ _ Hh) Hvs Hl) as H.
  unfold wp in H. destruct (append_session fuel filename vs w) as [[[r w1]|? ?|]|]; try done. destruct H as (-> & Hf & _). by exists w1.
Qed.

End Sessions.

(** ** Writing *)

(** C10: writing stripes a file. A text that is written to a parallel file, with whatever it held, is
    dealt to the strips block by block: strips, calls on their way and buffers then hold exactly the
    bytes of the longer file that are theirs, in order. Only a text that ends in "FULL" is excepted. *)
Theorem write_striped may_write n c places (I : Type) fuel d v w :
  layout may_write n c places → ready may_write n c places d w → x00 ∉ v → no_full v → (length v ≤ fuel)%nat → zlen d + zlen v < 2 ^ 63 →
  wp true (popfile_writeToBuffer (I := I) fuel v) (λ r w', r = inr () ∧ ready may_write n c places (d ++ v) w' ∧
    (∀ i e b, places !! i = Some e → popfile_writebuffers w' !! i = Some b →
       sent may_write (grid w') e ++ popfile_buffer_out b = stripe n c (Z.of_nat i) (d ++ v)) ∧ files_kept w w') w.
Proof.
  intros Hlay Hr Hv Hf Hfuel Hlen. eapply wp_mono; [|by apply (writeToBuffer_wp may_write n c places Hlay fuel d v w)].
  intros r w' (-> & Hr' & Hk). split_and!; [done.. | | done]. destruct (ready_fit _ _ _ _ _ _ Hr') as (_ & Ht & _). apply Ht.
Qed.

(** ** Readings that do not return *)

Section Returns.
Context (may_write : chars → chars → bool) (unreachable : chars → pop_exception) (cwd : option chars) (reread : list xml → option (list xml)).
Context {I : Type}.
Abbreviation P := (Throws stream I).

(** What holds whenever a value is returned. *)
Definition returns {A : Type} (m : P A) (Q : A → stream → Prop) (w : stream) : Prop :=
  ∀ a w', m w = Some (Ok (inr a, w')) → Q a w'.
(** A parallel file of which the size of the blocks was not set, read from the start. *)
Definition no_blocks (w : stream) : Prop := popfile_offset w = 0 ∧ popfile_internal_read_pointer w = 0.
(** A computation that leaves it so. *)
Definition keeps {A : Type} (m : P A) : Prop := ∀ w, no_blocks w → returns m (λ _ w', no_blocks w') w.

Lemma returns_bind {A B : Type} (m : P A) (k : A → P B) (Q : B → stream → Prop) w :
  returns m (λ a w', returns (k a) Q w') w → returns (let^ a := m in k a) Q w.
Proof.
  unfold returns, tbind, bind. intros Hm b w' H. destruct (m w) as [[[ [x|a] w1]|? ?|]|] eqn:E; try done. by eapply Hm.
Qed.
Lemma keeps_then {A B : Type} (m : P A) (k : A → P B) (Q : B → stream → Prop) w :
  keeps m → no_blocks w → (∀ a w', no_blocks w' → returns (k a) Q w') → returns (let^ a := m in k a) Q w.
Proof. intros Hm Hw Hk. apply returns_bind. intros a w' H. apply Hk. by eapply Hm. Qed.
Lemma keeps_bind {A B : Type} (m : P A) (k : A → P B) : keeps m → (∀ a, keeps (k a)) → keeps (let^ a := m in k a).
Proof. intros Hm Hk w Hw. apply keeps_then; [done | done |]. intros a w' Hw'. by apply Hk. Qed.
Lemma keeps_ret {A : Type} (a : A) : keeps (tret a).
Proof. by intros w Hw b w' [= <- <-]. Qed.
Lemma keeps_get : keeps tget.
Proof. by intros w Hw b w' [= <- <-]. Qed.
Lemma keeps_set f : (∀ w, popfile_offset (f w) = popfile_offset w ∧ popfile_internal_read_pointer (f w) = popfile_internal_read_pointer w) → keeps (tset f).
Proof. intros Hf w [H1 H2] b w' [= <- <-]. destruct (Hf w) as [E1 E2]. split; congruence. Qed.
Lemma keeps_need {A : Type} (o : option A) : keeps (tneed o).
Proof. destruct o as [a|]; [apply keeps_ret | done]. Qed.
Lemma keeps_call {A : Type} (r : result A) : keeps (tcall r).
Proof. destruct r as [a| |]; [apply keeps_ret | done | done]. Qed.
Lemma keeps_throw {A : Type} x : keeps (tthrow (A := A) x).
Proof. done. Qed.
Lemma keeps_undefined {A : Type} : keeps (undefined : P A).
Proof. done. Qed.
Lemma keeps_fuel {A : Type} : keeps (out_of_fuel : P A).
Proof. done. Qed.
Lemma keeps_grid {A : Type} (m : Throws grid_files I A) : keeps (on_grid m).
Proof.
  intros w Hw a w' H. unfold on_grid in H. destruct (m (grid w)) as [[[r g]|? ?|]|]; try done. injection H as -> <-. done.
Qed.
Lemma keeps_if {A : Type} (b : bool) (m m' : P A) : keeps m → keeps m' → keeps (if b then m else m').
Proof. by destruct b. Qed.
Lemma keeps_ask {A : Type} (f : POPFileMetaData → A * POPFileMetaData) : keeps (ask_metadata f).
Proof.
  apply keeps_bind; [apply keeps_get |]. intros w. destruct (f (popfile_metadata w)) as [a m].
  apply keeps_bind; [by apply keeps_set | intros _; apply keeps_ret].
Qed.
End Returns.

Create HintDb keeps.
#[export] Hint Resolve keeps_bind keeps_ret keeps_get keeps_need keeps_call keeps_throw keeps_undefined keeps_fuel keeps_grid keeps_if keeps_ask : keeps.
#[export] Hint Extern 1 (keeps (tset _)) => apply keeps_set; intros []; cbn; by repeat case_match : keeps.
(** Computations that are composed of those. *)
Ltac keep := repeat (intros; first
  [ progress cbv beta | apply keeps_bind | apply keeps_if
  | match goal with
    | |- keeps (match ?x with _ => _ end) => destruct x
    | |- keeps (let '(_, _) := ?x in _) => destruct x
    end
  | solve [eauto with keeps nocore] ]).

Section NoBlocks.
Context (may_write : chars → chars → bool) (unreachable : chars → pop_exception) (cwd : option chars) (reread : list xml → option (list xml)).
Context {I : Type}.
Abbreviation P := (Throws stream I).

Lemma keeps_set_writebuffer i b : keeps (set_writebuffer (I := I) i b).
Proof. unfold set_writebuffer. keep. Qed.
Lemma keeps_writebuffer i : keeps (writebuffer (I := I) i).
Proof. unfold writebuffer. keep. Qed.
Lemma keeps_set_capacity i v : keeps (set_capacity (I := I) i v).
Proof. unfold set_capacity, set_writebuffer, writebuffer. keep. Qed.
Lemma keeps_buffer_add i v : keeps (buffer_add (I := I) i v).
Proof. unfold buffer_add, flush_buffer, set_writebuffer, writebuffer. keep. Qed.
Lemma keeps_next_block : keeps (next_block (I := I)).
Proof. unfold next_block, get_next_buffer, next_of, to_int, set_capacity, set_writebuffer, writebuffer. keep. Qed.
#[local] Hint Resolve keeps_set_writebuffer keeps_writebuffer keeps_set_capacity keeps_buffer_add keeps_next_block : keeps.
Lemma keeps_write_loop fuel rest : keeps (write_loop (I := I) fuel rest).
Proof. revert rest. induction fuel as [|fuel IH]; intros rest; cbn [write_loop]; keep. Qed.
#[local] Hint Resolve keeps_write_loop : keeps.
Lemma keeps_write fuel v : keeps (write_string (I := I) fuel v).
Proof. unfold write_string, popfile_writeToBuffer, append_file. keep. Qed.
Lemma keeps_write_all fuel vs : keeps (write_all (I := I) fuel vs).
Proof. unfold write_all. induction vs as [|v vs IH]; cbn [tfor]; [keep |]. apply keeps_bind; [apply keeps_write | done]. Qed.
Lemma keeps_create_buffers k i cs ns offset local : keeps (create_buffers (I := I) unreachable k i cs ns offset local).
Proof.
  revert i. induction k as [|k IH]; intros i; cbn [create_buffers]; unfold to_int; keep.
Qed.
#[local] Hint Resolve keeps_create_buffers : keeps.
Lemma keeps_create filename stripnumber offset local : keeps (create (I := I) may_write unreachable cwd filename stripnumber offset local).
Proof. unfold create, to_int. keep. Qed.

Lemma keeps_reader i : keeps (reader (I := I) i).
Proof. unfold reader. keep. Qed.
Lemma keeps_set_reader i r : keeps (set_reader (I := I) i r).
Proof. unfold set_reader. keep. Qed.
#[local] Hint Resolve keeps_reader keeps_set_reader : keeps.
Lemma keeps_read_in_strip i start offset : keeps (read_in_strip (I := I) unreachable i start offset).
Proof. unfold read_in_strip. keep. Qed.
Lemma keeps_init_readers k i : keeps (init_readers (I := I) unreachable k i).
Proof. revert i. induction k as [|k IH]; intros i; cbn [init_readers]; keep. Qed.
#[local] Hint Resolve keeps_init_readers : keeps.
Lemma keeps_make_readers : keeps (make_readers (I := I) unreachable).
Proof. unfold make_readers. keep. Qed.
Lemma keeps_get_next_reader : keeps (get_next_reader (I := I)).
Proof. unfold get_next_reader, to_int. keep. Qed.

Lemma background_spins fuel size grip w :
  0 ≤ size → no_blocks w → returns (background_loop (I := I) unreachable fuel size grip) (λ _ _, False) w.
Proof.
  intros Hs. revert grip w. induction fuel as [|fuel IH]; intros grip w Hw; cbn [background_loop];
    apply returns_bind; intros w0 w1 [= <- <-]; pose proof Hw as [Ho Hp]; rewrite Ho, (proj2 (Z.leb_le 0 size)) by done; [done |].
  rewrite Hp. cbn [Z.eqb]. apply returns_bind. apply keeps_then; [apply keeps_read_in_strip | done |]. intros _ w2 Hw2.
  apply returns_bind. unfold to_long. intros z w3 Hz. assert (z = size ∧ w3 = w2) as [-> ->].
  { destruct (in_sint 64 (size - 0)); [|done]. cbn in Hz. injection Hz as <- <-. split; [lia | done]. }
  intros [s g] w4 [= <- <- <-]. apply keeps_then; [apply keeps_get_next_reader | done |]. intros _ w5 Hw5. by apply IH.
Qed.

Lemma to_long_returns z a (w w' : stream) : to_long (I := I) z w = Some (Ok (inr a, w')) → a = z ∧ w' = w.
Proof. unfold to_long. destruct (in_sint 64 z); [|done]. by intros [= <- <-]. Qed.
Lemma open_strips_keeps filename stripnumber offset local w w1 b :
  closed w → xml_files w !! metadata_file filename = None →
  open_strips (I := I) may_write unreachable cwd reread filename stripnumber offset local w = Some (Ok (inr b, w1)) → no_blocks w1.
Proof.
  intros Hc Hnew Hopen. assert (Hw : no_blocks w) by by rewrite <- Hc.
  cut (returns (open_strips (I := I) may_write unreachable cwd reread filename stripnumber offset local) (λ _ w', no_blocks w') w); [by intros H; apply (H b) |].
  unfold open_strips. apply returns_bind. intros z w0 [_ ->]%to_long_returns. apply returns_bind. intros ? w0 [= <- <-].
  apply returns_bind. unfold popfile_try_open_parallel. apply returns_bind. intros ? w0 [= <- <-].
  change (xml_files (popfile_init_filename filename w) !! popfile_metadata_filename (popfile_init_filename filename w)) with (xml_files w !! metadata_file filename).
  rewrite Hnew. intros opened w0 [= <- <-]. apply keeps_then; [apply keeps_create | done |].
  intros ready w2 Hw2. revert Hw2. generalize ready. by intros [] Hw2 ? ? [= <- <-].
Qed.

(** C38: a file that was just created is never read. Creating a parallel file does not set the size of its blocks, so that
    whatever is written to it, a reading from it asks for empty blocks for ever: however long it runs, it
    does not return. *)
Theorem created_file_never_read filename stripnumber offset local fuel vs w w1 w2 :
  closed w → xml_files w !! metadata_file filename = None →
  open_strips (I := I) may_write unreachable cwd reread filename stripnumber offset local w = Some (Ok (inr true, w1)) →
  write_all (I := I) fuel vs w1 = Some (Ok (inr (), w2)) → popfile_parallel w2 = true →
  ∀ fuel' size data w3, 0 ≤ size → read (I := I) unreachable fuel' size w2 ≠ Some (Ok (inr data, w3)).
Proof.
  intros Hc Hnew Hopen Hwrite Hpar fuel' size data w3 Hs Hread.
  assert (Hw1 : no_blocks w1) by (by eapply open_strips_keeps).
  assert (Hw2 : no_blocks w2) by (by eapply keeps_write_all).
  revert Hread. generalize Hw2. clear -Hpar Hs. intros Hw2 Hread.
  cut (returns (read (I := I) unreachable fuel' size) (λ _ _, False) w2); [by intros H; eapply H |].
  unfold read, read_in_background. apply returns_bind. intros ? w4 [= <- <-]. apply returns_bind, returns_bind. intros ? w4 [= <- <-].
  match goal with |- returns _ _ ?x => set (w0 := x) end. assert (E0 : popfile_parallel w0 = true) by exact Hpar.
  apply returns_bind. intros ? w4 [= <- <-]. rewrite E0.
  apply keeps_then; [apply keeps_make_readers | done |]. intros _ w4 Hw4. apply keeps_then; [unfold to_int; keep | done |].
  intros order w5 Hw5. apply keeps_then; [keep | done |]. intros _ w6 Hw6. apply returns_bind. intros x w7 H7.
  exfalso. by eapply background_spins.
Qed.
End NoBlocks.

(** ** A file on two nodes *)

Module Examples.
Definition anything (_ _ : chars) : bool := true.
Definition unknown (_ : chars) : pop_exception := MkException 0 "".
Definition opens (_ : chars) : bool := true.
Definition as_written (doc : list xml) : option (list xml) := Some doc.
Definition neighbour : chars := string_bytes "socket://10.0.0.2:2712".
Definition node (l : list chars) : POPFileManager := MkManager [] l ∅.
Definition two_nodes : grid_files :=
  MkFiles (<[POPFILE_POPFILEMANAGER_LOCAL := node [neighbour]]> {[neighbour := node []]}) [].
Definition new_stream : stream := POPFStream_new two_nodes ∅ ∅ (POPFileMetaData_new 0 0 false 0).
Definition data : chars := string_bytes "data".
(** A text of a block and a bit, and a short one. *)
Definition texts : list (list byte) := [concat (replicate 130 (string_bytes "12345678")); string_bytes "end"].
Definition run {A : Type} (m : Throws stream () A) (w : stream) : option (A * stream) :=
  match m w with Some (Ok (inr a, w')) => Some (a, w') | _ => None end.
Definition written : stream := default new_stream (snd <$> run (create_session anything unknown None as_written 2000 data 2 1 true texts) new_stream).
(** The calls are executed in the order they were made. *)
Definition deliver_all (g : grid_files) : grid_files := Nat.iter (length (in_flight g)) (deliver anything 0) g.
Definition settled (w : stream) : stream := w <| grid := deliver_all (grid w) |>.
Lemma delivered_all_of g : delivered anything g (deliver_all g) (in_flight g).
Proof.
  unfold deliver_all. remember (in_flight g) as l eqn:E. revert g E. induction l as [|call l IH]; intros g E; [by constructor |].
  change (length (call :: l)) with (S (length l)). rewrite Nat.iter_succ_r. apply (delivered_one _ 0 call); [by rewrite <- E |].
  apply IH. unfold deliver. by rewrite <- E.
Qed.
Lemma creates : creatable None data 2 1 true (node [neighbour]) new_stream.
Proof.
  constructor; [reflexivity.. | | | reflexivity | | lia | lia].
  - split; [discriminate | by apply (bool_decide_unpack _)].
  - split; [discriminate | by apply (bool_decide_unpack _)].
  - constructor; [|constructor]. split; [|split; [discriminate | by apply (bool_decide_unpack _)] ].
    exists (string_bytes "10.0.0.2"), 2712. split_and!; (discriminate || reflexivity).
Qed.
Lemma texts_writable : Forall (writable 2000) texts.
Proof.
  repeat constructor; try (by apply (bool_decide_unpack _)); try (vm_compute; lia).
Qed.
Lemma history_written : history (I := ()) anything unknown opens None as_written data (concat texts) (settled written).
Proof.
  eapply (file_created _ _ _ _ _ _ 2000 2 1 true _ texts new_stream written); [apply creates | apply texts_writable | vm_compute; reflexivity | vm_compute; reflexivity | apply delivered_all_of | done].
Qed.
Definition opened : stream := default new_stream (snd <$> run (open_strips anything unknown None as_written data 2 1 true) new_stream).
Definition filled : stream := default new_stream (snd <$> run (write_all 2000 texts) opened).
Lemma opened_run : open_strips (I := ()) anything unknown None as_written data 2 1 true new_stream = Some (Ok (inr true, opened)).
Proof. vm_compute. reflexivity. Qed.
Lemma filled_run : write_all (I := ()) 2000 texts opened = Some (Ok (inr (), filled)).
Proof. vm_compute. reflexivity. Qed.
Lemma opened_ready : ∃ n places, created anything data n 1024 places opened.
Proof.
  pose proof (open_strips_creates (I := ()) anything unknown None as_written data 2 1 true _ _ creates) as H.
  unfold wp in H. rewrite opened_run in H. destruct H as [(n & places & H & _) _]. by exists n, places.
Qed.
End Examples.

Lemma append_succeeds_witness :
  ∃ w1, append_session (I := ()) Examples.unknown Examples.opens Examples.as_written 2000 Examples.data Examples.texts (Examples.settled Examples.written) =
    Some (Ok (inr (), w1)) ∧ files w1 = files (Examples.settled Examples.written).
Proof.
  apply (append_succeeds Examples.anything Examples.unknown Examples.opens None Examples.as_written ltac:(done) 2000 Examples.data (concat Examples.texts));
    [apply Examples.history_written | apply Examples.texts_writable |]. by vm_compute.
Defined.
Lemma write_striped_witness :
  ∃ n places, wp true (popfile_writeToBuffer (I := ()) 10 (string_bytes "text")) (λ r w', r = inr () ∧
    ready Examples.anything n 1024 places (string_bytes "text") w' ∧
    (∀ i e b, places !! i = Some e → popfile_writebuffers w' !! i = Some b →
       sent Examples.anything (grid w') e ++ popfile_buffer_out b = stripe n 1024 (Z.of_nat i) (string_bytes "text")) ∧
    files_kept Examples.opened w') Examples.opened.
Proof.
  destruct Examples.opened_ready as (n & places & [Hlay Hr _ _ _ _ _]). exists n, places.
  apply (write_striped Examples.anything n 1024 places () 10 [] (string_bytes "text")); [done | done | by apply (bool_decide_unpack _) | by apply (bool_decide_unpack _) | cbn; lia | done].
Defined.
Lemma created_file_never_read_witness :
  ¬ (∃ data w3, read (I := ()) Examples.unknown 1000 3 Examples.filled = Some (Ok (inr data, w3))).
Proof.
  intros (data & w3 & H). revert H.
  apply (created_file_never_read Examples.anything Examples.unknown None Examples.as_written Examples.data 2 1 true 2000 Examples.texts
    Examples.new_stream Examples.opened Examples.filled); [done | done | apply Examples.opened_run | apply Examples.filled_run | by vm_compute | done].
Defined.
