(* ===== verification/ComboxSocket.v ===== *)
(** * Communication boxes over sockets

    [pop_combox], [pop_connection] (lib/core/combox.cc) and [pop_combox_socket]
    (lib/core/combox_socket.cc), the Linux functions. A box is a client, with one connection to its
    peer, or a server: it polls its listening socket and the sockets of its connections, accepts
    new connections and hands out, one at a time, those that have something to read. The system
    calls are a parameter, the record [kernel]; connections are objects of the heap, so that a
    connection that was deleted cannot be used; the null pointer is 0. *)

From S2P Require Import Prelude Machine Exceptions Utils Effects.
From S2P Require ObjectDescription.

(** ** The system *)
Definition POLLIN : Z := 1.
Definition POLLOUT : Z := 4.
Definition EINTR : Z := 4.
Definition EIO : Z := 5.
Definition EDESTADDRREQ : Z := 89.
Definition ETIMEDOUT : Z := 110.
Definition EINPROGRESS : Z := 115.
Definition ECANCELED : Z := 125.
Definition SOL_SOCKET : Z := 1.
Definition SO_REUSEADDR : Z := 2.
Definition SO_ERROR : Z := 4.
Definition O_NONBLOCK : Z := 2048.
Definition ACK_NOT_RECEIVED : Z := USER_DEFINE_ERROR + 15.

Record pollfd : Type := MkPoll { fd : Z; events : Z; revents : Z }.
#[export] Instance pollfd_eta : Eta pollfd := λ p, MkPoll (fd p) (events p) (revents p).

(** The calls of the program. A call that fails answers -1 and sets [errno]; [poll] gives the
    returned events of its array too, [read] the bytes it stored. *)
Record kernel (K : Type) : Type := {
  errno : K → Z;
  set_errno : Z → K → K;
  popc_socket : K → Z * K;
  setsockopt : Z → Z → Z → list byte → K → Z * K;
  getsockopt : Z → Z → Z → K → Z * Z * K;
  popc_bind : Z → Z → K → Z * K;
  popc_listen : Z → Z → K → Z * K;
  popc_accept : Z → K → Z * K;
  gethostbyname : chars → K → option Z * K;
  popc_inet_addr : chars → Z;
  popc_connect : Z → Z → Z → K → Z * K;
  fcntl_getfl : Z → K → Z * K;
  fcntl_setfl : Z → Z → K → Z * K;
  getsockname_port : Z → K → Z;
  poll : list pollfd → Z → K → Z * list Z * K;
  sys_read : Z → Z → K → Z * list byte * K;
  sys_write : Z → list byte → K → Z * K;
  popc_close : Z → K → K }.
Arguments errno {K}. Arguments set_errno {K}. Arguments popc_socket {K}. Arguments setsockopt {K}.
Arguments getsockopt {K}. Arguments popc_bind {K}. Arguments popc_listen {K}. Arguments popc_accept {K}.
Arguments gethostbyname {K}. Arguments popc_inet_addr {K}. Arguments popc_connect {K}.
Arguments fcntl_getfl {K}. Arguments fcntl_setfl {K}. Arguments getsockname_port {K}. Arguments poll {K}.
Arguments sys_read {K}. Arguments sys_write {K}. Arguments popc_close {K}.

(** ** Connections and boxes *)

(** [F] are the buffer factories. *)
Record connection (F : Type) : Type := MkConnection { conn_fd : Z; conn_fact : F }.
Arguments MkConnection {F}. Arguments conn_fd {F}. Arguments conn_fact {F}.
#[export] Instance connection_eta {F : Type} : Eta (connection F) := λ c, MkConnection (conn_fd c) (conn_fact c).

(** A box, with the process it is in: the system, the connections of the heap and the next address,
    and what the callbacks of the box work on ([cbdata]). *)
Record world (K F T : Type) : Type := MkWorld {
  sockfd : Z;
  isServer : bool;
  isCanceled : bool;
  pollarray : list pollfd;
  peer : Z;
  connarray : list Z;
  index : Z;
  nready : Z;
  timeout : Z;
  on_new : option (Z → T → bool * T);      (* cblist[COMBOX_NEW] *)
  on_close : option (Z → T → bool * T);    (* cblist[COMBOX_CLOSE] *)
  defaultFact : F;
  kern : K;
  conns : gmap Z (connection F);
  next : Z;
  cbdata : T }.
Arguments MkWorld {K F T}. Arguments sockfd {K F T}. Arguments isServer {K F T}.
Arguments isCanceled {K F T}. Arguments pollarray {K F T}. Arguments peer {K F T}.
Arguments connarray {K F T}. Arguments index {K F T}. Arguments nready {K F T}.
Arguments timeout {K F T}. Arguments on_new {K F T}. Arguments on_close {K F T}.
Arguments defaultFact {K F T}. Arguments kern {K F T}. Arguments conns {K F T}.
Arguments next {K F T}. Arguments cbdata {K F T}.
#[export] Instance world_eta {K F T : Type} : Eta (world K F T) := λ w,
  MkWorld (sockfd w) (isServer w) (isCanceled w) (pollarray w) (peer w) (connarray w) (index w)
    (nready w) (timeout w) (on_new w) (on_close w) (defaultFact w) (kern w) (conns w) (next w)
    (cbdata w).

(** [pop_combox::pop_combox] and [pop_combox_socket::pop_combox_socket]. *)
Definition combox_new {K F T : Type} (xdr : F) (k : K) (t : T) : world K F T :=
  MkWorld (-1) false false [] 0 [] 0 0 (-1) None None xdr k ∅ 1 t.

Section Combox.
Context {K F T : Type} (os : kernel K).
#[local] Abbreviation W := (world K F T).
#[local] Abbreviation P := (Effects.P W).

Definition sys {A : Type} (call : K → A * K) : P A := λ w,
  let '(a, k) := call (kern w) in Some (Ok (a, w <| kern := k |>)).
Definition set_err (e : Z) : P () := modify (λ w, w <| kern := set_errno os e (kern w) |>).
Definition interrupted (w : W) : bool := errno os (kern w) =? EINTR.

(** *** [pop_connection] *)
Definition connection_of (a : Z) : P (connection F) := let? w := get in need (conns w !! a).
Definition new_connection (c : connection F) : P Z := λ w,
  Some (Ok (next w, w <| conns := <[next w := c]> (conns w) |> <| next := next w + 1 |>)).
(** [delete]; nothing for a null pointer. *)
Definition delete_connection (a : Z) : P () :=
  if a =? 0 then ret ()
  else connection_of a ;;? modify (λ w, w <| conns := delete a (conns w) |>).

(** [pop_connection_sock(int fd, pop_combox* cb)]. *)
Definition CreateConnection (fd : Z) : P Z :=
  let? w := get in new_connection (MkConnection fd (defaultFact w)).
Definition Clone (a : Z) : P Z :=
  let? c := connection_of a in new_connection (MkConnection (conn_fd c) (conn_fact c)).
Definition SetBufferFactory (f : F) (a : Z) : P () :=
  let? c := connection_of a in
  modify (λ w, w <| conns := <[a := c <| conn_fact := f |>]> (conns w) |>).

(** *** [pop_combox] *)
Definition SetTimeout (millisec : Z) : P () := modify (λ w, w <| timeout := millisec |>).
Definition callback (cb : option (Z → T → bool * T)) (conn : Z) : P bool :=
  match cb with
  | None => ret true
  | Some cb => λ w, let '(r, t) := cb conn (cbdata w) in Some (Ok (r, w <| cbdata := t |>))
  end.
Definition OnNewConnection (conn : Z) : P bool := let? w := get in callback (on_new w) conn.
Definition OnCloseConnection (conn : Z) : P bool := let? w := get in callback (on_close w) conn.
(** [SetCallback]: 0 is [COMBOX_NEW], 1 [COMBOX_CLOSE]. *)
Definition SetCallback (ev : Z) (cb : Z → T → bool * T) : P bool :=
  if (ev <? 0) || (2 <=? ev) then ret false
  else modify (λ w, if ev =? 0 then w <| on_new := Some cb |> else w <| on_close := Some cb |>) ;;?
       ret true.

(** *** [pop_combox_socket]: creation and connection *)
Definition popc_htons (port : Z) : Z := uwrap 16 port.

(** [sockaddr_in] as the bytes [SetOpt] is given: the family [AF_INET], the port in network order,
    the address [INADDR_ANY] and the padding. *)
Definition sockaddr_in (port : Z) : list byte := le_bytes 2 2 ++ be_bytes 2 port ++ replicate 12 x00.
Definition SetOpt (level opt : Z) (buf : list byte) : P Z :=
  let? w := get in sys (setsockopt os (sockfd w) level opt buf).

(** [resize], with null pointers. *)
Definition resize_conns (n : nat) : P () := modify (λ w,
  w <| connarray := take n (connarray w) ++ replicate (n - length (connarray w)) 0 |>).
Definition set_conn (i : nat) (a : Z) : P () := modify (λ w, w <| connarray := <[i := a]> (connarray w) |>).

Fixpoint close_each (fd0 : Z) (i : nat) (ps : list pollfd) : P () :=
  match ps with
  | [] => ret ()
  | p :: ps' =>
      let? w := get in
      let? a := need (connarray w !! i) in
      (if negb (fd0 =? fd p) then OnCloseConnection a ;;? ret () else ret ()) ;;?
      sys (λ k, ((), popc_close os (fd p) k)) ;;?
      delete_connection a ;;?
      close_each fd0 (S i) ps'
  end.

Definition Close : P () :=
  let? w := get in
  let fd0 := sockfd w in
  modify (λ w, w <| sockfd := -1 |> <| nready := 0 |> <| index := -1 |>) ;;?
  if isServer w then
    close_each fd0 0 (pollarray w) ;;?
    modify (λ w, w <| pollarray := [] |> <| connarray := [] |>)
  else
    (if negb (peer w =? 0) then
       OnCloseConnection (peer w) ;;? delete_connection (peer w) ;;?
       modify (λ w, w <| peer := 0 |>)
     else ret ()) ;;?
    if 0 <=? fd0 then sys (λ k, ((), popc_close os fd0 k)) else ret ().

Definition Create (port : Z) (server : bool) : P bool :=
  Close ;;?
  modify (λ w, w <| isServer := server |>) ;;?
  let? s := sys (popc_socket os) in
  modify (λ w, w <| sockfd := s |>) ;;?
  if s <? 0 then ret false
  else
    let? bound :=
      if 0 <? port then
        SetOpt SOL_SOCKET SO_REUSEADDR (sockaddr_in (popc_htons port)) ;;?
        let? r := sys (popc_bind os s (popc_htons port)) in ret (r =? 0)
      else ret true in
    if negb bound then ret false
    else if server then
      modify (λ w, w <| pollarray := [MkPoll s POLLIN 0] |> <| index := 1 |> <| nready := 0 |>) ;;?
      resize_conns 1 ;;?
      let? a := CreateConnection s in
      set_conn 0 a ;;?
      let? r := sys (popc_listen os s 10) in ret (r =? 0)
    else
      let? a := CreateConnection (-1) in
      modify (λ w, w <| peer := a |>) ;;? ret true.

(** [Connect(host, port)]. *)
Definition wait_connected (fuel : nat) : P (Z * Z) :=
  let? w := get in
  let? t := retry fuel (λ t w, (t =? -1) && interrupted w)
              (sys (λ k, let '(t, _, k) := poll os [MkPoll (sockfd w) POLLOUT 0] (timeout w) k in (t, k))) in
  if negb (t =? 1) then ret (-1, ETIMEDOUT)
  else
    let? r := sys (λ k, let '(r, err, k) := getsockopt os (sockfd w) SOL_SOCKET SO_ERROR k in ((r, err), k)) in
    if r.1 =? 0 then ret (if r.2 =? 0 then 0 else -1, r.2)
    else let? w := get in ret (-1, errno os (kern w)).

Definition Connect_host (fuel : nat) (host : chars) (port : Z) : P bool :=
  let? phe := sys (gethostbyname os host) in
  let sin_addr := match phe with Some addr => addr | None => popc_inet_addr os host end in
  if bool_decide (phe = None) && (swrap 32 sin_addr =? -1) then ret false
  else
    let? w := get in
    if timeout w <=? 0 then
      let? r := sys (popc_connect os (sockfd w) sin_addr (popc_htons port)) in ret (r =? 0)
    else
      let? flag := sys (fcntl_getfl os (sockfd w)) in
      sys (fcntl_setfl os (sockfd w) (Z.lor flag O_NONBLOCK)) ;;?
      let? r := sys (popc_connect os (sockfd w) sin_addr (popc_htons port)) in
      let? w := get in
      let? res := if (r =? -1) && (errno os (kern w) =? EINPROGRESS) then wait_connected fuel
                  else ret (r, errno os (kern w)) in
      sys (fcntl_setfl os (sockfd w) flag) ;;?
      (if negb (res.1 =? 0) then set_err res.2 else ret ()) ;;?
      ret (res.1 =? 0).

(** The host and the port of a URL: [sscanf("%d")] of what follows the colon. *)
Definition scan_int (s : chars) : result (option Z) :=
  let s := skip_blanks s in
  let digits := match s with c :: s' => if decide (c = x2d ∨ c = x2b) then s' else s | [] => [] end in
  match digits with
  | c :: _ => if isdigit c then let! n := atoi s in Ok (Some n) else Ok None
  | [] => Ok None
  end.
Definition socket_prefix : chars := string_bytes "socket://".
Definition parse_url (url : chars) : result (option (chars * Z)) :=
  let url := skip_blanks url in
  let host := if decide (take 9 url = socket_prefix) then drop 9 url else url in
  match ObjectDescription.strchr x3a host with
  | None => Ok None
  | Some (host, rest) => let! port := scan_int rest in Ok ((λ port, (host, port)) <$> port)
  end.

(** [Connect(url)]; a URL that is null is [None]. *)
Definition Connect (fuel : nat) (url : option chars) : P bool :=
  match url with
  | None => set_err EDESTADDRREQ ;;? ret false
  | Some url =>
      let? hp := lift (parse_url url) in
      match hp with
      | None => ret false
      | Some (host, port) =>
          let? r := Connect_host fuel host port in
          if (r : bool) then
            let? w := get in
            let? c := connection_of (peer w) in
            modify (λ w', w' <| conns := <[peer w := c <| conn_fd := sockfd w |>]> (conns w') |>) ;;?
            ret true
          else ret false
      end
  end.

Definition GetPort : P Z := let? w := get in ret (getsockname_port os (sockfd w) (kern w)).
(** [GetHost] is of the system (lib/dynamic/system.cc). *)
Definition GetUrl (GetHost : chars) : P chars :=
  let? port := GetPort in ret (socket_prefix ++ GetHost ++ x3a :: digits_of 10 port []).

(** *** Waiting for a connection with something to read *)

(** [poll] on all sockets of a server. *)
Definition set_revents (ps : list pollfd) (rs : list Z) : list pollfd :=
  imap (λ i p, p <| revents := default (revents p) (rs !! i) |>) ps.
Definition poll_all : P Z := λ w,
  let '(n, rs, k) := poll os (pollarray w) (timeout w) (kern w) in
  Some (Ok (n, w <| kern := k |> <| pollarray := set_revents (pollarray w) rs |>
                 <| index := zlen (pollarray w) - 1 |> <| nready := n |>)).

(** A new connection; [true] when [Wait] goes on. *)
Definition accept_connection (fuel : nat) : P bool :=
  let? w := get in
  let? s := retry fuel (λ s w, (s <? 0) && interrupted w) (sys (popc_accept os (sockfd w))) in
  if s <? 0 then ret false
  else
    let n := length (pollarray w) in
    modify (λ w, w <| pollarray := pollarray w ++ [MkPoll s POLLIN 0] |>) ;;?
    resize_conns (S n) ;;?
    let? a := CreateConnection s in
    set_conn n a ;;?
    OnNewConnection a.

(** The loop over the ready sockets, from [index] down: [Some] connection, or null, is returned;
    after [None] the server polls again. [i] is the number of sockets that are left. *)
Fixpoint scan (fuel : nat) (i : nat) : P (option Z) :=
  match i with
  | O => ret None
  | S j =>
      let? w := get in
      let? p := need (pollarray w !! j) in
      if revents p =? 0 then scan fuel j
      else
        modify (λ w, w <| nready := nready w - 1 |> <| index := Z.of_nat j - 1 |>
                       <| pollarray := <[j := p <| revents := 0 |>]> (pollarray w) |>) ;;?
        match j with
        | O => let? ok := accept_connection fuel in ret (if (ok : bool) then None else Some 0)
        | S _ => let? w := get in let? a := need (connarray w !! j) in ret (Some a)
        end
  end.

Fixpoint wait_server (fuel : nat) : P Z :=
  match fuel with
  | O => out_of_fuel
  | S fuel' =>
      let? w := get in
      let? r := if 0 <? nready w then scan fuel (Z.to_nat (index w + 1)) else ret None in
      match r with
      | Some a => ret a
      | None =>
          let? n := retry fuel (λ n w, (n <? 0) && interrupted w && (0 <=? sockfd w)) poll_all in
          if n <=? 0 then (if n =? 0 then set_err ETIMEDOUT else ret ()) ;;? ret 0
          else wait_server fuel'
      end
  end.

Definition wait_client (fuel : nat) : P Z :=
  let? w := get in
  if 0 <=? timeout w then
    let? t := retry fuel (λ t w, (t =? -1) && interrupted w)
                (sys (λ k, let '(t, _, k) := poll os [MkPoll (sockfd w) POLLIN 0] (timeout w) k in (t, k))) in
    if t <=? 0 then (if t =? 0 then set_err ETIMEDOUT else ret ()) ;;? ret 0
    else let? w := get in ret (peer w)
  else ret (peer w).

Definition Wait (fuel : nat) : P Z :=
  let? w := get in
  if (sockfd w <? 0) || isCanceled w then modify (λ w, w <| isCanceled := false |>) ;;? ret 0
  else if isServer w then wait_server fuel else wait_client fuel.

(** *** The end of a connection *)
Definition CloseSock (fd0 : Z) : P bool :=
  let? w := get in
  if isServer w then
    match list_find (λ p, fd p = fd0) (pollarray w) with
    | Some (i, _) =>
        let? a := need (connarray w !! i) in
        let? ok := OnCloseConnection a in
        modify (λ w, w <| isCanceled := negb ok |>) ;;?
        delete_connection a ;;?
        modify (λ w, w <| connarray := delete i (connarray w) |>
                       <| pollarray := delete i (pollarray w) |>) ;;?
        (if ok then ret () else set_err ECANCELED) ;;?
        sys (λ k, ((), popc_close os fd0 k)) ;;?
        ret ok
    | None => ret false
    end
  else if negb (peer w =? 0) && (fd0 =? sockfd w) then
    modify (λ w, w <| isCanceled := true |>) ;;?
    sys (λ k, ((), popc_close os fd0 k)) ;;?
    modify (λ w, w <| sockfd := -1 |>) ;;? ret true
  else ret false.

(** *** Sending and receiving *)

(** [while (len > 0) { n = write(fd, s, len); ... }]. *)
Fixpoint send_loop (fuel : nat) (fd0 : Z) (s : list byte) (count : Z) : P Z :=
  match s with
  | [] => ret count
  | _ =>
      match fuel with
      | O => out_of_fuel
      | S fuel' =>
          let? n := sys (sys_write os fd0 s) in
          if 0 <? n then send_loop fuel' fd0 (drop (Z.to_nat n) s) (count + n)
          else
            let? w := get in
            if interrupted w then send_loop fuel' fd0 s count else ret count
      end
  end.

Definition Send (fuel : nat) (s : list byte) : P Z := let? w := get in send_loop fuel (sockfd w) s 0.

Definition Send_conn (fuel : nat) (s : list byte) (conn : Z) : P Z :=
  if conn =? 0 then Send fuel s
  else
    let? c := connection_of conn in
    if conn_fd c <? 0 then ret (-1) else send_loop fuel (conn_fd c) s 0.

Definition read_retry (fuel : nat) (failed : Z → bool) (fd0 len : Z) : P (Z * list byte) :=
  retry fuel (λ r w, failed r.1 && interrupted w)
    (sys (λ k, let '(n, bs, k) := sys_read os fd0 len k in ((n, bs), k))).

(** The outer loops, a turn for each connection that is closed, or read that fails. *)
Fixpoint recv_any (fuel : nat) (len : Z) : P (Z * list byte) :=
  match fuel with
  | O => out_of_fuel
  | S fuel' =>
      let? t := Wait fuel in
      if t =? 0 then ret (-1, [])
      else
        let? c := connection_of t in
        let? r := read_retry fuel (λ n, n =? -1) (conn_fd c) len in
        if r.1 <=? 0 then
          let? closed := CloseSock (conn_fd c) in
          if (closed : bool) then recv_any fuel' len else ret (-1, [])
        else ret r
  end.
Definition Recv (fuel : nat) (len : Z) : P (Z * list byte) :=
  modify (λ w, w <| isCanceled := false |>) ;;? recv_any fuel len.

Fixpoint recv_loop (fuel : nat) (len iopeer : Z) : P (Z * list byte) :=
  match fuel with
  | O => out_of_fuel
  | S fuel' =>
      let? t := if iopeer =? 0 then Wait fuel else ret iopeer in
      if t =? 0 then ret (-1, [])
      else
        let? c := connection_of t in
        if conn_fd c <? 0 then ret (-1, [])
        else
          let? r := read_retry fuel (λ n, n <? 0) (conn_fd c) len in
          if r.1 =? 0 then
            let? closed := CloseSock (conn_fd c) in
            if closed && (iopeer =? 0) then recv_loop fuel' len iopeer else ret (-1, [])
          else if r.1 <? 0 then recv_loop fuel' len iopeer
          else ret r
  end.
Definition Recv_conn (fuel : nat) (len iopeer : Z) : P (Z * list byte) :=
  modify (λ w, w <| isCanceled := false |>) ;;? recv_loop fuel len iopeer.

(** *** Acknowledgements ([pop_combox]) *)
Definition ACK : list byte := string_bytes "ACK".
Definition SendAck (fuel : nat) (conn : Z) : P bool := Send_conn fuel ACK conn ;;? ret true.

(** The buffer has four characters, of which three are received. *)
Fixpoint strcmp_partial (a b : list byte) : result bool :=
  match a, b with
  | [], _ => Stuck   (* the next character of [a] was never written *)
  | x :: a', [] => Ok (bool_decide (x = x00))
  | x :: a', y :: b' => if decide (x = y) then strcmp_partial a' b' else Ok false
  end.
Definition text_of_ack : string :=
  let quote := String (Ascii.ascii_of_nat 34) "" in "Did not receive " +:+ quote +:+ "ACK" +:+ quote.
Definition RecvAck (fuel : nat) : P bool :=
  let? connex := Wait fuel in
  if connex =? 0 then lift (pop_throw ACK_NOT_RECEIVED "Wait() returned nullptr")
  else
    let? r := Recv_conn fuel 3 connex in
    if negb (r.1 =? 3) then lift (pop_throw ACK_NOT_RECEIVED text_of_ack)
    else
      let? same := lift (strcmp_partial r.2 ACK) in
      if (same : bool) then ret true else lift (pop_throw ACK_NOT_RECEIVED text_of_ack).
End Combox.

(** ** What the code relies on: descriptors

    A descriptor that is given out is not one that is in use; only [close] takes one away. *)
Class KernelFds {K : Type} (os : kernel K) := {
  opened : K → gset Z;
  new_descriptor (r : Z) (k k' : K) : Prop :=
    if r <? 0 then opened k' = opened k else (r ∉ opened k) ∧ opened k' = {[r]} ∪ opened k;
  socket_opens k : new_descriptor (popc_socket os k).1 k (popc_socket os k).2;
  accept_opens fd k : new_descriptor (popc_accept os fd k).1 k (popc_accept os fd k).2;
  close_closes fd k : opened (popc_close os fd k) = opened k ∖ {[fd]};
  set_errno_fds e k : opened (set_errno os e k) = opened k;
  setsockopt_fds fd l o b k : opened (setsockopt os fd l o b k).2 = opened k;
  bind_fds fd p k : opened (popc_bind os fd p k).2 = opened k;
  listen_fds fd n k : opened (popc_listen os fd n k).2 = opened k;
  poll_fds ps t k : opened (poll os ps t k).2 = opened k;
  read_fds fd n k : opened (sys_read os fd n k).2 = opened k;
  write_fds fd s k : opened (sys_write os fd s k).2 = opened k }.

(** [poll] answers with the number of entries it marked. *)
Definition marked (ps : list pollfd) : nat := length (filter (λ p, revents p ≠ 0) ps).
Class KernelPoll {K : Type} (os : kernel K) :=
  poll_counts ps t k : 0 ≤ (poll os ps t k).1.1 →
    ((poll os ps t k).1.1 = Z.of_nat (marked (set_revents ps ((poll os ps t k).1.2)))).

Lemma marked_app ps qs : marked (ps ++ qs) = (marked ps + marked qs)%nat.
Proof. unfold marked. by rewrite filter_app, length_app. Qed.
Lemma marked_take_S ps j p :
  ps !! j = Some p → marked (take (S j) ps) = (marked (take j ps) + if decide (revents p = 0%Z) then 0 else 1)%nat.
Proof.
  intros Hp. rewrite (take_S_r _ _ _ Hp), marked_app. f_equal. unfold marked. rewrite filter_cons, filter_nil.
  destruct (decide (revents p ≠ 0)), (decide (revents p = 0)); done.
Qed.
Lemma fds_set_revents (ps : list pollfd) rs : fd <$> set_revents ps rs = fd <$> ps.
Proof.
  apply list_eq. intros i. unfold set_revents. rewrite !list_lookup_fmap, list_lookup_imap.
  by destruct (ps !! i).
Qed.
Lemma fds_insert (ps : list pollfd) j p q : ps !! j = Some p → fd q = fd p → fd <$> <[j := q]> ps = fd <$> ps.
Proof.
  intros Hp E. rewrite list_fmap_insert, E. apply list_insert_id. by rewrite list_lookup_fmap, Hp.
Qed.

(** ** The tables of a box

    In every state a box can be in, the connections of its table are alive, each with the
    descriptor the system is asked to poll at the same place; descriptors are not there twice;
    what is left of a poll is inside of the table. *)
Section Tables.
Context {K F T : Type} (os : kernel K) `{!KernelFds os} `{!KernelPoll os}.
#[local] Abbreviation W := (world K F T).
#[local] Abbreviation P := (Effects.P W).

Record table (w : W) : Prop := {
  t_conns : Forall2 (λ a f, ∃ c, conns w !! a = Some c ∧ conn_fd c = f) (connarray w) (fd <$> pollarray w);
  t_fds : NoDup (fd <$> pollarray w);
  t_open : ∀ p, p ∈ pollarray w → fd p ∈ opened (kern w);
  t_listen : ∀ p, pollarray w !! O = Some p → fd p = sockfd w;
  t_next : ∀ a c, conns w !! a = Some c → 0 < a < next w;
  t_pos : 0 < next w;
  t_client : isServer w = false → pollarray w = [];
  t_peer : peer w ≠ 0 → isServer w = false ∧ is_Some (conns w !! peer w) }.

(** What is left of the last poll: the entries up to [index]. *)
Definition left_of_poll (w : W) : Prop :=
  0 < nready w → index w < zlen (pollarray w) ∧
    nready w = Z.of_nat (marked (take (Z.to_nat (index w + 1)) (pollarray w))).
Definition box_ok (w : W) : Prop := table w ∧ left_of_poll w.

(** A connection [Wait] has answered with, until it is closed or the next [Wait]. *)
Definition handed (a : Z) (w : W) : Prop :=
  if isServer w then ∃ j, connarray w !! j = Some a ∧ (0 < j)%nat ∧ index w < Z.of_nat j
  else a = peer w ∧ a ≠ 0.

(** The callbacks count connections: [count] is what they keep, in the states [good]. *)
Context (count : T → Z) (good : T → Prop).
Definition counts_by (cb : option (Z → T → bool * T)) (d : Z) : Prop :=
  ∃ f, cb = Some f ∧ ∀ a t, good t → good (f a t).2 ∧ count (f a t).2 = count t + d.
Record counted (base : Z) (w : W) : Prop := {
  c_good : good (cbdata w);
  c_new : counts_by (on_new w) 1;
  c_close : counts_by (on_close w) (-1);
  c_count : count (cbdata w) = base + Z.of_nat (pred (length (pollarray w))) }.
(** What every operation on a server keeps. *)
Definition counts (w w' : W) : Prop :=
  isServer w' = isServer w ∧ (isServer w = true → ∀ base, counted base w → counted base w').

Lemma counts_refl w : counts w w.
Proof. by split. Qed.
Lemma counts_trans w1 w2 w3 : counts w1 w2 → counts w2 w3 → counts w1 w3.
Proof. intros [E1 H1] [E2 H2]. split; [congruence |]. intros Es base Hb. apply H2; [congruence |]. by apply H1. Qed.

(** Steps that touch neither the table nor the callbacks. *)
Record quiet (w w' : W) : Prop := {
  q_fds : fd <$> pollarray w' = fd <$> pollarray w;
  q_connarray : connarray w' = connarray w;
  q_conns : conns w' = conns w;
  q_next : next w' = next w;
  q_server : isServer w' = isServer w;
  q_sockfd : sockfd w' = sockfd w;
  q_peer : peer w' = peer w;
  q_cbdata : cbdata w' = cbdata w;
  q_new : on_new w' = on_new w;
  q_close : on_close w' = on_close w;
  q_opened : opened (kern w') = opened (kern w) }.
Lemma quiet_refl w : quiet w w.
Proof. by split. Qed.
Lemma quiet_trans w1 w2 w3 : quiet w1 w2 → quiet w2 w3 → quiet w1 w3.
Proof. intros [] []. split; congruence. Qed.
Lemma quiet_table w w' : quiet w w' → table w → table w'.
Proof.
  intros [Ef Ea Ec En Es Esock Ep _ _ _ Eo] [Hc Hf Ho Hli Hn Hpos Hcl Hp].
  split; rewrite ?Ef, ?Ea, ?Ec, ?En, ?Es, ?Esock, ?Ep, ?Eo; try done.
  - intros p Hin. apply (list_elem_of_fmap_2 fd) in Hin. rewrite Ef in Hin.
    apply list_elem_of_fmap in Hin as (q & -> & Hq). by apply Ho.
  - intros p Hp0. assert (E : (fd <$> pollarray w') !! O = Some (fd p)) by (by rewrite list_lookup_fmap, Hp0).
    rewrite Ef, list_lookup_fmap in E. destruct (pollarray w !! O) as [q|] eqn:Hq; [|done].
    injection E as <-. by apply Hli.
  - intros E. apply (fmap_nil_inv fd). rewrite Ef. by rewrite (Hcl E).
Qed.
Lemma quiet_length w w' : quiet w w' → length (pollarray w') = length (pollarray w).
Proof. intros []. by rewrite <- (length_fmap fd), <- (length_fmap fd (pollarray w)), q_fds0. Qed.
Lemma quiet_counts w w' : quiet w w' → counts w w'.
Proof.
  intros Hq. split; [apply Hq |]. intros _ base [Hg Hn Hc Hcount].
  split; rewrite ?(q_cbdata _ _ Hq), ?(q_new _ _ Hq), ?(q_close _ _ Hq), ?(quiet_length _ _ Hq); done.
Qed.

(** Steps of the system only. *)
Definition only_kern (w w' : W) : Prop := ∃ k, w' = w <| kern := k |> ∧ opened k = opened (kern w).
Lemma only_kern_refl w : only_kern w w.
Proof. exists (kern w). split; [by destruct w | done]. Qed.
Lemma only_kern_trans w1 w2 w3 : only_kern w1 w2 → only_kern w2 w3 → only_kern w1 w3.
Proof. intros (k2 & -> & E2) (k3 & -> & E3). exists k3. split; [done |]. cbn in *. congruence. Qed.
Lemma only_kern_quiet w w' : only_kern w w' → quiet w w'.
Proof. intros (k & -> & E). by split. Qed.
Lemma only_kern_left w w' : only_kern w w' → left_of_poll w → left_of_poll w'.
Proof. by intros (k & -> & _). Qed.
Lemma only_kern_handed w w' a : only_kern w w' → handed a w → handed a w'.
Proof. by intros (k & -> & _). Qed.

Lemma wp_sys total {A : Type} (call : K → A * K) (Q : A → W → Prop) w :
  Q (call (kern w)).1 (w <| kern := (call (kern w)).2 |>) → wp total (sys call) Q w.
Proof. unfold wp, sys. by destruct (call (kern w)). Qed.
Lemma wp_sys_only {A : Type} (call : K → A * K) w :
  (∀ k, opened (call k).2 = opened k) → wp false (sys call) (λ _ w', only_kern w w') w.
Proof. intros Hc. apply wp_sys. eexists. split; [reflexivity |]. apply Hc. Qed.
Lemma wp_retry_only {A : Type} fuel again (call : K → A * K) w :
  (∀ k, opened (call k).2 = opened k) → wp false (retry fuel again (sys call)) (λ _ w', only_kern w w') w.
Proof.
  intros Hc. apply (wp_retry fuel again _ (only_kern w)); [apply only_kern_refl |].
  intros w1 H1. eapply wp_mono; [|by apply wp_sys_only]. intros a w2 H2. cbv beta.
  assert (only_kern w w2) by (by eapply only_kern_trans). by destruct (again a w2).
Qed.
Lemma wp_set_err {total} e (w : W) : wp total (set_err os e) (λ _ w', only_kern w w') w.
Proof. apply wp_modify. eexists. split; [reflexivity |]. apply set_errno_fds. Qed.
Lemma wp_close {total} fd0 (w : W) :
  wp total (sys (λ k, ((), popc_close os fd0 k)))
    (λ _ w', ∃ k, w' = w <| kern := k |> ∧ opened k = opened (kern w) ∖ {[fd0]}) w.
Proof. apply wp_sys. eexists. split; [reflexivity |]. apply close_closes. Qed.

Lemma wp_read fuel failed fd0 len (w : W) :
  wp false (read_retry os fuel failed fd0 len) (λ _ w', only_kern w w') w.
Proof.
  unfold read_retry. apply wp_retry_only. intros k. pose proof (read_fds fd0 len k) as E.
  by destruct (sys_read os fd0 len k) as [[n bs] k'].
Qed.

Lemma wp_accept fuel (w : W) :
  wp false (retry fuel (λ s w, (s <? 0) && interrupted os w) (sys (popc_accept os (sockfd w))))
    (λ s w', ∃ k, w' = w <| kern := k |> ∧ new_descriptor s (kern w) k) w.
Proof.
  apply (wp_retry fuel _ _ (only_kern w)); [apply only_kern_refl |].
  intros w1 (k1 & -> & E1). apply wp_sys. cbn.
  pose proof (accept_opens (sockfd w) k1) as Ha. unfold new_descriptor in *.
  destruct (popc_accept os (sockfd w) k1) as [s k]. cbn in *. rewrite E1 in Ha.
  destruct (s <? 0) eqn:Es; cbn [andb].
  - destruct (interrupted os _); eexists; (split; [reflexivity |]); [done | by rewrite ?Es].
  - eexists. split; [reflexivity |]. by rewrite ?Es.
Qed.

(** A callback that does not cancel. *)
Definition answers (cb : option (Z → T → bool * T)) : Prop := ∀ f, cb = Some f → ∀ a t, (f a t).1 = true.
Lemma wp_callback {total} cb a d (w : W) :
  wp total (callback cb a) (λ r w', ∃ t, w' = w <| cbdata := t |> ∧
    (counts_by cb d → good (cbdata w) → good t ∧ count t = count (cbdata w) + d) ∧
    (answers cb → r = true)) w.
Proof.
  destruct cb as [f|].
  - unfold wp, callback. destruct (f a (cbdata w)) as [r t] eqn:E. exists t. split_and!; [done | |].
    + intros (f' & [= <-] & Hf) Hg. by specialize (Hf a (cbdata w) Hg) as [? ?]; rewrite E in *.
    + intros Hf. specialize (Hf f eq_refl a (cbdata w)). by rewrite E in Hf.
  - apply wp_ret. exists (cbdata w). split_and!; [by destruct w | by intros (f & ? & _) | done].
Qed.

Lemma wp_new_connection total c (Q : Z → W → Prop) (w : W) :
  Q (next w) (w <| conns := <[next w := c]> (conns w) |> <| next := next w + 1 |>) →
  wp total (new_connection c) Q w.
Proof. done. Qed.
Lemma wp_CreateConnection total fd0 (Q : Z → W → Prop) (w : W) :
  Q (next w) (w <| conns := <[next w := MkConnection fd0 (defaultFact w)]> (conns w) |>
                <| next := next w + 1 |>) →
  wp total (CreateConnection fd0) Q w.
Proof. intros HQ. unfold CreateConnection. wp_steps. by apply wp_new_connection. Qed.
Lemma wp_connection_of total a c (Q : connection F → W → Prop) (w : W) :
  conns w !! a = Some c → Q c w → wp total (connection_of a) Q w.
Proof. intros Hc HQ. unfold connection_of. by wp_steps. Qed.
Lemma wp_delete total a c (Q : () → W → Prop) (w : W) :
  conns w !! a = Some c → a ≠ 0 → Q () (w <| conns := delete a (conns w) |>) →
  wp total (delete_connection a) Q w.
Proof.
  intros Hc Ha HQ. unfold delete_connection. rewrite (proj2 (Z.eqb_neq _ _) Ha). wp_steps.
  eapply wp_connection_of; [exact Hc |]. by wp_steps.
Qed.

(** ** Accepting *)
Lemma table_length (w : W) : table w → length (connarray w) = length (pollarray w).
Proof. intros Ht. pose proof (Forall2_length _ _ _ (t_conns w Ht)) as E. by rewrite length_fmap in E. Qed.

Lemma table_cbdata (w : W) t : table w → table (w <| cbdata := t |>).
Proof. by intros []. Qed.

(** The table with one more connection. *)
Lemma table_add (w : W) s k p a c l :
  table w → isServer w = true → pollarray w ≠ [] → s ∉ opened (kern w) → opened k = {[s]} ∪ opened (kern w) →
  fd p = s → a = next w → conn_fd c = s → l = connarray w ++ [a] →
  table (w <| kern := k |> <| pollarray := pollarray w ++ [p] |> <| connarray := l |>
           <| conns := <[a := c]> (conns w) |> <| next := a + 1 |>).
Proof.
  intros [Hc Hf Ho Hli Hn Hp Hcl Hpe] Hs Hne Hnew Hopen <- -> Ec ->. split; cbn.
  - rewrite fmap_app. apply Forall2_app.
    + eapply Forall2_impl; [exact Hc |]. intros a f (c' & E & Ef). exists c'. split; [|done].
      rewrite lookup_insert_ne; [done |]. specialize (Hn a c' E). lia.
    + repeat constructor. exists c. split; [apply lookup_insert_eq | done].
  - rewrite fmap_app. apply NoDup_app. split_and!; [done | | apply NoDup_singleton].
    intros f (q & -> & Hq)%list_elem_of_fmap E%list_elem_of_singleton.
    apply Hnew. rewrite <- E. by apply Ho.
  - intros q [Hq| ->%list_elem_of_singleton]%elem_of_app; rewrite Hopen, elem_of_union;
      [right; by apply Ho | left; by apply elem_of_singleton].
  - intros q. rewrite lookup_app_l; [apply Hli |]. destruct (pollarray w); [done | cbn; lia].
  - intros a c' [[<- <-]|[Hab E]]%lookup_insert_Some; [lia |]. specialize (Hn a c' E). lia.
  - lia.
  - congruence.
  - intros H0. destruct (Hpe H0). congruence.
Qed.

Lemma wp_accept_connection fuel (w : W) :
  table w → isServer w = true → pollarray w ≠ [] →
  wp false (accept_connection os fuel) (λ _ w',
    table w' ∧ counts w w' ∧ nready w' = nready w ∧ index w' = index w) w.
Proof.
  intros Ht Hs Hne. unfold accept_connection. wp_steps.
  eapply wp_mono; [|apply wp_accept]. intros s w1 (k & -> & Hd). cbv beta. unfold new_descriptor in Hd.
  destruct (s <? 0) eqn:Es; cbn [negb] in Hd.
  { assert (Hq : only_kern w (w <| kern := k |>)) by (by exists k).
    apply only_kern_quiet in Hq.
    apply wp_ret. split_and!; [by eapply quiet_table | by apply quiet_counts | done | done]. }
  destruct Hd as [Hnew Hopen]. unfold resize_conns. wp_steps. apply wp_CreateConnection.
  unfold set_conn, OnNewConnection. wp_steps.
  eapply wp_mono; [|apply (wp_callback _ _ 1)]. intros ok w2 (t & -> & Hcount & _). cbn [on_new upd] in Hcount.
  pose proof (table_length w Ht) as Hl.
  pose proof (table_add w s k (MkPoll s POLLIN 0) (next w) (MkConnection s (defaultFact w)) _
    Ht Hs Hne Hnew Hopen eq_refl eq_refl eq_refl eq_refl) as Ht2.
  split_and!; [| | done | done].
  - apply table_cbdata. eapply quiet_table; [|exact Ht2]. split; try done. cbn.
    rewrite take_ge by lia. replace (S (length (pollarray w)) - length (connarray w))%nat with 1%nat by lia.
    rewrite <- Hl. by rewrite insert_app_r_alt, Nat.sub_diag by lia.
  - split; [done |]. intros _ base [Hg Hcn Hcc Hct]. destruct (Hcount Hcn Hg) as [Hg' Hct'].
    split; [done | done | done |]. cbn. cbn in Hct'. rewrite Hct', Hct, length_app. cbn.
    destruct (pollarray w); [done |]. cbn. lia.
Qed.

(** ** Waiting *)
Lemma insert_quiet (w : W) j p n i :
  pollarray w !! j = Some p →
  quiet w (w <| nready := n |> <| index := i |> <| pollarray := <[j := p <| revents := 0 |>]> (pollarray w) |>).
Proof. intros Hp. split; try done. cbn. by apply (fds_insert _ _ p). Qed.

Definition scan_post (w : W) (r : option Z) (w' : W) : Prop :=
  box_ok w' ∧ counts w w' ∧ match r with Some a => a ≠ 0 → handed a w' | None => True end.

Lemma wp_scan fuel i (w : W) :
  table w → isServer w = true → (i ≤ length (pollarray w))%nat →
  nready w = Z.of_nat (marked (take i (pollarray w))) →
  wp false (scan os fuel i) (scan_post w) w.
Proof.
  intros Ht Hs. induction i as [|j IH]; intros Hi Hn; cbn [scan].
  { apply wp_ret. split_and!; [split; [done |]; intros Hpos;
      change (marked (take 0 (pollarray w))) with O in Hn; lia | apply counts_refl | done]. }
  destruct (lookup_lt_is_Some_2 (pollarray w) j) as [p Hp]; [lia |].
  rewrite (marked_take_S _ _ _ Hp) in Hn. wp_steps.
  destruct (decide (revents p = 0)) as [Er|Er].
  { rewrite Er. apply IH; lia. }
  rewrite (proj2 (Z.eqb_neq _ _) Er). wp_steps.
  pose proof (insert_quiet w j p (nready w - 1) (Z.of_nat j - 1) Hp) as Hq.
  set (w1 := upd pollarray _ _) in *.
  assert (Ht1 : table w1) by (by eapply quiet_table).
  assert (Hl1 : left_of_poll w1).
  { intros _. split; cbn; [rewrite length_insert; lia |].
    replace (Z.to_nat (Z.of_nat j - 1 + 1)) with j by lia. rewrite take_insert, decide_False by lia. lia. }
  assert (Hc1 : counts w w1) by (by apply quiet_counts).
  destruct j as [|j].
  - wp_steps. eapply wp_mono; [|apply wp_accept_connection; [done | done |]].
    + intros ok w2 (Ht2 & Hc2 & En & _). wp_steps. split_and!.
      * split; [done |]. intros Hpos. rewrite En in Hpos. cbn in Hpos.
        change (marked (take 0 (pollarray w))) with O in Hn. lia.
      * by eapply counts_trans.
      * by destruct ok.
    + cbn. intros E. apply (f_equal length) in E. rewrite length_insert in E. cbn in E. cbn in Hi. lia.
  - pose proof (table_length w1 Ht1) as El. cbn in El. rewrite length_insert in El.
    destruct (lookup_lt_is_Some_2 (connarray w1) (S j)) as [a Ha]; [cbn; lia |].
    wp_steps. split_and!; [by split | done |]. intros _. unfold handed. cbn. rewrite Hs.
    exists (S j). split_and!; [done | lia | lia].
Qed.

Lemma wp_poll_all (w : W) :
  wp false (poll_all os) (λ n w', quiet w w' ∧ nready w' = n ∧ left_of_poll w') w.
Proof.
  unfold wp, poll_all. pose proof (poll_counts (os := os) (pollarray w) (timeout w) (kern w)) as Hn.
  pose proof (poll_fds (os := os) (pollarray w) (timeout w) (kern w)) as Ho.
  destruct (poll os (pollarray w) (timeout w) (kern w)) as [[n rs] k]. cbn in *. split_and!.
  - split; try done. cbn. apply fds_set_revents.
  - done.
  - intros Hpos. cbn in *. unfold set_revents in *. rewrite length_imap in *. split; [lia |].
    rewrite take_ge; [by apply Hn; lia |]. rewrite length_imap. lia.
Qed.

Lemma wp_wait_server fuel (w : W) :
  box_ok w → isServer w = true →
  wp false (wait_server os fuel) (λ a w', box_ok w' ∧ counts w w' ∧ (a ≠ 0 → handed a w')) w.
Proof.
  revert w. induction fuel as [|fuel IH]; intros w [Ht Hl] Hs; [done |]. cbn [wait_server]. wp_steps.
  assert (Hscan : wp false (if 0 <? nready w then scan os (S fuel) (Z.to_nat (index w + 1)) else ret None)
                    (scan_post w) w).
  { destruct (0 <? nready w) eqn:En; reflect_bools.
    - destruct (Hl En) as [Hi Em]. apply wp_scan; [done | done | lia | done].
    - apply wp_ret. split_and!; [by split | apply counts_refl | done]. }
  eapply wp_mono; [|exact Hscan]. intros r w1 ([Ht1 Hl1] & Hc1 & Hr). destruct r as [a|]; wp_steps.
  { by split_and!. }
  eapply wp_mono; [|apply (wp_retry _ _ _ (λ w', quiet w1 w' ∧ left_of_poll w')
                      (λ n w', quiet w1 w' ∧ left_of_poll w'))].
  - intros n w2 [Hq2 Hl2].
    assert (Ht2 : table w2) by (by eapply quiet_table).
    assert (Hc2 : counts w w2) by (eapply counts_trans; [done | by apply quiet_counts]).
    destruct (n <=? 0) eqn:En.
    + wp_steps. destruct (n =? 0); wp_steps; [|by split_and!].
      eapply wp_mono; [|apply wp_set_err]. intros [] w3 H3. wp_steps. split_and!; [split | | done].
      * eapply quiet_table; [by apply only_kern_quiet | done].
      * by eapply only_kern_left.
      * eapply counts_trans; [done | by apply quiet_counts, only_kern_quiet].
    + eapply wp_mono; [|apply IH; [by split | by rewrite (proj1 Hc2)]].
      intros a w3 (H3 & Hc3 & Ha). split_and!; [done | by eapply counts_trans | done].
  - split; [apply quiet_refl | done].
  - intros w2 [Hq2 _]. eapply wp_mono; [|apply wp_poll_all]. intros n w3 (Hq3 & _ & Hl3).
    assert (quiet w1 w3) by (by eapply quiet_trans). cbv beta. destruct (_ && (0 <=? sockfd w3)); by split.
Qed.

(** What an operation keeps, when only the system changes. *)
Lemma only_kern_ok (w w' : W) : only_kern w w' → box_ok w → box_ok w' ∧ counts w w'.
Proof.
  intros Hk [Ht Hl]. pose proof (only_kern_quiet _ _ Hk) as Hq. split_and!.
  - split; [by eapply quiet_table | by eapply only_kern_left].
  - by apply quiet_counts.
Qed.

Lemma wp_wait_client fuel (w : W) :
  wp false (wait_client os fuel) (λ a w', only_kern w w' ∧ (a = 0 ∨ a = peer w)) w.
Proof.
  unfold wait_client. wp_steps. destruct (0 <=? timeout w); [|wp_steps; split; [apply only_kern_refl | by right]].
  wp_steps. eapply wp_mono; [|apply wp_retry_only].
  - intros t w1 H1. destruct (t <=? 0); wp_steps.
    + destruct (t =? 0); wp_steps; [|by auto]. eapply wp_mono; [|apply wp_set_err].
      intros [] w2 H2. wp_steps. split; [exact (only_kern_trans _ _ _ H1 H2) | by left].
    + split; [done |]. right. by rewrite (q_peer _ _ (only_kern_quiet _ _ H1)).
  - intros k. pose proof (poll_fds (os := os) [MkPoll (sockfd w) POLLIN 0] (timeout w) k) as E.
    by destruct (poll os _ _ k) as [[t rs] k'].
Qed.

Lemma wp_Wait fuel (w : W) :
  box_ok w → wp false (Wait os fuel) (λ a w', box_ok w' ∧ counts w w' ∧ (a ≠ 0 → handed a w')) w.
Proof.
  intros Hok. unfold Wait. wp_steps. destruct ((sockfd w <? 0) || isCanceled w).
  { wp_steps. split_and!; [| | done].
    - destruct Hok as [Ht Hl]. split; [|done]. by destruct Ht.
    - by apply quiet_counts. }
  destruct (isServer w) eqn:Es; [by apply wp_wait_server |].
  eapply wp_mono; [|apply wp_wait_client]. intros a w' [Hk Ha].
  destruct (only_kern_ok _ _ Hk Hok) as [Hok' Hc]. split_and!; [done | done |].
  intros Hne. destruct Ha as [->| ->]; [done |]. unfold handed. rewrite (proj1 Hc), Es.
  by rewrite (q_peer _ _ (only_kern_quiet _ _ Hk)).
Qed.

(** ** Closing a connection *)

(** The connection of a handed address, and its place. *)
Lemma handed_connection a (w : W) :
  table w → handed a w → a ≠ 0 ∧ ∃ c, conns w !! a = Some c.
Proof.
  intros Ht Ha. unfold handed in Ha. destruct (isServer w) eqn:Es.
  - destruct Ha as (j & Hj & _). destruct (Forall2_lookup_l _ _ _ _ _ (t_conns w Ht) Hj) as (f & _ & c & Hc & _).
    pose proof (t_next w Ht a c Hc). split; [lia | by exists c].
  - destruct Ha as [-> Ha]. split; [done |]. by destruct (t_peer w Ht Ha) as [_ [c Hc]]; exists c.
Qed.

Lemma table_place (w : W) j a c :
  table w → connarray w !! j = Some a → conns w !! a = Some c →
  ∃ p, pollarray w !! j = Some p ∧ fd p = conn_fd c ∧ list_find (λ p, fd p = conn_fd c) (pollarray w) = Some (j, p).
Proof.
  intros Ht Hj Hc. destruct (Forall2_lookup_l _ _ _ _ _ (t_conns w Ht) Hj) as (f & Hf & c' & Hc' & Ef).
  rewrite Hc in Hc'. injection Hc' as <-. rewrite list_lookup_fmap in Hf.
  destruct (pollarray w !! j) as [p|] eqn:Hp; [|done]. injection Hf as Hf. exists p.
  assert (E : fd p = conn_fd c) by congruence. split_and!; [done | done |].
  apply list_find_Some. split_and!; [done | done |]. intros i q Hi Hlt Eq.
  pose proof (NoDup_lookup (fd <$> pollarray w) i j (fd p) (t_fds w Ht)) as Hnd.
  rewrite !list_lookup_fmap, Hi, Hp in Hnd. cbn in Hnd. assert (i = j); [|lia]. apply Hnd; congruence.
Qed.

(** The table without the connection at [j]. *)
Lemma table_remove (w : W) j a p k :
  table w → connarray w !! j = Some a → pollarray w !! j = Some p → opened k = opened (kern w) ∖ {[fd p]} →
  isServer w = true → (0 < j)%nat →
  table (w <| kern := k |> <| conns := delete a (conns w) |> <| connarray := delete j (connarray w) |>
           <| pollarray := delete j (pollarray w) |>).
Proof.
  intros Ht Ha Hp Hk Hs Hj0. pose proof Ht as [Hc Hf Ho Hli Hn Hpos Hcl Hpe].
  assert (Efd : fd <$> delete j (pollarray w) = delete j (fd <$> pollarray w)) by apply list_fmap_delete.
  assert (Hj : (fd <$> pollarray w) !! j = Some (fd p)) by (by rewrite list_lookup_fmap, Hp).
  assert (Hother : ∀ i f, delete j (fd <$> pollarray w) !! i = Some f → f ≠ fd p).
  { intros i f Hi ->. destruct (decide (i < j)%nat).
    - rewrite list_lookup_delete_lt in Hi by done. pose proof (NoDup_lookup _ _ _ _ Hf Hi Hj). lia.
    - rewrite list_lookup_delete_ge in Hi by lia. pose proof (NoDup_lookup _ _ _ _ Hf Hi Hj). lia. }
  split; cbn.
  - rewrite Efd. apply Forall2_same_length_lookup_2.
    + rewrite !length_delete; [|by eexists..]. by rewrite (Forall2_length _ _ _ Hc).
    + intros i a' f Hi Hi'. assert (Hi2 := Hi').
      assert (∃ i', connarray w !! i' = Some a' ∧ (fd <$> pollarray w) !! i' = Some f) as (i' & Ha' & Hf').
      { destruct (decide (i < j)%nat).
        - rewrite list_lookup_delete_lt in Hi, Hi' by done. by exists i.
        - rewrite list_lookup_delete_ge in Hi, Hi' by lia. by exists (S i). }
      destruct (Forall2_lookup_lr _ _ _ _ _ _ Hc Ha' Hf') as (c & Hcc & Ecc). exists c. split; [|done].
      rewrite lookup_delete_ne; [done |]. intros ->.
      destruct (Forall2_lookup_lr _ _ _ _ _ _ Hc Ha Hj) as (c' & Hcc' & Ecc').
      apply (Hother i f Hi2). congruence.
  - rewrite Efd. eapply sublist_NoDup; [exact Hf |]. apply sublist_delete.
  - intros q Hq. rewrite Hk. apply elem_of_difference. split.
    + apply Ho. apply list_elem_of_lookup in Hq as [i Hi]. destruct (decide (i < j)%nat).
      * rewrite list_lookup_delete_lt in Hi by done. by eapply list_elem_of_lookup_2.
      * rewrite list_lookup_delete_ge in Hi by lia. by eapply list_elem_of_lookup_2.
    + rewrite elem_of_singleton. apply list_elem_of_lookup in Hq as [i Hi]. apply (Hother i).
      by rewrite <- Efd, list_lookup_fmap, Hi.
  - intros q. rewrite list_lookup_delete_lt by done. apply Hli.
  - intros b c [_ Hb]%lookup_delete_Some. by apply (Hn b c).
  - done.
  - congruence.
  - intros H0. destruct (Hpe H0). congruence.
Qed.

(** What is left of a poll does not change. *)
Definition same_round (w w' : W) : Prop :=
  let n := Z.to_nat (index w + 1) in
  nready w' = nready w ∧ index w' = index w ∧
  take n (pollarray w') = take n (pollarray w) ∧ take n (connarray w') = take n (connarray w) ∧
  isServer w' = isServer w ∧ (isServer w = true → sockfd w' = sockfd w) ∧ on_close w' = on_close w ∧
  (isServer w = true → answers (on_close w) → isCanceled w = false → isCanceled w' = false).
Lemma same_round_refl w : same_round w w.
Proof. done. Qed.
Lemma same_round_trans w1 w2 w3 : same_round w1 w2 → same_round w2 w3 → same_round w1 w3.
Proof.
  intros (En1 & Ei1 & Ep1 & Ea1 & Es1 & Ef1 & Ec1 & Hg1) (En2 & Ei2 & Ep2 & Ea2 & Es2 & Ef2 & Ec2 & Hg2).
  unfold same_round. rewrite Ei1, Es1, Ec1 in *. split_and!; try congruence.
  - intros E. rewrite Ef2 by done. by apply Ef1.
  - intros E Ha Hc. apply Hg2; [done | done |]. by apply Hg1.
Qed.
Lemma only_kern_round w w' : only_kern w w' → same_round w w'.
Proof. by intros (k & -> & _). Qed.

Lemma take_delete_le {A : Type} (l : list A) n j : (n ≤ j)%nat → take n (delete j l) = take n l.
Proof.
  intros Hn. apply list_eq. intros i. destruct (decide (i < n)%nat).
  - rewrite !lookup_take_lt by done. by rewrite list_lookup_delete_lt by lia.
  - rewrite !lookup_take_ge by lia. done.
Qed.

Lemma left_of_poll_delete (w w' : W) j :
  left_of_poll w → same_round w w' → (j < length (pollarray w))%nat → index w < Z.of_nat j →
  pollarray w' = delete j (pollarray w) → left_of_poll w'.
Proof.
  intros Hl (En & Ei & Ep & _) Hj Hi Epoll Hpos. rewrite En in Hpos. destruct (Hl Hpos) as [_ Hn].
  rewrite Ei, En, Ep. split; [|done]. rewrite Epoll, length_delete by (by apply lookup_lt_is_Some_2). lia.
Qed.

Lemma wp_CloseSock {total} a c (w : W) :
  box_ok w → handed a w → conns w !! a = Some c →
  wp total (CloseSock os (conn_fd c)) (λ _ w', box_ok w' ∧ counts w w' ∧ same_round w w') w.
Proof.
  intros [Ht Hl] Ha Hc. unfold CloseSock. wp_steps. destruct (isServer w) eqn:Es.
  - unfold handed in Ha. rewrite Es in Ha. destruct Ha as (j & Hj & Hj0 & Hij).
    destruct (table_place w j a c Ht Hj Hc) as (p & Hp & Efd & Hfind). rewrite Hfind. wp_steps.
    assert (Ha0 : a ≠ 0) by (pose proof (t_next w Ht a c Hc); lia).
    unfold OnCloseConnection. wp_steps.
    eapply wp_mono; [|apply (wp_callback _ _ (-1))]. intros ok w1 (t & -> & Hcount & Hans). wp_steps.
    apply (wp_delete _ _ c); [done | done |]. wp_steps.
    match goal with |- wp _ _ _ ?w2 => set (wd := w2) end.
    assert (Hend : ∀ w3, (∃ k, w3 = wd <| kern := k |> ∧ opened k = opened (kern w)) →
      wp total (sys (λ k, ((), popc_close os (conn_fd c) k)) ;;? ret ok)
        (λ _ w', box_ok w' ∧ counts w w' ∧ same_round w w') w3).
    { intros w3 (k3 & -> & E3). wp_steps. eapply wp_mono; [|apply wp_close]. intros [] w4 (k4 & -> & E4).
      cbn in E4. rewrite E3, <- Efd in E4. wp_steps.
      assert (Hr : same_round w (wd <| kern := k3 |> <| kern := k4 |>)).
      { split_and!; try done; cbn; [by rewrite take_delete_le by lia.. |].
        intros _ Ha2 _. by rewrite (Hans Ha2). }
      pose proof (table_remove w j a p k4 Ht Hj Hp E4 Es Hj0) as Ht4.
      pose proof (lookup_lt_Some _ _ _ Hp) as Hlt.
      split_and!; [split | | done].
      - destruct Ht4. by split.
      - by eapply (left_of_poll_delete w _ j).
      - split; [done |]. intros _ base [Hg Hcn Hcc Hct]. destruct (Hcount Hcc Hg) as [Hg' Hct'].
        split; [done | done | done |]. cbn. rewrite Hct', Hct.
        rewrite length_delete by (by eexists). lia. }
    destruct ok; wp_steps; [apply (Hend wd); exists (kern w); by split |].
    eapply wp_mono; [|apply wp_set_err]. intros [] w3 (k & -> & E3). apply (Hend (wd <| kern := k |>)).
    exists k. by split.
  - assert (Hsame : ∀ k b f, let w' := w <| isCanceled := b |> <| kern := k |> <| sockfd := f |> in
      box_ok w' ∧ counts w w' ∧ same_round w w').
    { intros k b f w'. split; [split; [|done] | split].
      - destruct Ht as [? ? Ho ? ? ? Hcl ?]. split; try done; intros q Hq; cbn in Hq;
          rewrite Hcl in Hq by done; [by apply elem_of_nil in Hq | done].
      - split; [done |]. cbn. by rewrite Es.
      - split_and!; try done; cbn; by rewrite Es. }
    destruct (negb (peer w =? 0) && (conn_fd c =? sockfd w)).
    + wp_steps. eapply wp_mono; [|apply wp_close]. intros [] w2 (k & -> & _). wp_steps. apply Hsame.
    + wp_steps. split_and!; [by split | apply counts_refl | done].
Qed.

(** ** Sending and receiving *)
Lemma wp_send_loop fuel fd0 s n (w : W) : wp false (send_loop os fuel fd0 s n) (λ _ w', only_kern w w') w.
Proof.
  revert s n w. induction fuel as [|fuel IH]; intros s n w; destruct s as [|b s]; cbn [send_loop];
    [apply wp_ret, only_kern_refl | done | apply wp_ret, only_kern_refl |].
  wp_steps. eapply wp_mono; [|apply wp_sys_only; intros k; apply write_fds]. intros i w1 H1.
  assert (Hnext : ∀ s n, wp false (send_loop os fuel fd0 s n) (λ _ w', only_kern w w') w1).
  { intros s' n'. eapply wp_mono; [|apply IH]. intros r w2 H2. exact (only_kern_trans _ _ _ H1 H2). }
  destruct (0 <? i); [apply Hnext |]. wp_steps. destruct (interrupted os w1); [apply Hnext | by wp_steps].
Qed.

Lemma wp_Send_conn fuel s a c (w : W) :
  a = 0 ∨ conns w !! a = Some c → wp false (Send_conn os fuel s a) (λ _ w', only_kern w w') w.
Proof.
  intros Ha. unfold Send_conn, Send. destruct (a =? 0) eqn:Ea; reflect_bools.
  { wp_steps. apply wp_send_loop. }
  destruct Ha as [?|Hc]; [done |]. wp_steps. eapply wp_connection_of; [exact Hc |].
  destruct (conn_fd c <? 0); [apply wp_ret, only_kern_refl | apply wp_send_loop].
Qed.

Lemma wp_recv_any fuel len (w : W) :
  box_ok w → wp false (recv_any os fuel len) (λ _ w', box_ok w' ∧ counts w w') w.
Proof.
  revert w. induction fuel as [|fuel IH]; intros w Hok; [done |]. cbn [recv_any]. wp_steps.
  eapply wp_mono; [|by apply wp_Wait]. intros a w1 (Hok1 & Hc1 & Ha).
  destruct (a =? 0) eqn:Ea; reflect_bools; [by wp_steps |].
  destruct (handed_connection a w1) as (_ & c & Hc); [apply Hok1 | by apply Ha |].
  wp_steps. eapply wp_connection_of; [exact Hc |]. wp_steps.
  eapply wp_mono; [|apply wp_read]. intros r w2 H2. pose proof H2 as (k2 & -> & E2).
  destruct (only_kern_ok _ _ H2 Hok1) as [Hok2 Hc2].
  destruct (r.1 <=? 0); [|wp_steps; split; [done | by eapply counts_trans]]. wp_steps.
  eapply wp_mono; [|apply (wp_CloseSock a c); [done | by apply Ha | done]]. intros b w3 (Hok3 & Hc3 & _).
  assert (counts w w3) by (eapply counts_trans; [exact Hc1 | by eapply counts_trans]).
  destruct b; [|by wp_steps]. eapply wp_mono; [|by apply IH]. intros r' w4 [Hok4 Hc4].
  split; [done | by eapply counts_trans].
Qed.

Lemma canceled_ok (w : W) b : box_ok w → box_ok (w <| isCanceled := b |>) ∧ counts w (w <| isCanceled := b |>).
Proof. intros [[] Hl]. split; [split; [by split | done] |]. by apply quiet_counts. Qed.

Lemma wp_Recv fuel len (w : W) :
  box_ok w → wp false (Recv os fuel len) (λ _ w', box_ok w' ∧ counts w w') w.
Proof.
  intros Hok. unfold Recv. wp_steps. destruct (canceled_ok w false Hok) as [Hok1 Hc1].
  eapply wp_mono; [|by apply wp_recv_any]. intros r w2 [Hok2 Hc2]. split; [done | by eapply counts_trans].
Qed.

(** What receiving from [iopeer] keeps: the round of the last poll, and the connection unless it
    ended. *)
Definition recv_post (iopeer : Z) (w : W) (r : Z * list byte) (w' : W) : Prop :=
  box_ok w' ∧ counts w w' ∧ (iopeer ≠ 0 → same_round w w' ∧ (0 < r.1 → handed iopeer w')).

Lemma wp_recv_loop fuel len iopeer (w : W) :
  box_ok w → (iopeer ≠ 0 → handed iopeer w) →
  wp false (recv_loop os fuel len iopeer) (recv_post iopeer w) w.
Proof.
  revert w. induction fuel as [|fuel IH]; intros w Hok Hp; [done |]. cbn [recv_loop]. wp_steps.
  apply (wp_mono _ _ (λ t w1, box_ok w1 ∧ counts w w1 ∧ (t ≠ 0 → handed t w1) ∧ (iopeer ≠ 0 → t = iopeer ∧ w1 = w))).
  2: { destruct (iopeer =? 0) eqn:E; reflect_bools.
       - eapply wp_mono; [|by apply wp_Wait]. intros t w1 (? & ? & ?). by split_and!.
       - wp_steps. split_and!; [done | apply counts_refl | done | done]. }
  intros t w1 (Hok1 & Hc1 & Ht & Hsame).
  destruct (t =? 0) eqn:Et; reflect_bools.
  { wp_steps. split_and!; [done | done |]. intros Hne. by destruct (Hsame Hne) as [<- _]. }
  destruct (handed_connection t w1) as (_ & c & Hc); [apply Hok1 | by apply Ht |].
  wp_steps. eapply wp_connection_of; [exact Hc |].
  destruct (conn_fd c <? 0).
  { wp_steps. split_and!; [done | done |]. intros Hne. destruct (Hsame Hne) as [_ ->]. by split. }
  wp_steps. eapply wp_mono; [|apply wp_read]. intros r w2 H2. pose proof H2 as (k2 & E2 & _).
  destruct (only_kern_ok _ _ H2 Hok1) as [Hok2 Hc2].
  assert (Hc02 : counts w w2) by (by eapply counts_trans).
  assert (Hround : iopeer ≠ 0 → same_round w w2).
  { intros Hne. destruct (Hsame Hne) as [_ ->]. by apply only_kern_round. }
  assert (Hh : iopeer ≠ 0 → handed iopeer w2).
  { intros Hne. destruct (Hsame Hne) as [_ ->]. eapply only_kern_handed; [done | by apply Hp]. }
  destruct (r.1 =? 0).
  { wp_steps. eapply wp_mono; [|apply (wp_CloseSock t c); [done | | by subst w2]].
    2: { apply (only_kern_handed _ _ _ H2). by apply Ht. }
    intros b w3 (Hok3 & Hc3 & Hr3). assert (counts w w3) by (by eapply counts_trans).
    destruct (b && (iopeer =? 0)) eqn:Eb.
    - apply andb_true_iff in Eb as [_ ->%Z.eqb_eq]. eapply wp_mono; [|apply IH; [done | done]].
      intros r' w4 (Hok4 & Hc4 & _). split_and!; [done | by eapply counts_trans | done].
    - wp_steps. split_and!; [done | done |]. intros Hne. split; [|cbn; lia].
      eapply same_round_trans; [by apply Hround | done]. }
  destruct (r.1 <? 0).
  - eapply wp_mono; [|by apply IH]. intros r' w4 (Hok4 & Hc4 & Hr4). split_and!; [done | by eapply counts_trans |].
    intros Hne. destruct (Hr4 Hne) as [Hr4' Hh4]. split; [|done].
    eapply same_round_trans; [by apply Hround | done].
  - wp_steps. split_and!; [done | done |]. intros Hne. split; [by apply Hround | intros _; by apply Hh].
Qed.

Lemma wp_Recv_conn fuel len iopeer (w : W) :
  box_ok w → (iopeer ≠ 0 → handed iopeer w) →
  wp false (Recv_conn os fuel len iopeer) (recv_post iopeer w) w.
Proof.
  intros Hok Hp. unfold Recv_conn. wp_steps. destruct (canceled_ok w false Hok) as [Hok1 Hc1].
  eapply wp_mono; [|apply wp_recv_loop; [done | exact Hp]]. intros r w2 (Hok2 & Hc2 & Hr2).
  split_and!; [done | by eapply counts_trans |].
  intros Hne. destruct (Hr2 Hne) as [Hr3 Hh3]. split; [|done]. eapply same_round_trans; [|exact Hr3]. by split_and!.
Qed.

(** When reads do not fail it ends. *)
Definition reads_return : Prop := ∀ fd n k, 0 ≤ (sys_read os fd n k).1.1.
Lemma wp_Recv_conn_ends fuel len a (w : W) :
  reads_return → box_ok w → handed a w → wp true (Recv_conn os (S fuel) len a) (recv_post a w) w.
Proof.
  intros Hreads Hok Hh. unfold wp. pose proof (wp_Recv_conn (S fuel) len a w Hok (λ _, Hh)) as Hpost.
  cut (wp true (Recv_conn os (S fuel) len a) (λ _ _, True) w).
  { unfold wp in *. by destruct (Recv_conn os (S fuel) len a w) as [[[r w']|c i|]|]. }
  destruct (handed_connection a w (proj1 Hok) Hh) as (Ha & c & Hc).
  unfold Recv_conn. cbn [recv_loop]. wp_steps. rewrite (proj2 (Z.eqb_neq _ _) Ha). wp_steps.
  rewrite (proj2 (Z.eqb_neq _ _) Ha). wp_steps. eapply wp_connection_of; [exact Hc |].
  destruct (conn_fd c <? 0); [by wp_steps |]. wp_steps. unfold read_retry. cbn [retry]. wp_steps. apply wp_sys.
  set (w1 := w <| isCanceled := false |>). pose proof (Hreads (conn_fd c) len (kern w1)) as Hr.
  pose proof (read_fds (os := os) (conn_fd c) len (kern w1)) as Hf.
  destruct (sys_read os (conn_fd c) len (kern w1)) as [[n bs] k]. cbn [fst snd] in *. unfold wp at 1.
  cbn [fst]. rewrite (proj2 (Z.ltb_ge n 0) Hr). cbn [andb fst]. rewrite (proj2 (Z.ltb_ge n 0) Hr).
  destruct (n =? 0); [|by wp_steps].
  assert (Hk : only_kern w1 (w1 <| kern := k |>)) by (by exists k).
  destruct (canceled_ok w false Hok) as [Hok1 _].
  wp_steps. eapply wp_mono; [|apply (wp_CloseSock a c); [|apply (only_kern_handed _ _ _ Hk) | exact Hc]].
  - intros b w2 _. rewrite andb_false_r. by wp_steps.
  - by apply (only_kern_ok _ _ Hk).
  - exact Hh.
Qed.

(** ** Closing the box *)
Definition others (fd0 : Z) (ps : list pollfd) : nat := length (filter (λ p, fd p ≠ fd0) ps).

Lemma wp_close_each fd0 i ps (w : W) :
  Forall2 (λ a f, a ≠ 0 ∧ ∃ c, conns w !! a = Some c ∧ conn_fd c = f) (drop i (connarray w)) (fd <$> ps) →
  NoDup (fd <$> ps) →
  wp false (close_each os fd0 i ps) (λ _ w', ∃ k m t, w' = w <| kern := k |> <| conns := m |> <| cbdata := t |> ∧
    m ⊆ conns w ∧ (counts_by (on_close w) (-1) → good (cbdata w) →
                   good t ∧ count t = count (cbdata w) - Z.of_nat (others fd0 ps))) w.
Proof.
  revert i w. induction ps as [|p ps IH]; intros i w Hc Hnd; cbn [close_each].
  { wp_steps. exists (kern w), (conns w), (cbdata w). split_and!; [by destruct w | done |]. intros _ Hg.
    split; [done |]. cbn. lia. }
  cbn [fmap list_fmap] in Hc, Hnd. apply NoDup_cons in Hnd as [Hp Hnd].
  apply Forall2_cons_inv_r in Hc as (a & l & (Ha0 & c & Hac & Efd) & Hl & El).
  assert (Ha : connarray w !! i = Some a) by (by rewrite <- (Nat.add_0_r i), <- lookup_drop, El).
  assert (El' : drop (S i) (connarray w) = l) by (rewrite (drop_S _ _ _ Ha) in El; by injection El).
  wp_steps.
  apply (wp_mono _ _ (λ _ w1, ∃ t, w1 = w <| cbdata := t |> ∧ (counts_by (on_close w) (-1) → good (cbdata w) →
    good t ∧ count t = count (cbdata w) - if decide (fd p ≠ fd0) then 1 else 0))).
  2: { destruct (negb (fd0 =? fd p)) eqn:E; reflect_bools.
       - unfold OnCloseConnection. wp_steps. eapply wp_mono; [|apply (wp_callback _ _ (-1))].
         intros b w1 (t & -> & Ht & _). wp_steps. exists t. split; [done |]. intros Hcb Hg.
         destruct (Ht Hcb Hg) as [? ->]. split; [done |]. by rewrite decide_True by done.
       - wp_steps. exists (cbdata w). split; [by destruct w |]. intros _ Hg. split; [done |].
         rewrite decide_False by (intros Hne; by apply Hne). lia. }
  intros [] w1 (t & -> & Hcount). wp_steps. apply wp_sys. wp_steps.
  apply (wp_delete _ _ c); [done | done |]. wp_steps.
  eapply wp_mono; [|apply IH; [|exact Hnd]].
  - intros [] w2 (k & m & t2 & -> & Hm & Hcount2). cbn in Hm, Hcount2. exists k, m, t2. split_and!; [done | |].
    + etrans; [exact Hm |]. apply delete_subseteq.
    + intros Hcb Hg. destruct (Hcount Hcb Hg) as [Hg1 Hc1]. destruct (Hcount2 Hcb Hg1) as [Hg2 Hc2].
      split; [done |]. rewrite Hc2, Hc1. unfold others. rewrite filter_cons.
      destruct (decide (fd p ≠ fd0)); cbn [length]; lia.
  - cbn. rewrite El'. apply Forall2_same_length_lookup. split; [by eapply Forall2_length |].
    intros j b f Hb Hf. destruct (Forall2_lookup_lr _ _ _ _ _ _ Hl Hb Hf) as (Hb0 & c' & Hbc & Ec).
    split; [done |]. exists c'. split; [|done]. rewrite lookup_delete_ne; [done |]. intros <-.
    apply Hp. apply list_elem_of_lookup. exists j. congruence.
Qed.

(** A box without connections. *)
Record closed (w : W) : Prop := {
  cl_table : table w; cl_poll : pollarray w = []; cl_conns : connarray w = []; cl_peer : peer w = 0;
  cl_ready : nready w = 0; cl_sockfd : sockfd w = -1 }.

Lemma wp_Close (w : W) :
  box_ok w → wp false (Close os) (λ _ w', closed w' ∧ counts w w' ∧ next w' = next w ∧
    on_new w' = on_new w ∧ on_close w' = on_close w) w.
Proof.
  intros [Ht Hl]. pose proof Ht as [Hc Hf Ho Hli Hn Hpos Hcl Hpe]. unfold Close. wp_steps.
  destruct (isServer w) eqn:Es.
  - wp_steps. eapply wp_mono; [|apply wp_close_each; [|exact Hf]].
    + intros [] w1 (k & m & t & -> & Hm & Hcount). cbn in Hm, Hcount. wp_steps. split_and!; try done.
      * split; try done. split; try done; cbn.
        -- constructor.
        -- intros p Hp. by apply elem_of_nil in Hp.
        -- intros a c Ha. apply (Hn a c). by eapply lookup_weaken.
        -- intros H0. destruct (Hpe H0). congruence.
        -- cbn. destruct (decide (peer w = 0)) as [E|E]; [done |]. destruct (Hpe E). congruence.
      * split; [done |]. intros _ base [Hg Hcn Hcc Hct]. destruct (Hcount Hcc Hg) as [Hg' Hct'].
        split; [done | done | done |]. cbn. rewrite Hct', Hct.
        enough (others (sockfd w) (pollarray w) = pred (length (pollarray w))) by lia.
        destruct (pollarray w) as [|p ps]; [done |]. unfold others. rewrite filter_cons.
        specialize (Hli p eq_refl). rewrite decide_False by (by intros []). cbn [length pred].
        assert (Hall : Forall (λ q, fd q ≠ sockfd w) ps).
        { apply Forall_forall. intros q Hq. cbn [fmap list_fmap] in Hf. apply NoDup_cons in Hf as [Hf _].
          rewrite <- Hli. intros E. apply Hf. rewrite <- E. by apply list_elem_of_fmap_2. }
        f_equal. clear -Hall. induction Hall as [|q ps Hq _ IH]; [done |]. rewrite filter_cons, decide_True by done.
        by rewrite IH.
    + cbn. rewrite drop_0. eapply Forall2_impl; [exact Hc |]. intros a f (c & Hac & Efc).
      split; [|by exists c]. specialize (Hn a c Hac). lia.
  - assert (Ep : pollarray w = []) by by apply Hcl.
    assert (Ea : connarray w = []).
    { pose proof (table_length w Ht) as E. rewrite Ep in E. by apply nil_length_inv. }
    wp_steps.
    apply (wp_mono _ _ (λ _ w1, ∃ m t, w1 = w <| sockfd := -1 |> <| nready := 0 |> <| index := -1 |>
      <| peer := 0 |> <| conns := m |> <| cbdata := t |> ∧ m ⊆ conns w)).
    2: { cbn [peer upd]. destruct (peer w =? 0) eqn:E; reflect_bools; cbn [negb]; wp_steps.
         - exists (conns w), (cbdata w). split; [|done]. destruct w; cbn in *. by subst.
         - destruct (Hpe E) as [_ [c Hpc]]. unfold OnCloseConnection. wp_steps.
           eapply wp_mono; [|apply (wp_callback _ _ (-1))]. intros b w1 (t & -> & _ & _). wp_steps.
           apply (wp_delete _ _ c); [done | done |]. wp_steps. exists (delete (peer w) (conns w)), t.
           split; [done | apply delete_subseteq]. }
    intros [] w1 (m & t & -> & Hm).
    assert (Hend : ∀ k, let w' := w <| sockfd := -1 |> <| nready := 0 |> <| index := -1 |>
      <| peer := 0 |> <| conns := m |> <| cbdata := t |> <| kern := k |> in closed w' ∧ counts w w' ∧ next w' = next w ∧
      on_new w' = on_new w ∧ on_close w' = on_close w).
    { intros k w'. split_and!; try done.
      - split; try done. split; try done; cbn; rewrite ?Ep, ?Ea.
        + constructor.
        + intros p Hp. by apply elem_of_nil in Hp.
        + done.
        + intros a c Hac. apply (Hn a c). by eapply lookup_weaken.
      - split; [done |]. by rewrite Es. }
    destruct (0 <=? sockfd w).
    + apply wp_sys. apply Hend.
    + wp_steps. apply (Hend (kern w)).
Qed.

Lemma closed_ok (w : W) : closed w → box_ok w.
Proof. intros [Ht Hp _ _ Hn _]. split; [done |]. unfold left_of_poll. rewrite Hn. lia. Qed.

(** ** Creating a box *)
Lemma closed_any (w : W) k b f :
  closed w → let w' := w <| isServer := b |> <| kern := k |> <| sockfd := f |> in
  box_ok w' ∧ pollarray w' = [] ∧ connarray w' = [] ∧ peer w' = 0.
Proof.
  intros [Ht Hp Hc Hpe Hn _] w'. split_and!; [split | done..].
  - destruct Ht as [_ _ _ _ Hn' Hpos _ _]. split; cbn; rewrite ?Hp, ?Hc, ?Hpe; try done; [apply NoDup_nil_2 |].
    intros p Hin. by apply not_elem_of_nil in Hin.
  - unfold left_of_poll. cbn. rewrite Hn. lia.
Qed.

Lemma table_listening (w : W) s a p c :
  table w → pollarray w = [] → peer w = 0 → isServer w = true → s ∈ opened (kern w) → s = sockfd w →
  fd p = s → conn_fd c = s → a = next w →
  table (w <| pollarray := [p] |> <| connarray := [a] |> <| conns := <[a := c]> (conns w) |> <| next := a + 1 |>).
Proof.
  intros [Hc Hf Ho Hli Hn Hpos Hcl Hpe] Ep Epeer Es Hs -> Ef Ec ->. split; cbn.
  - repeat constructor. exists c. split; [apply lookup_insert_eq | congruence].
  - apply NoDup_singleton.
  - intros q ->%list_elem_of_singleton. by rewrite Ef.
  - by intros q [= <-].
  - intros a c' [[<- <-]|[Hab E]]%lookup_insert_Some; [lia |]. specialize (Hn a c' E). lia.
  - lia.
  - congruence.
  - by rewrite Epeer.
Qed.

Lemma wp_bind_port s port (w : W) :
  wp false (if 0 <? port then
              SetOpt os SOL_SOCKET SO_REUSEADDR (sockaddr_in (popc_htons port)) ;;?
              let? r := sys (popc_bind os s (popc_htons port)) in ret (r =? 0)
            else ret true) (λ _ w', only_kern w w') w.
Proof.
  destruct (0 <? port); [|apply wp_ret, only_kern_refl]. unfold SetOpt. wp_steps.
  eapply wp_mono; [|apply wp_sys_only; intros k; apply setsockopt_fds]. intros r w1 H1. wp_steps.
  eapply wp_mono; [|apply wp_sys_only; intros k; apply bind_fds]. intros r2 w2 H2. wp_steps.
  exact (only_kern_trans _ _ _ H1 H2).
Qed.

Lemma wp_Create port server (w : W) :
  box_ok w → wp false (Create os port server) (λ ok w', box_ok w' ∧
    on_new w' = on_new w ∧ on_close w' = on_close w ∧ isServer w' = server ∧
    (ok = true → if server then ∃ a, connarray w' = [a] else peer w' ≠ 0)) w.
Proof.
  intros Hok. unfold Create. wp_steps. eapply wp_mono; [|by apply wp_Close].
  intros [] w1 (Hcl & _ & _ & En & Ec). wp_steps. apply wp_sys. wp_steps. cbn [kern upd].
  pose proof (socket_opens (os := os) (kern w1)) as Hd. unfold new_descriptor in Hd.
  destruct (popc_socket os (kern w1)) as [s k]. cbn [fst snd] in *.
  destruct (closed_any w1 k server s Hcl) as ([Ht Hl] & Ep & Ea & Epeer).
  set (w2 := upd sockfd _ _) in *. assert (Esock : sockfd w2 = s) by done.
  assert (Eserver : isServer w2 = server) by done. assert (En2 : on_new w2 = on_new w) by done.
  assert (Ec2 : on_close w2 = on_close w) by done. assert (Ek : kern w2 = k) by done. clearbody w2. clear Hcl.
  destruct (s <? 0) eqn:Es; cbn [negb] in Hd; [wp_steps; by split_and!|]. destruct Hd as [_ Hopen].
  assert (Hs : s ∈ opened (kern w2)) by (rewrite Ek, Hopen; apply elem_of_union_l, elem_of_singleton; done).
  wp_steps. eapply wp_mono; [|apply wp_bind_port]. intros bound w3 H3.
  pose proof (only_kern_quiet _ _ H3) as Hq3.
  assert (Ht3 : table w3) by (by eapply quiet_table).
  assert (Hl3 : left_of_poll w3) by (exact (only_kern_left _ _ H3 Hl)).
  destruct Hq3 as [_ Ea3 Ec3 En3 Eserver3 Esock3 Epeer3 _ Eon3 Eoc3 Eo3].
  assert (Ep3 : pollarray w3 = []) by (by destruct H3 as (k3 & -> & _)). clear H3.
  destruct bound; cbn [negb].
  2: { wp_steps. split_and!; [by split | congruence.. | done]. }
  destruct server.
  - unfold resize_conns, set_conn. wp_steps. apply wp_CreateConnection. wp_steps.
    eapply wp_mono; [|apply wp_sys_only; intros k3; apply listen_fds]. intros r w4 H4. wp_steps.
    pose proof (table_listening w3 s (next w3) (MkPoll s POLLIN 0) (MkConnection s (defaultFact w3)) Ht3 Ep3
      ltac:(congruence) ltac:(congruence) ltac:(congruence) ltac:(congruence) eq_refl eq_refl eq_refl) as Htl.
    cbv beta in H4. match type of H4 with only_kern ?w5 _ => set (wl := w5) in * end.
    assert (Htl' : table wl).
    { eapply quiet_table; [|exact Htl]. split; try done. cbn. rewrite Ea3, Ea. done. }
    assert (El : connarray wl = [next w3]) by (cbn; rewrite Ea3, Ea; done).
    assert (Eq4 : quiet wl w4) by (by apply only_kern_quiet).
    split_and!.
    + split; [by eapply quiet_table |]. by eapply only_kern_left.
    + rewrite (q_new _ _ Eq4). cbn. congruence.
    + rewrite (q_close _ _ Eq4). cbn. congruence.
    + rewrite (q_server _ _ Eq4). cbn. congruence.
    + intros _. exists (next w3). by rewrite (q_connarray _ _ Eq4).
  - wp_steps. apply wp_CreateConnection. wp_steps. split_and!; [| cbn; congruence.. |].
    + split; [|done]. destruct Ht3 as [Hc Hf Ho Hli Hn Hpos Hcl Hpe]. split; cbn; try done.
      * rewrite Ep3, Ea3, Ea. constructor.
      * intros a c [[<- <-]|[Hab E]]%lookup_insert_Some; [lia |]. specialize (Hn a c E). lia.
      * lia.
      * intros _. split; [congruence |]. rewrite lookup_insert_eq. by eexists.
    + pose proof (t_pos _ Ht3). cbn. intros _. lia.
Qed.

(** ** Connecting *)
Definition kern_only {A : Type} (m : P A) : Prop := ∀ w, wp false m (λ _ w', ∃ k, w' = w <| kern := k |>) w.
Lemma kern_ret {A : Type} (a : A) : kern_only (ret a).
Proof. intros w. apply wp_ret. exists (kern w). by destruct w. Qed.
Lemma kern_sys {A : Type} (call : K → A * K) : kern_only (sys call).
Proof. intros w. apply wp_sys. by eexists. Qed.
Lemma kern_set_err e : kern_only (set_err os e).
Proof. intros w. apply wp_modify. by eexists. Qed.
Lemma kern_get : kern_only get.
Proof. intros w. apply wp_get. exists (kern w). by destruct w. Qed.
Lemma kern_bind {A A' : Type} (m : P A) (k : A → P A') :
  kern_only m → (∀ a, kern_only (k a)) → kern_only (bind m k).
Proof.
  intros Hm Hk w. wp_steps. eapply wp_mono; [|apply Hm]. intros a w1 (k1 & ->).
  eapply wp_mono; [|apply Hk]. intros a' w2 (k2 & ->). by exists k2.
Qed.
Lemma kern_retry {A : Type} fuel again (m : P A) : kern_only m → kern_only (retry fuel again m).
Proof.
  intros Hm w. apply (wp_retry fuel again _ (λ w', ∃ k, w' = w <| kern := k |>)).
  - exists (kern w). by destruct w.
  - intros w1 (k1 & ->). eapply wp_mono; [|apply Hm]. intros a w2 (k2 & ->). cbv beta.
    assert (∃ k, w <| kern := k1 |> <| kern := k2 |> = w <| kern := k |>) by (by exists k2).
    by destruct (again _ _).
Qed.
Create HintDb kern_only discriminated.
#[local] Hint Resolve kern_ret kern_sys kern_set_err kern_get kern_retry : kern_only.
#[local] Hint Extern 1 (kern_only (bind _ _)) => apply kern_bind; [|intros ?] : kern_only.
#[local] Hint Extern 1 (kern_only (if ?b then _ else _)) => destruct b : kern_only.
#[local] Hint Extern 1 (kern_only (let '_ := ?r in _)) => destruct r : kern_only.

Lemma kern_Connect_host fuel host port : kern_only (Connect_host os fuel host port).
Proof. unfold Connect_host, wait_connected. auto 20 with kern_only. Qed.

Lemma kern_client_ok (w : W) k : isServer w = false → box_ok w → box_ok (w <| kern := k |>).
Proof.
  intros Es [Ht Hl]. split; [|done]. destruct Ht as [? ? Ho ? ? ? Hcl ?]. split; try done.
  intros p Hp. cbn in Hp. rewrite (Hcl Es) in Hp. by apply not_elem_of_nil in Hp.
Qed.

(** A client that was created connects; a URL whose port is no [int] is undefined in [sscanf]. *)
Lemma wp_Connect fuel url (w : W) :
  box_ok w → isServer w = false → peer w ≠ 0 → is_Ok (parse_url url) →
  wp false (Connect os fuel (Some url)) (λ _ w', box_ok w' ∧ isServer w' = false ∧ peer w' = peer w) w.
Proof.
  intros Hok Es Hp [hp Eurl]. unfold Connect. wp_steps. unfold wp at 1, lift. rewrite Eurl. cbn [rbind].
  destruct hp as [[host port]|]; [|by wp_steps]. wp_steps.
  eapply wp_mono; [|apply kern_Connect_host]. intros r w1 (k & ->).
  pose proof (kern_client_ok w k Es Hok) as Hok1.
  destruct r; [|by wp_steps]. wp_steps.
  destruct (t_peer w (proj1 Hok) Hp) as [_ [c Hc]].
  eapply wp_connection_of; [exact Hc |]. wp_steps. split_and!; [|done..].
  destruct Hok1 as [[Hcs Hf Ho Hli Hn Hpos Hcl Hpe] Hl]. split; [|done]. split; try done; cbn in *.
  - rewrite (Hcl Es) in *. apply Forall2_length in Hcs. destruct (connarray w); [constructor | done].
  - intros a c' [[<- <-]|[Hab E]]%lookup_insert_Some; [by apply (Hn _ c) | by apply (Hn _ c')].
  - intros _. split; [done |]. rewrite lookup_insert_eq. by eexists.
Qed.

(** ** Every operation, in any order *)

(** What the program does with a box. [AReceive] reads from the connection [Wait] answered with
    last ([h]), as [pop_broker::ReceiveRequest] does; a clone is sent to and deleted; a client that
    was created connects. *)
Inductive action : Type :=
  | ACreate (port : Z) (server : bool)
  | AConnect (url : chars)
  | ASetTimeout (millisec : Z)
  | ASetCallback (ev : Z) (cb : Z → T → bool * T)
  | AWait
  | ARecv (len : Z)
  | AReceive (len : Z)
  | ASend (s : list byte)
  | ASendTo (s : list byte) (a : Z)
  | AClone
  | AForget (a : Z)
  | AClose.

Definition act (fuel : nat) (x : action) (h : Z) : P Z :=
  let? w := get in
  match x with
  | ACreate port server => Create os port server ;;? ret 0
  | AConnect url =>
      match parse_url url with
      | Ok _ => if isServer w || (peer w =? 0) then ret h else Connect os fuel (Some url) ;;? ret h
      | _ => ret h
      end
  | ASetTimeout millisec => SetTimeout millisec ;;? ret h
  | ASetCallback ev cb => SetCallback ev cb ;;? ret h
  | AWait => Wait os fuel
  | ARecv len => Recv os fuel len ;;? ret 0
  | AReceive len =>
      if h =? 0 then ret 0
      else let? r := Recv_conn os fuel len h in ret (if 0 <? r.1 then h else 0)
  | ASend s => Send os fuel s ;;? ret h
  | ASendTo s a =>
      match conns w !! a with Some _ => Send_conn os fuel s a ;;? ret h | None => ret h end
  | AClone => if h =? 0 then ret 0 else Clone h ;;? ret h
  | AForget a =>
      if bool_decide (a ∈ connarray w ∨ a = peer w ∨ conns w !! a = None) then ret h
      else delete_connection a ;;? ret h
  | AClose => Close os ;;? ret 0
  end.

(** What a server does once it is set up. *)
Definition serves (x : action) : bool :=
  match x with ACreate _ _ | AConnect _ | ASetCallback _ _ => false | _ => true end.

Definition act_ok (h : Z) (w : W) : Prop := box_ok w ∧ (h ≠ 0 → handed h w).

Lemma only_kern_act h (w w' : W) : only_kern w w' → act_ok h w → act_ok h w' ∧ counts w w'.
Proof.
  intros Hk [Hok Hh]. destruct (only_kern_ok _ _ Hk Hok) as [Hok' Hc]. split_and!; [split | done]; [done |].
  intros Hne. apply (only_kern_handed _ _ _ Hk). by apply Hh.
Qed.

(** The heap grows or shrinks, away from the table. *)
Lemma heap_ok h (w : W) m n :
  act_ok h w → (∀ a, a ∈ connarray w ∨ a = peer w → m !! a = conns w !! a ∨ conns w !! a = None) →
  (∀ a c, m !! a = Some c → 0 < a < n) → 0 < n →
  act_ok h (w <| conns := m |> <| next := n |>) ∧ counts w (w <| conns := m |> <| next := n |>).
Proof.
  intros [[[Hc Hf Ho Hli Hn Hpos Hcl Hpe] Hl] Hh] Hm Hn' Hpos'. split; [split; [split; [|exact Hl] | exact Hh] |].
  - split; try done; cbn.
    + apply Forall2_same_length_lookup. split; [by eapply Forall2_length |].
      intros i a f Ha Hfi. destruct (Forall2_lookup_lr _ _ _ _ _ _ Hc Ha Hfi) as (c & Hac & Ef).
      exists c. split; [|done]. destruct (Hm a (or_introl (list_elem_of_lookup_2 _ _ _ Ha))) as [->|?];
        [done | congruence].
    + intros H0. destruct (Hpe H0) as [? [c Hac]]. split; [done |].
      destruct (Hm (peer w) (or_intror eq_refl)) as [->|?]; [by eexists | congruence].
  - split; [done |]. intros _ base [? ? ? ?]. by split.
Qed.

Lemma act_keeps fuel x h (w : W) :
  act_ok h w → wp false (act fuel x h) (λ h' w', act_ok h' w' ∧
    if serves x then counts w w' else True) w.
Proof.
  intros Hok. pose proof Hok as [Hbox Hh]. unfold act. wp_steps.
  assert (Hstay : act_ok h w ∧ counts w w) by (split; [done | apply counts_refl]).
  destruct x as [port server|url|millisec|ev cb| |len|len|s|s a| |a|]; cbn [serves].
  - wp_steps. eapply wp_mono; [|by apply wp_Create]. intros ok w1 (Hok1 & _). by wp_steps.
  - destruct (parse_url url) as [hp|c i|] eqn:Eurl; [|by wp_steps..].
    destruct (isServer w || (peer w =? 0)) eqn:Eg; [by wp_steps |].
    apply orb_false_iff in Eg as [Es Ep%Z.eqb_neq]. wp_steps.
    eapply wp_mono; [|apply wp_Connect; [done | done | done | by exists hp]].
    intros r w1 (Hok1 & Es1 & Ep1). wp_steps. split; [|done]. split; [done |]. intros Hne.
    specialize (Hh Hne). unfold handed in *. rewrite Es in Hh. by rewrite Es1, Ep1.
  - wp_steps. destruct Hbox as [[] Hl]. split; [split; [split; [by split | done] | done] | by apply quiet_counts].
  - unfold SetCallback. wp_steps. destruct ((ev <? 0) || (2 <=? ev)); wp_steps; [done |].
    destruct Hbox as [[] Hl]. split; [|done].
    destruct (ev =? 0); (split; [split; [by split | done] | done]).
  - eapply wp_mono; [|by apply wp_Wait]. intros a w1 (? & ? & ?). by split_and!.
  - wp_steps. eapply wp_mono; [|by apply wp_Recv]. intros r w1 [? ?]. by wp_steps.
  - destruct (h =? 0) eqn:Eh; reflect_bools; [wp_steps; split; [by split | apply counts_refl] |].
    wp_steps. eapply wp_mono; [|by apply wp_Recv_conn]. intros r w1 (Hok1 & Hc1 & Hr1). wp_steps.
    destruct (Hr1 Eh) as [_ Hh1]. split; [|done]. split; [done |].
    destruct (0 <? r.1) eqn:Er; reflect_bools; [intros _; by apply Hh1 | done].
  - wp_steps. unfold Send. wp_steps. eapply wp_mono; [|apply wp_send_loop]. intros r w1 H1. wp_steps.
    by eapply only_kern_act.
  - destruct (conns w !! a) as [c|] eqn:Ea; [|by wp_steps]. wp_steps.
    eapply wp_mono; [|apply (wp_Send_conn _ _ _ c); by right]. intros r w1 H1. wp_steps. by eapply only_kern_act.
  - destruct (h =? 0) eqn:Eh; reflect_bools; [by wp_steps; subst |]. wp_steps.
    destruct (handed_connection h w (proj1 Hbox) (Hh Eh)) as (_ & c & Hc). unfold Clone. wp_steps.
    eapply wp_connection_of; [exact Hc |]. apply wp_new_connection. wp_steps.
    pose proof (t_next w (proj1 Hbox)) as Hn. pose proof (t_pos w (proj1 Hbox)).
    apply heap_ok; [done | | | lia].
    + intros b _. destruct (conns w !! b) as [c'|] eqn:Eb; [|by right]. left.
      rewrite lookup_insert_ne; [done |]. specialize (Hn b c' Eb). lia.
    + intros b c' [[<- <-]|[Hab E]]%lookup_insert_Some; [lia |]. specialize (Hn b c' E). lia.
  - case_bool_decide as Hd; [by wp_steps |]. wp_steps.
    destruct (conns w !! a) as [c|] eqn:Ea; [|destruct Hd; tauto].
    pose proof (t_next w (proj1 Hbox)) as Hn. specialize (Hn a c Ea) as Ha.
    apply (wp_delete _ _ c); [done | lia |]. wp_steps.
    apply (heap_ok h w (delete a (conns w)) (next w)); [done | | | lia].
    + intros b Hb. left. rewrite lookup_delete_ne; [done |]. intros <-. apply Hd. tauto.
    + intros b c' [_ E]%lookup_delete_Some. by apply (Hn b c').
  - wp_steps. eapply wp_mono; [|by apply wp_Close]. intros [] w1 (Hcl & Hc & _). wp_steps. split; [|done].
    split; [by apply closed_ok | done].
Qed.

(** What can be reached from a new box. *)
Inductive reach : W → Z → Prop :=
  | reach_new xdr k t : reach (combox_new xdr k t) 0
  | reach_act w h fuel x h' w' : reach w h → act fuel x h w = Some (Ok (h', w')) → reach w' h'.

Lemma reach_ok w h : reach w h → act_ok h w.
Proof.
  induction 1 as [xdr k t|w h fuel x h' w' _ IH E].
  - split; [|done]. split; [|done]. split; cbn; try done; [apply NoDup_nil_2 |].
    intros p Hp. by apply not_elem_of_nil in Hp.
  - by destruct (wp_outcome _ _ _ _ _ _ (act_keeps fuel x h w IH) E) as [? _].
Qed.

(** ** Every ready connection has its turn *)
Fixpoint ready_below (ps : list pollfd) (l : list Z) (i : nat) : list Z :=
  match i with
  | O => []
  | S j =>
      if Nat.eqb j 0 then []
      else
        match ps !! j, l !! j with
        | Some p, Some a => if revents p =? 0 then ready_below ps l j else a :: ready_below ps l j
        | _, _ => []
        end
  end.
(** The connections a poll marked that [Wait] has not answered with yet, in its order. *)
Definition ready (w : W) : list Z := ready_below (pollarray w) (connarray w) (Z.to_nat (index w + 1)).

(** In the middle of a round. *)
Record in_round (w : W) : Prop := {
  r_ok : box_ok w;
  r_server : isServer w = true;
  r_open : 0 ≤ sockfd w;
  r_going : isCanceled w = false;
  r_index : index w < zlen (pollarray w);
  r_nready : nready w = Z.of_nat (marked (take (Z.to_nat (index w + 1)) (pollarray w)));
  r_close : ∀ f, on_close w = Some f → ∀ a t, (f a t).1 = true }.

Lemma ready_below_S ps l j :
  ready_below ps l (S (S j)) =
  match ps !! S j, l !! S j with
  | Some p, Some a => if revents p =? 0 then ready_below ps l (S j) else a :: ready_below ps l (S j)
  | _, _ => []
  end.
Proof. done. Qed.
Lemma ready_below_take ps ps' l l' i :
  take i ps = take i ps' → take i l = take i l' → ready_below ps l i = ready_below ps' l' i.
Proof.
  induction i as [|[|j] IH]; intros Ep El; [done..|]. rewrite !ready_below_S.
  assert (E1 : ∀ (A : Type) (x y : list A), take (S (S j)) x = take (S (S j)) y →
    x !! S j = y !! S j ∧ take (S j) x = take (S j) y).
  { intros A x y E. split.
    - rewrite <- (lookup_take_lt x (S (S j))), E, lookup_take_lt by lia. done.
    - apply (f_equal (take (S j))) in E. by rewrite !take_take, !Nat.min_l in E by lia. }
  destruct (E1 _ _ _ Ep) as [-> Ep']. destruct (E1 _ _ _ El) as [-> El'].
  destruct (ps' !! S j), (l' !! S j); [|done..]. by rewrite (IH Ep' El').
Qed.
Lemma same_round_ready w w' : same_round w w' → ready w' = ready w.
Proof. intros (_ & Ei & Ep & El & _). unfold ready. rewrite Ei. by apply ready_below_take. Qed.

Lemma scan_ready fuel i (w : W) a rest :
  length (connarray w) = length (pollarray w) → (i ≤ length (pollarray w))%nat →
  ready_below (pollarray w) (connarray w) i = a :: rest →
  ∃ j p, pollarray w !! j = Some p ∧ connarray w !! j = Some a ∧ (j < i)%nat ∧ (0 < j)%nat ∧ revents p ≠ 0 ∧
    marked (take i (pollarray w)) = S (marked (take j (pollarray w))) ∧
    ready_below (pollarray w) (connarray w) j = rest ∧
    scan os fuel i w = Some (Ok (Some a, w <| nready := nready w - 1 |> <| index := Z.of_nat j - 1 |>
                                            <| pollarray := <[j := p <| revents := 0 |>]> (pollarray w) |>)).
Proof.
  intros El. induction i as [|[|j] IH]; intros Hi Hr; [done..|]. rewrite ready_below_S in Hr.
  destruct (lookup_lt_is_Some_2 (pollarray w) (S j)) as [p Hp]; [lia |].
  destruct (lookup_lt_is_Some_2 (connarray w) (S j)) as [b Hb]; [lia |].
  rewrite Hp, Hb in Hr. rewrite (marked_take_S _ _ _ Hp).
  assert (Es : scan os fuel (S (S j)) w =
    if revents p =? 0 then scan os fuel (S j) w
    else Some (Ok (Some b, w <| nready := nready w - 1 |> <| index := Z.of_nat (S j) - 1 |>
                             <| pollarray := <[S j := p <| revents := 0 |>]> (pollarray w) |>))).
  { cbn [scan]. unfold bind, get, need. rewrite Hp. unfold ret. destruct (revents p =? 0); [done |].
    unfold modify. cbn [connarray upd]. by rewrite Hb. }
  destruct (decide (revents p = 0)) as [E|E].
  - rewrite E in *. cbn in Hr. destruct IH as (j' & p' & H1 & H2 & H3 & H4 & H5 & H6 & H7 & H8); [lia | done |].
    exists j', p'. split_and!; try done; [lia | lia |]. rewrite Es. cbn. exact H8.
  - rewrite (proj2 (Z.eqb_neq _ _) E) in *. injection Hr as -> Hr. exists (S j), p. split_and!; try done; lia.
Qed.

(** [Wait] answers with the next ready connection, without a system call. *)
Lemma Wait_next fuel (w : W) a rest :
  in_round w → ready w = a :: rest →
  ∃ w', Wait os (S fuel) w = Some (Ok (a, w')) ∧ kern w' = kern w ∧ in_round w' ∧ ready w' = rest ∧ handed a w'.
Proof.
  intros [Hok Hs Hopen Hgo Hi Hn Hcl] Hr. pose proof Hok as [Ht Hl].
  destruct (scan_ready (S fuel) (Z.to_nat (index w + 1)) w a rest (table_length w Ht))
    as (j & p & Hp & Ha & Hji & Hj0 & Hrev & Hm & Hrest & Hscan); [lia | exact Hr |].
  eexists. split; [|split_and!].
  - unfold Wait, bind, get. rewrite (proj2 (Z.ltb_ge _ _) Hopen), Hgo, Hs. cbn [orb wait_server].
    unfold bind, get. rewrite (proj2 (Z.ltb_lt 0 (nready w))) by lia. rewrite Hscan. reflexivity.
  - done.
  - pose proof (insert_quiet w j p (nready w - 1) (Z.of_nat j - 1) Hp) as Hq.
    assert (Hx : index (w <| nready := nready w - 1 |> <| index := Z.of_nat j - 1 |>
                  <| pollarray := <[j:=p <| revents := 0 |>]> (pollarray w) |>) <
      zlen (<[j:=p <| revents := 0 |>]> (pollarray w)) ∧
      nready w - 1 = Z.of_nat (marked (take (Z.to_nat (Z.of_nat j - 1 + 1)) (<[j:=p <| revents := 0 |>]> (pollarray w))))).
    { pose proof (lookup_lt_Some _ _ _ Hp). split; cbn; [rewrite length_insert; lia |].
      replace (Z.to_nat (Z.of_nat j - 1 + 1)) with j by lia. rewrite take_insert, decide_False by lia. lia. }
    destruct Hx as [Hx1 Hx2]. split; try done. split; [by eapply quiet_table |]. intros _. by split.
  - unfold ready. cbn. replace (Z.to_nat (Z.of_nat j - 1 + 1)) with j by lia.
    rewrite <- Hrest. apply ready_below_take; [|done]. by rewrite take_insert, decide_False by lia.
  - unfold handed. cbn. rewrite Hs. exists j. split_and!; [done | done | lia].
Qed.

Lemma same_round_in_round w w' : in_round w → box_ok w' → same_round w w' → in_round w'.
Proof.
  intros [_ Hs Hopen Hgo Hi Hn Hcl] Hok (En & Ei & Ep & El & Es & Ef & Ec & Hg).
  split; rewrite ?Ei, ?Es, ?Ec, ?En; try done.
  - by rewrite Ef.
  - by apply Hg.
  - apply (f_equal length) in Ep. rewrite !length_take in Ep.
    destruct (decide (index w < 0)); [lia |]. lia.
  - by rewrite Ep.
Qed.

(** [n] requests: the connection [Wait] answers with and a read from it; with the states of the
    system before and after [Wait]. *)
Fixpoint serve (fuel : nat) (len : Z) (n : nat) : P (list (Z * K * K)) :=
  match n with
  | O => ret []
  | S n' =>
      let? w := get in
      let? a := Wait os (S fuel) in
      let? w' := get in
      Recv_conn os (S fuel) len a ;;?
      let? l := serve fuel len n' in
      ret ((a, kern w, kern w') :: l)
  end.

End Tables.

(** ** What a box promises *)
Section Promises.
Context {K F T : Type} (os : kernel K) `{!KernelFds os} `{!KernelPoll os}.
#[local] Abbreviation W := (world K F T).

(** C11: a box is safe to use. Whatever is done with a box, in any order, and whatever the system
    answers, no operation uses a connection that was deleted or reads outside of the tables; the
    connections of the table are alive, each at the place of its socket in the array that is
    polled, and no socket is there twice. *)
Theorem box_safe (w : W) h :
  reach os w h →
  (∀ fuel x, match act os fuel x h w with Some (Throw _ _) | Some Stuck => False | _ => True end) ∧
  Forall2 (λ a f, ∃ c, conns w !! a = Some c ∧ conn_fd c = f) (connarray w) (fd <$> pollarray w) ∧
  NoDup (fd <$> pollarray w).
Proof.
  intros Hr. pose proof (reach_ok os (λ _, 0) (λ _, True) w h Hr) as Hok. split_and!; [|apply Hok..]. intros fuel x.
  pose proof (act_keeps os (λ _, 0) (λ _, True) fuel x h w Hok) as H. unfold wp in H. by destruct (act os fuel x h w) as [[[a w']|c i|]|].
Qed.

(** C20: no ready connection waits for the next poll. In the middle of a round, the next calls of
    [Wait] answer with the connections the poll marked, each once, from the last to the first, and
    none of these calls polls again; this is so whatever is read from them, when they are closed
    in between, and whatever data arrives meanwhile. All of this ends when no read fails ([total]). *)
Theorem round_served total fuel len (w : W) :
  in_round os w → (total = true → reads_return os) →
  wp total (serve os fuel len (length (ready w)))
    (λ l w', l.*1.*1 = ready w ∧ Forall (λ x, x.1.2 = x.2) l ∧ ready w' = [] ∧ in_round os w') w.
Proof.
  intros Hw Hreads. remember (ready w) as rs eqn:Er. revert w Hw Er.
  induction rs as [|a rs IH]; intros w Hw Er; cbn [length serve].
  { wp_steps. by rewrite <- Er. }
  destruct (Wait_next os fuel w a rs Hw (eq_sym Er)) as (w1 & E & Ek & Hw1 & Er1 & Hh).
  wp_steps. unfold wp at 1. rewrite E. wp_steps.
  assert (Hrecv : wp total (Recv_conn os (S fuel) len a) (recv_post os (λ _, 0) (λ _, True) a w1) w1).
  { destruct total; [apply (wp_Recv_conn_ends os (λ _, 0) (λ _, True)); [by apply Hreads | apply Hw1 | done]
                    | apply (wp_Recv_conn os (λ _, 0) (λ _, True)); [apply Hw1 | done]]. }
  eapply wp_mono; [|exact Hrecv]. intros r w2 (Hok2 & _ & Hr2).
  destruct (handed_connection os a w1 (proj1 (r_ok os _ Hw1)) Hh) as [Ha _]. destruct (Hr2 Ha) as [Hround _].
  assert (Hw2 : in_round os w2) by (by eapply same_round_in_round).
  wp_steps. eapply wp_mono; [|apply (IH w2 Hw2)].
  - intros l w3 (El & Hl & Hr3 & Hw3). wp_steps. cbn. split_and!; [by f_equal | by constructor | done | done].
  - rewrite <- Er1. symmetry. by apply same_round_ready.
Qed.
End Promises.

(** ** A system to try the boxes on

    Descriptors are small numbers; [poll] marks the descriptors of the next list it was given;
    all sockets have one queue of bytes. [mode] says what reads do: [Calm], at most two bytes at a
    time; [Noisy], interrupted as long as there are signals; [Broken], they fail. *)
Module Toy.
Inductive mode : Type := Calm | Noisy | Broken.
Record system : Type := MkSystem {
  fds : list Z; polls : list (list Z); queue : list byte; pending : nat; error : Z }.

Definition new_fd (k : system) : Z * system :=
  let f := 1 + foldr Z.max 0 (fds k) in (f, MkSystem (f :: fds k) (polls k) (queue k) (pending k) (error k)).
Definition toy_poll (ps : list pollfd) (k : system) : Z * list Z * system :=
  let rs := (λ p, if bool_decide (fd p ∈ default [] (head (polls k))) then POLLIN else 0) <$> ps in
  (Z.of_nat (marked (set_revents ps rs)), rs, MkSystem (fds k) (tail (polls k)) (queue k) (pending k) (error k)).
Definition take_signal (k : system) : option system :=
  match pending k with O => None | S n => Some (MkSystem (fds k) (polls k) (queue k) n EINTR) end.
Definition some_bytes (n : Z) (k : system) : Z * list byte * system :=
  let n' := Z.to_nat (Z.min n 2) in
  (zlen (take n' (queue k)), take n' (queue k),
   MkSystem (fds k) (polls k) (drop n' (queue k)) (pending k) (error k)).
Definition toy_read (m : mode) (n : Z) (k : system) : Z * list byte * system :=
  match m, take_signal k with
  | Broken, _ => (-1, [], MkSystem (fds k) (polls k) (queue k) (pending k) EIO)
  | Noisy, Some k' => (-1, [], k')
  | _, _ => some_bytes n k
  end.
Definition toy_write (m : mode) (s : list byte) (k : system) : Z * system :=
  match m, take_signal k with
  | Noisy, Some k' => (-1, k')
  | _, _ => (zlen (take 3 s), MkSystem (fds k) (polls k) (queue k ++ take 3 s) (pending k) (error k))
  end.

Definition toy (m : mode) : kernel system := {|
  errno := error;
  set_errno := λ e k, MkSystem (fds k) (polls k) (queue k) (pending k) e;
  popc_socket := new_fd;
  setsockopt := λ _ _ _ _ k, (0, k);
  getsockopt := λ _ _ _ k, (0, 0, k);
  popc_bind := λ _ _ k, (0, k);
  popc_listen := λ _ _ k, (0, k);
  popc_accept := λ _ k, new_fd k;
  gethostbyname := λ _ k, (None, k);
  popc_inet_addr := λ _, 0;
  popc_connect := λ _ _ _ k, (0, k);
  fcntl_getfl := λ _ k, (0, k);
  fcntl_setfl := λ _ _ k, (0, k);
  getsockname_port := λ _ _, 2711;
  poll := λ ps _ k, toy_poll ps k;
  sys_read := λ _ n k, toy_read m n k;
  sys_write := λ _ s k, toy_write m s k;
  popc_close := λ f k, MkSystem (filter (λ g, g ≠ f) (fds k)) (polls k) (queue k) (pending k) (error k) |}.

Lemma new_fd_fresh k : ((new_fd k).1 ∉ fds k) ∧ 0 ≤ (new_fd k).1.
Proof.
  assert (H : ∀ l, 0 ≤ foldr Z.max 0 l ∧ Forall (λ f, f ≤ foldr Z.max 0 l) l).
  { induction l as [|f l [H1 H2]]; cbn; [by split |]. split; [lia |]. constructor; [lia |].
    eapply Forall_impl; [exact H2 |]. cbn. lia. }
  destruct (H (fds k)) as [H1 H2]. cbn. split; [|lia]. intros Hin.
  rewrite Forall_forall in H2. specialize (H2 _ Hin). lia.
Qed.

#[global] Program Instance toy_fds m : KernelFds (toy m) := {| opened := λ k, list_to_set (fds k) |}.
Next Obligation.
  intros m k. cbn. destruct (new_fd_fresh k) as [H1 H2]. cbn in *. rewrite (proj2 (Z.ltb_ge _ _)) by done.
  split; [by rewrite elem_of_list_to_set | done].
Qed.
Next Obligation. intros m f k. exact (toy_fds_obligation_1 m k). Qed.
Next Obligation. intros m f k. cbn. apply set_eq. intros g. rewrite elem_of_difference, !elem_of_list_to_set, elem_of_singleton, list_elem_of_filter. tauto. Qed.
Next Obligation. done. Qed.
Next Obligation. done. Qed.
Next Obligation. done. Qed.
Next Obligation. done. Qed.
Next Obligation. done. Qed.
Next Obligation. intros m f n k. cbn. unfold toy_read, take_signal. by destruct m; cbn; destruct (pending k). Qed.
Next Obligation. intros m f s k. cbn. unfold toy_write, take_signal. by destruct m; cbn; destruct (pending k). Qed.

#[global] Instance toy_polls m : KernelPoll (toy m).
Proof. done. Qed.

(** Actions in a row. *)
Fixpoint run {K F T : Type} (os : kernel K) (fuel : nat) (xs : list action) (h : Z) (w : world K F T) :
  option (Z * world K F T) :=
  match xs with
  | [] => Some (h, w)
  | x :: xs' =>
      match act os fuel x h w with
      | Some (Ok (h', w')) => run os fuel xs' h' w'
      | _ => None
      end
  end.
Lemma run_reach {K F T : Type} (os : kernel K) fuel xs h (w : world K F T) h' w' :
  reach os w h → run os fuel xs h w = Some (h', w') → reach os w' h'.
Proof.
  revert h w. induction xs as [|x xs IH]; intros h w Hr E; cbn [run] in E; [by injection E as <- <- |].
  destruct (act os fuel x h w) as [[[h1 w1]|c i|]|] eqn:Ex; [|done..]. eapply IH; [|exact E]. by eapply reach_act.
Qed.

(** A server that accepted three connections and was told that two of them are ready, and a
    connection to accept: [Wait] has answered with the last one. *)
Definition busy : system :=
  MkSystem [] [[1]; [1]; [1]; [1; 2; 4]; [2]] (string_bytes "some bytes") 3 0.
Definition toy_world : world system () () := combox_new () busy ().
Definition setup : list (action (T := ())) := [ACreate 2711 true; AWait].
Definition server_state (m : mode) : Z * world system () () := default (0, toy_world) (run (toy m) 30 setup 0 toy_world).
Lemma server_reach m : reach (toy m) (server_state m).2 (server_state m).1.
Proof.
  apply (run_reach _ 30 setup 0 toy_world); [constructor |]. by destruct m; vm_compute.
Qed.
Lemma server_round : in_round (toy Calm) (server_state Calm).2.
Proof.
  split; [|vm_compute; done..].
  exact (proj1 (reach_ok (toy Calm) (λ _, 0) (λ _, True) _ _ (server_reach Calm))).
Qed.
End Toy.

Lemma box_safe_witness :
  reach (Toy.toy Toy.Noisy) (Toy.server_state Toy.Noisy).2 (Toy.server_state Toy.Noisy).1 ∧
  connarray (Toy.server_state Toy.Noisy).2 = [1; 2; 3; 4] ∧
  NoDup (fd <$> pollarray (Toy.server_state Toy.Noisy).2).
Proof.
  split_and!; [apply Toy.server_reach | by vm_compute |].
  by destruct (box_safe (Toy.toy Toy.Noisy) _ _ (Toy.server_reach Toy.Noisy)) as (_ & _ & ?).
Defined.

Lemma round_served_witness :
  ready (Toy.server_state Toy.Calm).2 = [2] ∧
  wp true (serve (Toy.toy Toy.Calm) 5 100 1)
    (λ l w', l.*1.*1 = [2] ∧ Forall (λ x, x.1.2 = x.2) l ∧ ready w' = [] ∧ in_round (Toy.toy Toy.Calm) w')
    (Toy.server_state Toy.Calm).2.
Proof.
  split; [by vm_compute |]. apply (round_served (Toy.toy Toy.Calm) true 5 100 (Toy.server_state Toy.Calm).2 Toy.server_round).
  intros _ fd n k. cbn. unfold Toy.toy_read. destruct (Toy.take_signal k); apply zlen_nonneg.
Defined.
