(* ===== verification/UdsBox.v ===== *)
(** * Communication boxes over Unix domain sockets

    [popc_combox_uds] (lib/dynamic/popc_combox_uds.cpp) and its connections
    (popc_connection_uds.cpp): a box named by a path. A server polls an array of 200 entries, the
    listening socket first; it answers with a new connection or with the first that can be read,
    and takes those whose peer has left out of the array. The system calls are a parameter. *)

From S2P Require Import Prelude Machine Exceptions Utils Effects.
From S2P Require ComboxSocket.
Export ComboxSocket(pollfd, MkPoll, fd, events, revents, POLLIN, EINTR, set_revents).
#[export] Existing Instance ComboxSocket.pollfd_eta.

Definition POLLHUP : Z := 16.
Definition UDS_PROTOCOL_NAME : string := "uds".
(** The characters of a path, and the entries of the array. *)
Definition SUN_PATH : Z := 108.
Definition CONNECTIONS : nat := 200.

Record uds_kernel (K : Type) : Type := {
  u_errno : K → Z;
  u_socket : K → Z * K;
  u_bind : Z → chars → K → Z * K;
  u_unlink : chars → K → Z * K;
  u_listen : Z → Z → K → Z * K;
  u_connect : Z → chars → K → Z * K;
  u_accept : Z → K → Z * K;
  u_poll : list pollfd → Z → K → Z * list Z * K;
  u_read : Z → Z → K → Z * list byte * K;
  u_write : Z → list byte → K → Z * K;
  u_close : Z → K → Z * K }.
Arguments u_errno {K}. Arguments u_socket {K}. Arguments u_bind {K}. Arguments u_unlink {K}.
Arguments u_listen {K}. Arguments u_connect {K}. Arguments u_accept {K}. Arguments u_poll {K}.
Arguments u_read {K}. Arguments u_write {K}. Arguments u_close {K}.

(** [popc_connection_uds]; [Clone] does not copy the mark of a new connection. *)
Record uds_connection : Type := MkUds { get_fd : Z; is_initial : bool }.
Definition Clone (c : uds_connection) : uds_connection := MkUds (get_fd c) false.

(** A box; [None] is memory that was never written. *)
Record box (K : Type) : Type := MkBox {
  socket_fd : Z;
  sun_path : option chars;
  is_server : bool;
  uds_address : chars;
  active : list (option pollfd);
  active_nb : Z;
  own_timeout : Z;                           (* _timeout *)
  connected : bool;
  connection : option uds_connection;
  timeout : Z;                               (* pop_combox::timeout *)
  kern : K }.
Arguments MkBox {K}. Arguments socket_fd {K}. Arguments sun_path {K}. Arguments is_server {K}.
Arguments uds_address {K}. Arguments active {K}. Arguments active_nb {K}. Arguments own_timeout {K}.
Arguments connected {K}. Arguments connection {K}. Arguments timeout {K}. Arguments kern {K}.
#[export] Instance box_eta {K : Type} : Eta (box K) := λ w,
  MkBox (socket_fd w) (sun_path w) (is_server w) (uds_address w) (active w) (active_nb w) (own_timeout w)
    (connected w) (connection w) (timeout w) (kern w).

Definition uds_new {K : Type} (k : K) : box K :=
  MkBox (-1) None false [] (replicate CONNECTIONS None) 0 (-1) false None (-1) k.

Section Uds.
Context {K : Type} (os : uds_kernel K).
#[local] Abbreviation W := (box K).
#[local] Abbreviation P := (Effects.P W).

Definition sys {A : Type} (call : K → A * K) : P A := λ w,
  let '(a, k) := call (kern w) in Some (Ok (a, w <| kern := k |>)).
Definition SetTimeout (millisec : Z) : P () := modify (λ w, w <| timeout := millisec |>).

(** The array; an access outside of it is undefined. *)
Definition entry (i : Z) : P pollfd :=
  let? w := get in
  let? p := need (if i <? 0 then None else active w !! Z.to_nat i) in need p.
Definition set_entry (i : Z) (p : pollfd) : P () :=
  let? w := get in
  if (0 <=? i) && (i <? zlen (active w)) then modify (λ w, w <| active := <[Z.to_nat i := Some p]> (active w) |>)
  else undefined.
Definition add_fd_to_poll (fd : Z) : P () :=
  let? w := get in
  set_entry (active_nb w) (MkPoll fd POLLIN 0) ;;?
  modify (λ w, w <| active_nb := active_nb w + 1 |>).

(** ** Creation *)

(** [strcpy(_sock_address.sun_path, ...)]. *)
Definition set_path (path : chars) : P () :=
  if zlen (before_nul path) + 1 <=? SUN_PATH then modify (λ w, w <| sun_path := Some (before_nul path) |>)
  else undefined.
Definition bind_path (path : chars) : P bool :=
  set_path path ;;?
  let? w := get in
  let? r := sys (u_bind os (socket_fd w) (before_nul path)) in ret (r =? 0).
(** The first free path of a series: [n] paths are left, [i] is the next. *)
Fixpoint bind_first (prefix : chars) (n : nat) (i : Z) : P bool :=
  match n with
  | O => ret false
  | S n' =>
      let path := prefix ++ decimal i in
      let? ok := bind_path path in
      if (ok : bool) then modify (λ w, w <| uds_address := path |>) ;;? ret true
      else bind_first prefix n' (i + 1)
  end.

Definition uds_prefix : chars := string_bytes "uds://".
Definition strip_prefix (address : chars) : chars :=
  if decide (take 6 address = uds_prefix) then drop 6 address else address.

Definition Create (address : option chars) (server : bool) : P bool :=
  modify (λ w, w <| is_server := server |>) ;;?
  let? s := sys (u_socket os) in
  modify (λ w, w <| socket_fd := s |>) ;;?
  if s <? 0 then ret false
  else if server then
    modify (λ w, w <| own_timeout := -1 |>) ;;?
    let? bound :=
      match address with
      | None =>
          let? ok := bind_first (string_bytes ".uds_0.") (Pos.to_nat 32768) 0 in
          if (ok : bool) then ret true else bind_first (string_bytes "/tmp/uds_0.") (Pos.to_nat 32768) 0
      | Some address =>
          let path := strip_prefix address in
          modify (λ w, w <| uds_address := path |>) ;;?
          sys (u_unlink os (before_nul path)) ;;?
          bind_path path
      end in
    if negb bound then ret false
    else
      let? r := sys (u_listen os s 10) in
      if negb (r =? 0) then ret false
      else
        set_entry 0 (MkPoll s POLLIN 0) ;;?
        modify (λ w, w <| active_nb := active_nb w + 1 |>) ;;?
        ret true
  else
    let? address := need address in
    let path := strip_prefix address in
    modify (λ w, w <| uds_address := path |>) ;;?
    set_path path ;;? ret true.

Definition Connect : P bool :=
  let? w := get in
  let? path := need (sun_path w) in
  let? r := sys (u_connect os (socket_fd w) path) in
  if negb (r =? 0) then ret false
  else
    modify (λ w, w <| connected := true |>) ;;?
    set_entry 0 (MkPoll (socket_fd w) POLLIN 0) ;;?
    modify (λ w, w <| connection := Some (MkUds (socket_fd w) false) |>) ;;?
    ret true.
Definition get_connection : P (option uds_connection) :=
  let? w := get in
  if connected w then let? c := need (connection w) in ret (Some c) else ret None.

Definition GetUrl : P chars := let? w := get in ret (uds_prefix ++ uds_address w).
Definition GetProtocol : string := UDS_PROTOCOL_NAME.

(** ** Waiting *)

(** [poll] on the first entries. *)
Definition polled (n : nat) (l : list (option pollfd)) : option (list pollfd) :=
  if (n <=? length l)%nat then mapM id (take n l) else None.
Definition poll_first (n : nat) (t : Z) : P Z := λ w,
  match polled n (active w) with
  | None => Some Stuck
  | Some ps =>
      let '(r, rs, k) := u_poll os ps t (kern w) in
      Some (Ok (r, w <| kern := k |> <| active := (Some <$> set_revents ps rs) ++ drop n (active w) |>))
  end.

Definition has (bits : Z) (p : pollfd) : bool := negb (Z.land (revents p) bits =? 0).

(** An entry leaves: the last one takes its place. *)
Definition remove_entry (i : Z) : P () :=
  let? w := get in
  if active_nb w =? 2 then
    modify (λ w, w <| active_nb := 1 |>) ;;? set_entry i (MkPoll 0 0 0)
  else
    modify (λ w, w <| active_nb := active_nb w - 1 |>) ;;?
    let? p := entry (active_nb w - 1) in set_entry i p.

(** The loop over the entries; [n] are left, [i] is the next. *)
Fixpoint scan (n : nat) (i : Z) : P (option uds_connection) :=
  match n with
  | O => ret None
  | S n' =>
      let? p := entry i in
      if has POLLIN p then
        if i =? 0 then
          let? w := get in
          let? s := sys (u_accept os (socket_fd w)) in
          if s <? 0 then scan n' (i + 1)
          else
            set_entry (active_nb w) (MkPoll s POLLIN 0) ;;?
            modify (λ w, w <| active_nb := active_nb w + 1 |>) ;;?
            set_entry i (p <| revents := 0 |>) ;;?
            ret (Some (MkUds s true))
        else if has POLLHUP p then remove_entry i ;;? ret (Some (MkUds (fd p) false))
        else set_entry i (p <| revents := 0 |>) ;;? ret (Some (MkUds (fd p) false))
      else if has POLLHUP p then remove_entry i ;;? ret None
      else scan n' (i + 1)
  end.

Definition Wait (fuel : nat) : P (option uds_connection) :=
  let? w := get in
  if is_server w then
    modify (λ w, w <| own_timeout := timeout w |>) ;;?
    let? n := retry fuel (λ n w, (n =? -1) && (u_errno os (kern w) =? EINTR))
                (let? w := get in poll_first (Z.to_nat (active_nb w)) (own_timeout w)) in
    if 0 <? n then let? w := get in scan (Z.to_nat (active_nb w)) 0 else ret None
  else
    let? n := poll_first 1 (own_timeout w) in
    if 0 <? n then
      let? p := entry 0 in
      ret (if has POLLIN p then Some (MkUds (fd p) false) else None)
    else ret None.

(** ** Messages *)
Definition Send_conn (s : list byte) (conn : option uds_connection) : P Z :=
  match conn with
  | None => ret (-1)
  | Some c => if 0 <? zlen s then sys (u_write os (get_fd c) s) else ret 0
  end.
(** A connection that is null is waited for; a read that fails is done again. *)
Definition Recv_conn (fuel : nat) (len : Z) (conn : option uds_connection) : P (Z * list byte) :=
  let? conn := match conn with None => Wait fuel | Some c => ret (Some c) end in
  match conn with
  | None => ret (-1, [])
  | Some c =>
      retry fuel (λ r _, r.1 <? 0)
        (sys (λ k, let '(n, bs, k) := u_read os (get_fd c) len k in ((n, bs), k)))
  end.

Definition Close : P () :=
  let? w := get in
  sys (u_close os (socket_fd w)) ;;?
  if is_server w then sys (u_unlink os (before_nul (uds_address w))) ;;? ret ()
  else modify (λ w, w <| connected := false |>).
(** [~popc_combox_uds]. *)
Definition destroy : P () :=
  let? w := get in if connected w || is_server w then Close else ret ().
End Uds.

(** ** The array *)

(** Entry [i] leaves, the last takes its place. *)
Definition swap_remove {A : Type} (i : nat) (l : list A) : list A :=
  match last l with Some x => take (length l - 1) (<[i := x]> l) | None => l end.
Lemma swap_remove_perm {A : Type} (l : list A) i p : l !! i = Some p → p :: swap_remove i l ≡ₚ l.
Proof.
  intros Hp. unfold swap_remove. pose proof (lookup_lt_Some _ _ _ Hp) as Hi.
  destruct (last l) as [x|] eqn:El; [|by apply last_None in El as ->]. apply last_Some in El as [l' ->].
  rewrite length_app in *. cbn [length] in *. replace (length l' + 1 - 1)%nat with (length l') by lia.
  destruct (decide (i < length l')%nat) as [Hlt|Hge].
  - rewrite lookup_app_l in Hp by done. rewrite insert_app_l by done.
    rewrite take_app_le, take_ge by (rewrite length_insert; lia). rewrite (insert_take_drop _ _ _ Hlt).
    assert (E : l' ≡ₚ p :: (take i l' ++ drop (S i) l')).
    { rewrite <- (take_drop_middle _ _ _ Hp) at 1. by rewrite Permutation_middle. }
    transitivity (x :: l'); [|by rewrite (Permutation_app_comm l' [x])]. rewrite <- Permutation_middle, Permutation_swap.
    by f_equiv.
  - assert (i = length l') as -> by lia. rewrite lookup_app_r, Nat.sub_diag in Hp by lia. injection Hp as ->.
    rewrite insert_app_r_alt, Nat.sub_diag, take_app_length by lia. by rewrite (Permutation_app_comm _ [p]).
Qed.
Lemma swap_remove_lookup {A : Type} (l : list A) i j x :
  (j < i)%nat → (i < length l)%nat → l !! j = Some x → swap_remove i l !! j = Some x.
Proof.
  intros Hj Hi Hx. unfold swap_remove. destruct (last l) eqn:El; [|done].
  rewrite lookup_take_lt by lia. by rewrite list_lookup_insert_ne by lia.
Qed.
Lemma swap_remove_length {A : Type} (l : list A) i : length (swap_remove i l) = (length l - 1)%nat.
Proof.
  unfold swap_remove. destruct (last l) eqn:El; [rewrite length_take, length_insert; lia |].
  apply last_None in El as ->. done.
Qed.
Lemma swap_remove_fmap {A B : Type} (f : A → B) i l : f <$> swap_remove i l = swap_remove i (f <$> l).
Proof.
  unfold swap_remove. rewrite fmap_last. destruct (last l) as [x|]; [|done]. cbn [fmap option_fmap option_map].
  by rewrite fmap_take, list_fmap_insert, length_fmap.
Qed.

(** Descriptors: one that is given out is not in use, and only [close] takes one away. [poll] writes
    the marks of every entry. *)
Class UdsFds {K : Type} (os : uds_kernel K) := {
  u_poll_marks ps t k : length (u_poll os ps t k).1.2 = length ps;
  u_opened : K → gset Z;
  u_socket_fds k : u_opened k ⊆ u_opened (u_socket os k).2;
  u_bind_fds s p k : u_opened (u_bind os s p k).2 = u_opened k;
  u_unlink_fds p k : u_opened (u_unlink os p k).2 = u_opened k;
  u_listen_fds s n k : u_opened (u_listen os s n k).2 = u_opened k;
  u_connect_fds s p k : u_opened (u_connect os s p k).2 = u_opened k;
  u_poll_fds ps t k : u_opened (u_poll os ps t k).2 = u_opened k;
  u_read_fds s n k : u_opened (u_read os s n k).2 = u_opened k;
  u_write_fds s d k : u_opened (u_write os s d k).2 = u_opened k;
  u_close_fds s k : u_opened (u_close os s k).2 = u_opened k ∖ {[s]};
  u_accept_fds s k :
    let r := (u_accept os s k).1 in let k' := (u_accept os s k).2 in
    if r <? 0 then u_opened k' = u_opened k else r ∉ u_opened k ∧ u_opened k' = {[r]} ∪ u_opened k }.

Section Server.
Context {K : Type} (os : uds_kernel K) `{!UdsFds os}.
#[local] Abbreviation W := (box K).

(** A server that polls [ps]. *)
Record serving (ps : list pollfd) (w : W) : Prop := {
  s_server : is_server w = true;
  s_room : length (active w) = CONNECTIONS;
  s_count : active_nb w = zlen ps;
  s_table : take (length ps) (active w) = Some <$> ps;
  s_listen : fd <$> head ps = Some (socket_fd w);
  s_nodup : NoDup (fd <$> ps);
  s_open : ∀ f, f ∈ fd <$> ps → f ∈ u_opened (kern w) }.

Lemma serving_bound ps w : serving ps w → (length ps ≤ CONNECTIONS)%nat.
Proof.
  intros []. pose proof (f_equal length s_table0) as E. rewrite length_take, length_fmap, s_room0 in E. lia.
Qed.
Lemma serving_pos ps w : serving ps w → (0 < length ps)%nat.
Proof. intros []. destruct ps; cbn in *; [done | lia]. Qed.
Lemma serving_lookup ps w i p : serving ps w → ps !! i = Some p → active w !! i = Some (Some p).
Proof.
  intros Hs Hp. pose proof (lookup_lt_Some _ _ _ Hp) as Hi. rewrite <- (lookup_take_lt (active w) (length ps)) by done.
  by rewrite (s_table _ _ Hs), list_lookup_fmap, Hp.
Qed.

Lemma wp_call total {A : Type} (call : K → A * K) (Q : A → W → Prop) w :
  Q (call (kern w)).1 (w <| kern := (call (kern w)).2 |>) → wp total (sys call) Q w.
Proof. unfold wp, sys. by destruct (call (kern w)). Qed.
Lemma wp_entry total ps i p (Q : pollfd → W → Prop) w :
  serving ps w → ps !! i = Some p → Q p w → wp total (entry (Z.of_nat i)) Q w.
Proof.
  intros Hs Hp HQ. unfold entry. wp_steps. rewrite (proj2 (Z.ltb_ge _ _)), Nat2Z.id by lia.
  rewrite (serving_lookup _ _ _ _ Hs Hp). by wp_steps; eapply wp_need.
Qed.
Lemma wp_set_entry total i p (Q : () → W → Prop) w :
  length (active w) = CONNECTIONS → (i < CONNECTIONS)%nat → Q () (w <| active := <[i := Some p]> (active w) |>) →
  wp total (set_entry (Z.of_nat i) p) Q w.
Proof.
  intros Hl Hi HQ. unfold set_entry. wp_steps.
  rewrite (proj2 (Z.leb_le _ _)), (proj2 (Z.ltb_lt _ _)), Nat2Z.id by lia. by wp_steps.
Qed.

(** A change of the marks, a new entry, and one that leaves. *)
Lemma serving_insert ps w i p q :
  serving ps w → ps !! i = Some p → fd q = fd p → serving (<[i := q]> ps) (w <| active := <[i := Some q]> (active w) |>).
Proof.
  intros Hs Hp Hq. pose proof (lookup_lt_Some _ _ _ Hp) as Hi.
  assert (Hf : fd <$> <[i := q]> ps = fd <$> ps).
  { rewrite list_fmap_insert, Hq. apply list_insert_id. by rewrite list_lookup_fmap, Hp. }
  destruct Hs. split; cbn; rewrite ?length_insert, ?Hf; try done.
  - rewrite take_insert_lt, s_table0, list_fmap_insert by lia. done.
  - rewrite !head_lookup in *. destruct (decide (i = 0%nat)) as [->|Hn].
    + rewrite list_lookup_insert_eq by lia. rewrite Hp in s_listen0. cbn in *. by rewrite Hq.
    + by rewrite list_lookup_insert_ne.
Qed.
Lemma serving_push ps w s ev k :
  serving ps w → (length ps < CONNECTIONS)%nat → s ∉ u_opened (kern w) → u_opened k = {[s]} ∪ u_opened (kern w) →
  serving (ps ++ [MkPoll s ev 0])
    (w <| kern := k |> <| active := <[length ps := Some (MkPoll s ev 0)]> (active w) |> <| active_nb := active_nb w + 1 |>).
Proof.
  intros Hs Hl Hn Ho. pose proof (serving_pos _ _ Hs) as Hp. destruct Hs.
  split; cbn; rewrite ?length_insert, ?fmap_app, ?length_app; cbn; try done.
  - lia.
  - rewrite Nat.add_1_r, (take_S_r _ _ (Some (MkPoll s ev 0))) by (rewrite list_lookup_insert_eq; [done | lia]).
    by rewrite take_insert_ge, s_table0.
  - by destruct ps.
  - apply NoDup_app. split_and!; [done | | apply NoDup_singleton].
    intros f Hf Hfs%list_elem_of_singleton. subst f. naive_solver.
  - intros f [Hf| ->%list_elem_of_singleton]%elem_of_app; set_solver.
Qed.
Lemma serving_remove ps w i p :
  serving ps w → ps !! i = Some p → (0 < i)%nat →
  ∀ total (Q : () → W → Prop),
    (∀ w', serving (swap_remove i ps) w' → kern w' = kern w → Q () w') → wp total (remove_entry (Z.of_nat i)) Q w.
Proof.
  intros Hs Hp H0 total Q HQ. pose proof (lookup_lt_Some _ _ _ Hp) as Hi. pose proof (serving_bound _ _ Hs) as Hb.
  assert (Hperm : fd p :: (fd <$> swap_remove i ps) ≡ₚ fd <$> ps).
  { rewrite swap_remove_fmap. apply swap_remove_perm. by rewrite list_lookup_fmap, Hp. }
  assert (Hgoal : ∀ n a, n = zlen ps - 1 → length a = CONNECTIONS → take (length ps - 1) a = Some <$> swap_remove i ps →
            serving (swap_remove i ps) (w <| active_nb := n |> <| active := a |>)).
  { intros n a -> Ha Ht. destruct Hs. split; cbn; rewrite ?swap_remove_length; try done.
    - lia.
    - rewrite head_lookup in *. destruct (ps !! 0%nat) as [p0|] eqn:E0; [|done].
      by rewrite (swap_remove_lookup ps i 0 p0).
    - rewrite <- Hperm in s_nodup0. by apply NoDup_cons in s_nodup0 as [_ ?].
    - intros f Hf. apply s_open0. rewrite <- Hperm. by right. }
  unfold remove_entry. wp_steps. rewrite (s_count _ _ Hs). destruct (Z.eqb_spec (zlen ps) 2) as [H2|H2].
  - wp_steps. apply wp_set_entry; [cbn; apply Hs | lia |]. apply HQ; [|done].
    apply Hgoal; [lia | cbn; rewrite length_insert; apply Hs |]; cbn. rewrite take_insert_ge by lia.
    assert (i = 1%nat) as -> by lia. unfold swap_remove. destruct ps as [|a [|b [|]]]; cbn in H2; try lia. cbn in *.
    pose proof (s_table _ _ Hs) as E. cbn in E. destruct (active w) as [|x [|]]; try done. cbn in *. by injection E as -> _.
  - wp_steps. cbn. rewrite (s_count _ _ Hs).
    destruct (last ps) as [x|] eqn:El; [|apply last_None in El; by subst].
    rewrite last_lookup in El.
    replace (zlen ps - 1) with (Z.of_nat (pred (length ps))) by lia.
    unfold entry. wp_steps. rewrite (proj2 (Z.ltb_ge _ _)), Nat2Z.id by lia. cbn.
    rewrite (serving_lookup _ _ _ _ Hs El). wp_steps. eapply wp_need; [done |]. eapply wp_need; [done |].
    apply wp_set_entry; [cbn; apply Hs | lia |]. apply HQ; [|done].
    apply Hgoal; [lia | cbn; rewrite length_insert; apply Hs |]; cbn. unfold swap_remove. rewrite last_lookup, El.
    rewrite fmap_take, list_fmap_insert. rewrite <- (s_table _ _ Hs), <- take_insert_lt, take_take by lia. f_equal. lia.
Qed.

(** What a system call leaves of the box. *)
Lemma serving_kern ps w k :
  serving ps w → u_opened k = u_opened (kern w) → serving ps (w <| kern := k |>).
Proof. intros [] Hk. split; cbn; rewrite ?Hk; done. Qed.
Lemma serving_timeout ps w t : serving ps w → serving ps (w <| own_timeout := t |>).
Proof. intros []. by split. Qed.

(** ** What [Wait] answers *)

(** The listening socket has no peer to lose. *)
Definition listens (s : Z) : Prop :=
  ∀ ps t k p m, ps !! 0%nat = Some p → fd p = s → (u_poll os ps t k).1.2 !! 0%nat = Some m → Z.land m POLLHUP = 0.
Definition never_hung (ps : list pollfd) : Prop := ∀ p, ps !! 0%nat = Some p → has POLLHUP p = false.

Definition ready (p : pollfd) : bool := has POLLIN p || has POLLHUP p.
(** The first entry after the listening socket that is marked. *)
Definition first_ready (ps : list pollfd) (i : nat) (p : pollfd) : Prop :=
  ps !! i = Some p ∧ (0 < i)%nat ∧ ready p = true ∧ ∀ j q, (0 < j < i)%nat → ps !! j = Some q → ready q = false.

(** The answer to the marks [ps] of a poll, and the descriptors that are polled next. *)
Definition answered (ps : list pollfd) (old : gset Z) (c : option uds_connection) (fds' : list Z) : Prop :=
  match c with
  | Some (MkUds s true) => s ∉ old ∧ fds' = (fd <$> ps) ++ [s]
  | Some (MkUds s false) => ∃ i p, first_ready ps i p ∧ fd p = s ∧ has POLLIN p = true ∧
      if has POLLHUP p then fds' = swap_remove i (fd <$> ps) else fds' = fd <$> ps
  | None => (fds' = fd <$> ps ∧ ∀ i p, (0 < i)%nat → ps !! i = Some p → ready p = false) ∨
      ∃ i p, first_ready ps i p ∧ has POLLIN p = false ∧ fds' = swap_remove i (fd <$> ps)
  end.
Definition scan_post (ps : list pollfd) (old : gset Z) (c : option uds_connection) (w' : W) : Prop :=
  ∃ ps', serving ps' w' ∧ answered ps old c (fd <$> ps') ∧ old ⊆ u_opened (kern w').

Lemma scan_spec ps n i w :
  serving ps w → (length ps < CONNECTIONS)%nat → never_hung ps → (n + i = length ps)%nat →
  (∀ j q, (0 < j < i)%nat → ps !! j = Some q → ready q = false) →
  wp true (scan os n (Z.of_nat i)) (scan_post ps (u_opened (kern w))) w.
Proof.
  intros Hs Hl Hh. revert i w Hs. induction n as [|n IH]; intros i w Hs Hn Hbefore; cbn [scan].
  { apply wp_ret. exists ps. split_and!; [done | | done]. left. split; [done |]. intros j q Hj Hq.
    apply (Hbefore j q); [|done]. apply lookup_lt_Some in Hq. lia. }
  destruct (lookup_lt_is_Some_2 ps i ltac:(lia)) as [p Hp]. wp_steps. apply (wp_entry true ps i p); [done | done |].
  assert (Hnext : ready p = false ∨ i = 0%nat → ∀ w', serving ps w' → u_opened (kern w') = u_opened (kern w) →
            wp true (scan os n (Z.of_nat i + 1)) (scan_post ps (u_opened (kern w))) w').
  { intros Hr w' Hs' Ho. rewrite <- Ho. replace (Z.of_nat i + 1) with (Z.of_nat (S i)) by lia. apply IH; [done | lia |].
    intros j q Hj Hq. destruct (decide (j = i)) as [->|Hne]; [|by apply (Hbefore j q); [lia |]].
    destruct Hr as [Hr| ->]; [congruence | lia]. }
  assert (Hfirst : ready p = true → i ≠ 0%nat → first_ready ps i p) by (intros ??; split_and!; [done | lia | done | done]).
  destruct (has POLLIN p) eqn:Ein; [destruct (Z.eqb_spec (Z.of_nat i) 0) as [Hi|Hi]|].
  - wp_steps. apply wp_call. pose proof (u_accept_fds (socket_fd w) (kern w)) as Ha. cbv zeta in Ha.
    destruct (u_accept os (socket_fd w) (kern w)) as [s k] eqn:Eacc. cbn [fst snd] in *.
    destruct (s <? 0); [apply Hnext; [right; lia | by apply serving_kern | done] |]. destruct Ha as [Hnew Hopened].
    wp_steps. cbn. rewrite (s_count _ _ Hs). apply wp_set_entry; [cbn; apply Hs | done |]. wp_steps.
    pose proof (serving_push ps w s POLLIN k Hs Hl Hnew Hopened) as Hs1.
    assert (i = 0%nat) as -> by lia. change 0%nat with (Z.to_nat 0). apply (wp_set_entry true 0%nat); [cbn; rewrite length_insert; apply Hs | unfold CONNECTIONS; lia |].
    wp_steps. eexists. split_and!.
    + eapply (serving_insert _ _ 0%nat p (p <| revents := 0 |>) Hs1); [by rewrite lookup_app_l by lia | done].
    + cbn. split; [done |]. rewrite (ComboxSocket.fds_insert _ 0%nat p) by (rewrite ?lookup_app_l by lia; done).
      by rewrite fmap_app.
    + cbn. set_solver.
  - assert (Hr : ready p = true) by (unfold ready; by rewrite Ein). specialize (Hfirst Hr ltac:(lia)).
    destruct (has POLLHUP p) eqn:Ehup; wp_steps.
    + apply (serving_remove ps w i p Hs Hp); [lia |]. intros w' Hs' Hk. wp_steps. eexists. split_and!; [done | | by rewrite Hk].
      exists i, p. rewrite Ehup. split_and!; [done..|]. by rewrite swap_remove_fmap.
    + apply wp_set_entry; [apply Hs | lia |]. wp_steps. eexists. split_and!; [by apply (serving_insert ps w i p (p <| revents := 0 |>) Hs Hp) | | done].
      exists i, p. rewrite Ehup. split_and!; [done..|]. by apply (ComboxSocket.fds_insert _ i p).
  - destruct (has POLLHUP p) eqn:Ehup; [|apply Hnext; [left; unfold ready; by rewrite Ein, Ehup | done | done]].
    assert (Hi : i ≠ 0%nat) by (intros ->; apply Hh in Hp; congruence).
    wp_steps. apply (serving_remove ps w i p Hs Hp); [lia |]. intros w' Hs' Hk. wp_steps. eexists. split_and!; [done | | by rewrite Hk].
    right. exists i, p. split_and!; [apply Hfirst; [unfold ready; by rewrite Ehup, orb_true_r | done] | done | by rewrite swap_remove_fmap].
Qed.

(** The state when a poll has answered. *)
Lemma poll_spec total ps (Q : Z → W → Prop) w t :
  serving ps w →
  (∀ k, let r := u_poll os ps t (kern w) in serving (set_revents ps r.1.2) (w <| kern := r.2 |> <| active := k |>) →
    Q r.1.1 (w <| kern := r.2 |> <| active := k |>)) →
  wp total (poll_first os (length ps) t) Q w.
Proof.
  intros Hs HQ. unfold wp, poll_first, polled. pose proof (serving_bound _ _ Hs) as Hb.
  rewrite (s_room _ _ Hs), (proj2 (Nat.leb_le _ _)), (s_table _ _ Hs) by done.
  assert (Hm : ∀ l : list pollfd, mapM id (Some <$> l) = Some l) by (induction l as [|x l IHl]; [done | cbn; by rewrite IHl]).
  rewrite Hm. specialize (HQ ((Some <$> set_revents ps (u_poll os ps t (kern w)).1.2) ++ drop (length ps) (active w))).
  pose proof (u_poll_fds ps t (kern w)) as Ho. destruct (u_poll os ps t (kern w)) as [[r rs] k]. cbn in *. apply HQ.
  assert (Hl : length (set_revents ps rs) = length ps) by apply length_imap.
  pose proof (ComboxSocket.fds_set_revents ps rs) as Hf. destruct Hs.
  split; cbn; rewrite ?Hf, ?Hl, ?Ho; try done.
  - rewrite length_app, length_fmap, Hl, length_drop. lia.
  - rewrite <- Hl, <- (length_fmap Some). by rewrite take_app_length.
  - rewrite !head_lookup in *. rewrite <- list_lookup_fmap, Hf, list_lookup_fmap. done.
Qed.

(** The marks a poll left. *)
Definition polled_marks (fds : list Z) (marks : list pollfd) : Prop :=
  fd <$> marks = fds ∧ ∃ ps t k, 0 < (u_poll os ps t k).1.1 ∧ marks = set_revents ps (u_poll os ps t k).1.2.

Lemma Wait_wp fuel ps w :
  serving ps w → (length ps < CONNECTIONS)%nat → listens (socket_fd w) →
  wp false (Wait os fuel) (λ c w', ∃ ps', serving ps' w' ∧
      ((c = None ∧ fd <$> ps' = fd <$> ps) ∨
       ∃ marks, polled_marks (fd <$> ps) marks ∧ answered marks (u_opened (kern w)) c (fd <$> ps'))) w.
Proof.
  intros Hs Hl Hlisten. unfold Wait. wp_steps. rewrite (s_server _ _ Hs). wp_steps.
  set (I := λ w1 : W, ∃ ps1, serving ps1 w1 ∧ fd <$> ps1 = fd <$> ps ∧ u_opened (kern w1) = u_opened (kern w)).
  apply (wp_retry _ _ _ I); [exists ps; split_and!; [by apply serving_timeout | done..] |].
  intros w1 (ps1 & Hs1 & Hf1 & Ho1). wp_steps. rewrite (s_count _ _ Hs1), Nat2Z.id. apply (poll_spec false ps1); [done |].
  intros k r Hs2. set (w2 := w1 <| kern := r.2 |> <| active := k |>) in *.
  assert (Hf2 : fd <$> set_revents ps1 r.1.2 = fd <$> ps) by (rewrite <- Hf1; apply ComboxSocket.fds_set_revents).
  assert (Ho2 : u_opened (kern w2) = u_opened (kern w)) by (rewrite <- Ho1; apply u_poll_fds).
  case_match; [exists (set_revents ps1 r.1.2); done |].
  destruct (0 <? r.1.1) eqn:Hr; wp_steps; [|exists (set_revents ps1 r.1.2); by split; [|left]].
  rewrite (s_count _ _ Hs2), Nat2Z.id. assert (Hl2 : length (set_revents ps1 r.1.2) = length ps).
  { by rewrite <- (length_fmap fd), Hf2, length_fmap. }
  apply wp_weaken with true. eapply wp_mono; [|apply (scan_spec _ _ 0 w2 Hs2); [lia | | lia | lia]].
  - intros c w' (ps' & Hs' & Ha & _). exists ps'. split; [done |]. right. exists (set_revents ps1 r.1.2). rewrite <- Ho2.
    split; [|done]. split; [done |]. exists ps1, (own_timeout w1), (kern w1). split; [by apply Z.ltb_lt | done].
  - intros p Hp. unfold set_revents in Hp. rewrite list_lookup_imap in Hp. apply fmap_Some in Hp as (q & Hq & ->).
    assert (Hqf : fd q = socket_fd w).
    { pose proof (s_listen _ _ Hs) as E. rewrite head_lookup, <- list_lookup_fmap, <- Hf1, list_lookup_fmap, Hq in E. by injection E. }
    unfold has. cbn. destruct (r.1.2 !! 0%nat) as [m|] eqn:Em; cbn.
    + by rewrite (Hlisten ps1 (own_timeout w1) (kern w1) q m).
    + apply lookup_ge_None in Em. apply lookup_lt_Some in Hq. unfold r in Em. rewrite u_poll_marks in Em. lia.
Qed.


(** ** Descriptors that stay open *)

(** What every operation but [Create] and [Close] leaves. *)
Definition kept (w w' : W) : Prop :=
  socket_fd w' = socket_fd w ∧ is_server w' = is_server w ∧ u_opened (kern w) ⊆ u_opened (kern w').
#[export] Instance kept_order : PreOrder kept.
Proof. split; [by intros w | intros w1 w2 w3 (? & ? & ?) (? & ? & ?); split_and!; [congruence | congruence | set_solver]]. Qed.
#[local] Abbreviation keeps := (respects kept).

Lemma keeps_sys {A : Type} (call : K → A * K) : (∀ k, u_opened k ⊆ u_opened (call k).2) → keeps (sys call).
Proof. intros Hc w a w'. unfold sys. specialize (Hc (kern w)). destruct (call (kern w)). by intros [= _ <-]. Qed.
Lemma keeps_entry i : keeps (entry (K := K) i).
Proof. unfold entry. respects_steps. Qed.
Lemma keeps_set_entry i p : keeps (set_entry (K := K) i p).
Proof. unfold set_entry. respects_steps. Qed.
Hint Resolve keeps_entry keeps_set_entry : respects.
Lemma keeps_remove_entry i : keeps (remove_entry (K := K) i).
Proof. unfold remove_entry. respects_steps. Qed.
Lemma keeps_accept s : keeps (sys (u_accept os s)).
Proof.
  apply keeps_sys. intros k. pose proof (u_accept_fds s k) as H. cbv zeta in H.
  case_match; [by rewrite H | set_solver].
Qed.
Lemma keeps_poll n t : keeps (poll_first os n t).
Proof.
  intros w a w'. unfold poll_first. destruct (polled n (active w)) as [ps|]; [|done].
  pose proof (u_poll_fds ps t (kern w)) as Ho. destruct (u_poll os ps t (kern w)) as [[r rs] k].
  intros [= _ <-]. cbn in *. unfold kept. cbn. by rewrite Ho.
Qed.
Hint Resolve keeps_remove_entry keeps_accept keeps_poll : respects.
Lemma keeps_scan n i : keeps (scan os n i).
Proof. revert i. induction n as [|n IH]; intros i; cbn [scan]; respects_steps. Qed.
Hint Resolve keeps_scan : respects.
Lemma keeps_Wait fuel : keeps (Wait os fuel).
Proof. unfold Wait. respects_steps. apply respects_retry; [apply _ |]. respects_steps. Qed.
Hint Resolve keeps_Wait : respects.
Lemma keeps_Send s conn : keeps (Send_conn os s conn).
Proof. unfold Send_conn. respects_steps. apply keeps_sys. intros k. by rewrite u_write_fds. Qed.
Lemma keeps_Recv fuel len conn : keeps (Recv_conn os fuel len conn).
Proof.
  unfold Recv_conn. respects_steps. apply respects_retry; [apply _ |]. apply keeps_sys. intros k.
  pose proof (u_read_fds (get_fd u) len k) as H. destruct (u_read os (get_fd u) len k) as [[??]?]. by cbn in *; rewrite H.
Qed.
End Server.

(** ** What becomes of connections *)
Inductive server_op : Type :=
  | OWait (fuel : nat)
  | OSend (s : list byte) (c : option uds_connection)
  | ORecv (fuel : nat) (len : Z) (c : option uds_connection)
  | OPoll (fd : Z).                           (* add_fd_to_poll *)

Section Life.
Context {K : Type} (os : uds_kernel K) `{!UdsFds os}.
#[local] Abbreviation W := (box K).

Definition run_op (o : server_op) : Effects.P W () :=
  match o with
  | OWait fuel => Wait os fuel ;;? ret ()
  | OSend s c => Send_conn os s c ;;? ret ()
  | ORecv fuel len c => Recv_conn os fuel len c ;;? ret ()
  | OPoll f => add_fd_to_poll f
  end.
Fixpoint run_ops (l : list server_op) : Effects.P W () :=
  match l with [] => ret () | o :: l' => run_op o ;;? run_ops l' end.

Lemma keeps_run_ops l : respects (kept os) (run_ops l).
Proof.
  induction l as [|o l IH]; cbn [run_ops]; [apply respects_ret; apply _ |]. apply respects_bind; [apply _ | | done].
  destruct o; cbn [run_op]; unfold add_fd_to_poll; respects_steps;
    eauto using keeps_Wait, keeps_Send, keeps_Recv, keeps_set_entry.
Qed.

(** Connections are never closed. Whatever a server does with a connection it has accepted, and
    after the server itself has been closed, the descriptor of the connection is still open. *)
Theorem accepted_left_open fuel l ps w s w1 w2 :
  serving os ps w → (length ps < CONNECTIONS)%nat → listens os (socket_fd w) →
  Wait os fuel w = Some (Ok (Some (MkUds s true), w1)) →
  (run_ops l ;;? Close os) w1 = Some (Ok ((), w2)) →
  s ∈ u_opened (kern w2).
Proof.
  intros Hs Hl Hlisten Hwait Hrun.
  pose proof (wp_outcome _ _ _ _ _ _ (Wait_wp os fuel ps w Hs Hl Hlisten) Hwait) as (ps' & Hs' & [[? _]|(marks & _ & Ha)]); [done |].
  destruct Ha as [Hnew Hfds].
  assert (Hs1 : s ∈ u_opened (kern w1)) by (apply (s_open _ _ _ Hs'); rewrite Hfds; set_solver).
  assert (Hne : s ≠ socket_fd w1).
  { intros ->. apply Hnew. rewrite (proj1 (keeps_Wait os fuel _ _ _ Hwait)).
    apply (s_open _ _ _ Hs). pose proof (s_listen _ _ _ Hs) as E. destruct ps; cbn in *; [done |]. injection E as <-. by left. }
  unfold bind in Hrun. destruct (run_ops l w1) as [[[[] w']|?|]|] eqn:Er; [|done..].
  apply keeps_run_ops in Er as (Hfd & _ & Ho). unfold Close, bind, get, sys in Hrun.
  pose proof (u_close_fds (socket_fd w') (kern w')) as Hc. destruct (u_close os (socket_fd w') (kern w')) as [r k]. cbn in *.
  assert (Hk : s ∈ u_opened k) by (rewrite Hc, Hfd; set_solver).
  destruct (is_server w'); [|by injection Hrun as <-]. cbn in Hrun.
  pose proof (u_unlink_fds (before_nul (uds_address w')) k) as Hu. destruct (u_unlink os _ k) as [r' k']. injection Hrun as <-.
  cbn in *. by rewrite Hu.
Qed.

(** C40: a full array is overrun. When a server polls as many descriptors as its array has entries,
    and somebody connects, [Wait] writes behind the array. *)
Theorem full_array_overrun fuel ps w m :
  serving os ps w → length ps = CONNECTIONS →
  let r := u_poll os ps (timeout w) (kern w) in
  0 < r.1.1 → r.1.2 !! 0%nat = Some m → Z.land m POLLIN ≠ 0 → 0 ≤ (u_accept os (socket_fd w) r.2).1 →
  Wait os (S fuel) w = Some Stuck.
Proof.
  intros Hs Hl r Hr Hm Hin Hacc. unfold Wait. rewrite (bind_run _ _ _ w w), (s_server _ _ _ Hs) by done.
  set (w0 := w <| own_timeout := timeout w |>). rewrite (bind_run _ _ _ () w0) by done.
  assert (Hs0 : serving os ps w0) by (by apply serving_timeout).
  destruct (wp_total _ (λ n w', n = r.1.1 ∧ kern w' = r.2 ∧ socket_fd w' = socket_fd w ∧ serving os (set_revents ps r.1.2) w') w0
              (poll_spec os true ps _ w0 (timeout w) Hs0 (λ k Hk, conj eq_refl (conj eq_refl (conj eq_refl Hk)))))
    as (n & w1 & Ew1 & -> & Hk1 & Hf1 & Hs1).
  rewrite (bind_run _ _ _ r.1.1 w1); cycle 1.
  { cbn [retry]. rewrite (bind_run _ _ _ r.1.1 w1), (proj2 (Z.eqb_neq _ _)) by (try lia;
      rewrite (bind_run _ _ _ w0 w0), (s_count _ _ _ Hs0), Nat2Z.id by done; done). done. }
  rewrite (proj2 (Z.ltb_lt _ _)), (bind_run _ _ _ w1 w1), (s_count _ _ _ Hs1), Nat2Z.id by done.
  assert (Hl1 : length (set_revents ps r.1.2) = CONNECTIONS) by (by rewrite <- Hl; apply length_imap).
  destruct (length (set_revents ps r.1.2)) as [|n'] eqn:En; [by rewrite Hl1 in En |]. destruct ps as [|p ps]; [done |]. set (q := p <| revents := m |>).
  assert (Hq : set_revents (p :: ps) r.1.2 !! 0%nat = Some q) by (unfold set_revents; rewrite list_lookup_imap; cbn; by rewrite Hm).
  cbn [scan].
  destruct (wp_total _ _ _ (wp_entry os true _ 0 q (λ a w', a = q ∧ w' = w1) w1 Hs1 Hq (conj eq_refl eq_refl))) as (? & ? & Eq & -> & ->).
  rewrite (bind_run _ _ _ q w1) by done. assert (Hbit : has POLLIN q = true) by (unfold has; by apply negb_true_iff, Z.eqb_neq).
  rewrite Hbit. cbn [Z.eqb]. rewrite (bind_run _ _ _ w1 w1) by done.
  unfold bind at 1, sys. rewrite Hk1, Hf1. destruct (u_accept os (socket_fd w) r.2) as [s k]. cbn [fst] in Hacc.
  rewrite (proj2 (Z.ltb_ge _ _)) by done. unfold bind at 1, set_entry. rewrite (bind_run _ _ _ (w1 <| kern := k |>) (w1 <| kern := k |>)) by done.
  change (active (w1 <| kern := k |>)) with (active w1). change (active_nb (w1 <| kern := k |>)) with (active_nb w1).
  rewrite (s_count _ _ _ Hs1), (s_room _ _ _ Hs1), En, Hl1, Z.ltb_irrefl, andb_false_r. done.
Qed.
End Life.

(** ** A system to try it on

    [polls] says which descriptors each poll finds readable, and as a negative number which have
    hung up as well. *)
Module Examples.
Import ComboxSocket.Toy.

Definition mark (l : list Z) (p : pollfd) : Z :=
  if bool_decide (- fd p ∈ l ∧ fd p ≠ 1) then POLLIN + POLLHUP else if bool_decide (fd p ∈ l) then POLLIN else 0.
Definition uds_poll (ps : list pollfd) (k : system) : Z * list Z * system :=
  let rs := mark (default [] (head (polls k))) <$> ps in
  (Z.of_nat (length (filter (λ m, m ≠ 0) rs)), rs, MkSystem (fds k) (tail (polls k)) (queue k) (pending k) (error k)).
Definition uds_toy : uds_kernel system := {|
  u_errno := error;
  u_socket := new_fd;
  u_bind := λ _ _ k, (0, k);
  u_unlink := λ _ k, (0, k);
  u_listen := λ _ _ k, (0, k);
  u_connect := λ _ _ k, (0, k);
  u_accept := λ _ k, new_fd k;
  u_poll := λ ps _ k, uds_poll ps k;
  u_read := λ _ n k, some_bytes n k;
  u_write := λ _ s k, (zlen s, MkSystem (fds k) (polls k) (queue k ++ s) (pending k) (error k));
  u_close := λ f k, (0, MkSystem (filter (λ g, g ≠ f) (fds k)) (polls k) (queue k) (pending k) (error k)) |}.

#[global] Program Instance uds_toy_fds : UdsFds uds_toy := {| u_opened := λ k, list_to_set (fds k) |}.
Next Obligation. intros ps t k. apply length_fmap. Qed.
Next Obligation. set_solver. Qed.
Next Obligation. done. Qed.
Next Obligation. done. Qed.
Next Obligation. done. Qed.
Next Obligation. done. Qed.
Next Obligation. done. Qed.
Next Obligation. done. Qed.
Next Obligation. done. Qed.
Next Obligation.
  intros f k. cbn. apply set_eq. intros g. rewrite elem_of_difference, !elem_of_list_to_set, elem_of_singleton, list_elem_of_filter. tauto.
Qed.
Next Obligation.
  intros s k. cbn. destruct (new_fd_fresh k) as [H1 H2]. cbn in *. rewrite (proj2 (Z.ltb_ge _ _)) by done.
  split; [by rewrite elem_of_list_to_set | done].
Qed.

Definition server (n : nat) (calls : list (list Z)) : box system :=
  MkBox 1 (Some (string_bytes ".uds_0.0")) true (string_bytes ".uds_0.0")
    ((Some <$> ((λ f, MkPoll f POLLIN 0) <$> seqZ 1 (Z.of_nat n))) ++ replicate (CONNECTIONS - n) None) (Z.of_nat n) (-1) false None (-1)
    (MkSystem (seqZ 1 (Z.of_nat n)) calls [] 0 0).
Definition polling (n : nat) : list pollfd := (λ f, MkPoll f POLLIN 0) <$> seqZ 1 (Z.of_nat n).

Lemma server_created calls :
  Create uds_toy (Some (string_bytes "uds://.uds_0.0")) true (uds_new (MkSystem [] calls [] 0 0)) = Some (Ok (true, server 1 calls)).
Proof. reflexivity. Qed.

Lemma serving_server (n : nat) calls :
  (0 < n)%nat → (n ≤ CONNECTIONS)%nat → serving uds_toy (polling n) (server n calls).
Proof.
  intros H0 Hn. assert (Hl : length (polling n) = n) by (unfold polling; rewrite length_fmap, length_seqZ; lia).
  assert (Hf : fd <$> polling n = seqZ 1 (Z.of_nat n)) by (unfold polling; rewrite <- list_fmap_compose; by apply list_fmap_id).
  split; cbn [is_server active active_nb socket_fd kern server]; rewrite ?Hl, ?Hf; try done.
  - rewrite length_app, length_fmap, length_fmap, length_seqZ, length_replicate. lia.
  - by rewrite take_app_le, take_ge by (rewrite length_fmap, ?length_fmap, length_seqZ; lia).
  - destruct n as [|n]; [lia |]. unfold polling. rewrite seqZ_cons by lia. done.
  - apply NoDup_seqZ.
  - intros f Hf'. unfold u_opened. cbn. by rewrite elem_of_list_to_set.
Qed.
Lemma toy_listens : listens uds_toy 1.
Proof.
  intros [|p0 ps] t k p m Hp Hf Hm; [done |]. injection Hp as ->. cbn in Hm. injection Hm as <-. unfold mark.
  rewrite Hf. rewrite bool_decide_eq_false_2 by naive_solver. by case_bool_decide.
Qed.


(** The connection is read from, its peer leaves, and the server is closed. *)
Definition life : list server_op := [OWait 1; ORecv 1 3 (Some (MkUds 2 false)); OWait 1].
Lemma accepted_left_open_witness :
  ∃ w1 w2, Wait uds_toy 1 (server 1 [[1]; [2]; [-2]]) = Some (Ok (Some (MkUds 2 true), w1)) ∧
    (run_ops uds_toy life ;;? Close uds_toy) w1 = Some (Ok ((), w2)) ∧ active_nb w2 = 1 ∧ 2 ∈ u_opened (kern w2).
Proof.
  eexists _, _. split; [vm_compute; reflexivity |]. split; [vm_compute; reflexivity |]. split; [reflexivity |].
  eapply (accepted_left_open uds_toy 1 life (polling 1) (server 1 [[1]; [2]; [-2]]) 2);
    [by apply serving_server; [lia | apply Nat.leb_le] | by apply Nat.ltb_lt | apply toy_listens | vm_compute; reflexivity | vm_compute; reflexivity].
Defined.

Lemma full_array_overrun_witness : Wait uds_toy 1 (server CONNECTIONS [[1]]) = Some Stuck.
Proof.
  apply (full_array_overrun uds_toy 0 (polling CONNECTIONS) (server CONNECTIONS [[1]]) POLLIN).
  - apply serving_server; unfold CONNECTIONS; lia.
  - vm_compute. reflexivity.
  - vm_compute. reflexivity.
  - vm_compute. reflexivity.
  - done.
  - vm_compute. discriminate.
Defined.
End Examples.
