(* ===== verification/Interconnector.v ===== *)
(** * The interconnector of MPI nodes

    interconnector/popc_mpi_interconnector.cpp: where computers only speak MPI to each other, a
    process on each carries the messages of the objects. The objects and callers of its node are
    connected by Unix domain sockets; what is for another node is sent there over MPI with a tag of
    its own, and the answer with this tag goes back where the request came from. The main loop
    handles the messages of the sockets, a thread those of MPI, and tells the main loop by a socket.

    What a handler waits for, it waits for alone: the computation does not end ([None]) when it has
    not come. The sockets, the processes that are started and the source MPI picks are
    parameters. *)

From S2P Require Import Prelude Machine Buffer Exceptions Message BufferXdr Utils Effects.

Definition MPI_COMMAND_TERMINATE : Z := 10.
Definition MPI_COMMAND_ALLOCATE : Z := 11.
Definition MPI_TAG_DUMMY : Z := 0.
Definition MPI_TAG_COMMAND : Z := 0.
Definition INVOKE_SYNC : Z := 1.

(** What a message of MPI carries, and one that was sent: the communicator, 0 for
    [MPI::COMM_WORLD], the destination and the tag. *)
Inductive payload : Type := Ints (l : list Z) | Chars (s : list byte).
Record mpi_message : Type := MkMpi { comm : Z; dest : Z; mpi_tag : Z; load : payload }.

(** What a new object says: nothing comes, it cannot be read, or the method it calls. *)
Inductive callback : Type := NoCall | NotReceived | Called (method : Z).

(** [operator[]] of a map: a key that is not there is added. *)
Definition at_key {K A : Type} `{Countable K} (d : A) (k : K) (m : gmap K A) : A * gmap K A :=
  match m !! k with Some a => (a, m) | None => (d, <[k := d]> m) end.

Record node (X : Type) : Type := MkNode {
  g_rank : Z;
  g_world : Z;
  g_core : Z;
  g_nbcore : Z;
  g_allocation_id : Z;
  multiple_connection : bool;
  incomingtag : gmap Z Z;
  incomingconnection : gmap Z (Z * Z);
  outgoingconnection : gmap Z (Z * Z);
  connectionmap : gmap (Z * Z) (option Z);   (* the descriptor of the box *)
  allocation_return : gmap Z Z;
  object_group : gmap Z (Z * Z);             (* the communicator and its size *)
  object_group_single : gmap Z Z;
  extrafd : gmap Z Z;
  nb_comm : Z;
  next_tag : Z;
  next_object_id : Z;
  local_poll : list Z;                       (* local.add_fd_to_poll *)
  active : bool;
  thread_active : bool;
  waker_buffer : buffer_xdr;
  woken : list byte;                         (* from the thread to the main loop *)
  inbox : gmap (Z * Z * Z) (list payload);   (* by communicator, source and tag *)
  sent : list mpi_message;
  sys : X }.
Arguments MkNode {X}. Arguments g_rank {X}. Arguments g_world {X}. Arguments g_core {X}. Arguments g_nbcore {X}.
Arguments g_allocation_id {X}. Arguments multiple_connection {X}. Arguments incomingtag {X}.
Arguments incomingconnection {X}. Arguments outgoingconnection {X}. Arguments connectionmap {X}.
Arguments allocation_return {X}. Arguments object_group {X}. Arguments object_group_single {X}. Arguments extrafd {X}.
Arguments nb_comm {X}. Arguments next_tag {X}. Arguments next_object_id {X}. Arguments local_poll {X}. Arguments active {X}.
Arguments thread_active {X}. Arguments waker_buffer {X}. Arguments woken {X}. Arguments inbox {X}. Arguments sent {X}.
Arguments sys {X}.
#[export] Instance node_eta {X : Type} : Eta (node X) := λ w,
  MkNode (g_rank w) (g_world w) (g_core w) (g_nbcore w) (g_allocation_id w) (multiple_connection w) (incomingtag w)
    (incomingconnection w) (outgoingconnection w) (connectionmap w) (allocation_return w) (object_group w)
    (object_group_single w) (extrafd w) (nb_comm w) (next_tag w) (next_object_id w) (local_poll w) (active w)
    (thread_active w) (waker_buffer w) (woken w) (inbox w) (sent w) (sys w).

Section Interconnector.
Context {X : Type} {L : XdrLib}.
(** A write to a descriptor, a box that is connected to a path, an object that is started (its
    command line and the path it calls), and the processes of a group. *)
Context (ipc_write : Z → list byte → X → Z * X) (ipc_connect : chars → X → option Z * X).
Context (run_object : list chars → chars → X → callback * X) (spawn : chars → chars → Z → X → Z * X).
(** The source of a message MPI gives to a receive from any. *)
Context (any_source : gmap (Z * Z * Z) (list payload) → Z → option Z).
#[local] Abbreviation W := (node X).
#[local] Abbreviation P := (Effects.P W).

Definition sysc {A : Type} (call : X → A * X) : P A := λ w,
  let '(a, x) := call (sys w) in Some (Ok (a, w <| sys := x |>)).

(** ** MPI *)
Definition send_to (c dest tag : Z) (p : payload) : P () := modify (λ w, w <| sent := sent w ++ [MkMpi c dest tag p] |>).
Definition mpi_send (dest tag : Z) (p : payload) : P () := send_to 0 dest tag p.
(** The next message of a source with a tag; without one the receive does not end. *)
Definition mpi_recv (c source tag : Z) : P payload := λ w,
  match inbox w !! (c, source, tag) with
  | Some (p :: l) => Some (Ok (p, w <| inbox := <[(c, source, tag) := l]> (inbox w) |>))
  | _ => None
  end.
(** Receives of an [int], and of no more than [n] characters. *)
Definition recv_int (c source tag : Z) : P Z :=
  let? p := mpi_recv c source tag in match p with Ints [z] => ret z | _ => undefined end.
Definition recv_chars (c source tag n : Z) : P (list byte) :=
  if n <? 0 then undefined
  else
    let? p := mpi_recv c source tag in
    match p with Chars s => if zlen s <=? n then ret s else undefined | _ => undefined end.
Definition recv_source (tag : Z) : P Z :=
  let? w := get in match any_source (inbox w) tag with Some s => ret s | None => out_of_fuel end.

(** ** Sockets *)
Definition ipc_box (fd : Z) : combox X := {| cb_Send := ipc_write fd; cb_Recv := λ _ s, (-1, [], s) |}.
(** [buffer.Send(connection)]. *)
Definition send_buffer (fd : Z) (b : buffer_xdr) : P buffer_xdr := λ w,
  match xdr_Send (ipc_box fd) b (sys w) with
  | Ok (_, b', x) => Some (Ok (b', w <| sys := x |>))
  | Throw c i => Some (Throw c i)
  | Stuck => Some Stuck
  end.
(** The thread writes to the main loop; what is written is read in its order. *)
Definition wake_box : combox (list byte) := loop_box 4096.
Definition wake (w1 : message_header) (body : M buffer_xdr ()) : P () := λ w,
  let r := let! (_, b) := body (xdr_SetHeader w1 (xdr_Reset (waker_buffer w))) in
           xdr_Send wake_box b (woken w) in
  match r with
  | Ok (_, b', s) => Some (Ok ((), w <| waker_buffer := b' |> <| woken := s |>))
  | Throw c i => Some (Throw c i)
  | Stuck => Some Stuck
  end.

(** The message as it came, and how long it is. *)
Definition load_of (b : buffer_xdr) : P (Z * list byte) :=
  let? n := lift (xdr_get_size b) in
  let? r := lift (xdr_get_load b) in
  let? s := need r.1 in ret (n, s).

(** ** New objects *)

(** [sprintf(tmp, ".uds_%d.0", rank)]; the thread has [snprintf(tmp, sizeof(tmp), ...)], of a
    pointer. *)
Definition address_text (rank id : Z) : chars := string_bytes ".uds_" ++ decimal rank ++ x2e :: decimal id.
Definition local_address (rank : Z) : chars := address_text rank 0.
Definition thread_address (rank : Z) : chars := take 7 (address_text rank 0).
(** [snprintf(tmp, 15, ".uds_%d.%d", rank, id)]. *)
Definition object_address (rank id : Z) : chars := take 14 (address_text rank id).

Definition next_core (usercore : Z) : P Z :=
  if negb (usercore =? -1) then ret usercore
  else
    let? w := get in
    let core := g_core w + 1 in
    modify (λ w, w <| g_core := if core =? g_nbcore w then 0 else core |>) ;;? ret (g_core w).
(** The address of the object, and what it called. *)
Definition start_object (objectname codefile : chars) (usercore : Z) : P (chars * callback) :=
  let? w := get in
  let tmp := object_address (g_rank w) (next_object_id w) in
  let? id := lift (check_int (next_object_id w + 1)) in
  modify (λ w, w <| next_object_id := id |>) ;;?
  let receiver := local_address (g_rank w) ++ x5f :: tmp in
  let? core := next_core usercore in
  let argv := [codefile; string_bytes "-object=" ++ objectname; string_bytes "-address=" ++ tmp;
               string_bytes "-callback=" ++ receiver; take 19 (string_bytes "-local_rank=" ++ decimal (g_rank w));
               take 19 (string_bytes "-core=" ++ decimal core)] in
  let? c := sysc (run_object argv receiver) in
  match c with
  | NoCall => undefined                       (* objectcallback->GetBufferFactory() *)
  | _ => ret (string_bytes "uds://" ++ tmp, c)
  end.

(** The answer to an allocation over a socket. *)
Definition allocate_response (b : buffer_xdr) (fd : Z) (address : chars) : P () :=
  let b := xdr_SetHeader (header_response (Some "_allocate")) (xdr_Reset b) in
  let? (_, b) := lift (PackString1 (bytes_string address) b) in
  send_buffer fd b ;;? ret ().

(** ** The main loop *)

Definition terminate : P () :=
  modify (λ w, w <| active := false |>) ;;?
  let? w := get in
  if g_rank w =? 0 then
    let data := Ints [MPI_COMMAND_TERMINATE; MPI_TAG_DUMMY] in
    modify (λ w, w <| sent := sent w ++ ((λ i, MkMpi 0 i MPI_TAG_COMMAND data) <$> seqZ 1 (g_world w - 1)) |>) ;;?
    mpi_send 0 MPI_TAG_COMMAND data
  else ret ().

Definition route_connection (fd : Z) (b : buffer_xdr) : P () :=
  let? (dest_node, b) := lift (UnPack1 PInt b) in
  let? (dest_id, b) := lift (UnPack1 PInt b) in
  modify (λ w, w <| incomingconnection :=
    if decide (is_Some (incomingconnection w !! fd)) then incomingconnection w
    else <[fd := (dest_node, dest_id)]> (incomingconnection w) |>).

(** An allocation for another node. *)
Definition allocate_from_mpi : P () :=
  let? source := recv_source 17 in
  let? alloc_id := recv_int 0 source 17 in
  let? objectname_length := recv_int 0 source 10 in
  let? codefile_length := recv_int 0 source 12 in
  let? objectname := recv_chars 0 source 11 objectname_length in
  let? codefile := recv_chars 0 source 13 codefile_length in
  let? usercore := recv_int 0 source 16 in
  let? (objectaddress, c) := start_object (before_nul objectname) (before_nul codefile) usercore in
  match c with
  | Called method =>
      if method =? 200002 then
        mpi_send source 0 (Ints [15; alloc_id]) ;;?
        mpi_send source 14 (Ints [zlen objectaddress]) ;;?
        mpi_send source 15 (Chars objectaddress)
      else mpi_send source 14 (Ints [0])
  | _ => ret ()
  end.
Definition allocate_from_ipc (fd : Z) (b : buffer_xdr) : P () :=
  let? (objectname, b) := lift (UnPackString1 b) in
  let? (codefile, b) := lift (UnPackString1 b) in
  let? (node, b) := lift (UnPack1 PInt b) in
  let? (usercore, b) := lift (UnPack1 PInt b) in
  let? w := get in
  if negb (node =? g_rank w) && negb (node =? -1) && (node <? g_world w) then
    mpi_send (g_rank w) 0 (Ints [12; 0]) ;;?
    mpi_send node 0 (Ints [11; 0]) ;;?
    mpi_send node 17 (Ints [g_allocation_id w]) ;;?
    mpi_send node 10 (Ints [zlen (string_bytes objectname)]) ;;?
    mpi_send node 11 (Chars (string_bytes objectname)) ;;?
    mpi_send node 12 (Ints [zlen (string_bytes codefile)]) ;;?
    mpi_send node 13 (Chars (string_bytes codefile)) ;;?
    mpi_send node 16 (Ints [usercore]) ;;?
    modify (λ w, w <| allocation_return := <[g_allocation_id w := fd]> (allocation_return w) |>) ;;?
    let? id := lift (check_int (g_allocation_id w + 1)) in
    modify (λ w, w <| g_allocation_id := id |>)
  else
    let? (objectaddress, c) := start_object (before_nul (string_bytes objectname)) (before_nul (string_bytes codefile)) usercore in
    match c with
    | Called method => allocate_response b fd (if method =? 200002 then objectaddress else [])
    | _ => ret ()
    end.

(** The address of an object another node has allocated, to who asked for it. *)
Definition allocation_return_at (id : Z) : P Z :=
  let? w := get in
  (* a connection that is not there is null, and nothing is sent on it *)
  let '(fd, m) := at_key (-1) id (allocation_return w) in
  modify (λ w, w <| allocation_return := m |>) ;;? ret fd.
Definition return_address (node id : Z) (b : buffer_xdr) : P buffer_xdr :=
  let? length := recv_int 0 node 14 in
  let? objaccess := recv_chars 0 node 15 length in
  let? fd := allocation_return_at id in
  let b := xdr_SetHeader (header_response (Some "_allocate")) (xdr_Reset b) in
  let? (_, b) := lift (PackString1 (bytes_string (before_nul objaccess)) b) in
  if fd =? -1 then ret b else send_buffer fd b.
Definition allocation_done (b : buffer_xdr) : P () :=
  let? (node, b) := lift (UnPack1 PInt b) in
  let? (id, b) := lift (UnPack1 PInt b) in
  return_address node id b ;;?
  modify (λ w, w <| allocation_return := delete id (allocation_return w) |>).

(** The processes of an XcalableMP object. *)
Definition allocate_group (fd : Z) (b : buffer_xdr) : P () :=
  let? (objectname, b) := lift (UnPackString1 b) in
  let? (codefile, b) := lift (UnPackString1 b) in
  let? (nb_node, b) := lift (UnPack1 PInt b) in
  let? size := sysc (spawn (before_nul (string_bytes codefile)) (string_bytes "-object=" ++ before_nul (string_bytes objectname)) nb_node) in
  let? w := get in
  if (nb_comm w <? 0) || (10 <=? nb_comm w) then undefined   (* extracomm[nb_comm] *)
  else
    modify (λ w, w <| object_group := <[fd := (nb_comm w, size)]> (object_group w) |>
                   <| extrafd := <[nb_comm w := fd]> (extrafd w) |> <| nb_comm := nb_comm w + 1 |>) ;;?
    allocate_response b fd (string_bytes "uds://.uds_10.0 uds://.uds_11.0").

(** A request another node has sent, to the object. *)
Definition connect_object (tag source dest_id : Z) : P Z :=
  let? w := get in
  let '(known, m) := if multiple_connection w then (None, connectionmap w) else at_key None (source, dest_id) (connectionmap w) in
  modify (λ w, w <| connectionmap := m |>) ;;?
  match known with
  | Some fd => modify (λ w, w <| outgoingconnection := <[fd := (tag, source)]> (outgoingconnection w) |>) ;;? ret fd
  | None =>
      let? fd := sysc (ipc_connect (object_address (g_rank w) dest_id)) in
      match fd with
      | None => undefined                      (* connection was never written *)
      | Some fd =>
          modify (λ w, w <| connectionmap := <[(source, dest_id) := Some fd]> (connectionmap w) |>
                         <| outgoingconnection := <[fd := (tag, source)]> (outgoingconnection w) |>
                         <| local_poll := local_poll w ++ [fd] |>) ;;? ret fd
      end
  end.
Definition request_from_mpi (source : Z) (b : buffer_xdr) : P () :=
  let? (tag, b) := lift (UnPack1 PInt b) in
  let? dest_id := recv_int 0 source tag in
  let? length := recv_int 0 source tag in
  let? fd := connect_object tag source dest_id in
  let? data := recv_chars 0 source tag length in
  sysc (ipc_write fd data) ;;? ret ().

(** A message that is for another node: the answer of an object, or a request. *)
Definition redirect_response (fd tag dest : Z) (b : buffer_xdr) : P () :=
  mpi_send dest 0 (Ints [14; tag]) ;;?
  let? (length, s) := load_of b in
  mpi_send dest tag (Ints [length]) ;;?
  mpi_send dest tag (Chars s) ;;?
  modify (λ w, w <| outgoingconnection := delete fd (outgoingconnection w) |>).
Definition redirect_request (fd : Z) (b : buffer_xdr) : P () :=
  let? w := get in
  let '((dest_node, dest_id), m) := at_key (0, 0) fd (incomingconnection w) in
  let tag := next_tag w in
  modify (λ w, w <| incomingconnection := m |> <| incomingtag := <[tag := fd]> (incomingtag w) |>) ;;?
  let? (length, s) := load_of b in
  mpi_send dest_node 0 (Ints [13; tag]) ;;?
  mpi_send dest_node tag (Ints [dest_id]) ;;?
  mpi_send dest_node tag (Ints [length]) ;;?
  mpi_send dest_node tag (Chars s) ;;?
  let? tag' := lift (check_int (tag + 1)) in
  modify (λ w, w <| next_tag := tag' |>).
(** The calls on a group: to the process chosen by the call before, or to all. *)
Definition redirect_group (fd method group size : Z) (b : buffer_xdr) : P () :=
  if method =? 9 then
    let? (rank, b) := lift (UnPack1 PInt b) in
    modify (λ w, w <| object_group_single := <[fd := rank]> (object_group_single w) |>)
  else
    let? w := get in
    let? (length, s) := load_of b in
    match object_group_single w !! fd with
    | None =>
        modify (λ w, w <| sent := sent w ++ concat ((λ i, [MkMpi group i 0 (Ints [13; length]); MkMpi group i 2 (Chars s)])
                                                      <$> seqZ 0 size) |>) ;;?
        if method =? 2 then
          send_buffer fd (xdr_SetHeader (header_response (Some "_finalize")) (xdr_Reset b)) ;;? ret ()
        else ret ()
    | Some rank =>
        send_to group rank 0 (Ints [13; length]) ;;?
        send_to group rank 2 (Chars s) ;;?
        modify (λ w, w <| object_group_single := delete fd (object_group_single w) |>)
    end.
Definition redirect (fd method : Z) (b : buffer_xdr) : P () :=
  let? w := get in
  let '((tag, dest), m) := at_key (0, 0) fd (outgoingconnection w) in
  modify (λ w, w <| outgoingconnection := m |>) ;;?
  if negb (tag =? 0) then redirect_response fd tag dest b
  else
    match object_group w !! fd with
    | Some (group, size) => redirect_group fd method group size b
    | None => redirect_request fd b
    end.

(** A message received on a connection. *)
Definition handle (fd : Z) (b : buffer_xdr) : P () :=
  let h := buf_header b in
  let? class := lift (read_member (hdr_id0 h)) in
  let? method := lift (read_member (hdr_id1 h)) in
  let? method := if hdr_type h =? TYPE_EXCEPTION then lift (check_int (method - 100000)) else ret method in
  if method =? 200001 then terminate
  else if method =? 200002 then route_connection fd b
  else if method =? 200003 then ret ()
  else if method =? 200004 then allocate_from_mpi
  else if method =? 200000 then allocate_from_ipc fd b
  else if method =? 200007 then allocation_done b
  else if method =? 200005 then request_from_mpi class b
  else if method =? 210000 then allocate_group fd b
  else redirect fd method b.
(** A message of the thread. *)
Definition handle_woken (fd : Z) : P () :=
  let? w := get in
  let? (ok, b, s) := lift (xdr_Recv wake_box xdr_new (woken w)) in
  modify (λ w, w <| woken := s |>) ;;?
  if (ok : bool) then handle fd b else ret ().

(** ** The thread of MPI *)
Definition forward_response (source tag : Z) : P () :=
  let? length := recv_int 0 source tag in
  let? data := recv_chars 0 source tag length in
  let? w := get in
  let '(fd, m) := at_key 0 tag (incomingtag w) in
  modify (λ w, w <| incomingtag := m |>) ;;?
  sysc (ipc_write fd data) ;;?
  modify (λ w, w <| incomingtag := delete tag (incomingtag w) |>).
Definition group_response (index source : Z) : P () :=
  let? length := recv_int index source 1 in
  let? data := recv_chars index source 2 length in
  let? w := get in
  let? fd := need (extrafd w !! index) in
  sysc (ipc_write fd data) ;;? ret ().
(** A command of the communicator [index]. *)
Definition command (index source : Z) : P () :=
  let? p := mpi_recv index source 0 in
  let? w := get in
  match p with
  | Ints [cmd; arg] =>
      if cmd =? 10 then
        modify (λ w, w <| thread_active := false |>) ;;?
        if negb (g_rank w =? 0) then wake (header_request 20 200001 INVOKE_SYNC (Some "_terminate")) (mret ()) else ret ()
      else if cmd =? 11 then wake (header_request 20 200004 INVOKE_SYNC (Some "_allocation")) (mret ())
      else if cmd =? 13 then wake (header_request source 200005 INVOKE_SYNC (Some "_request")) (Pack1 PInt arg)
      else if cmd =? 14 then forward_response source arg
      else if cmd =? 15 then
        let? b := return_address source arg (waker_buffer w) in modify (λ w, w <| waker_buffer := b |>)
      else if cmd =? 16 then group_response index source
      else ret ()
  | _ => undefined
  end.

(** ** Nodes together *)
#[local] Abbreviation grid := (gmap Z W).

(** What a node has sent arrives in the order it was sent; the processes of groups are not nodes. *)
Definition arrive (source : Z) (g : grid) (m : mpi_message) : grid :=
  if comm m =? 0 then
    alter (λ w, w <| inbox := let key := (0, source, mpi_tag m) in
                              <[key := default [] (inbox w !! key) ++ [load m]]> (inbox w) |>) (dest m) g
  else g.
Inductive action : Type :=
  | AMessage (n fd : Z) (b : buffer_xdr)
  | AWoken (n fd : Z)
  | ACommand (n index source : Z).
Definition node_of (a : action) : Z := match a with AMessage n _ _ | AWoken n _ | ACommand n _ _ => n end.
Definition handler (a : action) : P () :=
  match a with
  | AMessage _ fd b => handle fd b
  | AWoken _ fd => handle_woken fd
  | ACommand _ index source => command index source
  end.
(** The loop, or the thread, that handles it runs. *)
Definition runs (a : action) (w : W) : bool := match a with ACommand _ _ _ => thread_active w | _ => active w end.
Definition act (a : action) (g : grid) : option (result grid) :=
  match g !! node_of a with
  | None => None
  | Some w =>
      if runs a w then
        match handler a w with
        | None => None
        | Some r => Some (let! (_, w') := r in
                          Ok (foldl (arrive (node_of a)) (<[node_of a := w' <| sent := [] |>]> g) (sent w')))
        end
      else None
  end.
Fixpoint acts (l : list action) (g : grid) : option (result grid) :=
  match l with
  | [] => Some (Ok g)
  | a :: l' => match act a g with Some (Ok g') => acts l' g' | o => o end
  end.
End Interconnector.

(** ** Messages on their way *)
Section Routing.
Context {X : Type} {L : XdrLib} `{!XdrLaws L}.
Context (ipc_write : Z → list byte → X → Z * X) (ipc_connect : chars → X → option Z * X).
Context (run_object : list chars → chars → X → callback * X) (spawn : chars → chars → Z → X → Z * X).
Context (any_source : gmap (Z * Z * Z) (list payload) → Z → option Z).
#[local] Abbreviation W := (node X).
#[local] Abbreviation P := (Effects.P W).
#[local] Abbreviation hand := (handle ipc_write ipc_connect run_object spawn any_source).
#[local] Abbreviation rdir := (redirect ipc_write).
#[local] Abbreviation grid := (gmap Z W).

(** The bytes a message is sent with. *)
Definition wire (b : buffer_xdr) (s : list byte) : Prop :=
  xdr_get_size b = Ok (zlen s) ∧ ∃ b', xdr_get_load b = Ok (Some s, b').
Lemma wire_exists b : packed_wf b → header_sendable (buf_header b) → ∃ s, wire b s.
Proof.
  intros Hwf Hh. destruct (Hh (zlen (buf_packeddata b))) as [ws Hw]. pose proof Hwf as [_ Hsz].
  assert (Hst := stamp_spec popc_htonl (λ z, be_bytes_length 4 z) b ws Hwf Hw).
  exists (concat (popc_htonl <$> ws) ++ drop 20 (buf_packeddata b)). split.
  - unfold xdr_get_size. rewrite check_int_Ok by (apply in_sint32; unfold int_max in Hsz; lia). f_equal.
    rewrite length_app, (concat_length_uniform 4), length_fmap, (header_words_length _ _ _ Hw), length_drop; [lia |].
    apply Forall_map_len. intros z. apply be_bytes_length.
  - unfold xdr_get_load. rewrite Hst. cbn. by eexists.
Qed.
(** They are what [Send] would have written. *)
Lemma wire_sent {S : Type} (cb : combox S) b s x :
  wire b s → ∃ b', xdr_Send cb b x = Ok (0 <=? (cb_Send cb s x).1, b', (cb_Send cb s x).2).
Proof.
  intros (_ & b' & Hl). unfold xdr_get_load in Hl. apply rbind_Ok in Hl as ([b1|] & E & Hl); [|done].
  injection Hl as Hs ->. exists b'. unfold xdr_Send, send_message. rewrite E. cbn. rewrite Hs. by destruct (cb_Send cb s x).
Qed.
Lemma load_of_wire b s (w : W) : wire b s → load_of b w = Some (Ok ((zlen s, s), w)).
Proof.
  intros (Hn & b' & Hl). unfold load_of. unfold bind, lift. rewrite Hn, Hl. done.
Qed.

(** Messages the interconnector does not take for its own. *)
Definition own_methods : list Z := [200001; 200002; 200003; 200004; 200000; 200007; 200005; 210000].
Definition plain (b : buffer_xdr) : Prop :=
  ∃ class method, hdr_id0 (buf_header b) = Some class ∧ hdr_id1 (buf_header b) = Some method ∧
    hdr_type (buf_header b) ≠ TYPE_EXCEPTION ∧ method ∉ own_methods.
Lemma handle_plain fd b : plain b → ∃ method, ∀ w, hand fd b w = rdir fd method b w.
Proof.
  intros (class & method & Hc & Hm & Ht & Hown). exists method. intros w. unfold handle. rewrite Hc, Hm. cbn [read_member].
  unfold bind at 1, lift. cbn [rbind]. unfold bind at 1. cbn [rbind]. rewrite (proj2 (Z.eqb_neq _ _)) by done.
  unfold bind at 1. cbn [ret]. unfold own_methods in Hown.
  rewrite !(proj2 (Z.eqb_neq method _)) by (intros ->; apply Hown; set_solver). done.
Qed.

(** *** Each step *)
Definition queue (w : W) (key : Z * Z * Z) : list payload := default [] (inbox w !! key).
Lemma mpi_recv_run (w : W) c s t p l :
  queue w (c, s, t) = p :: l → mpi_recv c s t w = Some (Ok (p, w <| inbox := <[(c, s, t) := l]> (inbox w) |>)).
Proof. unfold queue, mpi_recv. destruct (inbox w !! (c, s, t)) as [q|]; cbn; [by intros -> | done]. Qed.

Definition asking (w : W) (fd : Z) : Prop := (default (0, 0) (outgoingconnection w !! fd)).1 = 0.
Definition request_messages (dest tag id : Z) (s : list byte) : list mpi_message :=
  [MkMpi 0 dest 0 (Ints [13; tag]); MkMpi 0 dest tag (Ints [id]); MkMpi 0 dest tag (Ints [zlen s]); MkMpi 0 dest tag (Chars s)].
Lemma request_leaves fd b s method (w : W) dest id :
  asking w fd → object_group w !! fd = None → incomingconnection w !! fd = Some (dest, id) →
  wire b s → in_sint 32 (next_tag w + 1) = true →
  rdir fd method b w = Some (Ok ((),
    w <| outgoingconnection := (at_key (0, 0) fd (outgoingconnection w)).2 |>
      <| incomingtag := <[next_tag w := fd]> (incomingtag w) |>
      <| sent := sent w ++ request_messages dest (next_tag w) id s |> <| next_tag := next_tag w + 1 |>)).
Proof.
  intros Ha Hg Hc Hw Ht. unfold redirect. rewrite (bind_run get _ w w w) by done.
  destruct (at_key (0, 0) fd (outgoingconnection w)) as [[tag d] m] eqn:Ek. cbn [snd].
  assert (tag = 0) as ->. { unfold asking in Ha. unfold at_key in Ek. destruct (outgoingconnection w !! fd) as [[]|]; cbn in Ha; by injection Ek as <-. }
  rewrite (bind_run (modify _) _ w () (w <| outgoingconnection := m |>)) by done. cbn [Z.eqb negb]. rewrite Hg.
  unfold redirect_request. rewrite (bind_run get _ _ _ (w <| outgoingconnection := m |>)) by done.
  change (incomingconnection (w <| outgoingconnection := m |>)) with (incomingconnection w).
  assert (Ei : at_key (0, 0) fd (incomingconnection w) = ((dest, id), incomingconnection w)) by (unfold at_key; by rewrite Hc).
  rewrite Ei. unfold bind at 1, modify. rewrite (bind_run _ _ _ _ _ (load_of_wire b s _ Hw)).
  unfold mpi_send, send_to, bind, modify, lift. cbn. rewrite check_int_Ok by done. cbn. rewrite <- !app_assoc. done.
Qed.

Lemma response_leaves fd b s method (w : W) tag dest :
  outgoingconnection w !! fd = Some (tag, dest) → tag ≠ 0 → wire b s →
  rdir fd method b w = Some (Ok ((),
    w <| outgoingconnection := delete fd (outgoingconnection w) |>
      <| sent := sent w ++ [MkMpi 0 dest 0 (Ints [14; tag]); MkMpi 0 dest tag (Ints [zlen s]); MkMpi 0 dest tag (Chars s)] |>)).
Proof.
  intros Ho Ht Hw. unfold redirect. rewrite (bind_run get _ w w w) by done. unfold at_key. rewrite Ho.
  rewrite (bind_run (modify _) _ w () (w <| outgoingconnection := outgoingconnection w |>)) by done.
  rewrite (proj2 (Z.eqb_neq tag 0)) by done. cbn [negb]. unfold redirect_response, mpi_send, send_to.
  unfold bind at 1, modify. rewrite (bind_run _ _ _ _ _ (load_of_wire b s _ Hw)).
  unfold bind, modify. cbn. rewrite <- !app_assoc. done.
Qed.

Lemma recv_int_run (w : W) c s t z l :
  queue w (c, s, t) = Ints [z] :: l → recv_int c s t w = Some (Ok (z, w <| inbox := <[(c, s, t) := l]> (inbox w) |>)).
Proof. intros Hq. unfold recv_int. by rewrite (bind_run _ _ _ _ _ (mpi_recv_run _ _ _ _ _ _ Hq)). Qed.
Lemma recv_chars_run (w : W) c s t d l :
  queue w (c, s, t) = Chars d :: l → recv_chars c s t (zlen d) w = Some (Ok (d, w <| inbox := <[(c, s, t) := l]> (inbox w) |>)).
Proof.
  intros Hq. unfold recv_chars. rewrite (proj2 (Z.ltb_ge _ 0)) by apply zlen_nonneg.
  by rewrite (bind_run _ _ _ _ _ (mpi_recv_run _ _ _ _ _ _ Hq)), Z.leb_refl.
Qed.
Lemma queue_insert (w : W) key key' l :
  queue (w <| inbox := <[key := l]> (inbox w) |>) key' = if decide (key = key') then l else queue w key'.
Proof. unfold queue. cbn. case_decide; subst; [by rewrite lookup_insert_eq | by rewrite lookup_insert_ne]. Qed.

(** The thread tells the main loop of a request. *)
Definition woken_by (source tag : Z) (s : list byte) : Prop :=
  ∃ b b', xdr_Recv wake_box xdr_new s = Ok (true, b, []) ∧ hdr_type (buf_header b) = TYPE_REQUEST ∧
    hdr_id0 (buf_header b) = Some source ∧ hdr_id1 (buf_header b) = Some 200005 ∧ UnPack1 PInt b = Ok (tag, b').
Lemma command_request (w : W) source tag l :
  queue w (0, source, 0) = Ints [13; tag] :: l → woken w = [] → header_ranged (buf_header (waker_buffer w)) →
  in_sint 32 source = true → in_sint 32 tag = true →
  ∃ buf s, command ipc_write 0 source w =
      Some (Ok ((), w <| inbox := <[(0, source, 0) := l]> (inbox w) |> <| waker_buffer := buf |> <| woken := s |>)) ∧
    woken_by source tag s ∧ header_ranged (buf_header buf).
Proof.
  intros Hq Hwk Hrg Hs Ht. unfold command. rewrite (bind_run _ _ _ _ _ (mpi_recv_run _ _ _ _ _ _ Hq)).
  rewrite (bind_run get _ _ _ _ eq_refl). cbn [Z.eqb Pos.eqb]. unfold wake. cbn [waker_buffer woken].
  set (h := header_request source 200005 INVOKE_SYNC (Some "_request")).
  change (waker_buffer (w <| inbox := _ |>)) with (waker_buffer w). change (woken (w <| inbox := _ |>)) with (woken w).
  destruct (Reset_ok (waker_buffer w)) as (Rw & Rc & Rl). destruct (SetHeader_ok h (Reset (waker_buffer w))) as (Hc & Hp & Hh & _ & Hwf).
  assert (Hrange : header_ranged (GetHeader (SetHeader h (Reset (waker_buffer w))))).
  { rewrite Hh. apply header_assign_ranged; [by apply Hrg |]. unfold header_ranged. cbn. repeat constructor; done. }
  destruct (message_delivered wake_box 12 (Pack1 PInt tag) () (UnPack1 PInt) tag (SetHeader h (Reset (waker_buffer w))) xdr_new [])
    as (b1 & b2 & s1 & b3 & s2 & b4 & E1 & E2 & E3 & Hs2 & _ & Ha & _ & E4 & _ & _ & Hb2).
  { apply within_prim1; done. }
  { by apply Hwf. }
  { by rewrite Hc. }
  { by rewrite Hp. }
  { unfold int_max. lia. }
  { rewrite Hh. intros n. by eexists. }
  { exact Hrange. }
  { done. }
  change (xdr_SetHeader h (xdr_Reset (waker_buffer w))) with (SetHeader h (Reset (waker_buffer w))).
  rewrite E1. cbn [rbind fst snd]. rewrite Hwk. change (xdr_Send wake_box b1 []) with (Send wake_box b1 ([] : list byte)). rewrite E2.
  exists b2, s1. split; [done |]. split; [|by rewrite <- Hb2 in Hrange]. exists b3, b4. change (xdr_Recv wake_box xdr_new s1) with (Recv wake_box xdr_new s1). rewrite E3.
  assert (Hs2' : s2 = []) by exact Hs2. subst s2. rewrite Hh in Ha. destruct Ha as (A1 & A2 & _). cbn in A1, A2.
  destruct (A2 eq_refl) as (A3 & A4 & _). by split_and!.
Qed.

(** The main loop takes it and writes the request to the object. *)
Lemma request_arrives k (w : W) source tag id data h l :
  woken_by source tag (woken w) →
  queue w (0, source, tag) = Ints [id] :: Ints [zlen data] :: Chars data :: l →
  multiple_connection w = false → connectionmap w !! (source, id) = Some (Some h) →
  handle_woken ipc_write ipc_connect run_object spawn any_source k w = Some (Ok ((),
    w <| woken := [] |> <| inbox := <[(0, source, tag) := l]> (inbox w) |>
      <| outgoingconnection := <[h := (tag, source)]> (outgoingconnection w) |>
      <| sys := (ipc_write h data (sys w)).2 |>)).
Proof.
  intros (b & b' & Er & Ht & H0 & H1 & Eu) Hq Hm Hc. unfold handle_woken. rewrite (bind_run get _ _ _ _ eq_refl).
  unfold bind at 1, lift. rewrite Er. cbn [rbind]. set (w0 := w <| woken := [] |>). rewrite (bind_run (modify _) _ _ () w0) by done.
  unfold handle. rewrite H0, H1, Ht. cbn [read_member]. unfold bind at 1, lift. cbn [rbind]. unfold bind at 1. cbn [rbind].
  unfold bind at 1. cbn [Z.eqb Pos.eqb ret TYPE_REQUEST TYPE_EXCEPTION].
  unfold request_from_mpi. unfold bind at 1, lift. rewrite Eu. cbn [rbind].
  rewrite (bind_run _ _ _ _ _ (recv_int_run w0 0 source tag id _ Hq)).
  set (w1 := w0 <| inbox := _ |>).
  assert (Hq1 : queue w1 (0, source, tag) = Ints [zlen data] :: Chars data :: l) by (unfold w1; rewrite (queue_insert w0); by case_decide).
  rewrite (bind_run _ _ _ _ _ (recv_int_run w1 0 source tag _ _ Hq1)). set (w2 := w1 <| inbox := _ |>).
  assert (Hq2 : queue w2 (0, source, tag) = Chars data :: l) by (unfold w2; rewrite (queue_insert w1); by case_decide).
  unfold connect_object. rewrite (bind_run _ _ w2 h (w2 <| outgoingconnection := <[h := (tag, source)]> (outgoingconnection w2) |>)); cycle 1.
  { rewrite (bind_run get _ w2 w2 w2) by done. change (multiple_connection w2) with (multiple_connection w).
    change (connectionmap w2) with (connectionmap w). rewrite Hm. unfold at_key. rewrite Hc. done. }
  set (w3 := w2 <| outgoingconnection := _ |>).
  rewrite (bind_run _ _ _ _ _ (recv_chars_run w3 0 source tag data l Hq2)). unfold bind, sysc, ret. cbn [sys].
  unfold w3, w2, w1, w0. cbn. destruct (ipc_write h data (sys w)). cbn. by rewrite !insert_insert_eq.
Qed.

(** The answer comes back. *)
Lemma command_response (w : W) source tag fd data l l' :
  queue w (0, source, 0) = Ints [14; tag] :: l' → tag ≠ 0 →
  queue w (0, source, tag) = Ints [zlen data] :: Chars data :: l → incomingtag w !! tag = Some fd →
  command ipc_write 0 source w = Some (Ok ((),
    w <| inbox := <[(0, source, tag) := l]> (<[(0, source, 0) := l']> (inbox w)) |>
      <| incomingtag := delete tag (incomingtag w) |> <| sys := (ipc_write fd data (sys w)).2 |>)).
Proof.
  intros Hq0 Ht Hq Hf. unfold command. rewrite (bind_run _ _ _ _ _ (mpi_recv_run _ _ _ _ _ _ Hq0)).
  rewrite (bind_run get _ _ _ _ eq_refl). cbn [Z.eqb Pos.eqb]. unfold forward_response. set (w1 := w <| inbox := _ |>).
  assert (Hq1 : queue w1 (0, source, tag) = Ints [zlen data] :: Chars data :: l).
  { unfold w1. rewrite queue_insert. case_decide as E; [|done]. by injection E as <-. }
  rewrite (bind_run _ _ _ _ _ (recv_int_run w1 0 source tag _ _ Hq1)). set (w2 := w1 <| inbox := _ |>).
  assert (Hq2 : queue w2 (0, source, tag) = Chars data :: l) by (unfold w2; rewrite (queue_insert w1); by case_decide).
  rewrite (bind_run _ _ _ _ _ (recv_chars_run w2 0 source tag data l Hq2)). set (w3 := w2 <| inbox := _ |>).
  rewrite (bind_run get _ w3 w3 w3) by done. change (incomingtag w3) with (incomingtag w). unfold at_key. rewrite Hf.
  unfold bind, modify, sysc. cbn. destruct (ipc_write fd data (sys w)). cbn. unfold w3, w2, w1. cbn. by rewrite !insert_insert_eq.
Qed.

(** *** The grid *)
#[local] Abbreviation go := (act ipc_write ipc_connect run_object spawn any_source).
#[local] Abbreviation goes := (acts ipc_write ipc_connect run_object spawn any_source).

Definition put (source : Z) (w : W) (m : mpi_message) : W :=
  w <| inbox := let key := (0, source, mpi_tag m) in <[key := default [] (inbox w !! key) ++ [load m]]> (inbox w) |>.
Lemma arrive_all source d ms (g : grid) :
  Forall (λ m, comm m = 0 ∧ dest m = d) ms →
  foldl (arrive source) g ms = alter (λ w, foldl (put source) w ms) d g.
Proof.
  intros Hms. revert g. induction Hms as [|m ms [Hc Hd] _ IH]; intros g; cbn [foldl].
  - symmetry. by apply alter_id.
  - rewrite IH. unfold arrive. rewrite Hc, Hd. cbn [Z.eqb]. apply map_eq. intros i.
    destruct (decide (i = d)) as [->|Hi]; [rewrite !lookup_alter_eq; by destruct (g !! d) | by rewrite !lookup_alter_ne].
Qed.
Lemma queue_put source (w : W) m key :
  queue (put source w m) key = if decide (key = (0, source, mpi_tag m)) then queue w key ++ [load m] else queue w key.
Proof.
  unfold queue, put. cbn. case_decide as E; [subst; by rewrite lookup_insert_eq | by rewrite lookup_insert_ne by congruence].
Qed.
Lemma queue_outgoing (w : W) m key : queue (w <| outgoingconnection := m |> <| sent := [] |>) key = queue w key.
Proof. done. Qed.
Lemma act_run a (g : grid) (w w' : W) d ms :
  g !! node_of a = Some w → runs a w = true →
  handler ipc_write ipc_connect run_object spawn any_source a w = Some (Ok ((), w')) →
  sent w' = ms → Forall (λ m, comm m = 0 ∧ dest m = d) ms →
  go a g = Some (Ok (alter (λ v, foldl (put (node_of a)) v ms) d (<[node_of a := w' <| sent := [] |>]> g))).
Proof. intros Hg Hr Hh <- Hms. unfold act. rewrite Hg, Hr, Hh. cbn. by rewrite (arrive_all _ d). Qed.

(** An action of the node [n] that sends to the node [d] only. *)
Definition others_same (n d : Z) (g g' : grid) : Prop := ∀ i, i ≠ n → i ≠ d → g' !! i = g !! i.
Lemma act_sends a d (g : grid) (w w' v : W) ms :
  g !! node_of a = Some w → g !! d = Some v → node_of a ≠ d → runs a w = true →
  handler ipc_write ipc_connect run_object spawn any_source a w = Some (Ok ((), w')) →
  sent w' = ms → Forall (λ m, comm m = 0 ∧ dest m = d) ms →
  ∃ g', go a g = Some (Ok g') ∧ g' !! node_of a = Some (w' <| sent := [] |>) ∧
    g' !! d = Some (foldl (put (node_of a)) v ms) ∧ others_same (node_of a) d g g'.
Proof.
  intros Hg Hd Hne Hr Hh Hs Hms. eexists. split; [by apply (act_run a g w w' d ms) |]. split_and!.
  - by rewrite lookup_alter_ne, lookup_insert_eq by done.
  - by rewrite lookup_alter_eq, lookup_insert_ne, Hd by done.
  - intros i Hi Hid. by rewrite lookup_alter_ne, lookup_insert_ne by done.
Qed.
Lemma acts_cons a l (g g1 : grid) : go a g = Some (Ok g1) → goes (a :: l) g = goes l g1.
Proof. cbn. by intros ->. Qed.

(** A caller on the descriptor [f] of the node [a], an object with the identifier [id] on the node
    [b], connected there by the descriptor [h], and nothing on the way between them. *)
Record connected (g : grid) (a b f id h : Z) (wa wb : W) : Prop := {
  r_ne : a ≠ b;
  r_a : g !! a = Some wa;
  r_b : g !! b = Some wb;
  r_runs : active wa = true ∧ thread_active wa = true ∧ active wb = true ∧ thread_active wb = true;
  r_sent : sent wa = [] ∧ sent wb = [];
  r_caller : incomingconnection wa !! f = Some (b, id) ∧ asking wa f ∧ object_group wa !! f = None;
  r_object : multiple_connection wb = false ∧ connectionmap wb !! (a, id) = Some (Some h);
  r_thread : woken wb = [] ∧ header_ranged (buf_header (waker_buffer wb));
  r_range : in_sint 32 a = true ∧ 0 < next_tag wa < int_max;
  r_commands : queue wb (0, a, 0) = [] ∧ queue wa (0, b, 0) = [];
  r_tags : ∀ t, next_tag wa ≤ t → queue wb (0, a, t) = [] ∧ queue wa (0, b, t) = [] }.

Lemma request_routed g a b f id h k wa wb req sreq :
  connected g a b f id h wa wb → plain req → wire req sreq →
  let t := next_tag wa in
  ∃ g' buf ib, goes [AMessage a f req; ACommand b 0 a; AWoken b k] g = Some (Ok g') ∧ others_same a b g g' ∧
    header_ranged (buf_header buf) ∧
    g' !! a = Some (wa <| outgoingconnection := (at_key (0, 0) f (outgoingconnection wa)).2 |>
                       <| incomingtag := <[t := f]> (incomingtag wa) |> <| sent := [] |> <| next_tag := t + 1 |>) ∧
    (let wb' := wb <| sent := [] |> <| woken := [] |> <| waker_buffer := buf |> <| inbox := ib |> <| outgoingconnection := <[h := (t, a)]> (outgoingconnection wb) |>
                   <| sys := (ipc_write h sreq (sys wb)).2 |> in
     g' !! b = Some wb' ∧ queue wb' (0, a, 0) = [] ∧ ∀ t', t ≤ t' → queue wb' (0, a, t') = []).
Proof.
  intros [Hne Ha Hb (R1 & R2 & R3 & R4) (S1 & S2) (C1 & C2 & C3) (O1 & O2) (T1 & T2) (N1 & N2) (Q1 & Q2) Q3] Hreq Wreq t.
  assert (Ht : in_sint 32 t = true ∧ in_sint 32 (t + 1) = true) by (unfold int_max in N2; rewrite !in_sint32; lia).
  (* the request leaves *)
  destruct (handle_plain f req Hreq) as [m1 E1]. specialize (E1 wa). rewrite (request_leaves f req sreq m1 wa b id) in E1 by (done || apply Ht).
  destruct (act_sends (AMessage a f req) b g wa _ wb (request_messages b t id sreq) Ha Hb Hne R1 E1) as (g1 & G1 & A1 & B1 & K1);
    [cbn; by rewrite S1 | repeat constructor |].
  rewrite (acts_cons _ _ _ _ G1). cbn [node_of] in A1, B1, K1. set (wb1 := foldl _ _ _) in B1.
  assert (Qb1 : ∀ key, queue wb1 key = queue wb key ++ if decide (key = (0, a, 0)) then [Ints [13; t]]
                         else if decide (key = (0, a, t)) then [Ints [id]; Ints [zlen sreq]; Chars sreq] else []).
  { intros key. unfold wb1, request_messages. cbn [foldl]. rewrite !queue_put. cbn [mpi_tag load].
    repeat case_decide; simplify_eq; try lia; by rewrite <- ?app_assoc, ?app_nil_r. }
  (* the thread of the other node *)
  destruct (command_request wb1 a t []) as (buf & s & E2 & Hw & Hbuf); [| exact T1 | exact T2 | exact N1 | apply Ht |].
  { rewrite Qb1, Q1. by case_decide. }
  destruct (act_sends (ACommand b 0 a) a g1 wb1 _ _ [] B1 A1 (not_eq_sym Hne) R4 E2 S2) as (g2 & G2 & B2 & A2 & K2); [done |].
  rewrite (acts_cons _ _ _ _ G2). cbn [node_of foldl] in A2, B2, K2. set (wb2 := _ <| sent := [] |>) in B2.
  (* its main loop *)
  assert (Qb2 : ∀ key, queue wb2 key = if decide (key = (0, a, 0)) then [] else queue wb1 key).
  { intros key. change (queue wb2 key) with (queue (wb1 <| inbox := <[(0, a, 0) := []]> (inbox wb1) |>) key).
    rewrite queue_insert. by repeat case_decide. }
  assert (E3 := request_arrives k wb2 a t id sreq h [] Hw).
  rewrite Qb2, decide_False, Qb1, (proj1 (Q3 t (Z.le_refl t))), decide_False, decide_True in E3 by (try done; intros [=]; lia).
  specialize (E3 eq_refl O1 O2).
  destruct (act_sends (AWoken b k) a g2 wb2 _ _ [] B2 A2 (not_eq_sym Hne) R3 E3 eq_refl) as (g3 & G3 & B3 & A3 & K3); [done |].
  rewrite (acts_cons _ _ _ _ G3). cbn [node_of foldl] in A3, B3, K3. eexists g3, buf, _. split_and!; [done | | done | | split_and!].
  - intros i Hi Hi'. by rewrite K3, K2, K1.
  - rewrite A3. done.
  - rewrite B3. reflexivity.
  - change (queue (wb2 <| inbox := <[(0, a, t) := []]> (inbox wb2) |>) (0, a, 0) = []). rewrite queue_insert, Qb2.
    by repeat case_decide.
  - intros t' Ht'. change (queue (wb2 <| inbox := <[(0, a, t) := []]> (inbox wb2) |>) (0, a, t') = []). rewrite queue_insert, Qb2, Qb1.
    rewrite (proj1 (Q3 t' Ht')). repeat case_decide; simplify_eq; try done; lia.
Qed.

Lemma response_routed g a b f h t wa wb resp sresp :
  a ≠ b → g !! a = Some wa → g !! b = Some wb → active wb = true → thread_active wa = true → sent wa = [] → sent wb = [] →
  t ≠ 0 → incomingtag wa !! t = Some f → outgoingconnection wb !! h = Some (t, a) →
  queue wa (0, b, 0) = [] → queue wa (0, b, t) = [] → plain resp → wire resp sresp →
  ∃ g' ib, goes [AMessage b h resp; ACommand a 0 b] g = Some (Ok g') ∧ others_same a b g g' ∧
    g' !! b = Some (wb <| outgoingconnection := delete h (outgoingconnection wb) |> <| sent := [] |>) ∧
    (let wa' := wa <| inbox := ib |> <| incomingtag := delete t (incomingtag wa) |> <| sys := (ipc_write f sresp (sys wa)).2 |>
                   <| sent := [] |> in
     g' !! a = Some wa' ∧ ∀ key, queue wa' key = queue wa key).
Proof.
  intros Hne Ha Hb R3 R2 S1 S2 Ht Hf Hh Q0 Qt Hresp Wresp.
  destruct (handle_plain h resp Hresp) as [m E1]. specialize (E1 wb). rewrite (response_leaves h resp sresp m wb t a Hh Ht Wresp) in E1.
  destruct (act_sends (AMessage b h resp) a g wb _ wa
              [MkMpi 0 a 0 (Ints [14; t]); MkMpi 0 a t (Ints [zlen sresp]); MkMpi 0 a t (Chars sresp)] Hb Ha (not_eq_sym Hne) R3 E1)
    as (g1 & G1 & B1 & A1 & K1); [cbn; by rewrite S2 | repeat constructor |].
  rewrite (acts_cons _ _ _ _ G1). cbn [node_of] in A1, B1, K1. set (wa1 := foldl _ _ _) in A1.
  assert (Qa1 : ∀ key, queue wa1 key = queue wa key ++ if decide (key = (0, b, 0)) then [Ints [14; t]]
                         else if decide (key = (0, b, t)) then [Ints [zlen sresp]; Chars sresp] else []).
  { intros key. unfold wa1. cbn [foldl app]. rewrite !queue_put. cbn [mpi_tag load].
    repeat case_decide; simplify_eq; try lia; by rewrite <- ?app_assoc, ?app_nil_r. }
  assert (E2 := command_response wa1 b t f sresp [] []).
  rewrite !Qa1, Q0, Qt, decide_True, decide_False, decide_True in E2 by (try done; intros [=]; lia). specialize (E2 eq_refl Ht eq_refl Hf).
  destruct (act_sends (ACommand a 0 b) b g1 wa1 _ _ [] A1 B1 Hne R2 E2 S1) as (g2 & G2 & A2 & B2 & K2); [done |].
  rewrite (acts_cons _ _ _ _ G2). cbn [node_of foldl] in A2, B2, K2. eexists g2, _. split_and!; [done | | | split].
  - intros i Hi Hi'. by rewrite K2, K1.
  - rewrite B2. reflexivity.
  - rewrite A2. reflexivity.
  - intros key. change (default [] (<[(0, b, t) := []]> (<[(0, b, 0) := []]> (inbox wa1)) !! key) = queue wa key).
    destruct (decide (key = (0, b, t))) as [->|H1]; [by rewrite lookup_insert_eq, Qt |]. rewrite lookup_insert_ne by done.
    destruct (decide (key = (0, b, 0))) as [->|H2]; [by rewrite lookup_insert_eq, Q0 |]. rewrite lookup_insert_ne by done.
    change (queue wa1 key = queue wa key). by rewrite Qa1, !decide_False, app_nil_r by done.
Qed.

Lemma acts_app l1 l2 (g g1 : grid) : goes l1 g = Some (Ok g1) → goes (l1 ++ l2) g = goes l2 g1.
Proof.
  revert g. induction l1 as [|x l1 IH]; intros g; cbn [acts app]; [by intros [= ->] |].
  destruct (go x g) as [[g2|?|]|]; [apply IH | done..].
Qed.


(** ** Tags, cores and identifiers *)

(** A node when its loops start: the first core is its own. *)
Definition node_init (rank world nbcore : Z) (multiple : bool) (x : X) : W :=
  MkNode rank world 1 nbcore 0 multiple ∅ ∅ ∅ ∅ ∅ ∅ ∅ ∅ 1 1000 1 [] true true xdr_new [] ∅ [] x.
Definition node_ok (w : W) : Prop :=
  (∀ t, is_Some (incomingtag w !! t) → 1000 ≤ t < next_tag w) ∧ 1000 ≤ next_tag w ∧
  (2 ≤ g_nbcore w → 0 ≤ g_core w < g_nbcore w) ∧ 1 ≤ next_object_id w.
Definition stays_ok (w w' : W) : Prop := node_ok w → node_ok w' ∧ next_tag w ≤ next_tag w'.
#[export] Instance stays_ok_order : PreOrder stays_ok.
Proof. split; [by intros w Hw | intros w1 w2 w3 H1 H2 Hw]. destruct (H1 Hw) as [Hw2 ?], (H2 Hw2). split; [done | lia]. Qed.
#[local] Abbreviation safe := (respects stays_ok).

Lemma safe_modify f :
  (∀ w, incomingtag (f w) = incomingtag w ∧ next_tag (f w) = next_tag w ∧ g_nbcore (f w) = g_nbcore w ∧
        g_core (f w) = g_core w ∧ next_object_id (f w) = next_object_id w) → safe (modify f).
Proof.
  intros Hf. apply respects_modify. intros w (H1 & H2 & H3 & H4). destruct (Hf w) as (E1 & E2 & E3 & E4 & E5).
  unfold node_ok. rewrite E1, E2, E3, E4, E5. done.
Qed.
Lemma safe_sysc {A : Type} (call : X → A * X) : safe (sysc call).
Proof. intros w a w'. unfold sysc. destruct (call (sys w)). by intros [= _ <-]. Qed.
Lemma safe_send c d t p : safe (send_to c d t p).
Proof. by apply safe_modify. Qed.
Lemma safe_mpi_send d t p : safe (mpi_send d t p).
Proof. by apply safe_modify. Qed.
Lemma safe_mpi_recv c s t : safe (mpi_recv c s t).
Proof. intros w a w'. unfold mpi_recv. destruct (inbox w !! (c, s, t)) as [[|]|]; [done | by intros [= _ <-] | done]. Qed.
Hint Resolve safe_sysc safe_send safe_mpi_send safe_mpi_recv : respects.
Ltac safe_steps := repeat first [respects_step | apply safe_modify; done].

Lemma safe_recv_int c s t : safe (recv_int (X := X) c s t).
Proof. unfold recv_int. safe_steps. Qed.
Lemma safe_recv_chars c s t n : safe (recv_chars (X := X) c s t n).
Proof. unfold recv_chars. safe_steps. Qed.
Lemma safe_recv_source t : safe (recv_source any_source t).
Proof. unfold recv_source. safe_steps. Qed.
Lemma safe_send_buffer fd b : safe (send_buffer ipc_write fd b).
Proof. intros w a w'. unfold send_buffer. destruct (xdr_Send _ b (sys w)) as [[[??]?]|?|]; [by intros [= _ <-] | done..]. Qed.
Lemma safe_wake h body : safe (wake (X := X) h body).
Proof. intros w a w'. unfold wake. destruct (rbind _ _) as [[[??]?]|?|]; [by intros [= _ <-] | done..]. Qed.
Hint Resolve safe_recv_int safe_recv_chars safe_recv_source safe_send_buffer safe_wake : respects.
Lemma load_of_same b (w w' : W) r : load_of b w = Some (Ok (r, w')) → w' = w.
Proof.
  unfold load_of, bind, lift. destruct (xdr_get_size b); [|done..]. cbn. destruct (xdr_get_load b) as [[[s|] b']|?|]; [|done..].
  by intros [= _ <-].
Qed.
Lemma safe_load_of b : safe (load_of (X := X) b).
Proof. by intros w r w' ->%load_of_same. Qed.
Lemma safe_next_core u : safe (next_core (X := X) u).
Proof.
  unfold next_core. destruct (negb (u =? -1)); [safe_steps |]. apply respects_read. intros w a w' [= _ <-] (H1 & H2 & H3 & H4).
  split; [|done]. split; [done |]. split; [done |]. split; [|done]. cbn. intros H. specialize (H3 H).
  destruct (Z.eqb_spec (g_core w + 1) (g_nbcore w)); lia.
Qed.
Hint Resolve safe_load_of safe_next_core : respects.
Lemma safe_start_object name code u : safe (start_object run_object name code u).
Proof.
  unfold start_object. apply respects_read. intros w a w'. unfold bind at 1, lift, check_int.
  destruct (in_sint 32 (next_object_id w + 1)); [|done]. cbn [rbind]. intros E Hw. set (w1 := w <| next_object_id := next_object_id w + 1 |>).
  assert (H1 : node_ok w1) by (destruct Hw as (?&?&?&?); split_and!; cbn; [done..|lia]).
  rewrite (bind_run (modify _) _ w () w1) in E by done.
  match type of E with ?m w1 = _ => assert (Hm : safe m) by safe_steps end. exact (Hm _ _ _ E H1).
Qed.
Hint Resolve safe_start_object : respects.
Lemma safe_allocate_response b fd a : safe (allocate_response ipc_write b fd a).
Proof. unfold allocate_response. safe_steps. Qed.
Lemma safe_at (A : Type) (f : A → W → W) (a : A) :
  (∀ w, incomingtag (f a w) = incomingtag w ∧ next_tag (f a w) = next_tag w ∧ g_nbcore (f a w) = g_nbcore w ∧
        g_core (f a w) = g_core w ∧ next_object_id (f a w) = next_object_id w) → safe (modify (f a)).
Proof. apply safe_modify. Qed.
Lemma safe_terminate : safe (terminate (X := X)).
Proof. unfold terminate. safe_steps. Qed.
Lemma safe_route_connection fd b : safe (route_connection (X := X) fd b).
Proof. unfold route_connection. safe_steps. Qed.
Lemma safe_allocate_from_mpi : safe (allocate_from_mpi run_object any_source).
Proof. unfold allocate_from_mpi. safe_steps. Qed.
Hint Resolve safe_allocate_response : respects.
Lemma safe_allocate_from_ipc fd b : safe (allocate_from_ipc ipc_write run_object fd b).
Proof. unfold allocate_from_ipc. safe_steps. Qed.
Lemma safe_allocation_return_at id : safe (allocation_return_at (X := X) id).
Proof. unfold allocation_return_at. safe_steps. Qed.
Hint Resolve safe_allocation_return_at : respects.
Lemma safe_return_address n id b : safe (return_address ipc_write n id b).
Proof. unfold return_address. safe_steps. Qed.
Hint Resolve safe_return_address : respects.
Lemma safe_allocation_done b : safe (allocation_done ipc_write b).
Proof. unfold allocation_done. safe_steps. Qed.
Lemma safe_allocate_group fd b : safe (allocate_group ipc_write spawn fd b).
Proof. unfold allocate_group. safe_steps. Qed.
Lemma safe_connect_object t s d : safe (connect_object ipc_connect t s d).
Proof. unfold connect_object. safe_steps. Qed.
Hint Resolve safe_connect_object : respects.
Lemma safe_request_from_mpi s b : safe (request_from_mpi ipc_write ipc_connect s b).
Proof. unfold request_from_mpi. safe_steps. Qed.
Lemma safe_redirect_response fd t d b : safe (redirect_response (X := X) fd t d b).
Proof. unfold redirect_response. safe_steps. Qed.
Lemma safe_redirect_group fd m g n b : safe (redirect_group ipc_write fd m g n b).
Proof. unfold redirect_group. safe_steps. Qed.

(** A request takes the next tag, and is counted when it has been sent. *)
Lemma safe_redirect_request fd b : safe (redirect_request (X := X) fd b).
Proof.
  intros w a w'. unfold redirect_request. rewrite (bind_run get _ w w w) by done.
  destruct (at_key (0, 0) fd (incomingconnection w)) as [[dest id] m].
  set (w1 := w <| incomingconnection := m |> <| incomingtag := <[next_tag w := fd]> (incomingtag w) |>).
  rewrite (bind_run (modify _) _ w () w1) by done. unfold bind at 1.
  destruct (load_of b w1) as [[[[n s] w2]|?|]|] eqn:El; [|done..]. apply load_of_same in El as ->.
  unfold mpi_send, send_to, bind, modify, lift, check_int. cbn.
  destruct (in_sint 32 (next_tag w + 1)); [|done]. intros [= _ <-] (H1 & H2 & H3 & H4).
  split; [|cbn; lia]. split_and!; cbn; [|lia|done|done]. intros t [f Hf].
  destruct (decide (t = next_tag w)) as [->|Hne]; [lia |]. rewrite lookup_insert_ne in Hf by done.
  destruct (H1 t); [by eexists | lia].
Qed.
Hint Resolve safe_terminate safe_route_connection safe_allocate_from_mpi safe_allocate_from_ipc safe_allocation_done
  safe_allocate_group safe_request_from_mpi safe_redirect_response safe_redirect_request safe_redirect_group : respects.
Lemma safe_redirect fd m b : safe (redirect ipc_write fd m b).
Proof. unfold redirect. safe_steps. Qed.
Hint Resolve safe_redirect : respects.
Lemma safe_handle fd b : safe (hand fd b).
Proof. unfold handle. safe_steps. Qed.

Lemma safe_forward_response s t : safe (forward_response ipc_write s t).
Proof.
  unfold forward_response. apply respects_bind; [apply _ | auto with respects | intros n].
  apply respects_bind; [apply _ | auto with respects | intros data]. apply respects_read. intros w a w'.
  destruct (at_key 0 t (incomingtag w)) as [fd m] eqn:Ek. unfold bind, modify, sysc. cbn.
  destruct (ipc_write fd data (sys w)). intros [= _ <-] (H1 & H2 & H3 & H4). split; [|done]. split; [|done]. cbn.
  intros t' [f Hf]. destruct (decide (t = t')) as [<-|Hne]; [by rewrite lookup_delete_eq in Hf |].
  rewrite lookup_delete_ne in Hf by done. apply H1. exists f. unfold at_key in Ek.
  destruct (incomingtag w !! t); injection Ek as _ <-; [done | by rewrite lookup_insert_ne in Hf].
Qed.
Lemma safe_group_response i s : safe (group_response ipc_write i s).
Proof. unfold group_response. safe_steps. Qed.
Hint Resolve safe_handle safe_forward_response safe_group_response : respects.
Lemma safe_handle_woken fd : safe (handle_woken ipc_write ipc_connect run_object spawn any_source fd).
Proof. unfold handle_woken. safe_steps. Qed.
Lemma safe_command i s : safe (command ipc_write i s).
Proof. unfold command. safe_steps. Qed.
Lemma safe_handler a : safe (handler ipc_write ipc_connect run_object spawn any_source a).
Proof. destruct a; cbn; auto using safe_handle, safe_handle_woken, safe_command. Qed.

(** Nodes that are started, and what happens to them in any order. *)
Definition started (g : grid) : Prop :=
  ∀ n w, g !! n = Some w → ∃ rank world nbcore multiple x, w = node_init rank world nbcore multiple x.
Definition all_ok (g : grid) : Prop := ∀ n w, g !! n = Some w → node_ok w.
Lemma all_ok_arrive source g m : all_ok g → all_ok (arrive source g m).
Proof.
  intros Hg n w. unfold arrive. destruct (comm m =? 0); [|by apply Hg]. destruct (decide (n = dest m)) as [->|Hne].
  - rewrite lookup_alter_eq. intros (w0 & Hw & ->)%fmap_Some. exact (Hg (dest m) w0 Hw).
  - rewrite lookup_alter_ne by done. by apply Hg.
Qed.
Lemma all_ok_arrivals source ms g : all_ok g → all_ok (foldl (arrive source) g ms).
Proof. revert g. induction ms as [|m ms IH]; intros g Hg; cbn [foldl]; [done |]. by apply IH, all_ok_arrive. Qed.
Lemma all_ok_act a g g' : all_ok g → go a g = Some (Ok g') → all_ok g'.
Proof.
  intros Hg. unfold act. destruct (g !! node_of a) as [w|] eqn:Ew; [|done]. destruct (runs a w); [|done].
  destruct (handler _ _ _ _ _ a w) as [[[[] w']|?|]|] eqn:Eh; cbn; [|done..]. intros [= <-].
  apply safe_handler in Eh. destruct (Eh (Hg _ _ Ew)) as [Hw' _].
  assert (H0 : all_ok (<[node_of a := w' <| sent := [] |>]> g)).
  { intros n v. destruct (decide (n = node_of a)) as [->|Hne]; [rewrite lookup_insert_eq; by intros [= <-] |].
    rewrite lookup_insert_ne by done. apply Hg. }
  by apply all_ok_arrivals.
Qed.


(** ** What goes wrong *)

End Routing.

(** The thread never reaches the main loop. The path the thread connects to is cut to the size of a
    pointer, and is not that of the box of the interconnector, on any node. *)
Theorem thread_connects_elsewhere rank : thread_address rank ≠ local_address rank.
Proof.
  intros E. apply (f_equal length) in E. unfold thread_address, local_address, address_text in E.
  rewrite length_take, !length_app in E.
  assert (Hd : (1 ≤ length (decimal rank))%nat).
  { unfold decimal. destruct (rank <? 0); [cbn; lia |]. pose proof (digits_of_length 9 rank []). lia. }
  change (length (string_bytes ".uds_")) with 5%nat in E. cbn [length] in E. change (length (decimal 0)) with 1%nat in E. lia.
Qed.

(** ** Two nodes *)
Module Examples.

(** What is written to each descriptor; every path can be connected to, by the descriptor 9. *)
Definition out : Type := list (Z * list byte).
Definition write (fd : Z) (s : list byte) (x : out) : Z * out := (zlen s, x ++ [(fd, s)]).
Definition connect (_ : chars) (x : out) : option Z * out := (Some 9, x).
Definition object (_ : list chars) (_ : chars) (x : out) : callback * out := (Called 200002, x).
Definition processes (_ _ : chars) (n : Z) (x : out) : Z * out := (n, x).
Definition first_source (_ : gmap (Z * Z * Z) (list payload)) (_ : Z) : option Z := Some 0.
Definition run := acts write connect object processes first_source.

(** Two callers on the node 0, on the descriptors 5 and 6, know the object 3 of the node 1. *)
Definition caller : node out :=
  (node_init 0 2 4 false []) <| incomingconnection := <[5 := (1, 3)]> (<[6 := (1, 3)]> ∅) |>.
Definition callee : node out := (node_init 1 2 4 false []) <| connectionmap := {[(0, 3) := Some 9]} |>.
Definition nodes : gmap Z (node out) := <[0 := caller]> {[1 := callee]}.
Definition request (method : Z) : buffer_xdr := xdr_SetHeader (header_request 1 method 1 None) xdr_new.
Definition answer : buffer_xdr := xdr_new <| buf_header := MkHeader TYPE_RESPONSE (Some 1) (Some 10) None None None |>.
Definition bytes_of (b : buffer_xdr) : list byte :=
  match xdr_get_load b with Ok (Some s, _) => s | _ => [] end.

Lemma wire_request method : in_sint 32 method = true → wire (request method) (bytes_of (request method)).
Proof.
  intros _. destruct (wire_exists (request method)) as [s Hs].
  - split; [vm_compute; discriminate |]. split; vm_compute; discriminate.
  - intros n. by eexists.
  - unfold bytes_of. pose proof Hs as [_ [b' ->]]. done.
Qed.
Lemma wire_answer : wire answer (bytes_of answer).
Proof. split; [vm_compute; reflexivity |]. eexists. vm_compute. reflexivity. Qed.
Lemma plain_request method : method ∉ own_methods → plain (request method).
Proof. intros Hm. by exists 1, method. Qed.
Lemma plain_answer : plain answer.
Proof. exists 1, 10. split_and!; [done..|]. unfold own_methods. set_solver by lia. Qed.
Lemma two_connected f : f = 5 ∨ f = 6 → connected nodes 0 1 f 3 9 caller callee.
Proof. intros [-> | ->]; split; try done; split_and!; try done; by repeat constructor. Qed.



(** The nodes are started; the callers say which object they want, and one calls it. *)
Definition fresh : gmap Z (node out) := <[0 := node_init 0 2 4 false []]> {[1 := node_init 1 2 4 false []]}.
Definition wanted : buffer_xdr :=
  match (Pack1 PInt 1 ;;; Pack1 PInt 3) (xdr_SetHeader (header_request 0 200002 1 None) xdr_new) with Ok (_, b) => b | _ => xdr_new end.
Definition history : list action := [AMessage 0 5 wanted; AMessage 0 5 (request 10); ACommand 1 0 0; AWoken 1 7; AMessage 1 9 answer].
End Examples.
