(* ===== verification/Sockets.v ===== *)
(** * What sockets promise to the messages, to the broker and to the callers

    The communication boxes of ComboxSocket.v against the rest of the runtime: two connected
    sockets are the connection the message buffers rely on ([ComboxStream], [ComboxChannel] of
    Message.v); the callbacks of the broker count the connections; the address a server gives is
    the one a client connects to; and what happens to a connection that fails. *)

From S2P Require Import Prelude Machine Buffer Exceptions Message BufferRaw Utils Effects ComboxSocket.
From S2P Require Broker References ObjectDescription.

(** ** Addresses *)
Lemma strchr_app c (u v : list byte) : c ∉ u → ObjectDescription.strchr c (u ++ c :: v) = Some (u, v).
Proof.
  induction u as [|x u IH]; intros Hc; cbn [ObjectDescription.strchr app].
  - by rewrite decide_True by done.
  - apply not_elem_of_cons in Hc as [Hx Hu]. rewrite decide_False by congruence. by rewrite IH.
Qed.

Lemma scan_int_digits s n :
  Forall (λ c, isdigit c = true) s → s ≠ [] → digits_value 0 s = n → in_sint 32 n = true →
  scan_int s = Ok (Some n).
Proof.
  intros Hs Hne Hv Hn. pose proof (atoi_digits s n Hs Hne Hv Hn) as Ha. unfold scan_int.
  destruct s as [|c s]; [done |]. apply Forall_cons in Hs as [Hc Hs].
  assert (Hblank : skip_blanks (c :: s) = c :: s).
  { cbn [skip_blanks]. rewrite decide_False; [done |]. rewrite !elem_of_cons, elem_of_nil.
    intros [E|[E|[E|[E|[E|[E|[]]]]]]]; subst c; discriminate Hc. }
  rewrite Hblank. rewrite decide_False by (intros [->| ->]; discriminate Hc). rewrite Hc, Ha. done.
Qed.

Section Sockets.
Context {K F T : Type} (os : kernel K).
#[local] Abbreviation W := (world K F T).

(** The address of a server. What [Connect] takes out of the text [GetUrl] gives is the host
    and the port of the server. *)
Theorem GetUrl_parsed host (w : W) url w' :
  x3a ∉ host → 0 ≤ getsockname_port os (sockfd w) (kern w) < 65536 →
  GetUrl os host w = Some (Ok (url, w')) →
  w' = w ∧ parse_url url = Ok (Some (host, getsockname_port os (sockfd w) (kern w))).
Proof.
  intros Hh Hp E. unfold GetUrl, GetPort, bind, get, ret in E.
  set (port := getsockname_port os (sockfd w) (kern w)) in *.
  destruct (digits_of_spec 10 port []) as (s & Es & Hs & Hv & Hne & Hl); [simpl; lia |].
  rewrite Es, app_nil_r in E. clear Es. apply outcome_inj in E as [<- <-]. split; [done |].
  unfold parse_url. change (skip_blanks (socket_prefix ++ host ++ x3a :: s)) with (socket_prefix ++ host ++ x3a :: s).
  rewrite take_app_len, drop_app_len, decide_True by done. rewrite strchr_app by done.
  rewrite (scan_int_digits s port); [done | done | apply Hne; lia | done | apply in_sint32; lia].
Qed.

(** ** Connections that fail *)

(** A read that fails is repeated for ever. When every read of a connection fails with an error
    other than an interruption, [Recv] on this connection does not return. *)
Theorem failing_read_spins len a c (w : W) :
  a ≠ 0 → conns w !! a = Some c → 0 ≤ conn_fd c →
  (∀ k, ∃ k', sys_read os (conn_fd c) len k = (-1, [], k') ∧ errno os k' ≠ EINTR) →
  ∀ fuel, Recv_conn os fuel len a w = None.
Proof.
  intros Ha Hc Hfd Hread fuel. unfold Recv_conn, bind, modify. set (w0 := w <| isCanceled := false |>).
  assert (H0 : conns w0 !! a = Some c) by done. clearbody w0.
  revert w0 H0. induction fuel as [|fuel IH]; intros w0 H0; [done |].
  cbn [recv_loop]. unfold bind. rewrite (proj2 (Z.eqb_neq _ _) Ha). unfold ret at 1.
  rewrite (proj2 (Z.eqb_neq _ _) Ha). unfold connection_of, bind, get, need. rewrite H0. unfold ret at 1.
  rewrite (proj2 (Z.ltb_ge _ _) Hfd). unfold read_retry. cbn [retry]. unfold bind, sys.
  destruct (Hread (kern w0)) as (k' & -> & He). cbn [fst]. unfold interrupted at 1. cbn [kern upd].
  rewrite (proj2 (Z.eqb_neq _ _) He). cbn. by apply IH.
Qed.

(** A client keeps a descriptor that was closed. When the server has closed the connection, [Recv]
    closes the socket of the client; the connection keeps its number, and what is sent on it
    afterwards is written to whatever file has this number by then. *)
Theorem stale_descriptor len c (w : W) k' :
  isServer w = false → peer w ≠ 0 → conns w !! peer w = Some c → conn_fd c = sockfd w → 0 ≤ sockfd w →
  sys_read os (sockfd w) len (kern w) = (0, [], k') →
  ∀ fuel, ∃ w', Recv_conn os (S fuel) len (peer w) w = Some (Ok ((-1, []), w')) ∧
    kern w' = popc_close os (sockfd w) k' ∧ sockfd w' = -1 ∧
    ∀ fuel' s, Send_conn os fuel' s (peer w) w' = send_loop os fuel' (sockfd w) s 0 w'.
Proof.
  intros Es Hp Hc Hfd Hpos Hread fuel. eexists. split; [|split_and!].
  - unfold Recv_conn, bind, modify. cbn [recv_loop]. unfold bind. rewrite (proj2 (Z.eqb_neq _ _) Hp).
    unfold ret at 1. rewrite (proj2 (Z.eqb_neq _ _) Hp). unfold connection_of, bind, get, need. cbn [conns upd].
    rewrite Hc. unfold ret at 1. rewrite (proj2 (Z.ltb_ge _ _)) by lia. unfold read_retry. cbn [retry].
    unfold bind, sys. cbn [kern upd]. rewrite Hfd, Hread. cbn. unfold CloseSock, bind, get. cbn.
    rewrite Es, (proj2 (Z.eqb_neq _ _) Hp), Z.eqb_refl. cbn. reflexivity.
  - done.
  - done.
  - intros fuel' s. unfold Send_conn. rewrite (proj2 (Z.eqb_neq _ _) Hp). unfold connection_of, bind, get, need.
    cbn [conns upd]. rewrite Hc. unfold ret at 1. by rewrite Hfd, (proj2 (Z.ltb_ge _ _)) by lia.
Qed.
End Sockets.

(** ** The broker behind a server

    [ReceiveThread] gives the server the callbacks of the broker (lib/dynamic/broker_receive.cc). *)
Section Served.
Context {K F : Type} (os : kernel K) `{!KernelFds os} `{!KernelPoll os}.
#[local] Abbreviation W := (world K F Broker.pop_broker).

Definition NewConnection (conn : Z) (b : Broker.pop_broker) : bool * Broker.pop_broker :=
  (true, References.OnNewConnection b).
Definition CloseConnection (conn : Z) (b : Broker.pop_broker) : bool * Broker.pop_broker :=
  (true, References.OnCloseConnection b).

Inductive serving : W → Z → W → Z → Prop :=
  | serving_refl w h : serving w h w h
  | serving_act w0 h0 w h fuel x h' w' :
      serving w0 h0 w h → serves x = true → act os fuel x h w = Some (Ok (h', w')) → serving w0 h0 w' h'.

(** The connections of a server: all its sockets but the one it listens on. *)
Definition open_connections (w : W) : Z := Z.of_nat (pred (length (connarray w))).

(** C22: an object counts the connections that are open. While a server is used in any way, and
    connections come and go, the reference count of the object changes with the number of
    connections of the server: it is that number more than it was without any. *)
Theorem references_of_connections n w0 h0 w h :
  reach os w0 h0 → isServer w0 = true →
  on_new w0 = Some NewConnection → on_close w0 = Some CloseConnection →
  Broker.obj (cbdata w0) = Some (n + open_connections w0) → serving w0 h0 w h →
  Broker.obj (cbdata w) = Some (n + open_connections w).
Proof.
  intros Hr Hs Hnew Hclose Hobj Hrun.
  set (count := λ b, default 0 (Broker.obj b)). set (good := λ b, is_Some (Broker.obj b)).
  assert (Hopen : ∀ w, table os w → open_connections w = Z.of_nat (pred (length (pollarray w)))).
  { intros w1 Ht. unfold open_connections. by rewrite (table_length os w1 Ht). }
  assert (Hinv : act_ok os h w ∧ isServer w = true ∧ counted count good n w).
  { induction Hrun as [w h|w0 h0 w h fuel x h' w' _ IH Hx E].
    - pose proof (reach_ok os count good w h Hr) as Hok. split_and!; [done | done |]. split.
      + by eexists.
      + exists NewConnection. split; [done |]. intros a t [m Em]. unfold good, count. cbn.
        rewrite References.AddRef_obj, Em. split; [by eexists | done].
      + exists CloseConnection. split; [done |]. intros a t [m Em]. unfold good, count. cbn.
        rewrite References.DecRef_obj, Em. split; [by eexists | done].
      + unfold count. rewrite Hobj. cbn. by rewrite Hopen by apply Hok.
    - destruct IH as (Hok & Hs' & Hc); [done..|].
      destruct (wp_outcome _ _ _ _ _ _ (act_keeps os count good fuel x h w Hok) E) as [Hok' Hc'].
      rewrite Hx in Hc'. destruct Hc' as [Es Hc']. split_and!; [done | congruence | by apply Hc']. }
  destruct Hinv as ([[Ht _] _] & _ & [[m Em] _ _ Hcount]). unfold count in Hcount. rewrite Em in Hcount |- *.
  cbn in Hcount. by rewrite Hopen, Hcount by done.
Qed.
End Served.

(** ** Two connected sockets are a connection

    What the system promises for two sockets that are connected: what is written on [fa] arrives
    at [fb], in order and in any pieces; a call can be interrupted, a finite number of times. *)
Class SocketPair {K : Type} (os : kernel K) (fa fb : Z) := {
  inbox : K → list byte;
  signals : K → nat;
  read_piece k n : 0 < n → inbox k ≠ [] → let '(i, bs, k') := sys_read os fb n k in
    (i = -1 ∧ errno os k' = EINTR ∧ inbox k' = inbox k ∧ (signals k' < signals k)%nat) ∨
    (1 ≤ i ≤ n ∧ i ≤ zlen (inbox k) ∧ bs = take (Z.to_nat i) (inbox k) ∧ inbox k' = drop (Z.to_nat i) (inbox k));
  write_piece k s : s ≠ [] → let '(i, k') := sys_write os fa s k in
    (i = -1 ∧ errno os k' = EINTR ∧ inbox k' = inbox k ∧ (signals k' < signals k)%nat) ∨
    (1 ≤ i ≤ zlen s ∧ inbox k' = inbox k ++ take (Z.to_nat i) s ∧ (signals k' ≤ signals k)%nat) }.

Section Pair.
Context {K F T : Type} (os : kernel K).
#[local] Abbreviation W := (world K F T).
(** The two processes, with the connection of each. *)
Context (wa wb : W) (a b : Z) (ca cb : connection F).
Context (Ha : a ≠ 0) (Hca : conns wa !! a = Some ca) (Hfa : 0 ≤ conn_fd ca).
Context (Hb : b ≠ 0) (Hcb : conns wb !! b = Some cb) (Hfb : 0 ≤ conn_fd cb).
Context `{!SocketPair os (conn_fd ca) (conn_fd cb)}.

(** [Send] of one process and [Recv] of the other. The loops have a turn for each interruption and
    each byte. *)
Definition pair_box : combox K := {|
  cb_Send := λ s k,
    match Send_conn os (signals k + length s + 1) s a (wa <| kern := k |>) with
    | Some (Ok (n, w)) => (n, kern w)
    | _ => (-1, k)
    end;
  cb_Recv := λ n k,
    match Recv_conn os (signals k + 2) n b (wb <| kern := k |>) with
    | Some (Ok (r, w)) => (r, kern w)
    | _ => ((-1, []), k)
    end |}.

Lemma send_all fuel s n (w : W) :
  (signals (kern w) + length s < fuel)%nat →
  wp true (send_loop os fuel (conn_fd ca) s n)
    (λ r w', r = n + zlen s ∧ inbox (kern w') = inbox (kern w) ++ s) w.
Proof.
  revert s n w. induction fuel as [|fuel IH]; intros s n w Hf; [lia |].
  destruct s as [|x s]; cbn [send_loop]; [apply wp_ret; rewrite app_nil_r; split; [cbn; lia | done] |].
  wp_steps. apply wp_sys. pose proof (write_piece (os := os) (kern w) (x :: s)) as Hw.
  destruct (sys_write os (conn_fd ca) (x :: s) (kern w)) as [i k']. cbn [fst snd].
  destruct Hw as [(-> & He & Hi & Hsig)|(Hi & Hin & Hsig)]; [done | |].
  - change (0 <? -1) with false. cbv iota. wp_steps. unfold interrupted. cbn [kern upd]. rewrite He.
    change (EINTR =? EINTR) with true. cbv iota. eapply wp_mono; [|apply IH; cbn in *; lia].
    intros r w' [-> E]. split; [done |]. by rewrite E, <- Hi.
  - rewrite (proj2 (Z.ltb_lt 0 i)) by lia. eapply wp_mono; [|apply IH].
    + intros r w' [-> E]. split.
      * rewrite length_drop. lia.
      * rewrite E. cbn [kern upd]. rewrite Hin, <- app_assoc. by rewrite take_drop.
    + cbn [kern upd]. rewrite length_drop. lia.
Qed.

Lemma read_some fuel failed n (w : W) :
  0 < n → inbox (kern w) ≠ [] → (signals (kern w) < fuel)%nat → (∀ i, failed i = (i =? -1)) ∨ (∀ i, failed i = (i <? 0)) →
  wp true (read_retry os fuel failed (conn_fd cb) n)
    (λ r w', ∃ k', w' = w <| kern := k' |> ∧ 1 ≤ r.1 ≤ n ∧ r.1 ≤ zlen (inbox (kern w)) ∧
      r.2 = take (Z.to_nat r.1) (inbox (kern w)) ∧ inbox k' = drop (Z.to_nat r.1) (inbox (kern w))) w.
Proof.
  intros Hn Hne Hf Hfailed. unfold read_retry.
  apply (wp_retry_total _ _ _ (λ w, signals (kern w))
    (λ w', ∃ k', w' = w <| kern := k' |> ∧ inbox k' = inbox (kern w))); [done | exists (kern w); by destruct w |].
  intros w1 (k1 & -> & Ei). apply wp_sys. cbn [kern upd].
  pose proof (read_piece (os := os) k1 n Hn) as Hr. rewrite Ei in Hr. specialize (Hr Hne).
  destruct (sys_read os (conn_fd cb) n k1) as [[i bs] k']. cbn [fst snd kern upd].
  assert (Hpos : 1 ≤ i → failed i = false).
  { intros Hi. destruct Hfailed as [E|E]; rewrite E; [apply Z.eqb_neq | apply Z.ltb_ge]; lia. }
  destruct Hr as [(-> & He & Hi & Hsig)|(Hi & Hil & Hbs & Hin)].
  - assert (E : failed (-1) = true) by (destruct Hfailed as [E|E]; by rewrite E). rewrite E.
    unfold interrupted. cbn [kern upd]. rewrite He. change (EINTR =? EINTR) with true. cbn [andb].
    split; [|done]. exists k'. by split.
  - rewrite Hpos by lia. cbn [andb]. exists k'. split_and!; first [done | lia].
Qed.

Lemma recv_some n (w : W) :
  0 < n → inbox (kern w) ≠ [] → conns w !! b = Some cb →
  wp true (Recv_conn os (signals (kern w) + 2) n b)
    (λ r w', 1 ≤ r.1 ≤ n ∧ r.1 ≤ zlen (inbox (kern w)) ∧ r.2 = take (Z.to_nat r.1) (inbox (kern w)) ∧
      inbox (kern w') = drop (Z.to_nat r.1) (inbox (kern w))) w.
Proof.
  intros Hn Hne Hc. unfold Recv_conn. wp_steps. rewrite Nat.add_comm. cbn [recv_loop plus]. wp_steps.
  rewrite (proj2 (Z.eqb_neq _ _) Hb). wp_steps. rewrite (proj2 (Z.eqb_neq _ _) Hb). wp_steps.
  apply (wp_connection_of _ _ cb); [exact Hc |]. rewrite (proj2 (Z.ltb_ge _ _) Hfb). wp_steps.
  eapply wp_mono; [|apply read_some; [done | done | cbn [kern upd]; lia | by right]].
  intros r w' (k' & -> & Hr & Hl & Ebs & Ein). cbn [kern upd] in *.
  rewrite (proj2 (Z.eqb_neq _ _)) by lia. rewrite (proj2 (Z.ltb_ge _ _)) by lia. wp_steps.
  split_and!; first [done | lia].
Qed.

Lemma pair_progress (k : K) (n : Z) :
  0 < n → inbox k ≠ [] →
  ∃ i k', cb_Recv pair_box n k = ((i, take (Z.to_nat i) (inbox k)), k') ∧
    1 ≤ i ≤ n ∧ i ≤ zlen (inbox k) ∧ inbox k' = drop (Z.to_nat i) (inbox k).
Proof.
  intros Hn Hne. cbn [cb_Recv pair_box].
  destruct (wp_total _ _ _ (recv_some n (wb <| kern := k |>) Hn ltac:(exact Hne) Hcb)) as ([i bs] & w' & E & Hi & Hl & Ebs & Ein).
  cbn [kern upd fst snd] in *. rewrite E. exists i, (kern w'). by rewrite Ebs.
Qed.
#[local] Instance pair_stream : ComboxStream pair_box := {| incoming := inbox; recv_progress := pair_progress |}.
#[local] Instance pair_channel : ComboxChannel pair_box.
Proof.
  intros k s. cbn [cb_Send pair_box].
  assert (H : wp true (Send_conn os (signals k + length s + 1) s a)
    (λ r w', r = zlen s ∧ inbox (kern w') = inbox k ++ s) (wa <| kern := k |>)).
  { unfold Send_conn. rewrite (proj2 (Z.eqb_neq _ _) Ha). wp_steps.
    apply (wp_connection_of _ _ ca); [exact Hca |]. rewrite (proj2 (Z.ltb_ge _ _) Hfa).
    eapply wp_mono; [|apply send_all; cbn [kern upd]; lia]. by intros r w' [-> ->]. }
  destruct (wp_total _ _ _ H) as (n & w' & E & -> & Ein). rewrite E. by exists (kern w').
Qed.

(** C8: messages over sockets. A message that a writer fills, sent by the [Send] of a box and
    received by the [Recv] of the box it is connected to, is read as it was written, over any two
    connected sockets: whatever pieces the system cuts it into and however often its calls are
    interrupted. *)
Theorem messages_over_sockets {B : Type} `{PopTransport B} size {X A : Type}
    (w : M B X) (x : X) (r : M B A) (v : A) (buf buf0 : B) (k : K) :
  codec_within size w x r v → buffer_wf buf → length (content buf) = 20%nat → cursor buf = 20%nat →
  20 + size ≤ int_max → header_sendable (GetHeader buf) → header_ranged (GetHeader buf) → inbox k = [] →
  ∃ b1 b2 k1 b3 k2 b4, w buf = Ok (x, b1) ∧ Message.Send pair_box b1 k = Ok (true, b2, k1) ∧
    Message.Recv pair_box buf0 k1 = Ok (true, b3, k2) ∧ inbox k2 = [] ∧
    header_agree (GetHeader buf) (GetHeader b3) ∧ r b3 = Ok (v, b4) ∧ unread b4 = [].
Proof.
  intros Hw Hwf Hl Hc Hs Hh Hr Hk.
  assert (Hin0 : incoming (cb := pair_box) k = []) by exact Hk.
  destruct (message_delivered pair_box size w x r v buf buf0 k Hw Hwf Hl Hc Hs Hh Hr Hin0)
    as (b1 & b2 & k1 & b3 & k2 & b4 & E1 & E2 & E3 & Hin & _ & Ha3 & _ & E4 & U4 & _).
  by exists b1, b2, k1, b3, k2, b4.
Qed.
End Pair.

(** ** Examples *)
Module Examples.
Import Toy.

(** A client, connected. *)
Definition client_setup : list (action (T := ())) := [ACreate 0 false; AConnect (string_bytes "socket://host:2711")].
Definition client (m : mode) : world system () () :=
  (default (0, toy_world) (run (toy m) 30 client_setup 0 toy_world)).2.

Definition request : buffer_raw := SetHeader (header_request 1 2 3 None) (Reset raw_new).

(** A server that calls the broker. *)
Definition broker_world : world system () Broker.pop_broker :=
  combox_new () busy (Broker.MkBroker (Some 1) Broker.POP_STATE_RUNNING 0 0 0 [] Broker.Looping [] Broker.Free []).
Definition broker_setup : list action :=
  [ASetCallback 0 NewConnection; ASetCallback 1 CloseConnection; ACreate 2711 true].
Definition listening : Z * world system () Broker.pop_broker :=
  default (0, broker_world) (run (toy Calm) 30 broker_setup 0 broker_world).
Definition serving_now : Z * world system () Broker.pop_broker :=
  default (0, broker_world) (run (toy Calm) 30 [AWait; AReceive 4] listening.1 listening.2).
Lemma listening_reach : reach (toy Calm) listening.2 listening.1.
Proof. apply (run_reach _ 30 broker_setup 0 broker_world); [constructor |]. by vm_compute. Qed.

(** All sockets of the toy system are connected to each other. *)
#[global] Program Instance toy_pair fa fb : SocketPair (toy Noisy) fa fb := {| inbox := queue; signals := pending |}.
Next Obligation.
  intros fa fb k n Hn Hne. cbn. unfold toy_read, take_signal. destruct (pending k) as [|m] eqn:E.
  - cbn. right. assert (0 < zlen (queue k)) by (destruct (queue k); [done | cbn; lia]).
    pose proof (take_length_take (Z.to_nat (Z.min n 2)) (queue k)) as [Et Ed].
    rewrite Nat2Z.id, Et, Ed. split_and!; try done; rewrite length_take; lia.
  - left. cbn. split_and!; [done.. | lia].
Qed.
Next Obligation.
  intros fa fb k s Hs. cbn [sys_write toy]. unfold toy_write, take_signal. destruct (pending k) as [|m] eqn:E.
  - right. cbn [fst snd queue pending]. rewrite Nat2Z.id. assert (0 < zlen s) by (destruct s; [done | cbn; lia]).
    destruct (take_length_take 3 s) as [-> _]. rewrite length_take. split_and!; [lia | lia | done | lia].
  - left. cbn. split_and!; [done.. | lia].
Qed.
End Examples.

Lemma GetUrl_parsed_witness :
  ∃ url w', GetUrl (Toy.toy Toy.Calm) (string_bytes "host") Toy.toy_world = Some (Ok (url, w')) ∧
    parse_url url = Ok (Some (string_bytes "host", 2711)).
Proof.
  eexists _, _. split; [reflexivity |].
  refine (proj2 (GetUrl_parsed (Toy.toy Toy.Calm) (string_bytes "host") Toy.toy_world _ _ _ _ eq_refl)).
  - apply (bool_decide_unpack _); by vm_compute.
  - by vm_compute.
Defined.

Lemma failing_read_spins_witness : Recv_conn (Toy.toy Toy.Broken) 1000 4 1 (Examples.client Toy.Broken) = None.
Proof.
  apply (failing_read_spins (Toy.toy Toy.Broken) 4 1 (MkConnection 1 ()) (Examples.client Toy.Broken));
    [done | by vm_compute | done |].
  intros k. eexists. by split.
Defined.

Lemma stale_descriptor_witness :
  ∃ w', Recv_conn (Toy.toy Toy.Calm) 9 0 1 (Examples.client Toy.Calm) = Some (Ok ((-1, []), w')) ∧ sockfd w' = -1 ∧
    Send_conn (Toy.toy Toy.Calm) 9 ACK 1 w' = send_loop (Toy.toy Toy.Calm) 9 1 ACK 0 w'.
Proof.
  destruct (stale_descriptor (Toy.toy Toy.Calm) 0 (MkConnection 1 ()) (Examples.client Toy.Calm)
    (kern (Examples.client Toy.Calm))) with (fuel := 8%nat) as (w' & E & _ & Es & H); try by vm_compute.
  exists w'. split_and!; [exact E | exact Es | exact (H 9%nat ACK)].
Defined.

Lemma references_of_connections_witness :
  ∃ w h, serving (Toy.toy Toy.Calm) Examples.listening.2 Examples.listening.1 w h ∧
    Broker.obj (cbdata w) = Some (1 + open_connections w) ∧ open_connections w = 3.
Proof.
  exists Examples.serving_now.2, Examples.serving_now.1.
  assert (Hrun : serving (Toy.toy Toy.Calm) Examples.listening.2 Examples.listening.1
            Examples.serving_now.2 Examples.serving_now.1).
  { eapply (serving_act _ _ _ _ _ 30 (AReceive 4)); [|done |].
    - eapply (serving_act _ _ _ _ _ 30 AWait); [constructor | done | by vm_compute].
    - by vm_compute. }
  split_and!; [exact Hrun | | by vm_compute].
  apply (references_of_connections (Toy.toy Toy.Calm) 1 Examples.listening.2 Examples.listening.1
    Examples.serving_now.2 Examples.serving_now.1 Examples.listening_reach); [by vm_compute.. | exact Hrun].
Defined.

Lemma messages_over_sockets_witness :
  let box := pair_box (Toy.toy Toy.Noisy) (Examples.client Toy.Noisy) (Toy.server_state Toy.Noisy).2 1 2
               (MkConnection 1 ()) (MkConnection 2 ()) in
  ∃ b1 b2 k1 b3 k2 b4, Pack1 PInt 42 Examples.request = Ok ((), b1) ∧
    Message.Send box b1 (Toy.MkSystem [1; 2] [] [] 9 0) = Ok (true, b2, k1) ∧
    Message.Recv box raw_new k1 = Ok (true, b3, k2) ∧ UnPack1 PInt b3 = Ok (42, b4).
Proof.
  assert (Hca : conns (Examples.client Toy.Noisy) !! 1 = Some (MkConnection 1 ())) by by vm_compute.
  assert (Hcb : conns (Toy.server_state Toy.Noisy).2 !! 2 = Some (MkConnection 2 ())) by by vm_compute.
  assert (Hw : codec_within 12 (Pack1 (B := buffer_raw) PInt 42) () (UnPack1 PInt) 42) by by apply within_prim1.
  assert (Hs : header_sendable (GetHeader Examples.request)) by (intros n; eexists; reflexivity).
  destruct (Reset_ok raw_new) as (Hwf & Hcur & Hlen).
  destruct (messages_over_sockets (Toy.toy Toy.Noisy) (Examples.client Toy.Noisy) (Toy.server_state Toy.Noisy).2 1 2
    (MkConnection 1 ()) (MkConnection 2 ()) ltac:(done) Hca ltac:(done) ltac:(done) Hcb ltac:(done)
    12 (Pack1 (B := buffer_raw) PInt 42) () (UnPack1 PInt) 42 Examples.request raw_new (Toy.MkSystem [1; 2] [] [] 9 0)
    Hw Hwf Hlen Hcur ltac:(done) Hs ltac:(repeat constructor) eq_refl)
    as (b1 & b2 & k1 & b3 & k2 & b4 & E1 & E2 & E3 & _ & _ & E4 & _).
  exists b1, b2, k1, b3, k2, b4. exact (conj E1 (conj E2 (conj E3 E4))).
Defined.
