(* ===== verification/Interface.v ===== *)
(** * Interfaces

    [pop_interface] (lib/dynamic/interface.cc), the caller's end of a parallel object: how an
    interface is bound to the access point of an object, over whatever protocols the two sides have
    in common, and released; the calls of CoreCalls.v as methods; copies, assignment and marshalling
    of interfaces; the negotiation of an encoding; and which allocator starts a new object.

    An exception does not undo what was done before it: a method is a computation whose outcome is
    a value or an exception, with the state after it. The communication boxes, the allocators and
    the processes at the other end are parameters. Construction by a thread of its own
    ([_popc_async]) and the SSH tunnels are left out. *)

From S2P Require Import Prelude Machine Buffer Exceptions Message ExceptionProtocol Utils Factories.
From S2P Require Import BufferRaw AccessPoint ObjectDescription Broker Transport CoreCalls Effects Throwing.

Definition POP_BIND_BAD_REPLY : Z := USER_DEFINE_ERROR + 11.
Definition POP_NO_PROTOCOL : Z := USER_DEFINE_ERROR + 12.
Definition POP_NO_ENCODING : Z := USER_DEFINE_ERROR + 13.
Definition BIND_OK : Z := 0.
Definition BIND_FORWARD_SESSION : Z := 1.
Definition BIND_FORWARD_PERMANENT : Z := 2.

(** ** Lists of protocols and addresses *)

(** [Tokenize]. *)
Definition Tokenize (s : chars) : list chars := tokens [x20; x0a; x09] (before_nul s) [].

(** [ApplyCommPattern]: the loops over positions of the list. [insert] invalidates the iterators
    that [erase] and the next turn use. *)
Fixpoint apply_pattern (ptstr : chars) (accesslist : list chars) (headpos pos : nat) : result (option nat) :=
  match accesslist with
  | [] => Ok (Some headpos)
  | t :: accesslist' =>
      if MatchWildcard t ptstr then
        if Nat.eqb headpos pos then
          match accesslist' with
          | [] => Ok None   (* headpos is at the end: return *)
          | _ => apply_pattern ptstr accesslist' (S headpos) (S pos)
          end
        else Stuck
      else apply_pattern ptstr accesslist' headpos (S pos)
  end.
Fixpoint apply_patterns (patternlist : list chars) (accesslist : list chars) (headpos : nat) : result () :=
  match patternlist with
  | [] => Ok ()
  | ptstr :: patternlist' =>
      let! h := apply_pattern ptstr (drop headpos accesslist) headpos headpos in
      match h with
      | None => Ok ()
      | Some headpos => apply_patterns patternlist' accesslist headpos
      end
  end.
Definition ApplyCommPattern (pattern : chars) (accesslist : list chars) : result (list chars) :=
  match pattern with
  | [] => Ok accesslist
  | _ => let! _ := apply_patterns (Tokenize pattern) accesslist 0 in Ok accesslist
  end.

(** [sprintf(pattern, "%s://*", myprot)] into 1024 characters. *)
Definition protocol_pattern (myprot : chars) : result chars :=
  let pattern := myprot ++ string_bytes "://*" in
  if zlen pattern <? 1024 then Ok pattern else Stuck.

(** ** The peer named by a UDS address *)

(** "uds_<node>.<id>": the node is taken to end as many characters before the end as the point is
    from the start. *)
Definition uds_peer (address : chars) : option (result (Z * Z)) :=
  match find_str (string_bytes "uds_") address with
  | None => None
  | Some pos =>
      let node := drop (pos + 4) address in
      let '(node, id) :=
        match find_from x2e node 0 with
        | Some dot => (take (length node - dot) node, drop (S dot) node)
        | None => (node, node)
        end in
      Some (let! n := atoi node in let! i := atoi id in Ok (n, i))
  end.

(** [snprintf(local_address, 15, ".uds_%d.0", rank)]. *)
Definition local_address (rank : Z) : chars :=
  take 14 (string_bytes ".uds_" ++ decimal rank ++ string_bytes ".0").

(** The name of the protocol, copied into 256 characters. *)
Definition protocol_of (dest : chars) : result chars :=
  match find_str (string_bytes "://") dest with
  | None => Ok (string_bytes "socket")
  | Some sz => if (sz <? 256)%nat then Ok (take sz dest) else Stuck
  end.

(** ** The interface *)

(** The two directions of the connection, and the rest of the world. *)
Record env (S1 S2 H : Type) : Type := MkEnv { requests : S1; responses : S2; host : H }.
Arguments MkEnv {S1 S2 H}. Arguments requests {S1 S2 H}. Arguments responses {S1 S2 H}. Arguments host {S1 S2 H}.
#[export] Instance env_eta {S1 S2 H : Type} : Eta (env S1 S2 H) := λ e, MkEnv (requests e) (responses e) (host e).

(** A communication box is a class [C] of boxes with its buffer factory; an interface has one box
    at most. *)
Record pop_interface (B C F E : Type) : Type := MkInterface {
  accesspoint : pop_accesspoint;
  od : pop_od;
  combox : option (C * F);
  buf : option B;
  world : E }.
Arguments MkInterface {B C F E}. Arguments accesspoint {B C F E}. Arguments od {B C F E}.
Arguments combox {B C F E}. Arguments buf {B C F E}. Arguments world {B C F E}.
#[export] Instance pop_interface_eta {B C F E : Type} : Eta (pop_interface B C F E) := λ i,
  MkInterface (accesspoint i) (od i) (combox i) (buf i) (world i).

(** What a class of boxes does, seen from a client. *)
Record box_class (S1 S2 X C F : Type) : Type := {
  box_new : C → env S1 S2 X → env S1 S2 X;
  box_factory : C → F;                                  (* the default buffer factory *)
  box_create_port : C → Z → env S1 S2 X → bool * env S1 S2 X;
  box_create_address : C → chars → env S1 S2 X → bool * env S1 S2 X;
  box_connect : C → chars → env S1 S2 X → bool * env S1 S2 X;
  box_timeout : C → Z → env S1 S2 X → env S1 S2 X;
  box_out : C → Message.combox S1;
  box_in : C → Message.combox S2;
  box_ack : C → env S1 S2 X → result (bool * env S1 S2 X);   (* RecvAck *)
  box_delete : C → env S1 S2 X → env S1 S2 X;
  get_errno : env S1 S2 X → Z;
  set_errno : Z → env S1 S2 X → env S1 S2 X;
  box_serve : env S1 S2 X → result (env S1 S2 X) }.       (* the others, until the response is there *)
Arguments box_new {S1 S2 X C F}. Arguments box_factory {S1 S2 X C F}. Arguments box_create_port {S1 S2 X C F}.
Arguments box_create_address {S1 S2 X C F}. Arguments box_connect {S1 S2 X C F}. Arguments box_timeout {S1 S2 X C F}.
Arguments box_out {S1 S2 X C F}. Arguments box_in {S1 S2 X C F}. Arguments box_ack {S1 S2 X C F}.
Arguments box_delete {S1 S2 X C F}. Arguments get_errno {S1 S2 X C F}. Arguments set_errno {S1 S2 X C F}. Arguments box_serve {S1 S2 X C F}.

Section Interface.
Context {B : Type} `{PopTransport B}.
Context {F : Type} (GetBufferName : F → chars) (finder : list (@BufferFactory.slot F)) (CreateBuffer : F → B).
Context {O : Type} (object_Serialize : bool → O → M B O) (object_new : O).
Context {S1 S2 X C : Type} (boxes : box_class S1 S2 X C F).
(** [pop_combox_factory]; POPC_COMM_PATTERN; [popc_local_mpi_communicator_rank];
    [pop_bind_timeout]; [ClassName()]; [pop_system::platform]; [strerror]. *)
Context (combox_factory : list (ComboxFactory.combox_factory_struct C)).
Context (comm_pattern : option chars) (rank bind_timeout : Z) (ClassName platform : string) (strerror : Z → string).
#[local] Abbreviation E := (env S1 S2 X).
#[local] Abbreviation W := (pop_interface B C F E).
#[local] Abbreviation T := (Throws W O).

Definition pop_throw2 {A : Type} (code : Z) (r1 r2 : string) : T A :=
  tthrow (PopExc (exception_make strerror code r1 r2)).
Definition pop_throw_text {A : Type} (r : string) : T A := tthrow (PopExc (exception_reason strerror r "")).

Definition on_world {A : Type} (f : E → A * E) : T A := λ w,
  let '(a, e) := f (world w) in Some (Ok (inr a, w <| world := e |>)).
Definition the_box : T (C * F) := let^ w := tget in tneed (combox w).
Definition the_buf : T B := let^ w := tget in tneed (buf w).

(** [delete] of the box and of the buffer. *)
Definition Release : T () :=
  let^ w := tget in
  (match combox w with
   | Some (c, _) =>
       on_world (λ e, ((), box_delete boxes c e)) ;;^ tset (λ w, w <| combox := None |>)
   | None => tret ()
   end) ;;^
  tset (λ w, w <| buf := None |>).

Definition isBinded (w : W) : bool := bool_decide (is_Some (combox w) ∧ is_Some (buf w)).

(** *** Requests and responses *)
Definition send_request : T () :=
  let^ c := the_box in
  let^ b := the_buf in
  let^ w := tget in
  let^ t := tcall (Message.Send (box_out boxes c.1) b (requests (world w))) in
  tset (λ w, w <| buf := Some t.1.2 |> <| world := ((world w) <| requests := t.2 |>) |>) ;;^
  if t.1.1 then tret () else pop_throw_text "Buffer sent failed".

(** The others, while this one waits. *)
Definition serve : T () :=
  let^ w := tget in let^ e := tcall (box_serve boxes (world w)) in tset (λ w, w <| world := e |>).
Definition get_response : T () :=
  serve ;;^
  let^ c := the_box in
  let^ b := the_buf in
  let^ w := tget in
  let^ t := tcall (Message.Recv (box_in boxes c.1) b (responses (world w))) in
  tset (λ w, w <| buf := Some t.1.2 |> <| world := ((world w) <| responses := t.2 |>) |>) ;;^
  if t.1.1 then
    let^ r := tcall (CheckAndThrow object_Serialize object_new t.1.2) in
    tset (λ w, w <| buf := Some r.2 |>) ;;^
    match r.1 with None => tret () | Some x => tthrow (exc_of_thrown x) end
  else pop_throw_text "Buffer receive failed".

(** [__pop_buf->Reset(); __pop_buf->SetHeader(h)], then packing or unpacking. *)
Definition start_message (h : message_header) : T () :=
  let^ b := the_buf in tset (λ w, w <| buf := Some (SetHeader h (Reset b)) |>).
Definition on_buf {A : Type} (m : M B A) : T A :=
  let^ b := the_buf in
  let^ r := tcall (m b) in
  tset (λ w, w <| buf := Some r.2 |>) ;;^ tret r.1.

(** A synchronous call of the run-time. *)
Definition core (c : core_call) : T answer :=
  start_message (stub_header c) ;;^ on_buf (stub_args c) ;;^ send_request ;;^ get_response ;;^ on_buf (stub_result c).

(** [None]: the call could not be made. *)
Definition if_bound {A : Type} (m : T A) (other : A) : T A :=
  let^ w := tget in if isBinded w then m else tret other.
Definition BindStatus : T (option (Z * string * string)) :=
  if_bound (let^ a := core CoreCalls.BindStatus in
            tret match a with Status code p i => Some (code, p, i) | _ => None end) None.
Definition AddRef : T Z :=
  if_bound (let^ a := core CallAddRef in tret match a with RefCount n => n | _ => -1 end) (-1).
Definition DecRef : T Z :=
  if_bound (let^ a := core CallDecRef in tret match a with RefCount n => n | _ => -1 end) (-1).
Definition flag (a : answer) : bool := match a with Flag v => v | _ => false end.
Definition ObjectActive : T bool :=
  if_bound (let^ a := core CoreCalls.ObjectActive in tret (flag a)) false.
Definition Encoding (enc : string) : T bool :=
  if_bound
    match BufferFactory.FindFactory GetBufferName finder (string_bytes enc) with
    | None => tret false
    | Some fact =>
        let^ a := core (CoreCalls.Encoding enc) in
        (if flag a then
           tset (λ w, w <| buf := Some (CreateBuffer fact) |> <| combox := (λ c, (c.1, fact)) <$> combox w |>)
         else tret ()) ;;^
        tret (flag a)
    end false.
Definition RecvAck (c : C) : T () :=
  let^ w := tget in let^ r := tcall (box_ack boxes c (world w)) in tset (λ w, w <| world := r.2 |>).
(** [Kill] tests the box only. *)
Definition Kill : T () :=
  let^ w := tget in
  match combox w with
  | None => tret ()
  | Some (c, _) =>
      start_message (header_request 0 4 0 (Some "Kill")) ;;^
      send_request ;;^
      RecvAck c ;;^
      Release
  end.

(** *** Binding *)

(** Creating and connecting the box; an address of another node is replaced by that of this node,
    which is told where to. *)
Definition connect_box (c : C) (dest connect_dest : chars) : T bool :=
  match uds_peer connect_dest with
  | None =>
      let^ create_return := on_world (box_create_port boxes c 0) in
      let^ connect_return := on_world (box_connect boxes c dest) in
      tret (create_return && connect_return)
  | Some peer =>
      let^ p := tcall peer in
      if p.1 =? rank then
        let^ create_return := on_world (box_create_address boxes c connect_dest) in
        let^ connect_return := on_world (box_connect boxes c connect_dest) in
        tret (create_return && connect_return)
      else
        let^ create_return := on_world (box_create_address boxes c (local_address rank)) in
        let^ connect_return := on_world (box_connect boxes c (local_address rank)) in
        start_message (header_request 20 200002 INVOKE_SYNC (Some "_connection")) ;;^
        on_buf (Pack1 PInt p.1 ;;; Pack1 PInt p.2) ;;^
        send_request ;;^
        tret (create_return && connect_return)
  end.

(** The answer of the object; [rebind] is [Bind] of another access point. *)
Definition bind_reply (rebind : pop_accesspoint → T ()) : T () :=
  let^ st := BindStatus in
  let^ st := tneed st in
  let '(status, peerplatform, info) := st in
  if status =? BIND_OK then tret ()
  else if (status =? BIND_FORWARD_SESSION) || (status =? BIND_FORWARD_PERMANENT) then
    let^ w := tget in
    let^ old := tcall (accesspoint_copy (accesspoint w)) in
    rebind (SetAccessString info accesspoint_new) ;;^
    if status =? BIND_FORWARD_SESSION then
      let^ w := tget in
      let^ p := tcall (accesspoint_assign (accesspoint w) old) in
      tset (λ w, w <| accesspoint := p |>)
    else tret ()
  else Release ;;^ pop_throw2 POP_BIND_BAD_REPLY "Bad reply in interface" ClassName.

(** [Bind(const char* dest)]. *)
Definition Bind_url (rebind : pop_accesspoint → T ()) (dest : chars) : T () :=
  Release ;;^
  if bool_decide (dest = []) then tret ()
  else
    let^ prot := tcall (protocol_of dest) in
    match ComboxFactory.Create (Some prot) combox_factory with
    | None => pop_throw2 POP_NO_PROTOCOL ClassName "Cannot create combox from factory"
    | Some c =>
        on_world (λ e, ((), box_new boxes c e)) ;;^
        tset (λ w, w <| combox := Some (c, box_factory boxes c) |>) ;;^
        tset (λ w, w <| buf := Some (CreateBuffer (box_factory boxes c)) |>) ;;^
        on_world (λ e, ((), box_timeout boxes c bind_timeout e)) ;;^
        if (length dest <? 6)%nat then tthrow (LogicError "basic_string::substr")
        else
          let^ connected := connect_box c dest (drop 6 dest) in
          (if (connected : bool) then bind_reply rebind
           else
             let^ w := tget in
             let code := get_errno boxes (world w) in
             Release ;;^
             pop_throw2 code "Cannot create or connect return for combox" "Fail to connect from ... to ...") ;;^
          let^ c := the_box in
          on_world (λ e, ((), box_timeout boxes c.1 (-1) e))
    end.

(** The handler of a failed attempt: [e.what()] sets [errno]. *)
Definition attempt (m : T ()) : T bool :=
  let^ failed := tcatch m (λ x,
    match x with
    | PopExc e => on_world (λ w, ((), set_errno boxes (exc_code e) w))
    | _ => tret ()
    end) in
  tret (negb failed).

(** The addresses [Bind] tries: all of them, or for each preferred protocol those of it. *)
Definition try_addresses (bind : chars → T ()) (pref accesslist : list chars) : T bool :=
  match pref with
  | [] => first_of (λ addr, attempt (bind addr)) accesslist
  | _ =>
      first_of (λ myprot,
        first_of (λ addr,
          let^ pattern := tcall (protocol_pattern myprot) in
          if MatchWildcard addr pattern then attempt (bind addr) else tret false) accesslist) pref
  end.

(** [Bind(const pop_accesspoint& dest)]. *)
Fixpoint Bind (fuel : nat) (dest : pop_accesspoint) : T () :=
  match fuel with
  | 0%nat => out_of_fuel
  | S fuel' =>
      if ap_IsEmpty dest then Release
      else
        let^ w := tget in
        let^ p := tcall (accesspoint_assign (accesspoint w) dest) in
        tset (λ w, w <| accesspoint := p |>) ;;^
        let^ accesslist := tcall (ApplyCommPattern (default [] comm_pattern) (Tokenize (string_bytes (GetAccessString dest)))) in
        let^ bound := try_addresses (Bind_url (Bind fuel')) (Tokenize (string_bytes (proto (od w)))) accesslist in
        if (bound : bool) then tret () else pop_throw2 OBJECT_BIND_FAIL ClassName "Cannot find suitable protocol"
  end.

(** *** Constructors, copies, marshalling *)

(** The members before the body of a constructor; [pop_interface()]. *)
Definition interface_init (o : pop_od) (e : E) : W := MkInterface accesspoint_new o None None e.
Definition interface_new (o : pop_od) (e : E) : W :=
  let w := interface_init o e in
  if secureSet o then w <| accesspoint := SetSecure (accesspoint w) |> else w.

(** [pop_interface(const pop_accesspoint&)]. *)
Definition interface_of (fuel : nat) (p : pop_accesspoint) : T () :=
  let^ serv := tcall (IsService p) in
  (if (serv : bool) then tset (λ w, w <| accesspoint := SetAsService (accesspoint w) |>) else tret ()) ;;^
  (if ap_IsEmpty p then tret () else Bind fuel p) ;;^
  let^ noaddref := tcall (GetNoAddRef p) in
  if (noaddref : bool) then DecRef ;;^ tret () else tret ().

(** [pop_interface(const pop_interface&)], with the access point of the other. *)
Definition interface_copy (fuel : nat) (inf : pop_accesspoint) : T () :=
  let^ infAP := tcall (accesspoint_copy inf) in
  (if IsSecure infAP then tset (λ w, w <| accesspoint := SetSecure (accesspoint w) |>) else tret ()) ;;^
  let^ serv := tcall (IsService infAP) in
  (if (serv : bool) then tset (λ w, w <| accesspoint := SetAsService (accesspoint w) |>) else tret ()) ;;^
  Bind fuel inf.

(** [operator=]. *)
Definition interface_assign (fuel : nat) (inf : pop_accesspoint) : T () :=
  Release ;;^
  let^ w := tget in
  let^ p := tcall (accesspoint_assign (accesspoint w) inf) in
  tset (λ w, w <| accesspoint := p |>) ;;^
  Bind fuel p.

Definition SetOD (myod : pop_od) : T () := tset (λ w, w <| od := od_assign (od w) myod |>).
Definition GetAccessPointForThis : T pop_accesspoint :=
  tset (λ w, w <| accesspoint := SetNoAddRef (accesspoint w) |>) ;;^ let^ w := tget in tret (accesspoint w).

(** [Serialize] into or from the buffer [x], which is the interface's own when [own]: the calls
    then have another one. *)
Definition Serialize (fuel : nat) (pack own : bool) (x : B) : T B :=
  let^ w := tget in
  let^ r := tcall (od_Serialize pack (od w) x) in
  tset (λ w, w <| od := r.1 |>) ;;^
  let^ w := tget in
  let^ r := tcall (accesspoint_Serialize pack (accesspoint w) r.2) in
  tset (λ w, w <| accesspoint := r.1 |>) ;;^
  (if own then let^ c := the_box in tset (λ w, w <| buf := Some (CreateBuffer c.2) |>) else tret ()) ;;^
  let^ x :=
    if pack then
      let^ ref := AddRef in
      let^ r := tcall (Pack1 PInt ref r.2) in tret r.2
    else
      let^ r := tcall (UnPack1 PInt r.2) in
      let^ w := tget in
      (if 0 <? r.1 then Bind fuel (accesspoint w) ;;^ DecRef ;;^ tret () else tret ()) ;;^
      tret r.2 in
  (if own then tset (λ w, w <| buf := Some x |>) else tret ()) ;;^
  tret x.

(** *** The encoding of the messages *)

(** An encoding the peer offers, in [NegotiateEncoding]: [raw] is only for the same platform. *)
Definition accept_encoding (israw : chars → bool) (peerplatform : string) (cur_enc : chars) (enc : chars) : T bool :=
  if israw enc && negb (isEqual (Some (string_bytes peerplatform)) (Some (string_bytes platform))) then tret false
  else if isncaseEqual enc cur_enc then tret true
  else Encoding (bytes_string enc).

Definition NegotiateEncoding (enclist peerplatform : string) : T () :=
  let^ w := tget in
  let enc_pref := Tokenize (string_bytes (encode (od w))) in
  let enc_avail := Tokenize (string_bytes enclist) in
  let^ c := the_box in
  let cur_enc := GetBufferName c.2 in
  let^ ok :=
    match enc_pref with
    | [] => first_of (accept_encoding (λ enc, MatchWildcard enc (string_bytes "raw*")) peerplatform cur_enc) enc_avail
    | _ =>
        first_of (λ test,
          first_of (λ enc,
            if MatchWildcard enc test
            then accept_encoding (λ enc, isncaseEqual enc (string_bytes "raw")) peerplatform cur_enc enc
            else tret false) enc_avail) enc_pref
    end in
  if (ok : bool) then tret () else pop_throw2 POP_NO_ENCODING ClassName "NegociateEncoding failed".

(** *** Starting an object *)
Inductive pop_allocator : Type := UdsLocal | TcpLocal | TcpSsh.

(** The allocators; [AppCoreService::GetPOPCAppID]; POP_DEFAULT_PROTOCOL. *)
Context (allocate : pop_allocator → string → pop_od → E → (exc O + string) * E).
Context (GetPOPCAppID : E → (exc O + ()) * E) (default_protocol : string).

Definition on_world_throwing {A : Type} (f : E → (exc O + A) * E) : T A :=
  let^ r := on_world f in match r with inl x => tthrow x | inr a => tret a end.

(** The allocator of a description; an unknown protocol has none. *)
Definition choose_allocator (o : pop_od) : option pop_allocator :=
  let protocol := if decide (proto o = "") then default_protocol else proto o in
  if decide (protocol = "uds") then Some UdsLocal
  else if decide (protocol = "socket") then
    Some (if isLocalJob o || negb (bool_decide (hostname o = "")) || negb (bool_decide (batchSystem o = ""))
          then TcpLocal else TcpSsh)
  else None.

Definition allocate_only : T () :=
  Release ;;^
  let^ w := tget in
  let^ allocator :=
    match choose_allocator (od w) with
    | Some TcpSsh => on_world_throwing GetPOPCAppID ;;^ tret TcpSsh
    | Some a => tret a
    | None => undefined   (* a call through a null pointer *)
    end in
  let^ objectaddress := on_world_throwing (allocate allocator ClassName (od w)) in
  tset (λ w, w <| accesspoint := SetAccessString (c_str objectaddress) (accesspoint w) |>).

Definition Allocate (fuel : nat) : T () :=
  allocate_only ;;^
  let^ w := tget in
  (if secureSet (od w) then tset (λ w, w <| accesspoint := SetSecure (accesspoint w) |>) else tret ()) ;;^
  (if serviceSet (od w) then tset (λ w, w <| accesspoint := SetAsService (accesspoint w) |>) else tret ()) ;;^
  let^ w := tget in
  Bind fuel (accesspoint w).
End Interface.

(** ** Which address is tried *)
Section Candidates.
Context {B C F S1 S2 X O : Type} (boxes : box_class S1 S2 X C F).
#[local] Abbreviation W := (pop_interface B C F (env S1 S2 X)).

(** The addresses in the order of preference. *)
Definition of_protocol (accesslist : list chars) (myprot : chars) : list chars :=
  filter (λ addr, MatchWildcard addr (myprot ++ string_bytes "://*") = true) accesslist.
Definition candidates (pref accesslist : list chars) : list chars :=
  match pref with [] => accesslist | _ => concat (of_protocol accesslist <$> pref) end.

(** What an exception leaves to the next attempt. *)
Definition after_failure (x : exc O) (w : W) : W :=
  match x with PopExc e => w <| world := set_errno boxes (exc_code e) (world w) |> | _ => w end.

(** One after the other, until one of them is bound. *)
Inductive tried (bind : chars → Throws W O ()) : list chars → W → bool → W → Prop :=
  | tried_none w : tried bind [] w false w
  | tried_bound addr l w w' :
      bind addr w = Some (Ok (inr (), w')) → tried bind (addr :: l) w true w'
  | tried_next addr l w x w1 b w' :
      bind addr w = Some (Ok (inl x, w1)) → is_std x = true → tried bind l (after_failure x w1) b w' →
      tried bind (addr :: l) w b w'.

Lemma first_of_app {W' I A : Type} (f : A → Throws W' I bool) l l' w :
  first_of f (l ++ l') w = tbind (first_of f l) (λ b : bool, if b then tret true else first_of f l') w.
Proof.
  revert w. induction l as [|a l IH]; intros w; [done |]. cbn [first_of app].
  unfold tbind, bind. destruct (f a w) as [[[[x|[]] w1]|c i|]|]; try done; apply IH.
Qed.

Lemma first_of_filter {W' I A : Type} (P : A → Prop) `{∀ a, Decision (P a)} (f : A → Throws W' I bool) l w :
  first_of (λ a, if decide (P a) then f a else tret false) l w = first_of f (filter P l) w.
Proof.
  revert w. induction l as [|a l IH]; intros w; [done |]. rewrite filter_cons. cbn [first_of].
  destruct (decide (P a)); cbn [first_of]; unfold tbind, bind.
  - destruct (f a w) as [[[[x|[]] w1]|c i|]|]; try done; apply IH.
  - apply IH.
Qed.

Lemma first_of_ext {W' I A : Type} (f g : A → Throws W' I bool) l :
  (∀ a, a ∈ l → ∀ w, f a w = g a w) → ∀ w, first_of f l w = first_of g l w.
Proof.
  intros Hfg. induction l as [|a l IH]; intros w; [done |]. cbn [first_of]. unfold tbind, bind.
  rewrite Hfg by (apply list_elem_of_here). destruct (g a w) as [[[[x|[]] w1]|c i|]|]; try done; apply IH.
  intros b Hb. apply Hfg. by apply list_elem_of_further.
Qed.

Lemma first_of_concat {W' I A A' : Type} (f : A → Throws W' I bool) (h : A' → list A) l w :
  first_of (λ p, first_of f (h p)) l w = first_of f (concat (h <$> l)) w.
Proof.
  revert w. induction l as [|p l IH]; intros w; [done |]. cbn [first_of fmap list_fmap concat].
  rewrite first_of_app. unfold tbind, bind. destruct (first_of f (h p) w) as [[[[x|[]] w1]|c i|]|]; try done; apply IH.
Qed.

Lemma first_of_tried (bind : chars → Throws W O ()) l w b w' :
  first_of (λ addr, attempt boxes (bind addr)) l w = Some (Ok (inr b, w')) ↔ tried bind l w b w'.
Proof.
  split.
  - revert w. induction l as [|addr l IH]; intros w E; [injection E as <- <-; constructor |].
    cbn [first_of] in E. unfold attempt, tcatch, tbind in E. unfold Effects.bind in E.
    destruct (bind addr w) as [[[[x|[]] w1]|c i|]|] eqn:Eb; try done.
    + destruct (is_std x) eqn:Ex; [|done]. eapply tried_next; [done | done |].
      destruct x as [e|what|t]; [| |done]; apply IH; exact E.
    + injection E as <- <-. by apply tried_bound.
  - induction 1 as [w|addr l w w' Eb|addr l w x w1 b w' Eb Ex _ IH]; [done | |];
      cbn [first_of]; unfold attempt, tcatch, tbind, Effects.bind; rewrite Eb; [done |].
    rewrite Ex. by destruct x.
Qed.

(** C24: the addresses an interface tries. With preferred protocols (short enough for the buffer
    their pattern is printed to), the two loops of [Bind] are one pass over the addresses in the
    order of preference: each that fails with a standard exception is followed by the next, and
    the first that is bound is the last that is tried. *)
Theorem Bind_tries_in_order (bind : chars → Throws W O ()) pref accesslist w b w' :
  Forall (λ p, zlen p < 1020) pref →
  try_addresses boxes bind pref accesslist w = Some (Ok (inr b, w')) ↔
  tried bind (candidates pref accesslist) w b w'.
Proof.
  intros Hp. rewrite <- first_of_tried. unfold try_addresses, candidates.
  destruct pref as [|p0 pref0]; [done |]. set (pref := p0 :: pref0) in *. rewrite <- first_of_concat.
  match goal with |- ?x = _ ↔ ?y = _ => enough (E : x = y) by (by rewrite E) end.
  apply first_of_ext. intros p Hin w1. rewrite Forall_forall in Hp. specialize (Hp p Hin).
  unfold of_protocol. rewrite <- first_of_filter. apply first_of_ext. intros addr _ w2. unfold protocol_pattern.
  rewrite (proj2 (Z.ltb_lt _ _)) by (rewrite length_app; cbn; lia). unfold tcall, tbind, Effects.bind, tret, ret.
  destruct (MatchWildcard _ _); case_decide; done.
Qed.
End Candidates.

(** ** The node a UDS address names *)

Lemma find_from_digits s t :
  Forall (λ c, isdigit c = true) s → find_from x2e (s ++ x2e :: t) 0 = Some (length s).
Proof.
  induction 1 as [|c s Hc Hs IH]; cbn [find_from app length]; [by rewrite decide_True |].
  rewrite decide_False by (intros ->; discriminate Hc). by rewrite IH.
Qed.

(** Ten digits are enough for an [int]. *)
Lemma decimal_spec n :
  0 ≤ n ≤ int_max → Forall (λ c, isdigit c = true) (decimal n) ∧ decimal n ≠ [] ∧ digits_value 0 (decimal n) = n.
Proof.
  intros Hn. unfold decimal. rewrite (proj2 (Z.ltb_ge _ _)) by lia. unfold int_max in Hn.
  destruct (digits_of_spec 10 n []) as (s & -> & Hs & Hv & Hne & _); [simpl; lia |].
  rewrite app_nil_r. split_and!; [done | apply Hne; lia | done].
Qed.

(** The node of a UDS address. Of an address ".uds_<node>.<id>" the identifier is read right, and
    of the node no more digits than one more than the identifier has: a node with more digits is
    taken for another one. *)
Theorem uds_node_cut node id :
  0 ≤ node ≤ int_max → 0 ≤ id ≤ int_max →
  ∃ n, uds_peer (string_bytes ".uds_" ++ decimal node ++ x2e :: decimal id) = Some (Ok (n, id)) ∧
    (n = node ↔ (length (decimal node) ≤ S (length (decimal id)))%nat).
Proof.
  intros Hn Hi. destruct (decimal_spec node Hn) as (Dn & Nn & Vn). destruct (decimal_spec id Hi) as (Di & Ni & Vi).
  set (k := S (length (decimal id))). exists (digits_value 0 (take k (decimal node))).
  assert (Dk : Forall (λ c, isdigit c = true) (take k (decimal node))) by by apply Forall_take.
  assert (Dr : Forall (λ c, isdigit c = true) (drop k (decimal node))) by by apply Forall_drop.
  assert (Ek : node = digits_value 0 (take k (decimal node)) * 10 ^ zlen (drop k (decimal node)) +
                      digits_value 0 (drop k (decimal node))).
  { rewrite <- digits_value_scale, <- digits_value_app, take_drop by done. done. }
  pose proof (digits_value_nonneg _ Dk) as Pk. pose proof (digits_value_nonneg _ Dr) as Pr.
  assert (Hle : digits_value 0 (take k (decimal node)) ≤ node).
  { rewrite Ek at 2. pose proof (Z.pow_pos_nonneg 10 (zlen (drop k (decimal node)))). nia. }
  split.
  - unfold uds_peer.
    change (find_str (string_bytes "uds_") (string_bytes ".uds_" ++ decimal node ++ x2e :: decimal id)) with (Some 1%nat).
    cbv beta iota.
    change (drop (1 + 4) (string_bytes ".uds_" ++ decimal node ++ x2e :: decimal id)) with (decimal node ++ x2e :: decimal id).
    rewrite find_from_digits by done.
    replace (drop (S (length (decimal node))) (decimal node ++ x2e :: decimal id)) with (decimal id)
      by (by rewrite drop_app_ge, Nat.sub_succ_l, Nat.sub_diag by lia).
    rewrite length_app. cbn [length]. replace (length (decimal node) + S (length (decimal id)) - length (decimal node))%nat with k by lia.
    rewrite take_app. unfold int_max in *.
    rewrite (atoi_prefix _ _ (digits_value 0 (take k (decimal node)))); [| done | | | done | apply in_sint32; lia].
    + rewrite (atoi_digits _ id); [done | done | done | done | apply in_sint32; lia].
    + destruct (decimal node); done.
    + by destruct (k - length (decimal node))%nat.
  - split; [|intros Hk; by rewrite take_ge].
    intros Eq. destruct (decide (length (decimal node) ≤ k)%nat) as [|Hlong]; [done | exfalso].
    assert (Hl : 1 ≤ zlen (drop k (decimal node))) by (rewrite length_drop; lia).
    assert (H10 : 10 ≤ 10 ^ zlen (drop k (decimal node))).
    { change 10 with (10 ^ 1) at 1. apply Z.pow_le_mono_r; lia. }
    rewrite Eq in Ek. revert Ek Pr H10. generalize (10 ^ zlen (drop k (decimal node))), (digits_value 0 (drop k (decimal node))).
    intros p v Ek Pr H10. assert (node = 0) as -> by nia. apply Hlong. unfold k.
    change (length (decimal 0)) with 1%nat. lia.
Qed.

Lemma uds_node_cut_witness :
  ∃ n, uds_peer (string_bytes ".uds_123.4") = Some (Ok (n, 4)) ∧ n ≠ 123.
Proof.
  destruct (uds_node_cut 123 4) as (n & E & H); [by vm_compute | by vm_compute |].
  exists n. split; [exact E |]. intros ->. apply proj1 in H. specialize (H eq_refl). vm_compute in H. lia.
Defined.

(** ** Preferred patterns of addresses *)

Definition matching (p : chars) (t : chars) : Prop := MatchWildcard t p = true.
#[export] Instance matching_dec p t : Decision (matching p t) := bool_eq_dec _ _.
(** The addresses that match come first already. *)
Definition in_front (p : chars) (l : list chars) : Prop :=
  ∃ l1 l2, l = l1 ++ l2 ∧ Forall (matching p) l1 ∧ Forall (λ t, ¬ matching p t) l2.

(** Behind an address that does not match, none may. *)
Lemma apply_pattern_behind p l h pos :
  (h < pos)%nat → apply_pattern p l h pos = if decide (Exists (matching p) l) then Stuck else Ok (Some h).
Proof.
  revert pos. induction l as [|t l IH]; intros pos Hh; cbn [apply_pattern].
  { rewrite decide_False; [done |]. by intros ?%Exists_nil. }
  destruct (MatchWildcard t p) eqn:E.
  - rewrite (proj2 (Nat.eqb_neq h pos)) by lia. rewrite decide_True; [done |]. apply Exists_cons. by left.
  - rewrite IH by lia. apply decide_ext. rewrite Exists_cons. unfold matching at 2. rewrite E. split; [by right | by intros [|]].
Qed.

Lemma apply_pattern_ok p l h :
  (∃ r, apply_pattern p l h h = Ok r) ∧ in_front p l ∨ apply_pattern p l h h = Stuck ∧ ¬ in_front p l.
Proof.
  revert h. induction l as [|t l IH]; intros h; cbn [apply_pattern].
  { left. split; [by eexists |]. exists [], []. by split_and!. }
  destruct (MatchWildcard t p) eqn:E.
  - rewrite Nat.eqb_refl. assert (Ht : in_front p l ↔ in_front p (t :: l)).
    { split.
      - intros (l1 & l2 & -> & H1 & H2). exists (t :: l1), l2. split_and!; [done | by constructor | done].
      - intros ([|t' l1] & l2 & El & H1 & H2); cbn in El.
        + subst l2. by apply Forall_cons in H2 as [[] _].
        + injection El as -> ->. apply Forall_cons in H1 as [_ H1]. by exists l1, l2. }
    destruct l as [|u l].
    + left. split; [by eexists |]. apply Ht. exists [], []. by split_and!.
    + rewrite <- Ht. apply IH.
  - rewrite apply_pattern_behind by lia. destruct (decide (Exists (matching p) l)) as [He|He].
    + right. split; [done |]. intros (l1 & l2 & El & H1 & H2). destruct l1 as [|t' l1]; cbn in El.
      * subst l2. apply Forall_cons in H2 as [_ H2]. apply Exists_exists in He as (u & Hu & Hm).
        rewrite Forall_forall in H2. by apply (H2 u).
      * injection El as -> ->. apply Forall_cons in H1 as [H1 _]. unfold matching in H1. congruence.
    + left. split; [by eexists |]. exists [], (t :: l). split_and!; [done | done |]. constructor.
      * unfold matching. by rewrite E.
      * by apply not_Exists_Forall in He; [|intros u; apply _].
Qed.

(** The preferred pattern of addresses cannot prefer anything. With one pattern, the list of
    addresses is either left as it is, which is when the addresses that match are in front of the
    others already, or it is modified through an iterator that is invalid. *)
Theorem ApplyCommPattern_no_effect pattern p accesslist :
  Tokenize pattern = [p] →
  ApplyCommPattern pattern accesslist = Ok accesslist ∧ in_front p accesslist ∨
  ApplyCommPattern pattern accesslist = Stuck ∧ ¬ in_front p accesslist.
Proof.
  intros Hp. unfold ApplyCommPattern. destruct pattern as [|c pattern]; [done |]. rewrite Hp.
  cbn [apply_patterns]. rewrite drop_0.
  destruct (apply_pattern_ok p accesslist 0) as [[[r Hr] Hf]|[Hr Hf]]; rewrite Hr; [left | right]; [|done].
  split; [|done]. by destruct r.
Qed.

Lemma ApplyCommPattern_no_effect_witness :
  ApplyCommPattern (string_bytes "socket://*") [string_bytes "uds://.uds_0.1"; string_bytes "socket://host:1"] = Stuck.
Proof.
  destruct (ApplyCommPattern_no_effect (string_bytes "socket://*") (string_bytes "socket://*")
    [string_bytes "uds://.uds_0.1"; string_bytes "socket://host:1"]) as [[_ (l1 & l2 & El & H1 & H2)]|[E _]];
    [by vm_compute | | exact E].
  exfalso. destruct l1 as [|t l1]; cbn in El.
  - subst l2. apply Forall_cons in H2 as [_ H2]. apply Forall_cons in H2 as [H2 _]. apply H2. by vm_compute.
  - injection El as <- _. apply Forall_cons in H1 as [H1 _]. vm_compute in H1. discriminate H1.
Defined.

(** ** No box is lost

    How many boxes there are is counted; an interface then has its box or none, and its buffer with
    it, after everything it does, however it ends. *)
Section Balance.
Context {B : Type} `{PopTransport B}.
Context {F : Type} (GetBufferName : F → chars) (finder : list (@BufferFactory.slot F)) (CreateBuffer : F → B).
Context {O : Type} (object_Serialize : bool → O → M B O) (object_new : O).
Context {S1 S2 X C : Type} (boxes : box_class S1 S2 X C F).
Context (combox_factory : list (ComboxFactory.combox_factory_struct C)).
Context (comm_pattern : option chars) (rank bind_timeout : Z) (ClassName platform : string) (strerror : Z → string).
#[local] Abbreviation E := (env S1 S2 X).
#[local] Abbreviation W := (pop_interface B C F E).

(** [live_boxes] of the world: what creates and deletes boxes says so, the rest leaves it. *)
Class BoxCount (live_boxes : E → Z) := {
  count_new c e : live_boxes (box_new boxes c e) = live_boxes e + 1;
  count_delete c e : live_boxes (box_delete boxes c e) = live_boxes e - 1;
  count_create_port c p e : live_boxes (box_create_port boxes c p e).2 = live_boxes e;
  count_create_address c a e : live_boxes (box_create_address boxes c a e).2 = live_boxes e;
  count_connect c d e : live_boxes (box_connect boxes c d e).2 = live_boxes e;
  count_timeout c t e : live_boxes (box_timeout boxes c t e) = live_boxes e;
  count_ack c e r : box_ack boxes c e = Ok r → live_boxes r.2 = live_boxes e;
  count_errno z e : live_boxes (set_errno boxes z e) = live_boxes e;
  count_serve e e' : box_serve boxes e = Ok e' → live_boxes e' = live_boxes e;
  count_streams e s1 s2 : live_boxes (MkEnv s1 s2 (host e)) = live_boxes e }.

Context (live_boxes : E → Z) `{!BoxCount live_boxes}.

(** *** Every method, in any order *)
Context (allocate : pop_allocator → string → pop_od → E → (exc O + string) * E).
Context (GetPOPCAppID : E → (exc O + ()) * E) (default_protocol : string).
Context (count_allocate : ∀ a n o e, live_boxes (allocate a n o e).2 = live_boxes e).
Context (count_appid : ∀ e, live_boxes (GetPOPCAppID e).2 = live_boxes e).

Inductive method : Type :=
  | MBind (p : pop_accesspoint)
  | MInterface (p : pop_accesspoint)   (* the bodies of the constructors *)
  | MCopy (inf : pop_accesspoint)
  | MAssign (inf : pop_accesspoint)
  | MSerialize (pack : bool) (x : B)
  | MSetOD (o : pop_od)
  | MAllocate | MRelease | MBindStatus | MAddRef | MDecRef | MObjectActive | MKill
  | MEncoding (enc : string)
  | MNegotiate (enclist peerplatform : string).

Definition ignore {A : Type} (m : Throws W O A) : Throws W O () := m ;;^ tret ().
Definition perform (fuel : nat) (m : method) : Throws W O () :=
  match m with
  | MBind p => Bind CreateBuffer object_Serialize object_new boxes combox_factory comm_pattern rank bind_timeout ClassName strerror fuel p
  | MInterface p => interface_of CreateBuffer object_Serialize object_new boxes combox_factory comm_pattern rank bind_timeout ClassName strerror fuel p
  | MCopy p => interface_copy CreateBuffer object_Serialize object_new boxes combox_factory comm_pattern rank bind_timeout ClassName strerror fuel p
  | MAssign p => interface_assign CreateBuffer object_Serialize object_new boxes combox_factory comm_pattern rank bind_timeout ClassName strerror fuel p
  | MSerialize pack x => ignore (Serialize CreateBuffer object_Serialize object_new boxes combox_factory comm_pattern rank bind_timeout ClassName strerror fuel pack false x)
  | MSetOD o => SetOD o
  | MAllocate => Allocate CreateBuffer object_Serialize object_new boxes combox_factory comm_pattern rank bind_timeout ClassName strerror allocate GetPOPCAppID default_protocol fuel
  | MRelease => Release boxes
  | MBindStatus => ignore (BindStatus object_Serialize object_new boxes strerror)
  | MAddRef => ignore (AddRef object_Serialize object_new boxes strerror)
  | MDecRef => ignore (DecRef object_Serialize object_new boxes strerror)
  | MObjectActive => ignore (ObjectActive object_Serialize object_new boxes strerror)
  | MKill => Kill boxes strerror
  | MEncoding enc => ignore (Encoding GetBufferName finder CreateBuffer object_Serialize object_new boxes strerror enc)
  | MNegotiate l p => NegotiateEncoding GetBufferName finder CreateBuffer object_Serialize object_new boxes ClassName platform strerror l p
  end.

(** The states of an interface, whatever its methods returned or threw. *)
Inductive lives : W → W → Prop :=
  | lives_refl w : lives w w
  | lives_step w w1 fuel m r w2 : lives w w1 → perform fuel m w1 = Some (Ok (r, w2)) → lives w w2.

(** Without a box, or with one and a buffer, [base] boxes being of others. *)
Section Counting.
Context (base : Z).
Definition unbound (w : W) : Prop := combox w = None ∧ buf w = None ∧ live_boxes (world w) = base.
Definition bound (w : W) : Prop := is_Some (combox w) ∧ is_Some (buf w) ∧ live_boxes (world w) = base + 1.
Definition balanced (w : W) : Prop := unbound w ∨ bound w.

Lemma leads_world {A : Type} (P : W → Prop) (f : E → A * E) :
  (∀ w e, P w → live_boxes e = live_boxes (world w) → P (w <| world := e |>)) →
  (∀ e, live_boxes (f e).2 = live_boxes e) → leads (I := O) P P (on_world f).
Proof.
  intros HP Hf w r w' Hw Er. unfold on_world in Er. pose proof (Hf (world w)) as Hc.
  destruct (f (world w)) as [a e]. injection Er as <- <-. by apply HP.
Qed.
Lemma bound_world w e : bound w → live_boxes e = live_boxes (world w) → bound (w <| world := e |>).
Proof. intros (? & ? & Hl) Ee. split_and!; [done | done |]. cbn. by rewrite Ee. Qed.

(** *** With a box *)
#[local] Abbreviation stays m := (leads (I := O) bound bound m).

Lemma stays_world {A : Type} (f : E → A * E) : (∀ e, live_boxes (f e).2 = live_boxes e) → stays (on_world f).
Proof. intros Hf. apply leads_world; [apply bound_world | done]. Qed.
Lemma stays_buf (g : W → B) : stays (tset (λ w, w <| buf := Some (g w) |>)).
Proof. apply leads_set. intros w (? & ? & ?). by split_and!. Qed.
Lemma stays_buf_world (g : W → B) (h : E → E) :
  (∀ e, live_boxes (h e) = live_boxes e) → stays (tset (λ w, w <| buf := Some (g w) |> <| world := h (world w) |>)).
Proof. intros Hh. apply leads_set. intros w (? & ? & ?). split_and!; [done | done |]. cbn. by rewrite Hh. Qed.
Lemma stays_the_box : stays the_box.
Proof. apply leads_seq; [apply leads_get | intros w; apply leads_need]. Qed.
Lemma stays_the_buf : stays the_buf.
Proof. apply leads_seq; [apply leads_get | intros w; apply leads_need]. Qed.
Lemma stays_accesspoint (g : W → pop_accesspoint) : stays (tset (λ w, w <| accesspoint := g w |>)).
Proof. apply leads_set. intros w (? & ? & ?). by split_and!. Qed.

Lemma leads_throw2 {A : Type} P code r1 r2 : leads (A := A) P P (pop_throw2 (O := O) (F := F) strerror code r1 r2 : Throws W O A).
Proof. apply leads_throw. Qed.
Lemma leads_throw_text {A : Type} P r : leads (A := A) P P (pop_throw_text strerror r : Throws W O A).
Proof. apply leads_throw. Qed.
#[local] Hint Resolve leads_throw2 leads_throw_text stays_the_box stays_the_buf stays_buf stays_accesspoint : leads.

Lemma stays_send_request : stays (send_request boxes strerror).
Proof.
  unfold send_request. leads_steps. apply stays_buf_world. intros e. apply count_streams.
Qed.
(** A step of the others. *)
Lemma stays_others {A : Type} (f : E → result A) (g : A → E) :
  (∀ e a, f e = Ok a → live_boxes (g a) = live_boxes e) →
  stays (let^ w := tget in let^ a := tcall (f (world w)) in tset (λ w, w <| world := g a |>)).
Proof.
  intros Hf w r w' Hw Er. unfold tbind, bind, tget, get, ret, tcall in Er. cbn in Er.
  destruct (f (world w)) as [a|c i|] eqn:Ef; [|by injection Er as <- <- | done].
  injection Er as <- <-. apply bound_world; [done |]. by apply Hf.
Qed.
Lemma stays_serve : stays (serve boxes).
Proof. apply (stays_others (box_serve boxes) id). apply count_serve. Qed.
Lemma stays_ack c : stays (RecvAck boxes c).
Proof. apply (stays_others (box_ack boxes c) snd). intros e a. apply count_ack. Qed.
#[local] Hint Resolve stays_send_request stays_serve stays_ack : leads.

Lemma stays_get_response : stays (get_response object_Serialize object_new boxes strerror).
Proof. unfold get_response. leads_steps. apply stays_buf_world. intros e. apply count_streams. Qed.
Lemma stays_start_message h : stays (start_message h).
Proof. unfold start_message. leads_steps. Qed.
Lemma stays_on_buf {A : Type} (m : M B A) : stays (on_buf m).
Proof. unfold on_buf. leads_steps. Qed.
#[local] Hint Resolve stays_get_response stays_start_message stays_on_buf : leads.
Lemma stays_core c : stays (core object_Serialize object_new boxes strerror c).
Proof. unfold core. leads_steps. Qed.
#[local] Hint Resolve stays_core : leads.

(** *** With or without *)
#[local] Abbreviation fair m := (leads (I := O) balanced balanced m).

Lemma bound_balanced w : bound w → balanced w.
Proof. by right. Qed.
Lemma unbound_balanced w : unbound w → balanced w.
Proof. by left. Qed.
Lemma fair_Release : leads (I := O) balanced unbound (Release boxes).
Proof.
  intros w r w' Hw Er. unfold Release, tbind, bind, tget, get, ret, on_world, tset in Er. cbn in Er.
  destruct Hw as [(Hc & Hb & Hl)|([[c f] Hc] & Hb & Hl)]; rewrite Hc in Er; cbn in Er; injection Er as <- <-.
  - by split_and!.
  - split_and!; [done | done |]. cbn. rewrite count_delete. lia.
Qed.
Lemma fair_Release' : fair (Release boxes).
Proof. eapply leads_weaken; [..|exact fair_Release]; [done | apply unbound_balanced]. Qed.
Lemma fair_if_bound {A : Type} (m : Throws W O A) other : stays m → fair (if_bound m other).
Proof.
  intros Hm w r w' Hw Er. unfold if_bound, tbind, bind, tget, get, ret in Er. cbn in Er.
  destruct (isBinded w) eqn:Eb; [|by injection Er as <- <-].
  unfold isBinded in Eb. apply bool_decide_eq_true in Eb as [Hc Hb].
  destruct Hw as [(Hc' & _)|Hw]; [rewrite Hc' in Hc; by destruct Hc |]. right. by eapply Hm.
Qed.
Lemma fair_accesspoint (g : W → pop_accesspoint) : fair (tset (λ w, w <| accesspoint := g w |>)).
Proof. apply leads_set. intros w [(? & ? & ?)|(? & ? & ?)]; [left | right]; by split_and!. Qed.
Lemma fair_od (g : W → pop_od) : fair (tset (λ w, w <| od := g w |>)).
Proof. apply leads_set. intros w [(? & ? & ?)|(? & ? & ?)]; [left | right]; by split_and!. Qed.
Lemma fair_world {A : Type} (f : E → A * E) : (∀ e, live_boxes (f e).2 = live_boxes e) → fair (on_world f).
Proof.
  intros Hf. apply leads_world; [|done].
  intros w e [(? & ? & ?)|Hw] Ee; [left; split_and!; [done | done | cbn; by rewrite Ee] | right; by apply bound_world].
Qed.
Lemma fair_the_box : fair the_box.
Proof. unfold the_box. leads_steps. Qed.
#[local] Hint Resolve fair_Release' fair_accesspoint fair_od fair_the_box : leads.
#[local] Hint Resolve stays_world : leads.
Ltac fair_step :=
  lazymatch goal with
  | |- leads balanced balanced (if_bound _ _) => apply fair_if_bound
  | |- leads balanced balanced (tbind _ _) => apply leads_seq; [|intros ?]
  | |- leads balanced balanced (first_of _ _) => apply leads_first_of; intros ?
  | |- leads balanced balanced (on_world _) => apply fair_world; intros ?; cbn [snd]
  | |- leads balanced balanced (match ?b with _ => _ end) => destruct b
  | |- leads balanced balanced _ => first [solve [auto with leads] | leads_step]
  | |- live_boxes _ = live_boxes _ => first [apply count_timeout | apply count_errno]
  | |- _ => leads_step
  end; cbv beta.
Ltac fair_steps := repeat fair_step.

Lemma fair_BindStatus : fair (BindStatus object_Serialize object_new boxes strerror).
Proof. unfold BindStatus. fair_steps. Qed.
Lemma fair_AddRef : fair (AddRef object_Serialize object_new boxes strerror).
Proof. unfold AddRef. fair_steps. Qed.
Lemma fair_DecRef : fair (DecRef object_Serialize object_new boxes strerror).
Proof. unfold DecRef. fair_steps. Qed.
Lemma fair_ObjectActive : fair (ObjectActive object_Serialize object_new boxes strerror).
Proof. unfold ObjectActive. fair_steps. Qed.
Lemma fair_Encoding enc : fair (Encoding GetBufferName finder CreateBuffer object_Serialize object_new boxes strerror enc).
Proof.
  unfold Encoding. fair_steps. apply leads_set. intros w ([[c fact0] Hc] & ? & ?). split_and!; [|done|done].
  cbn. rewrite Hc. by eexists.
Qed.
Lemma fair_box_cases {A : Type} (k : option (C * F) → Throws W O A) :
  leads unbound balanced (k None) → (∀ cf, leads bound balanced (k (Some cf))) → fair (let^ w := tget in k (combox w)).
Proof.
  intros H0' H1' w r w' Hw Er. unfold tbind, bind, tget, get, ret in Er. cbn in Er.
  destruct Hw as [Hw|Hw]; pose proof Hw as (Hc & _).
  - rewrite Hc in Er. by eapply H0'.
  - destruct Hc as [cf Hc]. rewrite Hc in Er. by eapply H1'.
Qed.
(** While there is a box, and whatever comes then. *)
Lemma fair_after {A A' : Type} (m : Throws W O A) (k : A → Throws W O A') :
  stays m → (∀ a, leads bound balanced (k a)) → leads bound balanced (tbind m k).
Proof. intros Hm Hk. eapply leads_bind; [exact Hm | apply bound_balanced | exact Hk]. Qed.
Lemma fair_bound {A : Type} (m : Throws W O A) : fair m → leads bound balanced m.
Proof. by apply leads_weaken; [apply bound_balanced |]. Qed.
Lemma fair_unbound {A : Type} (m : Throws W O A) : fair m → leads unbound balanced m.
Proof. by apply leads_weaken; [apply unbound_balanced |]. Qed.
Lemma fair_Kill : fair (Kill boxes strerror).
Proof.
  unfold Kill. apply (fair_box_cases (λ b, match b with None => tret () | Some (c, _) => _ end)).
  - apply fair_unbound, leads_ret.
  - intros [c f0]. do 3 (apply fair_after; [auto with leads | intros _]). apply fair_bound. auto with leads.
Qed.

(** *** Binding *)
Lemma stays_connect_box c dest d : stays (connect_box boxes rank strerror c dest d).
Proof.
  unfold connect_box. leads_steps; apply stays_world; intros e;
    first [apply count_create_port | apply count_create_address | apply count_connect].
Qed.
#[local] Hint Resolve fair_BindStatus : leads.
Lemma fair_bind_reply rebind :
  (∀ p, fair (rebind p)) → fair (bind_reply object_Serialize object_new boxes ClassName strerror rebind).
Proof. intros Hr. unfold bind_reply. fair_steps. Qed.
Lemma leads_box_new c (k : () → Throws W O ()) :
  (∀ u, leads bound balanced (k u)) →
  leads unbound balanced
    (on_world (λ e, ((), box_new boxes c e)) ;;^
     tset (λ w, w <| combox := Some (c, box_factory boxes c) |>) ;;^
     tbind (tset (λ w, w <| buf := Some (CreateBuffer (box_factory boxes c)) |>)) k).
Proof.
  intros Hk w r w' (Hc & Hb & Hl) Er. cbv [tbind bind on_world tset modify ret tret] in Er. cbn in Er.
  eapply Hk; [|exact Er]. split_and!; [by eexists | by eexists |]. cbn. rewrite count_new. lia.
Qed.
Lemma fair_Bind_url rebind dest :
  (∀ p, fair (rebind p)) →
  fair (Bind_url CreateBuffer object_Serialize object_new boxes combox_factory rank bind_timeout ClassName strerror rebind dest).
Proof.
  intros Hr. unfold Bind_url. eapply leads_bind; [apply fair_Release | apply unbound_balanced |]. intros _.
  case_bool_decide; [apply fair_unbound, leads_ret |]. eapply leads_bind; [apply leads_call | apply unbound_balanced |].
  intros prot. destruct (ComboxFactory.Create (Some prot) combox_factory) as [c|]; [|apply fair_unbound, leads_throw].
  apply leads_box_new. intros _. apply fair_after; [apply stays_world; intros e; apply count_timeout |]. intros _.
  destruct (length dest <? 6)%nat; [apply fair_bound, leads_throw |].
  apply fair_after; [apply stays_connect_box |]. intros connected. apply fair_bound. apply leads_seq.
  - destruct connected; [by apply fair_bind_reply | fair_steps].
  - intros _. fair_steps.
Qed.
Lemma fair_attempt m : fair m → fair (attempt boxes m).
Proof.
  intros Hm. unfold attempt. apply leads_seq; [|intros b; apply leads_ret].
  intros w r w' Hw Er. unfold tcatch, bind in Er.
  destruct (m w) as [[[[x|a] w1]|c i|]|] eqn:Em; [|injection Er as <- <-; by eapply Hm | done..].
  assert (Hw1 : balanced w1) by (by eapply Hm).
  destruct (is_std x); [|injection Er as <- <-; done].
  refine (_ : balanced w'). revert Hw1 Er. generalize w1 r w'.
  change (fair (tbind (match x with
    | PopExc e => on_world (λ w, ((), set_errno boxes (exc_code e) w))
    | _ => tret () end) (λ _, tret true))). fair_steps.
Qed.
#[local] Hint Resolve fair_attempt : leads.
Lemma fair_try_addresses bind pref accesslist :
  (∀ a, fair (bind a)) → fair (try_addresses boxes bind pref accesslist).
Proof. intros Hb. unfold try_addresses. fair_steps. Qed.
Lemma fair_Bind fuel dest :
  fair (Bind CreateBuffer object_Serialize object_new boxes combox_factory comm_pattern rank bind_timeout ClassName
          strerror fuel dest).
Proof.
  revert dest. induction fuel as [|fuel IH]; intros dest; cbn [Bind]; [apply leads_fuel |].
  fair_steps. apply fair_try_addresses. intros addr. by apply fair_Bind_url.
Qed.
#[local] Hint Resolve fair_Bind fair_AddRef fair_DecRef fair_Encoding fair_ObjectActive fair_Kill : leads.

Lemma fair_world_throwing {A : Type} (f : E → (exc O + A) * E) :
  (∀ e, live_boxes (f e).2 = live_boxes e) → fair (on_world_throwing f).
Proof. intros Hf. unfold on_world_throwing. fair_steps. apply Hf. Qed.
Lemma fair_accept israw pp cur enc :
  fair (accept_encoding GetBufferName finder CreateBuffer object_Serialize object_new boxes platform strerror israw pp cur enc).
Proof. unfold accept_encoding. fair_steps. Qed.
#[local] Hint Resolve fair_accept : leads.

Lemma fair_perform fuel m : fair (perform fuel m).
Proof.
  destruct m; cbn [perform]; unfold ignore; [.. | | | | | | | | |]; fair_steps.
  - unfold interface_of. fair_steps.
  - unfold interface_copy. fair_steps.
  - unfold interface_assign. fair_steps.
  - unfold Serialize. fair_steps.
  - unfold SetOD. fair_steps.
  - unfold Allocate, allocate_only. fair_steps; by apply fair_world_throwing.
  - unfold NegotiateEncoding. fair_steps.
Qed.

End Counting.

(** C7: an interface loses no box. Whatever is done with an interface, in any order, and however each
    method ends, by returning or by an exception, there is one communication box more than before
    it was made if it has one, and none more otherwise; and it has a buffer exactly when it has a
    box. *)
Theorem interface_keeps_boxes o e w :
  lives (interface_new o e) w →
  live_boxes (world w) = live_boxes e + (if decide (is_Some (combox w)) then 1 else 0) ∧
  (is_Some (combox w) ↔ is_Some (buf w)).
Proof.
  intros Hl. assert (Hb : balanced (live_boxes e) w).
  { remember (interface_new o e) as w0 eqn:E0. induction Hl as [w|w w1 fuel m r w2 _ IH Em].
    - subst w. left. unfold interface_new. destruct (secureSet o); by split_and!.
    - eapply (fair_perform (live_boxes e) fuel m); [by apply IH | exact Em]. }
  destruct Hb as [(-> & -> & El)|(Hc & Hb & El)].
  - rewrite decide_False by (by intros []). split; [lia | done].
  - rewrite decide_True by done. split; [done |]. by split.
Qed.
End Balance.

(** A host that accepts a connection and does not answer: the interface keeps the box. *)
Module Examples.
#[local] Abbreviation E := (env (list byte) (list byte) Z).
Definition mute_boxes : box_class (list byte) (list byte) Z () chars := {|
  box_new := λ _ e, e <| host := host e + 1 |>;
  box_factory := λ _, string_bytes "raw";
  box_create_port := λ _ _ e, (true, e);
  box_create_address := λ _ _ e, (true, e);
  box_connect := λ _ _ e, (true, e);
  box_timeout := λ _ _ e, e;
  box_out := λ _, loop_box 7;
  box_in := λ _, loop_box 5;
  box_ack := λ _ e, Ok (true, e);
  box_delete := λ _ e, e <| host := host e - 1 |>;
  get_errno := λ _, 111;
  set_errno := λ _ e, e;
  box_serve := λ e, Ok e |}.
#[export] Instance mute_count : BoxCount mute_boxes host.
Proof. split; try reflexivity; by cbn; intros; simplify_eq. Qed.
Definition factory : list (ComboxFactory.combox_factory_struct ()) := [ComboxFactory.MkCombox (string_bytes "socket") 0 ()].
Definition nobody (a : pop_allocator) (n : string) (o : pop_od) (e : E) : (exc () + string) * E := (inl (LogicError ""), e).
Definition no_app (e : E) : (exc () + ()) * E := (inr (), e).
#[local] Abbreviation performs m := (perform id encodings (λ _, raw_new) no_interface () mute_boxes factory None 0 10 "Worker"
  "Linux" (λ _, "") nobody no_app "socket" 1 m).

Definition far : pop_accesspoint := SetAccessString "socket://host:2711" accesspoint_new.
Definition fresh : pop_interface buffer_raw () chars E := interface_new (od_new false None None) (MkEnv [] [] 0).

Lemma interface_keeps_boxes_witness :
  ∃ x w, performs (MBind far) fresh = Some (Ok (inl x, w)) ∧ is_Some (combox w) ∧ host (world w) = 1.
Proof.
  destruct (performs (MBind far) fresh) as [[[[x|u] w]|c i|]|] eqn:E0; try (vm_compute in E0; discriminate E0).
  exists x, w. split; [reflexivity |].
  assert (Hc : is_Some (combox w)) by (vm_compute in E0; injection E0 as _ <-; eexists; reflexivity).
  split; [exact Hc |].
  destruct (interface_keeps_boxes id encodings (λ _, raw_new) no_interface () mute_boxes factory None 0 10 "Worker"
    "Linux" (λ _, "") host nobody no_app "socket") with (o := od_new false None None) (e := MkEnv [] [] 0 : E) (w := w) as [Hw _].
  - intros a n o e. reflexivity.
  - intros e. reflexivity.
  - eapply lives_step; [apply lives_refl | exact E0].
  - rewrite Hw. destruct (decide (is_Some (combox w))) as [_|Hn]; [reflexivity | destruct (Hn Hc)].
Defined.

Definition only_b (addr : chars) : Throws (pop_interface buffer_raw () chars E) () () :=
  if bool_decide (addr = string_bytes "socket://b") then tret () else tthrow (LogicError "no").
Lemma Bind_tries_in_order_witness :
  ∃ b w, try_addresses mute_boxes only_b [string_bytes "socket"]
      [string_bytes "uds://x"; string_bytes "socket://a"; string_bytes "socket://b"] fresh = Some (Ok (inr b, w)) ∧
    tried mute_boxes only_b [string_bytes "socket://a"; string_bytes "socket://b"] fresh b w.
Proof.
  exists true, fresh.
  assert (E0 : try_addresses mute_boxes only_b [string_bytes "socket"]
    [string_bytes "uds://x"; string_bytes "socket://a"; string_bytes "socket://b"] fresh
    = Some (Ok (inr true, fresh))) by (vm_compute; reflexivity).
  split; [exact E0 |].
  refine (proj1 (Bind_tries_in_order mute_boxes _ [string_bytes "socket"] _ fresh true fresh _) E0).
  constructor; [vm_compute; reflexivity | constructor].
Defined.
End Examples.
