(* ===== verification/Binding.v ===== *)
(** * An interface and the broker of its object

    The methods of Interface.v against the broker of CoreCalls.v and Broker.v: the boxes of this
    file connect to one object, whose broker counts the connections and treats the requests. What
    the methods do to the count of references is what References.v says of the life of an
    interface. *)

From S2P Require Import Prelude Machine Buffer Exceptions Message ExceptionProtocol Utils Factories.
From S2P Require Import BufferRaw AccessPoint ObjectDescription Broker Transport CoreCalls Effects Throwing Interface.
From S2P Require References.

(** The object: its broker, and whether the client is connected. *)
Record object : Type := MkObject { server : pop_broker; connected : bool }.
#[export] Instance object_eta : Eta object := λ o, MkObject (server o) (connected o).

Section Binding.
Context {B : Type} `{PopTransport B}.
Context {F : Type} (GetBufferName : F → chars) (finder : list (@BufferFactory.slot F)) (CreateBuffer : F → B).
Context {O : Type} (object_Serialize : bool → O → M B O) (object_new : O).
Context {S1 S2 : Type} (cb1 : Message.combox S1) `{!ComboxStream cb1} `{!ComboxChannel cb1}
  (cb2 : Message.combox S2) `{!ComboxStream cb2} `{!ComboxChannel cb2}.
Context (address : chars) (fact : F) (conn : Z) (received : B) (can_kill : bool).
Context (rank bind_timeout : Z) (ClassName platform : string) (strerror : Z → string).
#[local] Abbreviation E := (env S1 S2 object).
#[local] Abbreviation W := (pop_interface B () F E).

(** The broker, told of a connection or of its end, and treating a request. *)
Definition connect_object (dest : chars) (e : E) : bool * E :=
  if decide (dest = address)
  then (true, e <| host := MkObject (References.OnNewConnection (server (host e))) true |>) else (false, e).
Definition leave_object (e : E) : E :=
  if connected (host e) then e <| host := MkObject (References.OnCloseConnection (server (host e))) false |> else e.
Definition treat_request (e : E) : result E :=
  let! r := receive_step GetBufferName finder platform can_kill cb1 cb2 conn received (server (host e))
              (requests e) (responses e) in
  let '(_, b, s1, s2, _) := r in
  Ok (MkEnv s1 s2 ((host e) <| server := b |>)).

Definition object_boxes : box_class S1 S2 object () F := {|
  box_new := λ _ e, e;
  box_factory := λ _, fact;
  box_create_port := λ _ _ e, (true, e);
  box_create_address := λ _ _ e, (false, e);
  box_connect := λ _ dest e, connect_object dest e;
  box_timeout := λ _ _ e, e;
  box_out := λ _, cb1;
  box_in := λ _, cb2;
  box_ack := λ _ e, Ok (true, e);
  box_delete := λ _ e, leave_object e;
  get_errno := λ _, 111;
  set_errno := λ _ e, e;
  box_serve := treat_request |}.

(** The interface is connected to the object, and no message is on its way. *)
Record linked (w : W) : Prop := {
  l_box : ∃ f, combox w = Some ((), f);
  l_buf : ∃ b, buf w = Some b ∧ header_ranged (GetHeader b);
  l_connected : connected (host (world w)) = true;
  l_requests : incoming (requests (world w)) = [];
  l_responses : incoming (responses (world w)) = [] }.
(** It is not. *)
Record unlinked (w : W) : Prop := {
  u_box : combox w = None;
  u_buf : buf w = None;
  u_requests : incoming (requests (world w)) = [];
  u_responses : incoming (responses (world w)) = [] }.

Context (Hreceived : header_ranged (GetHeader received)).

(** A call of the run-time is what it is meant to be. *)
Lemma core_linked c (w : W) a b' eff :
  linked w → call_ok c → core_spec GetBufferName finder platform c (server (host (world w))) = Some (a, b', eff) →
  answer_ok a →
  ∃ w', core object_Serialize object_new object_boxes strerror c w = Some (Ok (inr a, w')) ∧ linked w' ∧
    server (host (world w')) = b' ∧ accesspoint w' = accesspoint w ∧ od w' = od w ∧ combox w' = combox w.
Proof.
  intros [[f Hf] (b & Hb & Hr) Hcn Hq Hs] Hc Hspec Ha.
  destruct (core_call_runs GetBufferName finder object_Serialize object_new platform can_kill cb1 cb2 c conn received b
    (server (host (world w))) (requests (world w)) (responses (world w)) a b' eff Hc Hspec Ha Hreceived Hr Hq Hs)
    as (bc' & s1' & s1'' & s2' & bc'' & s2'' & E1 & E2 & E3 & Hi1 & Hi2 & Hr2).
  unfold call_begin, popc_send_request in E1. apply rbind_Ok in E1 as ([u b1] & Ew & E1).
  apply rbind_Ok in E1 as ([[ok b2] s1] & Es & E1). cbn [fst snd] in *. destruct ok; [|done]. injection E1 as -> ->.
  unfold call_end, popc_get_response in E3. apply rbind_Ok in E3 as ([[x b3] s2] & Eg & E3).
  apply rbind_Ok in Eg as ([[ok b4] s3] & Er & Eg). cbn [fst snd] in *. destruct ok; [|done].
  apply rbind_Ok in Eg as ([x' b5] & Ec & Eg). injection Eg as -> -> ->. cbn [fst snd] in *.
  destruct x as [x|]; [done |]. apply rbind_Ok in E3 as ([a' b6] & Ea & E3). injection E3 as -> -> ->.
  set (w' := MkInterface (accesspoint w) (od w) (combox w) (Some bc'')
               (MkEnv s1'' s2'' ((host (world w)) <| server := b' |>))).
  exists w'. split; [|split_and!; [|done..]].
  - unfold core, start_message, on_buf, send_request, get_response, serve, the_box, the_buf.
    cbv [tbind bind tget get tneed need tcall tset modify tret ret].
    rewrite Hb. cbn. rewrite Ew. cbn. rewrite Hf. cbn. rewrite Es. cbn.
    unfold treat_request. cbn. rewrite E2. cbn. rewrite Hf. cbn. rewrite Er. cbn. rewrite Ec. cbn. rewrite Ea. cbn.
    reflexivity.
  - split; unfold w'; cbn; [by exists f | by exists bc'' | done..].
Qed.

(** *** The methods of an interface that is linked *)
Lemma isBinded_linked (w : W) : linked w → isBinded w = true.
Proof. intros [[f Hf] (b & Hb & _) _ _ _]. unfold isBinded. rewrite Hf, Hb. apply bool_decide_eq_true. by split; eexists. Qed.

Lemma call_linked {A : Type} c (k : answer → A) other (w : W) a b' eff :
  linked w → call_ok c → core_spec GetBufferName finder platform c (server (host (world w))) = Some (a, b', eff) →
  answer_ok a →
  ∃ w', if_bound (let^ a := core object_Serialize object_new object_boxes strerror c in tret (k a)) other w =
          Some (Ok (inr (k a), w')) ∧
    linked w' ∧ server (host (world w')) = b' ∧ accesspoint w' = accesspoint w ∧ od w' = od w ∧ combox w' = combox w.
Proof.
  intros Hw Hc Hs Ha. destruct (core_linked c w a b' eff Hw Hc Hs Ha) as (w' & E & Hw').
  exists w'. split; [|done]. unfold if_bound, tbind, bind, tget, get, ret. cbn.
  rewrite isBinded_linked by done. cbn. unfold tbind, bind. by rewrite E.
Qed.

Lemma AddRef_linked (w : W) n :
  linked w → obj (server (host (world w))) = Some n → in_sint 32 (n + 1) = true →
  ∃ w', AddRef object_Serialize object_new object_boxes strerror w = Some (Ok (inr (n + 1), w')) ∧ linked w' ∧
    Broker.AddRef (server (host (world w))) = Some (server (host (world w'))) ∧
    accesspoint w' = accesspoint w ∧ od w' = od w ∧ combox w' = combox w.
Proof.
  intros Hw Hn Hr. unfold Broker.AddRef. rewrite Hn.
  edestruct (call_linked CallAddRef (λ a, match a with RefCount n => n | _ => -1 end) (-1) w) as (w' & E & Hw' & Eb & Hrest);
    [done | exact I | cbn; rewrite Hn; reflexivity | exact Hr |].
  exists w'. split_and!; [exact E | done | by rewrite Eb | apply Hrest..].
Qed.
Lemma DecRef_linked (w : W) n :
  linked w → obj (server (host (world w))) = Some n → in_sint 32 (n - 1) = true →
  ∃ w', DecRef object_Serialize object_new object_boxes strerror w = Some (Ok (inr (n - 1), w')) ∧ linked w' ∧
    Broker.DecRef (server (host (world w))) = Some (server (host (world w'))) ∧
    accesspoint w' = accesspoint w ∧ od w' = od w ∧ combox w' = combox w.
Proof.
  intros Hw Hn Hr. unfold Broker.DecRef. rewrite Hn.
  edestruct (call_linked CallDecRef (λ a, match a with RefCount n => n | _ => -1 end) (-1) w) as (w' & E & Hw' & Eb & Hrest);
    [done | exact I | cbn; rewrite Hn; reflexivity | exact Hr |].
  exists w'. split_and!; [exact E | done | by rewrite Eb | apply Hrest..].
Qed.

(** What the object says of itself fits in a message. *)
Context (Hplatform : fits platform) (Hencodings : fits (bytes_string (enclist GetBufferName finder))).
Lemma BindStatus_linked (w : W) :
  linked w →
  ∃ w', BindStatus object_Serialize object_new object_boxes strerror w =
          Some (Ok (inr (Some (0, platform, bytes_string (enclist GetBufferName finder))), w')) ∧ linked w' ∧
    server (host (world w')) = server (host (world w)) ∧
    accesspoint w' = accesspoint w ∧ od w' = od w ∧ combox w' = combox w.
Proof.
  intros Hw.
  edestruct (call_linked CoreCalls.BindStatus (λ a, match a with Status code p i => Some (code, p, i) | _ => None end) None w)
    as (w' & E & Hw' & Eb & Hrest); [done | exact I | reflexivity | by split_and! |].
  exists w'. split_and!; [exact E | done | done | apply Hrest..].
Qed.

Lemma Release_linked (w : W) :
  linked w →
  ∃ w', Release (O := O) object_boxes w = Some (Ok (inr (), w')) ∧ unlinked w' ∧ connected (host (world w')) = false ∧
    server (host (world w')) = References.OnCloseConnection (server (host (world w))) ∧
    accesspoint w' = accesspoint w ∧ od w' = od w.
Proof.
  intros [[f Hf] _ Hcn Hq Hs]. eexists. split.
  - unfold Release. cbv [tbind bind tget get on_world tset modify tret ret]. cbn. rewrite Hf. cbn. reflexivity.
  - unfold leave_object. rewrite Hcn. by split_and!.
Qed.
Lemma Release_unlinked (w : W) : unlinked w → Release (O := O) object_boxes w = Some (Ok (inr (), w)).
Proof.
  intros [Hc Hb _ _]. unfold Release. cbv [tbind bind tget get on_world tset modify tret ret]. cbn. rewrite Hc. cbn.
  destruct w; cbn in *. by subst.
Qed.

(** *** Binding *)
Context (combox_factory : list (ComboxFactory.combox_factory_struct ())) (prot : chars).
(** [address] is one address of a protocol that is known, and not of a UDS socket. *)
Context (Htoken : Tokenize address = [address]) (Hprot : protocol_of address = Ok prot)
  (Hfactory : ComboxFactory.Create (Some prot) combox_factory = Some ())
  (Hlong : (6 ≤ length address)%nat) (Huds : uds_peer (drop 6 address) = None)
  (Hnew : ∀ f, header_ranged (GetHeader (CreateBuffer f))).
#[local] Abbreviation bind_to := (Bind CreateBuffer object_Serialize object_new object_boxes combox_factory None rank
  bind_timeout ClassName strerror).
#[local] Abbreviation bind_url rebind := (Bind_url CreateBuffer object_Serialize object_new object_boxes combox_factory rank
  bind_timeout ClassName strerror rebind address).

Ltac run H := erewrite (tbind_eq _ _ _ _ _ H); cbv beta.

Lemma Bind_url_unlinked rebind (w : W) :
  unlinked w →
  ∃ w', bind_url rebind w = Some (Ok (inr (), w')) ∧ linked w' ∧
    server (host (world w')) = References.OnNewConnection (server (host (world w))) ∧
    accesspoint w' = accesspoint w ∧ od w' = od w.
Proof.
  intros Hw. set (w1 := MkInterface (accesspoint w) (od w) (Some ((), fact)) (Some (CreateBuffer fact))
    (snd (connect_object address (world w)))).
  assert (Hw1 : linked w1).
  { unfold w1, connect_object. rewrite decide_True by done. destruct Hw as [_ _ Hq Hs].
    split; cbn; [by eexists | by eexists | done..]. }
  destruct (BindStatus_linked w1 Hw1) as (w' & E & Hw' & Eb & Eap & Eod & Ec). exists w'.
  assert (Hconnect : connect_box (O := O) object_boxes rank strerror () address (drop 6 address)
    (MkInterface (accesspoint w) (od w) (Some ((), fact)) (Some (CreateBuffer fact)) (world w)) =
    Some (Ok (inr true, w1))).
  { unfold connect_box. rewrite Huds. cbv [tbind bind on_world tret ret]. cbn.
    unfold w1, connect_object. by rewrite decide_True by done. }
  assert (Hreply : bind_reply object_Serialize object_new object_boxes ClassName strerror rebind w1 = Some (Ok (inr (), w'))).
  { unfold bind_reply. by run E. }
  split.
  - unfold Bind_url. run (Release_unlinked w Hw). rewrite bool_decide_false by (intros ->; cbn in Hlong; lia).
    rewrite Hprot. cbn [tcall]. erewrite tbind_eq by reflexivity. cbv beta. rewrite Hfactory.
    do 4 (erewrite tbind_eq by reflexivity; cbv beta). rewrite (proj2 (Nat.ltb_ge _ _)) by done.
    run Hconnect. run Hreply. erewrite tbind_eq; [|unfold the_box; erewrite tbind_eq by reflexivity; cbv beta; rewrite Ec; reflexivity].
    cbn. unfold on_world. by destruct w'.
  - split_and!; [done | | done | done]. rewrite Eb. unfold w1, connect_object. cbn. by rewrite decide_True by done.
Qed.

(** An access point of the object; every flag is written. *)
Definition names_object (p : pop_accesspoint) : Prop :=
  endpoint p = bytes_string address ∧ is_Some (ap_service p) ∧ is_Some (ap_noaddref p).

Lemma assign_ok self p : is_Some (ap_service p) → ∃ q, accesspoint_assign self p = Ok q.
Proof. intros [sv E]. unfold accesspoint_assign, IsService, read_member. rewrite E. by eexists. Qed.

Lemma Bind_unlinked fuel p (w : W) :
  unlinked w → names_object p → proto (od w) = "" →
  ∃ w', bind_to (S fuel) p w = Some (Ok (inr (), w')) ∧ linked w' ∧
    server (host (world w')) = References.OnNewConnection (server (host (world w))) ∧ od w' = od w.
Proof.
  intros [Hb Hu Hq Hs] (He & Hsv & _) Hpro. destruct (assign_ok (accesspoint w) p Hsv) as [q Hassign].
  destruct (Bind_url_unlinked (bind_to fuel) (w <| accesspoint := q |>)) as (w' & E & Hw' & Eb & _ & Eod); [by split |].
  exists w'. split; [|by split_and!]. cbn [Bind]. unfold ap_IsEmpty. rewrite bool_decide_false.
  2: { rewrite He. intros E0. apply (f_equal string_bytes) in E0. rewrite string_bytes_string in E0.
       rewrite E0 in Hlong. cbn in Hlong. lia. }
  erewrite tbind_eq by reflexivity. cbv beta. rewrite Hassign. cbn [tcall]. do 2 (erewrite tbind_eq by reflexivity; cbv beta).
  unfold GetAccessString. rewrite He, string_bytes_string, Htoken. cbn [default ApplyCommPattern tcall].
  erewrite tbind_eq by reflexivity. cbv beta. cbn [od upd]. rewrite Hpro. cbn [Tokenize].
  change (Tokenize (string_bytes "")) with (@nil chars). cbn [try_addresses first_of].
  assert (Ha : attempt object_boxes (bind_url (bind_to fuel)) (w <| accesspoint := q |>) = Some (Ok (inr true, w'))).
  { unfold attempt, tcatch, tbind, bind. by rewrite E. }
  erewrite tbind_eq; [|erewrite tbind_eq by exact Ha; cbv beta; reflexivity]. done.
Qed.

(** *** What an interface does to the count *)

#[local] Abbreviation constructed := (interface_of CreateBuffer object_Serialize object_new object_boxes combox_factory None
  rank bind_timeout ClassName strerror).
#[local] Abbreviation serialized := (Serialize CreateBuffer object_Serialize object_new object_boxes combox_factory None
  rank bind_timeout ClassName strerror).

Lemma OnNew_obj b n : obj b = Some n → obj (References.OnNewConnection b) = Some (n + 1).
Proof. unfold References.OnNewConnection, Broker.AddRef. by intros ->. Qed.

(** C23: the constructor of an interface and its release do to the object what the life of its
    interfaces says. Built from an access point of the object, an interface is connected, and the
    broker is as after [References.interface_of]; released, it has neither box nor buffer, and the
    broker is as after the release was seen. *)
Theorem interface_counts fuel p o e v r n :
  names_object p → ap_noaddref p = Some v → proto o = "" →
  incoming (requests e) = [] → incoming (responses e) = [] →
  References.broker r = server (host e) → 0 ≤ References.connections r → 0 ≤ References.closing r →
  obj (server (host e)) = Some n → in_sint 32 n = true →
  ∃ w1 r1, constructed (S fuel) p (interface_init o e) = Some (Ok (inr (), w1)) ∧ linked w1 ∧
    References.interface_of v r = Some r1 ∧ References.broker r1 = server (host (world w1)) ∧
  ∃ w2 r2 r3, Release (O := O) object_boxes w1 = Some (Ok (inr (), w2)) ∧ unlinked w2 ∧
    References.Release r1 = Some r2 ∧ References.connection_closed r2 = Some r3 ∧
    References.broker r3 = server (host (world w2)).
Proof.
  intros Hp Hv Hpro Hq Hs Hbr Hcon Hclo Hn Hin. pose proof Hp as (He & [sv Esv] & _).
  set (w0 := (if sv then (interface_init o e) <| accesspoint := SetAsService accesspoint_new |>
              else interface_init o e) : W).
  assert (Hw0 : unlinked w0) by (unfold w0; destruct sv; by split).
  assert (Hw0p : proto (od w0) = "") by (unfold w0; by destruct sv).
  assert (Hw0b : server (host (world w0)) = server (host e)) by (unfold w0; by destruct sv).
  destruct (Bind_unlinked fuel p w0 Hw0 Hp Hw0p) as (w1 & E1 & Hl1 & Eb1 & _). rewrite Hw0b in Eb1.
  assert (Hne : ap_IsEmpty p = false).
  { unfold ap_IsEmpty. apply bool_decide_false. rewrite He. intros E0. apply (f_equal string_bytes) in E0.
    rewrite string_bytes_string in E0. rewrite E0 in Hlong. cbn in Hlong. lia. }
  assert (Hend : ∃ w1' r1, (if v then DecRef object_Serialize object_new object_boxes strerror ;;^ tret () else tret ()) w1 =
      Some (Ok (inr (), w1')) ∧ linked w1' ∧ References.interface_of v r = Some r1 ∧
      References.broker r1 = server (host (world w1')) ∧
      References.connections r1 = References.connections r + 1 ∧ References.closing r1 = References.closing r).
  { unfold References.interface_of, References.Bind. cbn. rewrite Hbr. destruct v.
    - pose proof (OnNew_obj _ _ Hn) as Hn1. rewrite <- Eb1 in Hn1.
      destruct (DecRef_linked w1 (n + 1) Hl1 Hn1) as (w1' & E & Hl & Eb & _); [by rewrite Z.add_simpl_r |].
      rewrite <- Eb1, Eb. eexists w1', _. split; [by run E |]. by split_and!.
    - eexists w1, _. split_and!; [done | done | done | | done | done]. cbn. by rewrite Eb1. }
  destruct Hend as (w1' & r1 & E2 & Hl & Er1 & Eb2 & Hc1 & Hc2). exists w1', r1. split.
  { unfold interface_of, IsService, GetNoAddRef. rewrite Esv, Hv. cbn [read_member tcall].
    erewrite tbind_eq by reflexivity. cbv beta.
    erewrite (tbind_eq _ _ _ () w0) by (unfold w0; by destruct sv). cbv beta. rewrite Hne. run E1.
    erewrite tbind_eq by reflexivity. exact E2. }
  split_and!; [done..|]. destruct (Release_linked w1' Hl) as (w2 & E3 & Hu & _ & Eb3 & _).
  eexists w2, _, _. split_and!; [done | done | | |].
  - unfold References.Release. rewrite Hc1, (proj2 (Z.ltb_lt _ _)) by lia. reflexivity.
  - unfold References.connection_closed. cbn. rewrite Hc2, (proj2 (Z.ltb_lt _ _)) by lia. reflexivity.
  - cbn. by rewrite Eb2, Eb3.
Qed.

Lemma writes_inv {X : Type} (m : M B X) (bs : list Byte.byte) (a : X) b y b' : writes m bs a → m b = Ok (y, b') →
  y = a ∧ content b' = content b ++ bs.
Proof. intros Hw E. destruct (proj2 (Hw b) _ _ E) as (-> & -> & _). done. Qed.

(** Packing adds a reference. *)
Lemma Serialize_packs fuel (w : W) n x x1 x2 y :
  linked w → obj (server (host (world w))) = Some n → in_sint 32 (n + 1) = true →
  od_Pack (od w) x = Ok (od w, x1) → accesspoint_Serialize true (accesspoint w) x1 = Ok (accesspoint w, x2) →
  Pack1 PInt (n + 1) x2 = Ok ((), y) →
  ∃ w', serialized fuel true false x w = Some (Ok (inr y, w')) ∧ linked w' ∧
    Broker.AddRef (server (host (world w))) = Some (server (host (world w'))) ∧
    accesspoint w' = accesspoint w ∧ od w' = od w.
Proof.
  intros Hw Hn Hi E1 E2 E3. destruct (AddRef_linked w n Hw Hn Hi) as (w' & Ea & Hw' & Eb & Eap & Eod & _).
  exists w'. split; [|by split_and!]. unfold Serialize. erewrite tbind_eq by reflexivity. cbv beta.
  unfold od_Serialize. rewrite E1. cbn [tcall]. erewrite tbind_eq by reflexivity. cbv beta. cbn [fst snd].
  erewrite (tbind_eq _ _ _ () w) by by destruct w. cbv beta. erewrite tbind_eq by reflexivity. cbv beta.
  rewrite E2. cbn [tcall]. erewrite tbind_eq by reflexivity. cbv beta. cbn [fst snd].
  erewrite (tbind_eq _ _ _ () w) by by destruct w. cbv beta. erewrite (tbind_eq (tret ())) by reflexivity. cbv beta.
  erewrite tbind_eq.
  2: { run Ea. rewrite E3. cbn [tcall]. erewrite tbind_eq by reflexivity. reflexivity. }
  done.
Qed.

(** Unpacking binds, and drops the reference. *)
Lemma Serialize_unpacks fuel o0 e n m (o : pop_od) p bso bsp bsn y rest :
  incoming (requests e) = [] → incoming (responses e) = [] → obj (server (host e)) = Some m → in_sint 32 m = true →
  0 < n → proto o = "" → names_object p →
  reads (od_UnPack o0) bso (od_received o o0) → reads (accesspoint_Serialize false accesspoint_new) bsp p →
  reads (UnPack1 PInt) bsn n →
  buffer_wf y → zlen (content y) ≤ int_max → unread y = (bso ++ bsp ++ bsn) ++ rest →
  ∃ w' y', serialized (S fuel) false false y (interface_init o0 e) = Some (Ok (inr y', w')) ∧ linked w' ∧
    unread y' = rest ∧
    Broker.DecRef (References.OnNewConnection (server (host e))) = Some (server (host (world w'))).
Proof.
  intros Hq Hs Hm Hi Hpos Hpro Hp Ro Ra Rn Hwf Hsz Hu. rewrite <- !app_assoc in Hu.
  destruct (Ro y _ Hwf Hsz Hu) as (y1 & E1 & C1 & U1 & _ & F1).
  destruct (Ra y1 _ F1 ltac:(by rewrite C1) U1) as (y2 & E2 & C2 & U2 & _ & F2).
  destruct (Rn y2 _ F2 ltac:(by rewrite C2, C1) U2) as (y3 & E3 & _ & U3 & _).
  set (w2 := MkInterface p (od_received o o0) None None e : W).
  destruct (Bind_unlinked fuel p w2) as (w3 & E4 & Hl3 & Eb3 & _); [by split | done | done |].
  pose proof (OnNew_obj _ _ Hm) as Hm1. cbn in Eb3. rewrite <- Eb3 in Hm1.
  destruct (DecRef_linked w3 (m + 1) Hl3 Hm1) as (w4 & E5 & Hl4 & Eb4 & _); [by rewrite Z.add_simpl_r |].
  exists w4, y3. split; [|split_and!; [done | done | by rewrite <- Eb3]].
  unfold Serialize. erewrite tbind_eq by reflexivity. cbv beta. unfold od_Serialize. cbn [od interface_init].
  rewrite E1. cbn [tcall]. erewrite tbind_eq by reflexivity. cbv beta. cbn [fst snd].
  do 2 (erewrite tbind_eq by reflexivity; cbv beta).
  change (accesspoint_Serialize false _ y1) with (accesspoint_Serialize false accesspoint_new y1).
  rewrite E2. cbn [tcall]. erewrite tbind_eq by reflexivity. cbv beta. cbn [fst snd].
  erewrite (tbind_eq _ _ _ () w2) by reflexivity. cbv beta. erewrite (tbind_eq (tret ())) by reflexivity. cbv beta.
  erewrite tbind_eq.
  2: { rewrite E3. cbn [tcall]. do 2 (erewrite tbind_eq by reflexivity; cbv beta). cbn [fst snd].
       rewrite (proj2 (Z.ltb_lt _ _)) by done. erewrite tbind_eq; [reflexivity |]. run E4. by run E5. }
  done.
Qed.

(** C4: a reference travels in a message. An interface that is connected packs itself into a buffer
    with room, and the broker is as after [References.Serialize_pack]; wherever what it wrote is
    the next to be read, and whatever became of the object meanwhile, an interface that is new
    unpacks it and is connected to the object, the broker is as after
    [References.Serialize_unpack], and what follows is still to be read. *)
Theorem reference_travels fuel (w : W) r n x x1 x2 y :
  linked w → References.broker r = server (host (world w)) → 0 < References.connections r →
  obj (server (host (world w))) = Some n → 0 ≤ n → in_sint 32 (n + 1) = true →
  od_ok (od w) → proto (od w) = "" → accesspoint_ok (accesspoint w) → endpoint (accesspoint w) = bytes_string address →
  od_Pack (od w) x = Ok (od w, x1) → accesspoint_Serialize true (accesspoint w) x1 = Ok (accesspoint w, x2) →
  Pack1 PInt (n + 1) x2 = Ok ((), y) →
  ∃ w1 r1 sent, serialized fuel true false x w = Some (Ok (inr y, w1)) ∧ linked w1 ∧ content y = content x ++ sent ∧
    References.Serialize_pack r = Some r1 ∧ References.broker r1 = server (host (world w1)) ∧
    References.in_transit r1 = References.in_transit r ++ [n + 1] ∧
  ∀ fuel2 o0 e z rest r2 i m,
    incoming (requests e) = [] → incoming (responses e) = [] → References.broker r2 = server (host e) →
    References.in_transit r2 !! i = Some (n + 1) → obj (server (host e)) = Some m → in_sint 32 m = true →
    buffer_wf z → zlen (content z) ≤ int_max → unread z = sent ++ rest →
    ∃ w3 z' r3, serialized (S fuel2) false false z (interface_init o0 e) = Some (Ok (inr z', w3)) ∧ linked w3 ∧
      unread z' = rest ∧ References.Serialize_unpack i r2 = Some r3 ∧ References.broker r3 = server (host (world w3)).
Proof.
  intros Hw Hbr Hcon Hn H0n Hi Hod Hpro Hok He E1 E2 E3.
  destruct (Serialize_packs fuel w n x x1 x2 y Hw Hn Hi E1 E2 E3) as (w1 & E & Hw1 & Eb & _).
  destruct (codec_accesspoint (accesspoint w) Hok) as (bsp & Wp & Rp).
  destruct (codec_int (n + 1) Hi) as (bsn & Wn & Rn).
  assert (Ho : ∀ o0, ∃ bso, writes (od_Pack (od w)) bso (od w) ∧ reads (od_UnPack o0) bso (od_received (od w) o0))
    by (intros o0; by apply codec_od).
  destruct (Ho (od w)) as (bso & Wo & _).
  destruct (writes_inv _ _ _ _ _ _ Wo E1) as [_ C1]. destruct (writes_inv _ _ _ _ _ _ Wp E2) as [_ C2].
  destruct (writes_inv _ _ _ _ _ _ Wn E3) as [_ C3].
  exists w1, (References.MkReferences (server (host (world w1))) (References.connections r)
    (References.closing r) (References.in_transit r ++ [n + 1]) (References.uncounted r)),
    (bso ++ bsp ++ bsn).
  split_and!; [done | done | by rewrite C3, C2, C1, <- !app_assoc | | done | done |].
  { unfold References.Serialize_pack. rewrite (proj2 (Z.ltb_lt _ _)) by done. rewrite Hbr, Eb.
    unfold Broker.AddRef in Eb. rewrite Hn in Eb. injection Eb as <-. reflexivity. }
  intros fuel2 o0 e z rest r2 i m Hq Hs Hbr2 Hlook Hm Him Hwf Hsz Hu.
  destruct (Ho o0) as (bso' & Wo' & Ro).
  assert (bso' = bso) as ->.
  { destruct (writes_inv _ _ _ _ _ _ Wo' E1) as [_ C1']. rewrite C1 in C1'. by apply app_inv_head in C1'. }
  destruct Hok as (_ & _ & Hsv & Hna).
  destruct (Serialize_unpacks fuel2 o0 e (n + 1) m (od w) (accesspoint w) bso bsp bsn z rest)
    as (w3 & z' & E4 & Hw3 & Hu3 & Eb3); try done; [lia |].
  eexists w3, z', _. split_and!; [done | done | done | |].
  - unfold References.Serialize_unpack. rewrite Hlook, (proj2 (Z.ltb_lt _ _)) by lia. cbn. rewrite Hbr2, Eb3. reflexivity.
  - done.
Qed.
End Binding.

(** ** A client and its object

    An object with one reference at one address, raw buffers, connections of seven and five bytes. *)
Module Examples.
Definition host_address : chars := string_bytes "socket://host:2711".
Definition boxes (address : chars) : box_class (list byte) (list byte) object () chars :=
  object_boxes id encodings (loop_box 7) (loop_box 5) address (string_bytes "raw") 3 raw_new false "Linux".
Definition factory : list (ComboxFactory.combox_factory_struct ()) := [ComboxFactory.MkCombox (string_bytes "socket") 0 ()].
Definition own_point : pop_accesspoint := SetAccessString "socket://host:2711" accesspoint_new.
Definition there : env (list byte) (list byte) object := MkEnv [] [] (MkObject (broker_new <| obj := Some 1 |>) false).
Definition there_ref : References.references := References.MkReferences (broker_new <| obj := Some 1 |>) 0 0 [] (-1).
Definition no_text : Z → string := λ _, "".
Definition od0 : pop_od := od_new false None None.

Lemma interface_counts_witness :
  ∃ w1 r1 w2 r2 r3,
    interface_of (λ _, raw_new) no_interface () (boxes host_address) factory None 0 10 "Worker" no_text 1 own_point
      (interface_init od0 there) = Some (Ok (inr (), w1)) ∧
    References.interface_of false there_ref = Some r1 ∧ References.broker r1 = server (host (world w1)) ∧
    Release (B := buffer_raw) (O := ()) (boxes host_address) w1 = Some (Ok (inr (), w2)) ∧
    References.Release r1 = Some r2 ∧ References.connection_closed r2 = Some r3 ∧
    References.broker r3 = server (host (world w2)).
Proof.
  destruct (interface_counts id encodings (λ _, raw_new) no_interface () (loop_box 7) (loop_box 5) host_address
    (string_bytes "raw") 3 raw_new false 0 10 "Worker" "Linux" no_text) with (combox_factory := factory)
    (prot := string_bytes "socket") (fuel := 0%nat) (p := own_point) (o := od0) (e := there) (v := false)
    (r := there_ref) (n := 1)
    as (w1 & r1 & E1 & _ & E2 & E3 & w2 & r2 & r3 & E4 & _ & E5 & E6 & E7).
  - repeat constructor.
  - apply (bool_decide_unpack _). vm_compute. exact Logic.I.
  - apply (bool_decide_unpack _). vm_compute. exact Logic.I.
  - vm_compute. reflexivity.
  - vm_compute. reflexivity.
  - reflexivity.
  - apply (bool_decide_unpack _). vm_compute. exact Logic.I.
  - vm_compute. reflexivity.
  - intros f. repeat constructor.
  - split; [reflexivity | split; by eexists].
  - reflexivity.
  - reflexivity.
  - reflexivity.
  - reflexivity.
  - reflexivity.
  - cbn. lia.
  - cbn. lia.
  - reflexivity.
  - reflexivity.
  - exists w1, r1, w2, r2, r3. split; [exact E1 |]. split; [exact E2 |]. split; [exact E3 |]. split; [exact E4 |].
    split; [exact E5 |]. split; [exact E6 | exact E7].
Defined.

(** A client that is connected, as is the object's own creator. *)
Definition sender : pop_interface buffer_raw () chars (env (list byte) (list byte) object) :=
  MkInterface own_point od0 (Some ((), string_bytes "raw")) (Some raw_new)
    (MkEnv [] [] (MkObject (broker_new <| obj := Some 1 |>) true)).
Definition sender_ref : References.references := References.MkReferences (broker_new <| obj := Some 1 |>) 1 0 [] 0.
(** The object when the message is read: the client has gone. *)
Definition later : env (list byte) (list byte) object := MkEnv [] [] (MkObject (broker_new <| obj := Some 1 |>) false).
Definition later_ref : References.references := References.MkReferences (broker_new <| obj := Some 1 |>) 0 0 [2] 0.

Lemma reference_travels_witness :
  ∃ y w1 w3 z r3,
    Serialize (λ _, raw_new) no_interface () (boxes host_address) factory None 0 10 "Worker" no_text 0 true false raw_new sender =
      Some (Ok (inr y, w1)) ∧ obj (server (host (world w1))) = Some 2 ∧
    Serialize (λ _, raw_new) no_interface () (boxes host_address) factory None 0 10 "Worker" no_text 1 false false y
      (interface_init od0 later) = Some (Ok (inr z, w3)) ∧
    References.Serialize_unpack 0 later_ref = Some r3 ∧ References.broker r3 = server (host (world w3)).
Proof.
  destruct (od_Pack od0 raw_new) as [[o1 x1]| |] eqn:E1; [|vm_compute in E1; discriminate E1..].
  assert (Eo : o1 = od0) by (vm_compute in E1; injection E1 as <- _; vm_compute; reflexivity). subst o1.
  destruct (accesspoint_Serialize true own_point x1) as [[p1 x2]| |] eqn:E2;
    [|vm_compute in E1; injection E1 as <-; vm_compute in E2; discriminate E2..].
  assert (Ep : p1 = own_point) by (vm_compute in E1; injection E1 as <-; vm_compute in E2; injection E2 as <- _; vm_compute; reflexivity).
  subst p1. destruct (Pack1 PInt (1 + 1) x2) as [[u y]| |] eqn:E3;
    [|vm_compute in E1; injection E1 as <-; vm_compute in E2; injection E2 as <-; vm_compute in E3; discriminate E3..].
  assert (Hy : buffer_wf y ∧ zlen (content y) ≤ int_max ∧ cursor y = length (content raw_new)).
  { vm_compute in E1; injection E1 as <-; vm_compute in E2; injection E2 as <-; vm_compute in E3; injection E3 as _ <-.
    vm_compute. split; [discriminate | split; [discriminate | reflexivity]]. }
  destruct u, Hy as (Hwf & Hsz & Hcur).
  destruct (reference_travels id encodings (λ _, raw_new) no_interface () (loop_box 7) (loop_box 5) host_address
    (string_bytes "raw") 3 raw_new false 0 10 "Worker" "Linux" no_text) with (combox_factory := factory)
    (prot := string_bytes "socket") (fuel := 0%nat) (w := sender) (r := sender_ref) (n := 1) (x := raw_new)
    (x1 := x1) (x2 := x2) (y := y)
    as (w1 & r1 & snt & Es & _ & Ec & Er1 & Eb1 & _ & Hreceive).
  - repeat constructor.
  - apply (bool_decide_unpack _). vm_compute. exact Logic.I.
  - apply (bool_decide_unpack _). vm_compute. exact Logic.I.
  - vm_compute. reflexivity.
  - vm_compute. reflexivity.
  - reflexivity.
  - apply (bool_decide_unpack _). vm_compute. exact Logic.I.
  - vm_compute. reflexivity.
  - intros f. repeat constructor.
  - split; [by eexists | eexists; split; [reflexivity | repeat constructor] | reflexivity | reflexivity | reflexivity].
  - reflexivity.
  - cbn. lia.
  - reflexivity.
  - lia.
  - reflexivity.
  - unfold od_ok. concrete_ok.
  - reflexivity.
  - split; [concrete_ok |]. split; [by left |]. split; by eexists.
  - reflexivity.
  - exact E1.
  - exact E2.
  - exact E3.
  - destruct (Hreceive 0%nat od0 later y [] later_ref 0%nat 1) as (w3 & z & r3 & Eu & _ & _ & Er3 & Eb3).
    + reflexivity.
    + reflexivity.
    + reflexivity.
    + reflexivity.
    + reflexivity.
    + reflexivity.
    + exact Hwf.
    + exact Hsz.
    + unfold unread. rewrite Hcur, Ec, app_nil_r, drop_app_length. reflexivity.
    + exists y, w1, w3, z, r3. split; [exact Es |]. split; [|split; [exact Eu |]; split; [exact Er3 | exact Eb3]].
      rewrite <- Eb1. injection Er1 as <-. reflexivity.
Defined.
End Examples.
