(* ===== verification/Types.v ===== *)
(** * The types of the compiler, and the marshalling code they generate

    parser/type.cc, typeequal.cc, typeptr.cc, typearray.cc, typestruct.cc, typeseqclass.cc,
    typeclassstruct.cc, typetemplate.cc, and the part of [Class] (class.cc) that is a type.

    A type the parser builds is a tree; the inner occurrence of a type that contains itself, which
    the marks of the source find, is [TVisited]. What a type generates is kept as a list of
    statements, each with its text: [render] gives the text the compiler writes, and Stubs.v says
    what the statements do. Arrays of 256 to 10240 characters that hold pieces of text are taken
    to be long enough. *)

From stdpp Require Import pretty.
From S2P Require Import Prelude Machine Utils.
From Stdlib Require Import Strings.Ascii.

(** ** Texts *)
Definition text (l : list string) : string := foldr String.append "" l.
Definition nl : string := String (Ascii.ascii_of_nat 10) "".
Definition dq : string := String (Ascii.ascii_of_nat 34) "".
Definition num (k : Z) : string := pretty k.
Definition or_null (s : option string) : string := default "(null)" s.

(** ** Data types *)
Definition stdType : list string :=
  ["bool"; "char"; "signed char"; "unsigned char"; "short"; "short int";
   "unsigned short"; "signed short"; "int"; "unsigned"; "unsigned int"; "signed int";
   "long"; "signed long"; "unsigned long"; "long int"; "long long"; "long double";
   "float"; "double"; "void"; "std::string"; "std::string"; "string"].

Definition stlType : list string :=
  ["std::vector"; "vector"; "std::list"; "list"; "std::deque"; "deque"; "std::map"; "map"].

(** [TypeClassStruct] is [TStruct] or [TSeqClass] by its flag [isClass]. *)
Inductive DataType : Type :=
  | TBase (name : string)
  | TEqual (name : string) (type : DataType)
  | TPtr (name : option string) (nptr : Z) (typebase : DataType) (constPos : list bool)
  | TArray (name : option string) (cardinal : string) (typebase : DataType)
  | TStruct (name : option string) (attributes : list (DataType * string))
  | TSeqClass (name : option string) (bases : list DataType)
  | TTemplate (name : string) (elements : list (DataType * bool))
  | TClass (name : string)
  | TVisited (name : option string).

Definition GetName (t : DataType) : option string :=
  match t with
  | TBase n | TEqual n _ | TTemplate n _ | TClass n => Some n
  | TPtr n _ _ _ | TArray n _ _ | TStruct n _ | TSeqClass n _ | TVisited n => n
  end.

Definition IsStandardType (t : DataType) : bool :=
  match GetName t with Some n => bool_decide (n ∈ stdType) | None => false end.

(** A function on [DataType] below is the virtual function of the class [DataType] (type.cc) with its
    overrides: a branch is the method of the class it names, [TEqual] in typeequal.cc, [TPtr] in
    typeptr.cc, [TArray] in typearray.cc, [TStruct] in typestruct.cc, [TSeqClass] in
    typeseqclass.cc, [TTemplate] in typetemplate.cc, [TClass] in class.cc.

    [CanMarshal], 0: no, 1: yes, 2: yes if a size is given. *)
Fixpoint CanMarshal (t : DataType) : Z :=
  match t with
  | TBase _ => if IsStandardType t then 1 else 0
  | TEqual _ t' => CanMarshal t'
  | TPtr _ nptr t' _ => if (nptr =? 1) && negb (CanMarshal t' =? 0) then 2 else 0
  | TArray _ _ t' => CanMarshal t'
  | TStruct _ attributes => if forallb (λ a, CanMarshal a.1 =? 1) attributes then 1 else 0
  | TSeqClass None _ => 0
  | TSeqClass (Some n) bases =>
      if bool_decide (n = "pop_base") then 1
      else if existsb (λ b, negb (CanMarshal b =? 0)) bases then 1 else 0
  | TTemplate n elements =>
      match elements with
      | [] => 0
      | _ => if bool_decide (n ∈ stlType) && forallb (λ e, negb (CanMarshal e.1 =? 0)) elements
             then 1 else 0
      end
  | TClass _ => 1
  | TVisited _ => 0
  end.

Fixpoint IsPointer (t : DataType) : Z :=
  match t with
  | TPtr _ nptr t' _ => nptr + IsPointer t'
  | TEqual _ t' => IsPointer t'
  | _ => 0
  end.
Fixpoint IsArray (t : DataType) : bool :=
  match t with TArray _ _ _ => true | TEqual _ t' => IsArray t' | _ => false end.
Fixpoint IsParClass (t : DataType) : bool :=
  match t with TClass _ => true | TEqual _ t' => IsParClass t' | _ => false end.
Fixpoint GetBaseType (t : DataType) : option DataType :=
  match t with
  | TPtr _ _ t' _ | TEqual _ t' => match GetBaseType t' with Some b => Some b | None => Some t' end
  | _ => None
  end.

Definition declare (name : option string) (varname : option string) : option string :=
  match name, varname with
  | Some n, Some v => Some (text [n; " "; v])
  | Some n, None => Some n
  | None, _ => None
  end.

(** [GetDeclaration]; [None] is the answer false. *)
Fixpoint GetDeclaration (t : DataType) (varname : option string) : option string :=
  match t with
  | TPtr None nptr t' constPos =>
      match GetDeclaration t' None with
      | Some d => Some (text [d; " ";
          text ((λ i, if default false (constPos !! i) then "*const " else "*") <$> seq 0 (Z.to_nat nptr));
          default "" varname])
      | None => None
      end
  | TArray None cardinal t' =>
      match GetDeclaration t' varname with Some d => Some (d +:+ cardinal) | None => None end
  | TTemplate n elements =>
      let fix args (l : list (DataType * bool)) : option string :=
        match l with
        | [] => Some ""
        | (t', isRef) :: l' =>
            match GetDeclaration t' None, args l' with
            | Some d, Some ds =>
                Some (text [d; if (isRef : bool) then "&" else "";
                            match l' with [] => "" | _ => "," end; ds])
            | _, _ => None
            end
        end in
      match args elements with
      | Some ds => Some (text [n; " < "; ds; " > "; default "" varname])
      | None => None
      end
  | _ => declare (GetName t) varname
  end.

Fixpoint GetExpandType (t : DataType) : string :=
  match t with
  | TEqual _ t' => GetExpandType t'
  | TPtr _ nptr t' _ => GetExpandType t' +:+ text (replicate (Z.to_nat nptr) "*")
  | TArray _ cardinal t' => GetExpandType t' +:+ cardinal
  | _ => default "" (GetName t)
  end.
Definition Same (t other : DataType) : bool := bool_decide (GetExpandType t = GetExpandType other).
Definition Same_name (t : DataType) (tname : string) : bool := bool_decide (GetExpandType t = tname).

(** [GetCardinalSize]: "[n][m]" becomes "(n)*(m)"; a string in quotes is copied as it is. *)
Fixpoint cardinal_size (s : list Ascii.ascii) (ignore : bool) (openbracket : Z) (firstdim : bool) :
    list Ascii.ascii :=
  match s with
  | [] => []
  | c :: s' =>
      if ignore && bool_decide (c = Ascii.ascii_of_nat 92) then
        match s' with
        | [] => [c]
        | c' :: s'' => c :: c' :: cardinal_size s'' ignore openbracket firstdim
        end
      else if bool_decide (c = Ascii.ascii_of_nat 34) then
        c :: cardinal_size s' (negb ignore) openbracket firstdim
      else if ignore then c :: cardinal_size s' ignore openbracket firstdim
      else if bool_decide (c = "["%char) then
        if openbracket =? 0 then
          (if firstdim then [] else ["*"%char]) ++ "("%char :: cardinal_size s' ignore 1 false
        else c :: cardinal_size s' ignore (openbracket + 1) firstdim
      else if bool_decide (c = "]"%char) then
        (if openbracket - 1 =? 0 then ")"%char else c)
          :: cardinal_size s' ignore (openbracket - 1) firstdim
      else c :: cardinal_size s' ignore openbracket firstdim
  end.
Definition GetCardinalSize (cardinal : string) : string :=
  String.string_of_list_ascii (cardinal_size (String.list_ascii_of_string cardinal) false 0 true).

(** [FindVarName]: the last word of an expression. *)
Definition separators : list byte := [x20; x2e; x2d; x3e; x28; x2a; x29; x3c; x5b; x5d].
Definition FindVarName (var : string) : option string :=
  match rev (tokens separators (string_bytes var) []) with
  | [] => None
  | w :: _ => Some (bytes_string w)
  end.

(** ** The generated statements *)

(** The expressions a variable is reached by. *)
Inductive expr : Type :=
  | Var (x : string)
  | AddrOf (e : expr)
  | Deref (e : expr)
  | DerefAs (t : string) (e : expr)
  | Item (e : expr)
  | Elem (k : Z)
  | Field (e : expr) (f : string)
  | IterRef (decl : string) (k : Z)
  | First (decl : string) (k : Z) | Second (decl : string) (k : Z)
  | Key (decl : string) (k : Z) | Value (decl : string) (k : Z).

Definition iterator (k : Z) : string := "_elem" +:+ num k.
Definition size_name (k : Z) : string := iterator k +:+ "_size".

Fixpoint print_expr (e : expr) : string :=
  match e with
  | Var x => x
  | AddrOf e => "&" +:+ print_expr e
  | Deref e => text ["("; "*("; print_expr e; "))"]
  | DerefAs t e => text ["("; "*(("; t; " *"; ")"; print_expr e; "))"]
  | Item e => text ["("; print_expr e; "[_pop_item])"]
  | Elem k => text ["("; "*_pop_elem"; num k; ")"]
  | Field e f => text [print_expr e; "."; f]
  | IterRef decl k => text ["(("; decl; " &)("; "*"; iterator k; "))"]
  | First decl k => text ["(("; decl; " &)(it_"; iterator k; "->first))"]
  | Second decl k => text ["(("; decl; " &)(it_"; iterator k; "->second))"]
  | Key decl k => text ["(("; decl; " &)("; iterator k; "_key))"]
  | Value decl k => text ["(("; decl; " &)("; iterator k; "_value))"]
  end.

(** A number of elements: a text of the program, or a variable of the generated code. *)
Inductive count : Type := Given (s : string) | Counted (x : string).
Definition print_count (n : count) : string := match n with Given s | Counted s => s end.

(** Statements, with their text. [Block t e n] moves [n] values of type [t] that start at [e];
    [SizeOf] moves the size of a container and, with an element type, resizes the receiving one;
    [Contents] moves the elements of a vector as a block. The last four are those of [Param]
    (Compiler.v): the size of a parameter, a variable, the array a variable points to, a
    procedure of the user. *)
Inductive code : Type :=
  | Text (s : string)
  | Block (txt : string) (t : string) (e : expr) (n : count)
  | Serial (txt : string) (cl : string) (e : expr)
  | SizeOf (txt : string) (k : Z) (e : expr) (elem : option DataType)
  | Contents (txt : string) (k : Z) (t : string) (e : expr)
  | ForItem (head : string) (n : count) (body : list code) (tail : string)
  | ForElem (head : string) (k : Z) (n : count) (e : expr) (body : list code) (tail : string)
  | ForIter (head : string) (k : Z) (e : expr) (body : list code) (tail : string)
  | Locals (txt : string) (k : Z) (key value : DataType)
  | ForEntries (head : string) (k : Z) (e : expr) (body : list code) (tail : string)
  | SizeParam (txt : string) (x n : string)
  | LocalVar (txt : string) (x : string) (t : DataType)
  | Allocate (txt : string) (x : string) (n : count) (t : DataType)
  | UserProc (txt : string) (proc : string) (e : expr) (n : option count).

Fixpoint render1 (c : code) : string :=
  match c with
  | Text s | Block s _ _ _ | Serial s _ _ | SizeOf s _ _ _ | Contents s _ _ _ | Locals s _ _ _
  | SizeParam s _ _ | LocalVar s _ _ | Allocate s _ _ _ | UserProc s _ _ _ => s
  | ForItem head _ body tail | ForElem head _ _ _ body tail | ForIter head _ _ body tail
  | ForEntries head _ _ body tail => text [head; text (render1 <$> body); tail]
  end.
Definition render (cs : list code) : string := text (render1 <$> cs).

(** The pieces of text all types share. *)
Definition push (buf param tname sep n : string) : string :=
  text [buf; ".Push("; dq; param; dq; ","; dq; tname; dq; ","; sep; n; ");"; nl].
Definition pop (buf : string) : string := text [buf; ".Pop();"; nl].
Definition move (pack : bool) (buf target : string) (n : string) : string :=
  if pack then text [buf; ".Pack(&"; target; ", "; n; ");"; nl]
  else text [buf; ".UnPack(&"; target; ","; n; ");"; nl].
Definition serialize (pack : bool) (buf cl target : string) : string :=
  text ["(("; cl; " &)("; target; ")).Serialize("; buf; ", "; if pack then "true" else "false"; ");"].
Definition var_name (unknown : string) (e : expr) : string := default unknown (FindVarName (print_expr e)).
Definition for_item (pack : bool) (n : string) : string :=
  text [if pack then nl +:+ "{for" else " {" +:+ nl +:+ "for";
        " (int _pop_item=0; _pop_item < "; n; "; _pop_item++) { "; nl].
Definition for_elem (k : Z) (t e : string) : string :=
  text ["for ("; t; " *_pop_elem"; num k; " =("; t; " *"; ")("; e; "); _paroc_count"; num k;
        ">0; _paroc_count"; num k; "--, _pop_elem"; num k; "++)"; nl; "{"; nl].

(** ** [Marshal] and [DeMarshal]

    [gen true] is [Marshal], [gen false] is [DeMarshal]: the two functions of each class differ in
    the calls they print. [k] is the counter of generated names, [DataType::counter]. *)
Definition ostate (A : Type) : Type := Z → option (A * Z).

Definition one_size (n : count) : bool := bool_decide (print_count n = "1").

Definition gen_base (pack : bool) (buf n : string) (e : expr) (sizehelper : option count) : list code :=
  if bool_decide (n = "void") then []
  else
    let sz := default (Given "1") sizehelper in
    [Text (push buf (var_name "unkown" e) n " " (print_count sz));
     Block (move pack buf (print_expr e) (print_count sz)) n e sz;
     Text (pop buf)].

Definition gen_serial (pack : bool) (buf tname cl : string) (newline : bool) (e : expr) : list code :=
  [Text (push buf (var_name "unkown" e) tname "" "1");
   Serial (serialize pack buf cl (print_expr e) +:+ if newline then nl else "") cl e;
   Text (pop buf)].

(** The size of a container; the three branches of [TypeTemplate] write it differently. *)
Definition gen_size (pack : bool) (buf init sep1 sep2 : string) (k : Z) (e : expr) (resize : string)
    (elem : option DataType) : code :=
  SizeOf
    (if pack then
       text ["int "; size_name k; "="; print_expr e; ".size();"; nl;
             push buf "@size" "int" "" "1"; buf; ".Pack(&"; size_name k; ","; sep1; "1);"; nl; pop buf]
     else
       text ["int "; size_name k; init; ";"; nl; push buf "@size" "int" sep2 "1"; buf; ".UnPack(&";
             size_name k; ",1);"; nl; pop buf; resize])
    k e elem.

Definition is_vector (n : string) : bool := bool_decide (n = "vector") || bool_decide (n = "std::vector").
Definition is_map (n : string) : bool := bool_decide (n = "map") || bool_decide (n = "std::map").

Definition resize_text (e : expr) (k : Z) : string :=
  text [print_expr e; ".resize("; size_name k; ");"; nl].

(** The attributes of a structure, one after the other. *)
Definition gen_fields (g : DataType → expr → ostate (list code)) (e : expr) :
    list (DataType * string) → ostate (list code) :=
  fix fields l k :=
    match l with
    | [] => Some ([], k)
    | (t', f) :: l' =>
        match g t' (Field e f) k with
        | None => None
        | Some (c, k) => match fields l' k with None => None | Some (cs, k) => Some (c ++ cs, k) end
        end
    end.

(** A type that generates the code for another, the type it is made of: [g] is that code. *)
Definition generator : Type := DataType → expr → option count → ostate (list code).

(** [TypePtr]. *)
Definition gen_ptr (g : generator) (pack : bool) (buf : string) (t' : DataType) (e : expr) (sizehelper : option count) :
    ostate (list code) := λ k,
  match sizehelper with
  | None => g t' (Deref e) None k
  | Some n =>
      if IsStandardType t' || one_size n then g t' (Deref e) (Some n) k
      else
        match g t' (Item e) None k with
        | None => None
        | Some (body, k') =>
            Some ([Text (nl +:+ push buf (var_name "unknown" e) (or_null (GetName t')) " " (print_count n));
                   ForItem (for_item pack (print_count n)) n body (text ["}"; nl; "}"; nl]);
                   Text (pop buf)], k')
        end
  end.

(** [TypeArray]. *)
Definition gen_array (g : generator) (buf cardinal : string) (t' : DataType) (e : expr)
    (sizehelper : option count) : ostate (list code) := λ k,
  let n := default (Given (GetCardinalSize cardinal)) sizehelper in
  if IsStandardType t' || one_size n then g t' (DerefAs (or_null (GetName t')) e) (Some n) k
  else
    match g t' (Elem k) None k with
    | None => None
    | Some (body, k') =>
        Some ([ForElem
                 (text ["{ int _paroc_count"; num k; "="; print_count n; ";"; nl;
                        push buf (var_name "unknown" e) (or_null (GetName t')) ""
                          ("_paroc_count" +:+ num k);
                        for_elem k (or_null (GetName t')) (print_expr e)])
                 k n e body (text ["}"; nl; "}"; nl]);
               Text (pop buf)], k' + 1)
    end.

(** [TypeStruct]. *)
Definition gen_struct (g : generator) (pack : bool) (buf : string) (n : option string)
    (attributes : list (DataType * string)) (e : expr) : ostate (list code) := λ k,
  match gen_fields (λ t' e', g t' e' None) e attributes k with
  | None => None
  | Some (cs, k) =>
      Some (Text (push buf (var_name "unknown" e) (or_null n) (if pack then " " else "") "1")
              :: cs ++ [Text (pop buf)], k)
  end.

(** [TypeTemplate]: a vector of a standard type, a map, another container. *)
Definition gen_vector (pack : bool) (buf n : string) (t0 : DataType) (e : expr) : ostate (list code) := λ k,
  let el := or_null (GetName t0) in
  Some ([gen_size pack buf "=0" " " " " k e (resize_text e k) (Some t0);
         Text (push buf (print_expr e) n "" (size_name k));
         Contents
           (if pack then text [buf; ".Pack(("; el; "*"; ")&("; print_expr e; ")[0], ";
                               size_name k; ");"; nl; pop buf]
            else text [buf; ".UnPack(("; el; "*"; ")&"; print_expr e; "[0],"; size_name k;
                       ");"; nl; pop buf])
           k el e], k + 1).

Definition gen_map (g : generator) (pack : bool) (buf n d : string) (t0 t1 : DataType) (e : expr) :
    ostate (list code) := λ k,
  let d0 := or_null (GetDeclaration t0 None) in
  let d1 := or_null (GetDeclaration t1 None) in
  let ref0 := if pack then First d0 k else Key d0 k in
  let ref1 := if pack then Second d1 k else Value d1 k in
  match g t0 ref0 None (k + 1) with
  | None => None
  | Some (c0, k0) =>
      match g t1 ref1 None k0 with
      | None => None
      | Some (c1, k1) =>
          if pack then
            Some ([gen_size pack buf "=0" "" "" k e "" None;
                   Text (push buf (print_expr e) n "" (size_name k));
                   ForEntries
                     (text ["for ("; d; "::const_iterator it_"; iterator k; "="; print_expr e;
                            ".begin();it_"; iterator k; "!="; print_expr e; ".end();it_";
                            iterator k; "++) {"; nl])
                     k e (c0 ++ c1) (text ["}"; nl; pop buf])], k1)
          else
            Some ([Locals
                     (text ["int "; size_name k; "=0;"; nl; d0; " "; iterator k; "_key;"; nl;
                            d1; " "; iterator k; "_value;"; nl])
                     k t0 t1;
                   SizeOf (text [push buf "@size" "int" "" "1"; buf; ".UnPack(&"; size_name k;
                                 ",1);"; nl; pop buf]) k e None;
                   Text (push buf (print_expr e) n "" (size_name k));
                   ForEntries
                     (text [print_expr e; ".clear();"; nl; "for(int i=0;i<"; size_name k;
                            ";i++){"; nl])
                     k e (c0 ++ c1)
                     (text [print_expr e; "["; iterator k; "_key]="; iterator k; "_value;"; nl;
                            "}"; nl; pop buf])], k1)
      end
  end.

Definition gen_container (g : generator) (pack : bool) (buf n d : string) (t0 : DataType) (e : expr) :
    ostate (list code) := λ k,
  match g t0 (IterRef (or_null (GetDeclaration t0 None)) k) None (k + 1) with
  | None => None
  | Some (body, k') =>
      Some ([gen_size pack buf "" "" " " k e (resize_text e k) (Some t0);
             Text (push buf (print_expr e) n "" (size_name k));
             ForIter
               (text ["for ("; d; "::iterator "; iterator k; "=";
                      print_expr e; ".begin();"; iterator k; "!="; print_expr e; ".end();";
                      iterator k; "++) {"; nl])
               k e body (text ["}"; nl; pop buf])], k')
  end.

(** The virtual functions of all classes of types. *)
Fixpoint gen (pack : bool) (buf : string) (t : DataType) (e : expr) (sizehelper : option count) :
    ostate (list code) := λ k,
  match t with
  | TBase n => Some (gen_base pack buf n e sizehelper, k)
  | TEqual _ t' => gen pack buf t' e sizehelper k
  | TPtr _ _ t' _ => gen_ptr (gen pack buf) pack buf t' e sizehelper k
  | TArray _ cardinal t' => gen_array (gen pack buf) buf cardinal t' e sizehelper k
  | TStruct n attributes => gen_struct (gen pack buf) pack buf n attributes e k
  | TSeqClass n _ => Some (gen_serial pack buf (or_null n) (or_null n) true e, k)
  | TClass n => Some (gen_serial pack buf "pop_interface" n false e, k)
  | TTemplate n elements =>
      match elements with
      | [] => None
      | (t0, _) :: others =>
          if is_vector n && IsStandardType t0 then gen_vector pack buf n t0 e k
          else if is_map n then
            match others with
            | [] => None
            | (t1, _) :: _ => gen_map (gen pack buf) pack buf n (or_null (GetDeclaration t None)) t0 t1 e k
            end
          else gen_container (gen pack buf) pack buf n (or_null (GetDeclaration t None)) t0 e k
      end
  | TVisited _ => None
  end.

Definition Marshal := gen true.
Definition DeMarshal := gen false.

(** A vector of structures with two fields, as the compiler writes it. *)
Example Marshal_pairs :
  match Marshal "__pop_buf" (TTemplate "vector" [(TStruct (Some "P") [(TBase "int", "a"); (TBase "string", "b")], false)])
          (Var "v") None 0 with
  | Some (cs, k) => render cs =
      text ["int _elem0_size=v.size();"; nl;
            push "__pop_buf" "@size" "int" "" "1"; "__pop_buf.Pack(&_elem0_size,1);"; nl; "__pop_buf.Pop();"; nl;
            push "__pop_buf" "v" "vector" "" "_elem0_size";
            "for (vector < P > ::iterator _elem0=v.begin();_elem0!=v.end();_elem0++) {"; nl;
            push "__pop_buf" "_elem0" "P" " " "1";
            push "__pop_buf" "a" "int" " " "1";
            "__pop_buf.Pack(&((P &)("; "*_elem0)).a, 1);"; nl; "__pop_buf.Pop();"; nl;
            push "__pop_buf" "b" "string" " " "1";
            "__pop_buf.Pack(&((P &)("; "*_elem0)).b, 1);"; nl; "__pop_buf.Pop();"; nl;
            "__pop_buf.Pop();"; nl; "}"; nl; "__pop_buf.Pop();"; nl] ∧ k = 1
  | None => False
  end.
Proof. vm_compute. done. Qed.
