(* ===== verification/Generated.v ===== *)
(** * What the generated marshalling code does

    The statements of Types.v run on the variables of a stub or of a broker and on a message
    buffer. Values are C++ values by their type; a pointer or an array is the sequence it points
    to. The laws of the buffers (Buffer.v) then give that the code [DeMarshal] generates reads
    what the code [Marshal] generates wrote. *)

From S2P Require Import Prelude Machine Buffer Types.

(** ** Values *)
Section Values.
Context {O : Type}.

Inductive cval : Type :=
  | VPrim (t : prim) (v : val t)
  | VStr (s : string)
  | VSeq (l : list cval)
  | VRec (l : list (string * cval))
  | VObj (o : O).

(** The overload of [Pack] and [UnPack] C++ picks by the type of a pointer: a primitive type or
    strings. *)
Definition overload (n : string) : option (option prim) :=
  if decide (n = "bool") then Some (Some PBool)
  else if decide (n = "char") then Some (Some PChar)
  else if decide (n = "signed char") then Some (Some PSChar)
  else if decide (n = "unsigned char") then Some (Some PUChar)
  else if decide (n ∈ ["short"; "short int"; "signed short"]) then Some (Some PShort)
  else if decide (n = "unsigned short") then Some (Some PUShort)
  else if decide (n ∈ ["int"; "signed int"]) then Some (Some PInt)
  else if decide (n ∈ ["unsigned"; "unsigned int"]) then Some (Some PUInt)
  else if decide (n ∈ ["long"; "signed long"; "long int"]) then Some (Some PLong)
  else if decide (n = "unsigned long") then Some (Some PULong)
  else if decide (n = "float") then Some (Some PFloat)
  else if decide (n = "double") then Some (Some PDouble)
  else if decide (n ∈ ["std::string"; "string"]) then Some None
  else None.

Definition zero (t : prim) : val t :=
  match t with
  | PBool => false
  | PChar | PUChar | PSChar => x00
  | PFloat | PDouble => S754_zero false
  | PInt | PUInt | PLong | PULong | PShort | PUShort => 0
  end.

Definition as_prim (t : prim) (v : cval) : option (val t) :=
  match v with
  | VPrim t' x => match decide (t' = t) with left e => Some (eq_rect t' val x t e) | right _ => None end
  | _ => None
  end.
Definition as_string (v : cval) : option string := match v with VStr s => Some s | _ => None end.
Definition as_seq (v : cval) : option (list cval) := match v with VSeq l => Some l | _ => None end.
Definition as_obj (v : cval) : option O := match v with VObj o => Some o | _ => None end.

(** ** Places *)
Inductive step : Type := Idx (i : nat) | Fld (f : string).
Definition place : Type := string * list step.

Fixpoint field (f : string) (l : list (string * cval)) : option cval :=
  match l with
  | [] => None
  | (g, v) :: l' => if decide (g = f) then Some v else field f l'
  end.
Fixpoint set_field (f : string) (x : cval) (l : list (string * cval)) : list (string * cval) :=
  match l with
  | [] => []
  | (g, v) :: l' => if decide (g = f) then (g, x) :: l' else (g, v) :: set_field f x l'
  end.

Definition get1 (s : step) (v : cval) : option cval :=
  match s, v with
  | Idx i, VSeq l => l !! i
  | Fld f, VRec l => field f l
  | _, _ => None
  end.
Definition set1 (s : step) (x v : cval) : cval :=
  match s, v with
  | Idx i, VSeq l => VSeq (<[i := x]> l)
  | Fld f, VRec l => VRec (set_field f x l)
  | _, _ => v
  end.

Fixpoint get_at (π : list step) (v : cval) : option cval :=
  match π with
  | [] => Some v
  | s :: π' => match get1 s v with Some u => get_at π' u | None => None end
  end.
(** Nothing is written where there is no value. *)
Fixpoint set_at (π : list step) (x v : cval) : option cval :=
  match π with
  | [] => Some x
  | s :: π' =>
      match get1 s v with
      | Some u => match set_at π' x u with Some u' => Some (set1 s u' v) | None => None end
      | None => None
      end
  end.

Definition read (vs : gmap string cval) (p : place) : option cval :=
  match vs !! p.1 with Some v => get_at p.2 v | None => None end.
Definition write (vs : gmap string cval) (p : place) (x : cval) : option (gmap string cval) :=
  match vs !! p.1 with
  | Some v => match set_at p.2 x v with Some v' => Some (<[p.1 := v']> vs) | None => None end
  | None => None
  end.

Lemma field_set f x l v : field f l = Some v → field f (set_field f x l) = Some x.
Proof.
  induction l as [|[g u] l IH]; simpl; [done |].
  destruct (decide (g = f)); simpl; [by rewrite decide_True | by rewrite decide_False].
Qed.
Lemma set_field_set f x y l : set_field f y (set_field f x l) = set_field f y l.
Proof.
  induction l as [|[g u] l IH]; simpl; [done |].
  destruct (decide (g = f)); simpl; [by rewrite decide_True | by rewrite decide_False, IH by done].
Qed.

Lemma get1_set1 s x v u : get1 s v = Some u → get1 s (set1 s x v) = Some x.
Proof.
  destruct s, v; simpl; intros E; try done; [|by eapply field_set].
  apply list_lookup_insert_eq. by eapply lookup_lt_Some.
Qed.
Lemma set1_set1 s x y v : set1 s y (set1 s x v) = set1 s y v.
Proof. destruct s, v; simpl; try done; f_equal; [apply list_insert_insert_eq | apply set_field_set]. Qed.

Lemma get_at_app π ρ v : get_at (π ++ ρ) v = match get_at π v with Some u => get_at ρ u | None => None end.
Proof. revert v. induction π as [|s π IH]; intros v; simpl; [done |]. by destruct (get1 s v). Qed.
Lemma set_at_total π x v u : get_at π v = Some u → ∃ v', set_at π x v = Some v'.
Proof.
  revert v. induction π as [|s π IH]; intros v; simpl; [by eexists |].
  destruct (get1 s v) as [v1|]; [|done]. intros E. destruct (IH _ E) as [v' ->]. by eexists.
Qed.
Lemma get_set_at π x v v' : set_at π x v = Some v' → get_at π v' = Some x.
Proof.
  revert v v'. induction π as [|s π IH]; intros v v'; simpl; [by intros [= <-] |].
  destruct (get1 s v) as [v1|] eqn:E; [|done]. destruct (set_at π x v1) as [v2|] eqn:E2; [|done].
  intros [= <-]. erewrite get1_set1 by done. by eapply IH.
Qed.
Lemma set_set_at π x y v v' : set_at π x v = Some v' → set_at π y v' = set_at π y v.
Proof.
  revert v v'. induction π as [|s π IH]; intros v v'; simpl; [done |].
  destruct (get1 s v) as [v1|] eqn:E; [|done]. destruct (set_at π x v1) as [v2|] eqn:E2; [|done].
  intros [= <-]. erewrite get1_set1 by done. rewrite (IH _ _ E2).
  destruct (set_at π y v1); [|done]. by rewrite set1_set1.
Qed.
Lemma set_at_app π ρ x v u u' :
  get_at π v = Some u → set_at ρ x u = Some u' → set_at (π ++ ρ) x v = set_at π u' v.
Proof.
  revert v. induction π as [|s π IH]; intros v; simpl; [by intros [= ->] |].
  destruct (get1 s v) as [v1|]; [|done]. intros E E2. by rewrite (IH _ E E2).
Qed.

Definition extend (p : place) (ρ : list step) : place := (p.1, p.2 ++ ρ).

Lemma read_extend vs p ρ v : read vs p = Some v → read vs (extend p ρ) = get_at ρ v.
Proof.
  unfold read, extend. simpl. destruct (vs !! p.1) as [u|]; [|done]. intros E.
  by rewrite get_at_app, E.
Qed.
Lemma write_total vs p x v : read vs p = Some v → ∃ vs', write vs p x = Some vs'.
Proof.
  unfold read, write. destruct (vs !! p.1) as [u|]; [|done]. intros E.
  destruct (set_at_total _ x _ _ E) as [v' ->]. by eexists.
Qed.
Lemma read_write vs p x vs' : write vs p x = Some vs' → read vs' p = Some x.
Proof.
  unfold read, write. destruct (vs !! p.1) as [u|]; [|done]. destruct (set_at p.2 x u) eqn:E; [|done].
  intros [= <-]. rewrite lookup_insert_eq. by eapply get_set_at.
Qed.
Lemma write_write vs p x y vs' : write vs p x = Some vs' → write vs' p y = write vs p y.
Proof.
  unfold write. destruct (vs !! p.1) as [u|]; [|done]. destruct (set_at p.2 x u) eqn:E; [|done].
  intros [= <-]. rewrite lookup_insert_eq. erewrite set_set_at by done.
  destruct (set_at p.2 y u); [|done]. by rewrite insert_insert_eq.
Qed.
Lemma write_extend vs p ρ x v v' :
  read vs p = Some v → set_at ρ x v = Some v' → write vs (extend p ρ) x = write vs p v'.
Proof.
  unfold read, write, extend. simpl. destruct (vs !! p.1) as [u|]; [|done]. intros E E2.
  by rewrite (set_at_app _ _ _ _ _ _ E E2).
Qed.
End Values.
Arguments cval : clear implicits.

(** ** Statements *)
Record scope : Type := MkScope { item : option nat; elems : gmap Z place; iters : gmap Z place }.
#[export] Instance scope_eta : Eta scope := λ s, MkScope (item s) (elems s) (iters s).
Definition scope_new : scope := MkScope None ∅ ∅.

Definition shift (p : place) (j : nat) : option place :=
  match rev p.2 with
  | Idx i :: ρ => Some (p.1, rev ρ ++ [Idx (i + j)])
  | _ => None
  end.
Definition key_name (k : Z) : string := iterator k +:+ "_key".
Definition value_name (k : Z) : string := iterator k +:+ "_value".

(** The object an expression denotes, and the one a pointer expression points to. *)
Fixpoint eval (sc : scope) (e : expr) : option place :=
  let pointee (e : expr) : option place :=
    match e with
    | AddrOf e' => eval sc e'
    | _ => (λ p, extend p [Idx 0]) <$> eval sc e
    end in
  match e with
  | Var x => Some (x, [])
  | AddrOf _ => None
  | Deref e => pointee e
  | DerefAs _ e => pointee e
  | Item e =>
      match pointee e, item sc with Some p, Some i => shift p i | _, _ => None end
  | Elem k => elems sc !! k
  | Field e f => (λ p, extend p [Fld f]) <$> eval sc e
  | IterRef _ k => iters sc !! k
  | First _ k => (λ p, extend p [Fld "first"]) <$> (iters sc !! k)
  | Second _ k => (λ p, extend p [Fld "second"]) <$> (iters sc !! k)
  | Key _ k => Some (key_name k, [])
  | Value _ k => Some (value_name k, [])
  end.
Definition pointee (sc : scope) (e : expr) : option place := eval sc (Deref e).

Section Run.
Context {B : Type} `{PopBuffer B} {O : Type}.
(** [Serialize] of the objects, by their class, a new object of a class, what C++ makes of the
    text of a constant expression, and of an expression on the variables, and the marshalling
    procedures of the user: whether they pack, the value, the size. *)
Context (Serialize : string → bool → O → M B O) (new_object : string → O) (constant : string → Z).
Context (expression : gmap string (cval O) → string → Z)
  (procs : string → bool → cval O → Z → M B (cval O)).

Record cstate : Type := MkState { sizes : gmap string Z; vars : gmap string (cval O) }.

Definition mfail {A : Type} : M B A := mlift Stuck.
Definition need {A : Type} (o : option A) : M B A := match o with Some a => mret a | None => mfail end.

Definition extent (st : cstate) (n : count) : Z :=
  match n with
  | Given s => if decide (s = "1") then 1 else constant s
  | Counted x => default 0 (sizes st !! x)
  end.

(** [Pack(&x, n)] and [UnPack(&x, n)] with the overload of the type. *)
Definition pack_block (o : option prim) (vs : list (cval O)) (n : Z) : M B () :=
  match o with
  | Some t => let* l := need (map_option (as_prim t) vs) in Pack t l n
  | None => let* l := need (map_option as_string vs) in PackString l n
  end.
Definition unpack_block (o : option prim) (n : Z) : M B (list (cval O)) :=
  match o with
  | Some t => let* l := UnPack t n in mret (VPrim t <$> l)
  | None => let* l := UnPackString n in mret (VStr <$> l)
  end.

(** The [n] objects that start at a place. *)
Definition places (p : place) (n : nat) : option (list place) :=
  match n with 1%nat => Some [p] | _ => map_option (shift p) (seq 0 n) end.

Fixpoint write_all (vs : gmap string (cval O)) (l : list (place * cval O)) :
    option (gmap string (cval O)) :=
  match l with
  | [] => Some vs
  | (p, x) :: l' => match write vs p x with Some vs' => write_all vs' l' | None => None end
  end.

Definition move_block (pack : bool) (t : string) (p : place) (n : Z) (st : cstate) : M B cstate :=
  let* o := need (overload t) in
  let* ps := need (places p (Z.to_nat n)) in
  if pack then
    let* vs := need (map_option (read (vars st)) ps) in
    pack_block o vs n ;;; mret st
  else
    let* vs := unpack_block o n in
    if decide (length vs = length ps) then
      let* vars' := need (write_all (vars st) (zip ps vs)) in mret (MkState (sizes st) vars')
    else mfail.

(** A new value of a type: what the variables the broker declares and the elements [resize] adds
    hold. *)
Definition new_fields (new : DataType → option (cval O)) :
    list (DataType * string) → option (list (string * cval O)) :=
  fix fields l :=
    match l with
    | [] => Some []
    | (t', f) :: l' =>
        match new t', fields l' with
        | Some d, Some ds => Some ((f, d) :: ds)
        | _, _ => None
        end
    end.
Fixpoint new_value (t : DataType) : option (cval O) :=
  match t with
  | TBase n =>
      match overload n with
      | Some (Some p) => Some (VPrim p (zero p))
      | Some None => Some (VStr "")
      | None => None
      end
  | TEqual _ t' => new_value t'
  | TPtr _ _ _ _ => Some (VSeq [])
  | TArray _ cardinal t' =>
      match new_value t' with
      | Some d => Some (VSeq (replicate (Z.to_nat (constant (GetCardinalSize cardinal))) d))
      | None => None
      end
  | TStruct _ attributes =>
      VRec <$> new_fields new_value attributes
  | TSeqClass n _ => Some (VObj (new_object (or_null n)))
  | TClass n => Some (VObj (new_object n))
  | TTemplate _ _ => Some (VSeq [])
  | TVisited _ => None
  end.

Definition declare_local (x : string) (v : option (cval O)) (st : cstate) : option cstate :=
  match v with Some v => Some (MkState (sizes st) (<[x := v]> (vars st))) | None => None end.

(** [x.resize(n)] throws for a size no container has. *)
Definition resize_seq (p : place) (t : DataType) (n : Z) (st : cstate) : M B cstate :=
  if n <? 0 then mlift (Throw 10014 "std::length_error")
  else
    let* v := need (read (vars st) p) in
    let* l := need (as_seq v) in
    let* d := need (new_value t) in
    let* vars' := need (write (vars st) p
                (VSeq (take (Z.to_nat n) l ++ replicate (Z.to_nat n - length l) d))) in
    mret (MkState (sizes st) vars').

(** [x[key] = value] of a map: its entries are in the order of their insertion here. *)
Definition same_key (a b : cval O) : bool :=
  match a, b with
  | VStr s, VStr s' => bool_decide (s = s')
  | VPrim t v, VPrim t' v' => bool_decide (t = t') && bool_decide (host_enc t v = host_enc t' v')
  | _, _ => false
  end.
Definition has_key (key : cval O) (v : cval O) : bool :=
  match get1 (Fld "first") v with Some u => same_key u key | None => false end.
Fixpoint assign (key value : cval O) (l : list (cval O)) : list (cval O) :=
  match l with
  | [] => [VRec [("first", key); ("second", value)]]
  | v :: l' =>
      if has_key key v then set1 (Fld "second") value v :: l' else v :: assign key value l'
  end.

Fixpoint iterate {A : Type} (n i : nat) (f : nat → A → M B A) (st : A) : M B A :=
  match n with
  | 0%nat => mret st
  | S n' => let* st' := f i st in iterate n' (S i) f st'
  end.

Definition run_list (f : code → scope → cstate → M B cstate) :
    list code → scope → cstate → M B cstate :=
  fix run cs sc st :=
    match cs with
    | [] => mret st
    | c :: cs' => let* st' := f c sc st in run cs' sc st'
    end.

(** The elements of [pop_container]: none for a size that is not positive. *)
Definition allocate (n : Z) (t : DataType) : option (cval O) :=
  match new_value t with Some d => Some (VSeq (replicate (Z.to_nat n) d)) | None => None end.

(** The object itself for the argument [x] or [&x] of a procedure of the user. *)
Definition target (sc : scope) (e : expr) : option place :=
  match e with AddrOf e' => eval sc e' | _ => eval sc e end.

Fixpoint exec (pack : bool) (c : code) (sc : scope) (st : cstate) : M B cstate :=
  let run := run_list (exec pack) in
  match c with
  | Text _ => mret st
  | Block _ t e n => let* p := need (eval sc e) in move_block pack t p (extent st n) st
  | Serial _ cl e =>
      let* p := need (eval sc e) in
      let* v := need (read (vars st) p) in
      let* o := need (as_obj v) in
      let* o' := Serialize cl pack o in
      let* vars' := need (write (vars st) p (VObj o')) in
      mret (MkState (sizes st) vars')
  | SizeOf _ k e elem =>
      let* p := need (eval sc e) in
      if pack then
        let* v := need (read (vars st) p) in
        let* l := need (as_seq v) in
        let n := swrap 32 (zlen l) in
        Pack1 PInt n ;;; mret (MkState (<[size_name k := n]> (sizes st)) (vars st))
      else
        let* n := UnPack1 PInt in
        let st := MkState (<[size_name k := n]> (sizes st)) (vars st) in
        match elem with Some t => resize_seq p t n st | None => mret st end
  | Contents _ k t e =>
      let* p := need (eval sc e) in
      move_block pack t (extend p [Idx 0]) (extent st (Counted (size_name k))) st
  | ForItem _ n body _ =>
      iterate (Z.to_nat (extent st n)) 0 (λ i st, run body (sc <| item := Some i |>) st) st
  | ForElem _ k n e body _ =>
      let* p := need (pointee (sc <| elems := delete k (elems sc) |>) e) in
      iterate (Z.to_nat (extent st n)) 0
        (λ i st, let* q := need (shift p i) in run body (sc <| elems := <[k := q]> (elems sc) |>) st) st
  | ForIter _ k e body _ =>
      let* p := need (eval sc e) in
      let* v := need (read (vars st) p) in
      let* l := need (as_seq v) in
      iterate (length l) 0
        (λ i st, run body (sc <| iters := <[k := extend p [Idx i]]> (iters sc) |>) st) st
  | Locals _ k t0 t1 =>
      let* st := need (declare_local (key_name k) (new_value t0) st) in
      need (declare_local (value_name k) (new_value t1) st)
  | ForEntries _ k e body _ =>
      let* p := need (eval sc e) in
      if pack then
        let* v := need (read (vars st) p) in
        let* l := need (as_seq v) in
        iterate (length l) 0
          (λ i st, run body (sc <| iters := <[k := extend p [Idx i]]> (iters sc) |>) st) st
      else
        let* vars' := need (write (vars st) p (VSeq [])) in
        iterate (Z.to_nat (extent st (Counted (size_name k)))) 0
          (λ i st,
             let* st := run body sc st in
             let* key := need (read (vars st) (key_name k, [])) in
             let* value := need (read (vars st) (value_name k, [])) in
             let* v := need (read (vars st) p) in
             let* l := need (as_seq v) in
             let* vars' := need (write (vars st) p (VSeq (assign key value l))) in
             mret (MkState (sizes st) vars'))
          (MkState (sizes st) vars')
  | SizeParam _ x n =>
      if pack then
        let z := swrap 32 (expression (vars st) n) in
        Pack1 PInt z ;;; mret (MkState (<[x := z]> (sizes st)) (vars st))
      else
        let* z := UnPack1 PInt in mret (MkState (<[x := z]> (sizes st)) (vars st))
  | LocalVar _ x t => need (declare_local x (new_value t) st)
  | Allocate _ x n t =>
      let z := match n with Given s => expression (vars st) s | Counted _ => extent st n end in
      need (declare_local x (allocate z t) st)
  | UserProc _ proc e n =>
      let* p := need (target sc e) in
      let* v := need (read (vars st) p) in
      let* v' := procs proc pack v (match n with Some n => extent st n | None => 0 end) in
      let* vars' := need (write (vars st) p v') in
      mret (MkState (sizes st) vars')
  end.

Definition run (pack : bool) : list code → scope → cstate → M B cstate := run_list (exec pack).
End Run.
Arguments cstate : clear implicits.

(** ** Typing *)

(** The induction a tree of types needs. *)
Section Induction.
Context (P : DataType → Prop)
  (Hbase : ∀ n, P (TBase n)) (Hequal : ∀ n t, P t → P (TEqual n t))
  (Hptr : ∀ n k t cp, P t → P (TPtr n k t cp)) (Harray : ∀ n c t, P t → P (TArray n c t))
  (Hstruct : ∀ n l, Forall (λ a, P a.1) l → P (TStruct n l))
  (Hseq : ∀ n l, P (TSeqClass n l)) (Htemplate : ∀ n l, Forall (λ a, P a.1) l → P (TTemplate n l))
  (Hclass : ∀ n, P (TClass n)) (Hvisited : ∀ n, P (TVisited n)).
Fixpoint DataType_rect' (t : DataType) : P t :=
  let fix all {X : Type} (l : list (DataType * X)) : Forall (λ a, P a.1) l :=
    match l with
    | [] => Forall_nil_2 _
    | a :: l' => Forall_cons_2 _ a l' (DataType_rect' a.1) (all l')
    end in
  match t with
  | TBase n => Hbase n
  | TEqual n t => Hequal n t (DataType_rect' t)
  | TPtr n k t cp => Hptr n k t cp (DataType_rect' t)
  | TArray n c t => Harray n c t (DataType_rect' t)
  | TStruct n l => Hstruct n l (all l)
  | TSeqClass n l => Hseq n l
  | TTemplate n l => Htemplate n l (all l)
  | TClass n => Hclass n
  | TVisited n => Hvisited n
  end.
End Induction.

Section Typing.
Context {O : Type} (constant : string → Z) (deliverable : string → O → Prop).

Definition fields_rel (R : DataType → cval O → Prop) :
    list (DataType * string) → list (string * cval O) → Prop :=
  fix go attributes l :=
    match attributes, l with
    | [], [] => True
    | (t, f) :: attributes', (g, v) :: l' => f = g ∧ R t v ∧ go attributes' l'
    | _, _ => False
    end.

(** The values of a type. *)
Fixpoint has_type (t : DataType) (v : cval O) : Prop :=
  match t with
  | TBase n =>
      match overload n with
      | Some (Some p) => ∃ x, v = VPrim p x
      | Some None => ∃ s, v = VStr s
      | None => False
      end
  | TEqual _ t' => has_type t' v
  | TPtr _ _ t' _ => ∃ l, v = VSeq l ∧ Forall (has_type t') l
  | TArray _ cardinal t' =>
      ∃ l, v = VSeq l ∧ zlen l = constant (GetCardinalSize cardinal) ∧ Forall (has_type t') l
  | TStruct _ attributes => ∃ l, v = VRec l ∧ fields_rel has_type attributes l
  | TSeqClass _ _ | TClass _ => ∃ o, v = VObj o
  | TTemplate n elements =>
      ∃ l, v = VSeq l ∧
        match elements with
        | [] => False
        | (t0, _) :: others =>
            if is_map n then
              match others with
              | [] => False
              | (t1, _) :: _ =>
                  Forall (λ u, ∃ a b, u = VRec [("first", a); ("second", b)] ∧
                                      has_type t0 a ∧ has_type t1 b) l
              end
            else Forall (has_type t0) l
        end
  | TVisited _ => False
  end.

(** A block of values a message can hold: the buffers read back no more than four booleans. *)
Definition block_fits (t : DataType) (l : list (cval O)) : Prop :=
  match t with
  | TBase n =>
      match overload n with
      | Some (Some p) => wire_width p * zlen l ≤ int_max ∧ (p = PBool → (length l ≤ 4)%nat)
      | _ => True
      end
  | _ => True
  end.

(** The values a message can hold. *)
Fixpoint fits (t : DataType) (v : cval O) : Prop :=
  match t with
  | TBase _ =>
      match v with VPrim p x => val_ok p x = true | VStr s => string_ok s | _ => True end
  | TEqual _ t' => fits t' v
  | TPtr _ _ t' _ | TArray _ _ t' =>
      match v with VSeq l => zlen l ≤ int_max ∧ block_fits t' l ∧ Forall (fits t') l | _ => True end
  | TStruct _ attributes => match v with VRec l => fields_rel fits attributes l | _ => True end
  | TSeqClass n _ => match v with VObj o => deliverable (or_null n) o | _ => True end
  | TClass n => match v with VObj o => deliverable n o | _ => True end
  | TTemplate _ elements =>
      match v, elements with
      | VSeq l, (t0, _) :: _ => zlen l ≤ int_max ∧ block_fits t0 l ∧ Forall (fits t0) l
      | _, _ => True
      end
  | TVisited _ => True
  end.
End Typing.

(** The types whose generated code is right: no pointer inside, which the receiver would follow
    before it is set; primitive types both buffers can carry; and no array of structures within an
    array of structures ([loops] says whether one is allowed), whose loops use one name. *)
Fixpoint plain (loops : bool) (t : DataType) : bool :=
  match t with
  | TBase n =>
      match overload n with
      | Some (Some p) => bool_decide (p ≠ PLong) && bool_decide (p ≠ PULong)
      | Some None => true
      | None => false
      end
  | TEqual _ t' => plain loops t'
  | TPtr _ _ _ _ => false
  | TArray _ cardinal t' =>
      bool_decide (GetCardinalSize cardinal ≠ "1") &&
      match t' with
      | TBase _ => plain loops t'
      | _ => negb (IsStandardType t') && loops && plain false t'
      end
  | TStruct _ attributes => forallb (λ a, plain loops a.1) attributes && bool_decide (NoDup attributes.*2)
  | TSeqClass _ _ | TClass _ => true
  | TTemplate n elements =>
      match elements with
      | [] => false
      | (t0, _) :: _ =>
          negb (is_map n) &&
          match t0 with
          | TBase _ => plain loops t0
          | _ => negb (is_vector n && IsStandardType t0) && plain loops t0
          end
      end
  | TVisited _ => false
  end.

(** Names the loops of arrays give. *)
Fixpoint no_elem (e : expr) : bool :=
  match e with
  | Elem _ => false
  | AddrOf e | Deref e | DerefAs _ e | Item e | Field e _ => no_elem e
  | _ => true
  end.

Lemma overload_std n o : overload n = Some o → n ∈ stdType.
Proof.
  unfold overload. intros H.
  repeat (destruct (decide _) as [Hn|_] in H;
    [first [subst n | repeat (apply elem_of_cons in Hn as [->|Hn]); [..|by apply elem_of_nil in Hn]];
     apply (bool_decide_unpack _); vm_compute; exact I|]).
  done.
Qed.
Lemma overload_standard n o : overload n = Some o → IsStandardType (TBase n) = true.
Proof. intros H. unfold IsStandardType. simpl. by apply bool_decide_eq_true, overload_std with o. Qed.
Lemma overload_not_void n o : overload n = Some o → bool_decide (n = "void") = false.
Proof. intros H. apply bool_decide_eq_false. intros ->. done. Qed.

(** ** Blocks *)
Section BlockCodec.
Context {B : Type} `{PopBufferLaws B} {O : Type}.

Lemma need_w {X Y A : Type} (o : option X) (w2 : X → M B Y) (r : M B A) x y a :
  o = Some x → codec (w2 x) y r a → codec (mbind (need o) w2) y r a.
Proof. intros ->. apply codec_ret_w. Qed.
Lemma need_r {X A C : Type} (w : M B X) (o : option A) (r2 : A → M B C) x a c :
  o = Some a → codec w x (r2 a) c → codec w x (mbind (need o) r2) c.
Proof.
  intros -> (bs & W & R). exists bs. split; [done |]. exact (reads_bind (mret a) r2 [] bs a c (reads_ret a) R).
Qed.

Lemma as_prims t (l : list (val t)) : map_option (as_prim (O := O) t) (VPrim t <$> l) = Some l.
Proof.
  rewrite (map_option_fmap (VPrim t) (as_prim t)); [done |]. apply Forall_forall. intros x _. simpl.
  destruct (decide (t = t)) as [e|]; [|done]. by rewrite (proof_irrel e eq_refl).
Qed.
Lemma as_strings (l : list string) : map_option (as_string (O := O)) (VStr <$> l) = Some l.
Proof. apply map_option_fmap, Forall_forall. done. Qed.

(** The overloads both buffers read back. *)
Definition carried (o : option prim) : Prop :=
  match o with Some p => p ≠ PLong ∧ p ≠ PULong | None => True end.
Definition scalar (o : option prim) (v : cval O) : Prop :=
  match o with
  | Some p => ∃ x, v = VPrim p x ∧ val_ok p x = true
  | None => ∃ s, v = VStr s ∧ string_ok s
  end.

Lemma scalars_prim p (l : list (cval O)) :
  Forall (scalar (Some p)) l → ∃ xs, l = VPrim p <$> xs ∧ Forall (λ x, val_ok p x = true) xs.
Proof.
  induction 1 as [|v l (x & -> & Hx) _ (xs & -> & Hxs)]; [by exists [] |].
  exists (x :: xs). split; [done | by constructor].
Qed.
Lemma scalars_string (l : list (cval O)) :
  Forall (scalar None) l → ∃ ss, l = VStr <$> ss ∧ Forall string_ok ss.
Proof.
  induction 1 as [|v l (s & -> & Hs) _ (ss & -> & Hss)]; [by exists [] |].
  exists (s :: ss). split; [done | by constructor].
Qed.

Lemma pack_block_codec o (l : list (cval O)) :
  carried o → Forall (scalar o) l →
  match o with Some p => wire_width p * zlen l ≤ int_max ∧ (p = PBool → (length l ≤ 4)%nat) | None => True end →
  codec (pack_block o l (zlen l)) () (unpack_block o (zlen l)) l.
Proof.
  intros Ho Hl Hf. destruct o as [p|].
  - destruct (scalars_prim p l Hl) as (xs & -> & Hxs). destruct Ho, Hf as [Hw Hb].
    rewrite length_fmap in *.
    eapply need_w; [apply as_prims |].
    eapply (codec_post _ _ (λ vs, VPrim p <$> vs)); [|done].
    apply codec_prim; [by apply admissible_intro | done].
  - destruct (scalars_string l Hl) as (ss & -> & Hss). rewrite length_fmap.
    eapply need_w; [apply as_strings |].
    eapply (codec_post _ _ (λ vs, VStr <$> vs)); [by apply codec_strings | done].
Qed.

Lemma move_block_codec n o p1 p2 (l : list (cval O)) ps1 ps2 st1 st2 vs2 m :
  overload n = Some o → carried o → m = zlen l → Forall (scalar o) l →
  match o with Some p => wire_width p * zlen l ≤ int_max ∧ (p = PBool → (length l ≤ 4)%nat) | None => True end →
  places p1 (length l) = Some ps1 → places p2 (length l) = Some ps2 → length ps2 = length l →
  map_option (read (vars st1)) ps1 = Some l → write_all (vars st2) (zip ps2 l) = Some vs2 →
  codec (move_block true n p1 m st1) st1 (move_block false n p2 m st2) (MkState (sizes st2) vs2).
Proof.
  intros Ho Hc -> Hl Hf H1 H2 Hlen Hr Hw. unfold move_block.
  assert (Hn : Z.to_nat (zlen l) = length l) by apply Nat2Z.id.
  eapply need_w; [exact Ho |]. eapply need_r; [exact Ho |].
  eapply need_w; [by rewrite Hn |]. eapply need_r; [by rewrite Hn |].
  eapply need_w; [exact Hr |]. cbv beta iota.
  eapply codec_bind; [by apply pack_block_codec |]. cbv beta.
  rewrite decide_True by done. eapply need_r; [exact Hw |]. apply codec_ret.
Qed.

(** *** The elements of a sequence *)
Lemma shift_idx p i j : shift (extend p [Idx i]) j = Some (extend p [Idx (i + j)]).
Proof. unfold shift, extend. simpl. rewrite rev_app_distr. simpl. by rewrite rev_involutive. Qed.

Definition elements (p : place) (i n : nat) : list place := (λ j, extend p [Idx j]) <$> seq i n.

Lemma places_elements p n : places (extend p [Idx 0]) n = Some (elements p 0 n).
Proof.
  assert (Hgen : map_option (shift (extend p [Idx 0])) (seq 0 n) = Some (elements p 0 n)).
  { generalize 0%nat at 2 3. induction n as [|n IH]; intros i; simpl; [done |].
    rewrite shift_idx. simpl. by rewrite IH. }
  destruct n as [|[|n]]; [done | | exact Hgen]. done.
Qed.

Lemma read_elements vs p (pre rest : list (cval O)) :
  read vs p = Some (VSeq (pre ++ rest)) →
  map_option (read vs) (elements p (length pre) (length rest)) = Some rest.
Proof.
  revert pre. induction rest as [|v rest IH]; intros pre Hr; [done |]. cbn.
  rewrite (read_extend _ _ _ _ Hr). cbn. rewrite list_lookup_middle by done. cbn.
  change (S (length pre)) with (1 + length pre)%nat.
  replace (1 + length pre)%nat with (length (pre ++ [v])) by (rewrite length_app; simpl; lia).
  unfold elements in IH. by rewrite IH by (by rewrite <- app_assoc).
Qed.

Lemma write_element vs p (pre rest : list (cval O)) w x :
  read vs p = Some (VSeq (pre ++ w :: rest)) →
  write vs (extend p [Idx (length pre)]) x = write vs p (VSeq (pre ++ x :: rest)).
Proof.
  intros Hr. apply (write_extend _ _ _ _ _ _ Hr). cbn. rewrite list_lookup_middle by done.
  by rewrite insert_app_r_alt, Nat.sub_diag by done.
Qed.

Lemma set_at_same π (u v : cval O) : get_at π u = Some v → set_at π v u = Some u.
Proof.
  revert u. induction π as [|s π IH]; intros u; simpl; [done |].
  destruct (get1 s u) as [u1|] eqn:E; [|done]. intros Hg. rewrite (IH _ Hg). f_equal.
  destruct s as [i|f], u as [| |l|l|]; simpl in *; try done; f_equal.
  - by apply list_insert_id.
  - clear -E. induction l as [|[g w] l IH]; simpl in *; [done |].
    destruct (decide (g = f)); [by simplify_eq | by rewrite IH].
Qed.
Lemma write_same vs p (v : cval O) : read vs p = Some v → write vs p v = Some vs.
Proof.
  unfold read, write. destruct (vs !! p.1) as [u|] eqn:E; [|done]. intros Hg.
  rewrite (set_at_same _ _ _ Hg). by rewrite insert_id.
Qed.

Lemma write_elements vs p (pre rest xs : list (cval O)) :
  read vs p = Some (VSeq (pre ++ rest)) → length rest = length xs →
  write_all vs (zip (elements p (length pre) (length xs)) xs) = write vs p (VSeq (pre ++ xs)).
Proof.
  revert vs pre rest. induction xs as [|x xs IH]; intros vs pre rest Hr Hlen.
  { destruct rest; [|done]. cbn. symmetry. by apply write_same. }
  destruct rest as [|w rest]; [done |]. cbn. rewrite (write_element _ _ _ _ _ _ Hr).
  destruct (write_total _ _ (VSeq (pre ++ x :: rest)) _ Hr) as [vs' E]. rewrite E.
  change (S (length pre)) with (1 + length pre)%nat.
  replace (1 + length pre)%nat with (length (pre ++ [x])) by (rewrite length_app; simpl; lia).
  unfold elements in IH. rewrite (IH vs' (pre ++ [x]) rest).
  - rewrite <- app_assoc. by apply (write_write _ _ _ _ _ E).
  - rewrite <- app_assoc. by eapply read_write.
  - by injection Hlen.
Qed.
End BlockCodec.

(** ** [DeMarshal] reads what [Marshal] writes *)
Section RunCodec.
Context {B : Type} `{PopBufferLaws B} {O : Type}.
Context (Serialize : string → bool → O → M B O) (new_object : string → O) (constant : string → Z).
Context (deliverable : string → O → Prop).
(** C++ takes no array of a negative size. *)
Context (Hconstant : ∀ s, 0 ≤ constant s).
Context (expression : gmap string (cval O) → string → Z)
  (procs : string → bool → cval O → Z → M B (cval O)).
(** An object that can be sent is read back, whatever the receiving object was. *)
Context (Hserial : ∀ cl o o', deliverable cl o → codec (Serialize cl true o) o (Serialize cl false o') o).

#[local] Abbreviation run := (run Serialize new_object constant expression procs).
#[local] Abbreviation exec := (exec Serialize new_object constant expression procs).
#[local] Abbreviation has_type := (has_type constant).
#[local] Abbreviation fits := (fits deliverable).

Lemma codec_ext {X A : Type} (w w' : M B X) (r r' : M B A) x a :
  (∀ b, w b = w' b) → (∀ b, r b = r' b) → codec w x r a → codec w' x r' a.
Proof.
  intros Hw Hr (bs & W & R). exists bs. split.
  - intros b. rewrite <- Hw. apply W.
  - intros b rest. rewrite <- Hr. apply R.
Qed.

Lemma run_app pack c1 c2 sc st b :
  run pack (c1 ++ c2) sc st b = (let* st' := run pack c1 sc st in run pack c2 sc st') b.
Proof.
  revert st b. induction c1 as [|c c1 IH]; intros st b; [done |]. cbn.
  unfold mbind at 1 2 3. destruct (exec pack c sc st b) as [[st' b']| |]; cbn; [|done..]. apply IH.
Qed.

Lemma run_cons_codec c1 c2 cs1 cs2 sc1 sc2 (st1 st2 x y x' y' : cstate O) :
  codec (exec true c1 sc1 st1) x (exec false c2 sc2 st2) y →
  codec (run true cs1 sc1 x) x' (run false cs2 sc2 y) y' →
  codec (run true (c1 :: cs1) sc1 st1) x' (run false (c2 :: cs2) sc2 st2) y'.
Proof. intros H1 H2. exact (codec_bind _ _ _ _ _ _ _ _ H1 H2). Qed.
Lemma run_text_codec s1 s2 cs1 cs2 sc1 sc2 (st1 st2 x y : cstate O) :
  codec (run true cs1 sc1 st1) x (run false cs2 sc2 st2) y →
  codec (run true (Text s1 :: cs1) sc1 st1) x (run false (Text s2 :: cs2) sc2 st2) y.
Proof. apply run_cons_codec, codec_ret. Qed.
Lemma run_nil_codec sc1 sc2 (st1 st2 : cstate O) :
  codec (run true [] sc1 st1) st1 (run false [] sc2 st2) st2.
Proof. apply codec_ret. Qed.
Lemma run_app_codec c1 c2 cs1 cs2 sc1 sc2 (st1 st2 x y x' y' : cstate O) :
  codec (run true c1 sc1 st1) x (run false c2 sc2 st2) y →
  codec (run true cs1 sc1 x) x' (run false cs2 sc2 y) y' →
  codec (run true (c1 ++ cs1) sc1 st1) x' (run false (c2 ++ cs2) sc2 st2) y'.
Proof.
  intros H1 H2. eapply codec_ext; [intros; symmetry; apply run_app.. |]. by eapply codec_bind.
Qed.

Lemma iterate_codec {A : Type} (R : nat → A → A → Prop) n i (f1 f2 : nat → A → M B A) s1 s2 :
  (∀ j s1 s2, (i ≤ j < i + n)%nat → R j s1 s2 →
     ∃ s1' s2', R (S j) s1' s2' ∧ codec (f1 j s1) s1' (f2 j s2) s2') →
  R i s1 s2 →
  ∃ s1' s2', R (i + n)%nat s1' s2' ∧ codec (iterate n i f1 s1) s1' (iterate n i f2 s2) s2'.
Proof.
  revert i s1 s2. induction n as [|n IH]; intros i s1 s2 Hf Hr.
  - exists s1, s2. rewrite Nat.add_0_r. split; [done | apply codec_ret].
  - destruct (Hf i s1 s2) as (t1 & t2 & Ht & Hc); [lia | done |].
    destruct (IH (S i) t1 t2) as (u1 & u2 & Hu & Hd); [intros; apply Hf; [lia | done] | done |].
    exists u1, u2. replace (i + S n)%nat with (S i + n)%nat by lia. split; [done |].
    by eapply codec_bind.
Qed.

(** A loop over the elements of a sequence. *)
Lemma sequence_codec V1 p2 (l l2 : list (cval O)) (f1 f2 : nat → cstate O → M B (cstate O)) st1 st2 :
  (∀ j x w s1 s2, l !! j = Some x → l2 !! j = Some w → vars s1 = V1 →
     read (vars s2) (extend p2 [Idx j]) = Some w →
     ∃ z1 z2 vs, write (vars s2) (extend p2 [Idx j]) x = Some vs ∧
       codec (f1 j s1) (MkState z1 V1) (f2 j s2) (MkState z2 vs)) →
  vars st1 = V1 → read (vars st2) p2 = Some (VSeq l2) → length l2 = length l →
  ∃ z1 z2 vs, write (vars st2) p2 (VSeq l) = Some vs ∧
    codec (iterate (length l) 0 f1 st1) (MkState z1 V1) (iterate (length l) 0 f2 st2) (MkState z2 vs).
Proof.
  intros Hf Hv Hr Hlen.
  destruct (iterate_codec (λ j s1 s2, vars s1 = V1 ∧
      write (vars st2) p2 (VSeq (take j l ++ drop j l2)) = Some (vars s2))
    (length l) 0 f1 f2 st1 st2) as (s1 & s2 & [H1 H2] & Hc).
  - intros j s1 s2 Hj [H1 H2].
    destruct (lookup_lt_is_Some_2 l j) as [x Ex]; [lia |].
    destruct (lookup_lt_is_Some_2 l2 j) as [w Ew]; [lia |].
    pose proof (read_write _ _ _ _ H2) as Hr2. rewrite (drop_S _ _ _ Ew) in Hr2, H2.
    assert (Hl : length (take j l) = j) by (rewrite length_take; lia).
    destruct (Hf j x w s1 s2) as (z1 & z2 & vs & Hw & Hc); [done.. | |].
    { rewrite (read_extend _ _ _ _ Hr2). cbn. rewrite <- Hl at 3. by rewrite list_lookup_middle. }
    exists (MkState z1 V1), (MkState z2 vs). split; [split; [done |] | done]. simpl.
    rewrite <- Hl in Hw at 1. rewrite (write_element _ _ _ _ _ _ Hr2) in Hw.
    rewrite (write_write _ _ _ _ _ H2) in Hw. rewrite <- Hw.
    by rewrite (take_S_r _ _ _ Ex), <- app_assoc.
  - simpl. split; [done |]. rewrite drop_0. by apply write_same.
  - destruct s1 as [z1 V], s2 as [z2 vs]. simpl in *. subst V. exists z1, z2, vs.
    split; [|done]. by rewrite take_ge, drop_ge, app_nil_r in H2 by lia.
Qed.

(** New values have their type. *)
Lemma new_value_typed t loops :
  plain loops t = true → ∃ d, new_value new_object constant t = Some d ∧ has_type t d.
Proof.
  revert loops. induction t as [n|n t IH|n k t cp IH|n c t IH|n l IH|n l|n l IH|n|n] using DataType_rect';
    intros loops Hp; cbn [plain] in Hp; cbn [new_value]; try done.
  - simpl. destruct (overload n) as [[p|]|]; [..|done]; by eexists; split; [done | eexists].
  - by apply (IH loops).
  - apply andb_true_iff in Hp as [_ Hp].
    assert (Hp' : ∃ b, plain b t = true).
    { destruct t; [by exists loops|..]; (apply andb_true_iff in Hp as [_ Hp]; by exists false). }
    destruct Hp' as [b Hb]. destruct (IH b Hb) as (d & -> & Hd). eexists. split; [done |].
    eexists. split_and!; [done | | by apply Forall_replicate].
    rewrite length_replicate. by apply Z2Nat.id.
  - apply andb_true_iff in Hp as [Hp _].
    assert (Hl : ∃ ds, new_fields (new_value new_object constant) l = Some ds ∧
                       fields_rel has_type l ds).
    { induction IH as [|[t f] l Ht _ IHl]; cbn in Hp |- *; [by exists [] |].
      apply andb_true_iff in Hp as [Hp1 Hp2]. destruct (Ht loops Hp1) as (d & E & Hd). cbn in E. rewrite E.
      destruct (IHl Hp2) as (ds & -> & Hds). eexists. split; [done |]. done. }
    destruct Hl as (ds & -> & Hds). eexists. split; [done |]. by eexists.
  - eexists. split; [done |]. by eexists.
  - eexists. split; [done |]. exists []. split; [done |].
    destruct l as [|[t0 r] others]; [done |]. destruct (is_map n); [done |]. constructor.
  - eexists. split; [done |]. by eexists.
Qed.

Lemma has_type_base n o v : overload n = Some o → has_type (TBase n) v → fits (TBase n) v → scalar o v.
Proof.
  cbn. intros ->. destruct o as [p|]; intros [x ->] Hf; by exists x.
Qed.
Lemma plain_base b n : plain b (TBase n) = true → ∃ o, overload n = Some o ∧ carried o.
Proof.
  cbn. destruct (overload n) as [[p|]|] eqn:E; [..|done]; [|by eexists].
  intros [H1%bool_decide_eq_true H2%bool_decide_eq_true]%andb_true_iff. by eexists.
Qed.

Lemma eval_without sc k e :
  no_elem e = true → eval (sc <| elems := delete k (elems sc) |>) e = eval sc e.
Proof.
  intros Hn. set (sc' := sc <| elems := delete k (elems sc) |>).
  cut (eval sc' e = eval sc e ∧ pointee sc' e = pointee sc e); [by intros [? _] |]. revert Hn.
  induction e as [x|e IH|e IH|t e IH|e IH|k'|e IH f|d k'|d k'|d k'|d k'|d k']; intros Hn; cbn in Hn;
    try done; try destruct (IH Hn) as [Ev Ep].
  - split; [done | exact Ev].
  - split; [exact Ep |].
    change ((λ p, extend p [Idx 0]) <$> pointee sc' e = (λ p, extend p [Idx 0]) <$> pointee sc e).
    by rewrite Ep.
  - split; [exact Ep |].
    change ((λ p, extend p [Idx 0]) <$> pointee sc' e = (λ p, extend p [Idx 0]) <$> pointee sc e).
    by rewrite Ep.
  - assert (E : eval sc' (Item e) = eval sc (Item e)).
    { change (match pointee sc' e, item sc' with Some p, Some i => shift p i | _, _ => None end
              = match pointee sc e, item sc with Some p, Some i => shift p i | _, _ => None end).
      by rewrite Ep. }
    split; [exact E |]. unfold pointee. cbn in E |- *. by rewrite E.
  - unfold pointee. cbn. by rewrite Ev.
Qed.
Lemma pointee_eval sc e p : eval sc e = Some p → pointee sc e = Some (extend p [Idx 0]).
Proof.
  intros E. assert (Hp : pointee sc e = match e with AddrOf e' => eval sc e'
    | _ => (λ p, extend p [Idx 0]) <$> eval sc e end) by by destruct e.
  rewrite Hp. destruct e; [|done|..]; by rewrite E.
Qed.

Definition gen_ok (t : DataType) : Prop :=
  ∀ loops buf1 buf2 e1 e2 k1 k2 c1 c2 k1' k2' sc1 sc2 st1 st2 p1 p2 v w,
  plain loops t = true → (loops = true → no_elem e1 = true ∧ no_elem e2 = true) →
  gen true buf1 t e1 None k1 = Some (c1, k1') → gen false buf2 t e2 None k2 = Some (c2, k2') →
  eval sc1 e1 = Some p1 → eval sc2 e2 = Some p2 →
  read (vars st1) p1 = Some v → has_type t v → fits t v →
  read (vars st2) p2 = Some w → has_type t w →
  ∃ z1 z2 vs, write (vars st2) p2 v = Some vs ∧
    codec (run true c1 sc1 st1) (MkState z1 (vars st1)) (run false c2 sc2 st2) (MkState z2 vs).

(** Statements that do nothing on the wire around one that does. *)
Lemma run_framed a1 a2 c1 c2 b1 b2 sc1 sc2 (st1 st2 x y : cstate O) :
  codec (exec true c1 sc1 st1) x (exec false c2 sc2 st2) y →
  codec (run true [Text a1; c1; Text b1] sc1 st1) x (run false [Text a2; c2; Text b2] sc2 st2) y.
Proof.
  intros Hc. apply run_text_codec. eapply run_cons_codec; [exact Hc |].
  apply run_text_codec, run_nil_codec.
Qed.

Lemma gen_ok_base n : gen_ok (TBase n).
Proof.
  intros loops buf1 buf2 e1 e2 k1 k2 c1 c2 k1' k2' sc1 sc2 st1 st2 p1 p2 v w
    Hp _ E1 E2 P1 P2 R1 T1 F1 R2 T2.
  destruct (plain_base _ _ Hp) as (o & Ho & Hc). cbn [gen] in E1, E2. unfold gen_base in E1, E2.
  rewrite (overload_not_void _ _ Ho) in E1, E2. simplify_eq.
  destruct (write_total _ _ v _ R2) as [vs Hw]. exists (sizes st1), (sizes st2), vs.
  split; [done |]. replace (MkState (sizes st1) (vars st1)) with st1 by by destruct st1.
  apply run_framed. cbn [exec]. eapply need_w; [exact P1 |]. eapply need_r; [exact P2 |].
  apply (move_block_codec n o p1 p2 [v] [p1] [p2]); try done.
  - constructor; [|done]. by eapply has_type_base.
  - destruct o as [p|]; [|done]. split; [by destruct p | simpl; lia].
  - simpl. by rewrite R1.
  - simpl. by rewrite Hw.
Qed.

(** Objects that serialize themselves. *)
Lemma serial_codec t1 t2 cl e1 e2 sc1 sc2 st1 st2 p1 p2 o o' :
  eval sc1 e1 = Some p1 → eval sc2 e2 = Some p2 → deliverable cl o →
  read (vars st1) p1 = Some (VObj o) → read (vars st2) p2 = Some (VObj o') →
  ∃ z1 z2 vs, write (vars st2) p2 (VObj o) = Some vs ∧
    codec (exec true (Serial t1 cl e1) sc1 st1) (MkState z1 (vars st1))
          (exec false (Serial t2 cl e2) sc2 st2) (MkState z2 vs).
Proof.
  intros P1 P2 Hd R1 R2. destruct (write_total _ _ (VObj o) _ R2) as [vs Hw].
  exists (sizes st1), (sizes st2), vs. split; [done |]. cbn [exec].
  eapply need_w; [exact P1 |]. eapply need_r; [exact P2 |].
  eapply need_w; [exact R1 |]. eapply need_r; [exact R2 |].
  eapply need_w; [reflexivity |]. eapply need_r; [reflexivity |].
  eapply codec_bind; [by apply Hserial |]. cbv beta.
  eapply need_w; [by apply write_same |]. eapply need_r; [exact Hw |]. apply codec_ret.
Qed.

Lemma gen_ok_serial t tname cl b :
  (∀ pack buf e k, gen pack buf t e None k = Some (gen_serial pack buf tname cl b e, k)) →
  (∀ v : cval O, has_type t v → ∃ o, v = VObj o) → (∀ o, fits t (VObj o) → deliverable cl o) → gen_ok t.
Proof.
  intros Hg Ht Hf loops buf1 buf2 e1 e2 k1 k2 c1 c2 k1' k2' sc1 sc2 st1 st2 p1 p2 v w
    _ _ E1 E2 P1 P2 R1 T1 F1 R2 T2.
  rewrite Hg in E1, E2. simplify_eq. destruct (Ht _ T1) as [o ->], (Ht _ T2) as [o' ->].
  edestruct (serial_codec (serialize true buf1 cl (print_expr e1) +:+ if b then nl else "")
    (serialize false buf2 cl (print_expr e2) +:+ if b then nl else "") cl e1 e2)
    as (z1 & z2 & vs & Hw & Hc); [exact P1 | exact P2 | by apply Hf | exact R1 | exact R2 |].
  exists z1, z2, vs. split; [done |]. by apply run_framed.
Qed.

(** Structures: the attributes in turn. *)
Lemma field_middle f x (pre rest : list (string * cval O)) :
  f ∉ pre.*1 → field f (pre ++ (f, x) :: rest) = Some x.
Proof.
  induction pre as [|[g u] pre IH]; cbn; [by rewrite decide_True |].
  intros [Hne Hn]%not_elem_of_cons. by rewrite decide_False, IH.
Qed.
Lemma set_field_middle f x y (pre rest : list (string * cval O)) :
  f ∉ pre.*1 → set_field f y (pre ++ (f, x) :: rest) = pre ++ (f, y) :: rest.
Proof.
  induction pre as [|[g u] pre IH]; cbn; [by rewrite decide_True |].
  intros [Hne Hn]%not_elem_of_cons. by rewrite decide_False, IH.
Qed.

Lemma fields_codec l loops buf1 buf2 e1 e2 sc1 sc2 p1 p2 :
  Forall (λ a, gen_ok a.1) l → forallb (λ a, plain loops a.1) l = true →
  (loops = true → no_elem e1 = true ∧ no_elem e2 = true) →
  eval sc1 e1 = Some p1 → eval sc2 e2 = Some p2 →
  ∀ k1 k2 c1 c2 k1' k2' st1 st2 lv lw pre,
  NoDup (pre.*1 ++ l.*2) →
  gen_fields (λ t' e', gen true buf1 t' e' None) e1 l k1 = Some (c1, k1') →
  gen_fields (λ t' e', gen false buf2 t' e' None) e2 l k2 = Some (c2, k2') →
  read (vars st1) p1 = Some (VRec (pre ++ lv)) → fields_rel has_type l lv → fields_rel fits l lv →
  read (vars st2) p2 = Some (VRec (pre ++ lw)) → fields_rel has_type l lw →
  ∃ z1 z2 vs, write (vars st2) p2 (VRec (pre ++ lv)) = Some vs ∧
    codec (run true c1 sc1 st1) (MkState z1 (vars st1)) (run false c2 sc2 st2) (MkState z2 vs).
Proof.
  intros Hl Hp Hn P1 P2. induction Hl as [|[t f] l Ht _ IH];
    intros k1 k2 c1 c2 k1' k2' st1 st2 lv lw pre Hd E1 E2 R1 T1 F1 R2 T2; cbn in E1, E2.
  - destruct lv, lw; try done. simplify_eq. exists (sizes st1), (sizes st2), (vars st2).
    split; [by apply write_same |]. destruct st1, st2. apply run_nil_codec.
  - cbn in Hp. apply andb_true_iff in Hp as [Hp Hp'].
    destruct lv as [|[g v] lv]; [done |]. destruct lw as [|[g' w] lw]; [done |].
    cbn in T1, T2, F1. destruct T1 as (<- & T1 & T1'), T2 as (<- & T2 & T2'), F1 as (_ & F1 & F1').
    destruct (gen true buf1 t (Field e1 f) None k1) as [[a1 i1]|] eqn:G1; [|done].
    destruct (gen false buf2 t (Field e2 f) None k2) as [[a2 i2]|] eqn:G2; [|done].
    destruct (gen_fields _ e1 l i1) as [[b1 j1]|] eqn:H1; [|done].
    destruct (gen_fields _ e2 l i2) as [[b2 j2]|] eqn:H2; [|done]. simplify_eq.
    assert (Hf : f ∉ pre.*1).
    { apply NoDup_app in Hd as (_ & Hd & _). intros Hin. by apply (Hd f Hin), list_elem_of_here. }
    destruct (Ht loops buf1 buf2 (Field e1 f) (Field e2 f) k1 k2 a1 a2 i1 i2 sc1 sc2 st1 st2
      (extend p1 [Fld f]) (extend p2 [Fld f]) v w) as (z1 & z2 & vs & Hw & Hc); try done.
    { cbn. by rewrite P1. } { cbn. by rewrite P2. }
    { rewrite (read_extend _ _ _ _ R1). cbn. by rewrite field_middle. }
    { rewrite (read_extend _ _ _ _ R2). cbn. by rewrite field_middle. }
    assert (Hw' : write (vars st2) p2 (VRec (pre ++ (f, v) :: lw)) = Some vs).
    { rewrite <- Hw. symmetry. apply (write_extend _ _ _ _ _ _ R2). cbn.
      rewrite field_middle by done. by rewrite set_field_middle. }
    destruct (IH Hp' i1 i2 b1 b2 k1' k2' (MkState z1 (vars st1)) (MkState z2 vs) lv lw (pre ++ [(f, v)]))
      as (y1 & y2 & vs' & Hv & Hc'); try done.
    { by rewrite fmap_app, <- app_assoc. }
    { by rewrite <- app_assoc. }
    { rewrite <- app_assoc. by eapply read_write. }
    exists y1, y2, vs'. split; [|by eapply run_app_codec].
    rewrite <- app_assoc in Hv. cbn in Hv. by rewrite (write_write _ _ _ _ _ Hw') in Hv.
Qed.

Lemma gen_ok_struct n l : Forall (λ a, gen_ok a.1) l → gen_ok (TStruct n l).
Proof.
  intros Hl loops buf1 buf2 e1 e2 k1 k2 c1 c2 k1' k2' sc1 sc2 st1 st2 p1 p2 v w
    Hp Hn E1 E2 P1 P2 R1 T1 F1 R2 T2.
  cbn in Hp. apply andb_true_iff in Hp as [Hp Hd%bool_decide_eq_true].
  cbn in T1, T2, F1. destruct T1 as (lv & -> & T1), T2 as (lw & -> & T2).
  cbn [gen] in E1, E2. unfold gen_struct in E1, E2.
  destruct (gen_fields _ e1 l k1) as [[a1 i1]|] eqn:G1; [|done].
  destruct (gen_fields _ e2 l k2) as [[a2 i2]|] eqn:G2; [|done]. simplify_eq.
  destruct (fields_codec l loops buf1 buf2 e1 e2 sc1 sc2 p1 p2 Hl Hp Hn P1 P2
    k1 k2 a1 a2 k1' k2' st1 st2 lv lw []) as (z1 & z2 & vs & Hw & Hc); try done.
  exists z1, z2, vs. split; [done |]. apply run_text_codec. eapply run_app_codec; [exact Hc |].
  apply run_text_codec, run_nil_codec.
Qed.

(** Arrays. *)
Lemma plain_array loops n c t :
  plain loops (TArray n c t) = true →
  GetCardinalSize c ≠ "1" ∧
  ((∃ m, t = TBase m ∧ plain loops t = true) ∨
   (IsStandardType t = false ∧ loops = true ∧ plain false t = true)).
Proof.
  cbn [plain]. intros [Hc%bool_decide_eq_true Hp]%andb_true_iff. split; [done |].
  destruct t; [left; by eexists|..];
    (right; apply andb_true_iff in Hp as [[Hs%negb_true_iff Hl]%andb_true_iff Hp]; done).
Qed.

Lemma extent_given st c : c ≠ "1" → extent constant (O := O) st (Given c) = constant c.
Proof. intros Hc. cbn. by rewrite decide_False. Qed.

Lemma base_block m b (l : list (cval O)) :
  plain b (TBase m) = true → Forall (has_type (TBase m)) l → Forall (fits (TBase m)) l →
  block_fits (TBase m) l → ∃ o, overload m = Some o ∧ carried o ∧ Forall (scalar o) l ∧
    match o with Some p => wire_width p * zlen l ≤ int_max ∧ (p = PBool → (length l ≤ 4)%nat) | None => True end.
Proof.
  intros (o & Ho & Hc)%plain_base Ht Hf Hb. exists o. split_and!; [done | done | |].
  - apply Forall_forall. intros v Hv. rewrite Forall_forall in Ht, Hf.
    apply list_elem_of_In in Hv. eapply has_type_base; [done | |]; [apply Ht | apply Hf]; by apply list_elem_of_In.
  - cbn in Hb. by rewrite Ho in Hb.
Qed.

Lemma sequence_block m b p1 p2 (l l2 : list (cval O)) st1 st2 n :
  plain b (TBase m) = true → Forall (has_type (TBase m)) l → Forall (fits (TBase m)) l →
  block_fits (TBase m) l → n = zlen l → length l2 = length l →
  read (vars st1) p1 = Some (VSeq l) → read (vars st2) p2 = Some (VSeq l2) →
  ∃ vs, write (vars st2) p2 (VSeq l) = Some vs ∧
    codec (move_block true m (extend p1 [Idx 0]) n st1) st1
          (move_block false m (extend p2 [Idx 0]) n st2) (MkState (sizes st2) vs).
Proof.
  intros Hp Ht Hf Hb -> Hlen R1 R2.
  destruct (base_block m b l Hp Ht Hf Hb) as (o & Ho & Hc & Hs & Hw).
  destruct (write_total _ _ (VSeq l) _ R2) as [vs E]. exists vs. split; [done |].
  eapply move_block_codec; try done.
  - apply places_elements.
  - apply places_elements.
  - unfold elements. by rewrite length_fmap, length_seq.
  - apply (read_elements _ _ []). exact R1.
  - rewrite <- E. exact (write_elements _ _ [] l2 l R2 Hlen).
Qed.

Lemma gen_ok_array n c t : gen_ok t → gen_ok (TArray n c t).
Proof.
  intros IH loops buf1 buf2 e1 e2 k1 k2 c1 c2 k1' k2' sc1 sc2 st1 st2 p1 p2 v w
    Hp Hn E1 E2 P1 P2 R1 T1 F1 R2 T2.
  apply plain_array in Hp as (Hc & Hp).
  cbn in T1, T2, F1. destruct T1 as (l & -> & L1 & T1), T2 as (l2 & -> & L2 & T2), F1 as (Hl & Hb & F1).
  assert (Hlen : length l2 = length l) by lia.
  cbn [gen] in E1, E2. unfold gen_array in E1, E2. cbn [default] in E1, E2.
  assert (Ho : one_size (Given (GetCardinalSize c)) = false) by by apply bool_decide_eq_false.
  destruct Hp as [(m & -> & Hp)|(Hs & -> & Hp)].
  - destruct (plain_base _ _ Hp) as (o & Hov & _).
    rewrite (overload_standard _ _ Hov) in E1, E2. cbn [orb gen] in E1, E2. unfold gen_base in E1, E2.
    rewrite (overload_not_void _ _ Hov) in E1, E2. simplify_eq.
    destruct (sequence_block m loops p1 p2 l l2 st1 st2 (constant (GetCardinalSize c)))
      as (vs & Hw & Hcd); try done.
    exists (sizes st1), (sizes st2), vs. split; [done |].
    replace (MkState (sizes st1) (vars st1)) with st1 by by destruct st1.
    apply run_framed. cbn [exec default id].
    eapply need_w; [exact (pointee_eval _ _ _ P1) |]. eapply need_r; [exact (pointee_eval _ _ _ P2) |].
    by rewrite !extent_given.
  - destruct (Hn eq_refl) as [N1 N2]. rewrite Hs, Ho in E1, E2. cbn [orb] in E1, E2.
    destruct (gen true buf1 t (Elem k1) None k1) as [[b1 i1]|] eqn:G1; [|done].
    destruct (gen false buf2 t (Elem k2) None k2) as [[b2 i2]|] eqn:G2; [|done]. simplify_eq.
    destruct (sequence_codec (vars st1) p2 l l2
      (λ i st, let* q := need (shift (extend p1 [Idx 0]) i) in
               run true b1 (sc1 <| elems := <[k1 := q]> (elems sc1) |>) st)
      (λ i st, let* q := need (shift (extend p2 [Idx 0]) i) in
               run false b2 (sc2 <| elems := <[k2 := q]> (elems sc2) |>) st) st1 st2)
      as (z1 & z2 & vs & Hw & Hcd); try done.
    { intros j x w s1 s2 Ex Ew Hv Hr.
      assert (Hx : has_type t x ∧ fits t x ∧ has_type t w)
        by exact (conj (proj1 (Forall_lookup _ _) T1 j x Ex) (conj (proj1 (Forall_lookup _ _) F1 j x Ex)
          (proj1 (Forall_lookup _ _) T2 j w Ew))).
      destruct Hx as (Hx & Hfx & Htw).
      destruct (IH false buf1 buf2 (Elem k1) (Elem k2) k1 k2 b1 b2 i1 i2
        (sc1 <| elems := <[k1 := extend p1 [Idx j]]> (elems sc1) |>)
        (sc2 <| elems := <[k2 := extend p2 [Idx j]]> (elems sc2) |>) s1 s2
        (extend p1 [Idx j]) (extend p2 [Idx j]) x w) as (z1 & z2 & vs & Hw & Hcd); try done.
      { cbn. apply lookup_insert_eq. } { cbn. apply lookup_insert_eq. }
      { rewrite Hv, (read_extend _ _ _ _ R1). cbn. by rewrite Ex. }
      rewrite Hv in Hcd. exists z1, z2, vs. split; [done |].
      eapply need_w; [apply shift_idx |]. eapply need_r; [apply shift_idx |]. exact Hcd. }
    exists z1, z2, vs. split; [done |].
    eapply run_cons_codec; [|apply run_text_codec, run_nil_codec]. cbn [exec].
    eapply need_w; [apply pointee_eval; rewrite eval_without; [exact P1 | done] |].
    eapply need_r; [apply pointee_eval; rewrite eval_without; [exact P2 | done] |].
    rewrite !extent_given, <- L1 by done. rewrite Nat2Z.id. exact Hcd.
Qed.

(** Containers: the size, then the elements. *)
Lemma size_codec k1 k2 e1 e2 sc1 sc2 st1 st2 p1 p2 t loops (l l2 : list (cval O)) :
  plain loops t = true → eval sc1 e1 = Some p1 → eval sc2 e2 = Some p2 → zlen l ≤ int_max →
  read (vars st1) p1 = Some (VSeq l) → read (vars st2) p2 = Some (VSeq l2) → Forall (has_type t) l2 →
  ∃ l2' vs, length l2' = length l ∧ Forall (has_type t) l2' ∧
    write (vars st2) p2 (VSeq l2') = Some vs ∧
    ∀ t1 t2, codec (exec true (SizeOf t1 k1 e1 (Some t)) sc1 st1)
            (MkState (<[size_name k1 := zlen l]> (sizes st1)) (vars st1))
          (exec false (SizeOf t2 k2 e2 (Some t)) sc2 st2)
            (MkState (<[size_name k2 := zlen l]> (sizes st2)) vs).
Proof.
  intros Hp P1 P2 Hl R1 R2 T2. destruct (new_value_typed t loops Hp) as (d & Hd & Td).
  set (l2' := take (length l) l2 ++ replicate (length l - length l2) d).
  destruct (write_total _ _ (VSeq l2') _ R2) as [vs Hw]. exists l2', vs. unfold int_max in Hl.
  assert (Hi : in_sint 32 (zlen l) = true) by (apply in_sint32; lia).
  split_and!; [| |done|].
  - unfold l2'. rewrite length_app, length_take, length_replicate. lia.
  - apply Forall_app. split; [by apply Forall_take | by apply Forall_replicate].
  - intros t1 t2. cbn [exec]. eapply need_w; [exact P1 |]. eapply need_r; [exact P2 |].
    eapply need_w; [exact R1 |]. eapply need_w; [reflexivity |].
    rewrite swrap_small by done. eapply codec_bind; [by apply codec_int |]. cbv beta zeta.
    unfold resize_seq. rewrite (proj2 (Z.ltb_ge _ _)) by lia.
    eapply need_r; [exact R2 |]. eapply need_r; [reflexivity |]. eapply need_r; [exact Hd |].
    rewrite Nat2Z.id. eapply need_r; [exact Hw |]. apply codec_ret.
Qed.

Lemma plain_template loops n t0 r others :
  plain loops (TTemplate n ((t0, r) :: others)) = true →
  is_map n = false ∧ plain loops t0 = true ∧
  (is_vector n && IsStandardType t0 = true → ∃ m, t0 = TBase m).
Proof.
  cbn [plain]. intros [Hm%negb_true_iff Hp]%andb_true_iff. split; [done |].
  destruct t0; [split; [done | by eexists]|..];
    (apply andb_true_iff in Hp as [Hv%negb_true_iff Hp]; split; [done | by rewrite Hv]).
Qed.

Lemma gen_ok_template n l : Forall (λ a, gen_ok a.1) l → gen_ok (TTemplate n l).
Proof.
  intros Hall loops buf1 buf2 e1 e2 k1 k2 c1 c2 k1' k2' sc1 sc2 st1 st2 p1 p2 v w
    Hp Hn E1 E2 P1 P2 R1 T1 F1 R2 T2.
  destruct l as [|[t0 r] others]; [done |]. apply plain_template in Hp as (Hm & Hp & Hv).
  pose proof (Forall_inv Hall) as IH. cbn in IH. clear Hall.
  cbn [has_type] in T1, T2. cbn [fits] in F1. rewrite Hm in T1, T2.
  destruct T1 as (lv & -> & T1), T2 as (lw & -> & T2), F1 as (Hl & Hb & F1).
  cbn [gen] in E1, E2. unfold gen_vector, gen_container in E1, E2. rewrite Hm in E1, E2.
  destruct (is_vector n && IsStandardType t0) eqn:Ev.
  - destruct (Hv eq_refl) as [m ->]. unfold gen_size in E1, E2. simplify_eq.
    destruct (size_codec k1 k2 e1 e2 sc1 sc2 st1 st2 p1 p2 (TBase m) loops lv lw)
      as (lw' & vs & Hlen & T2' & Hw & Hc); [exact Hp | exact P1 | exact P2 | done..|].
    edestruct (sequence_block m loops p1 p2 lv lw'
      (MkState (<[size_name k1 := zlen lv]> (sizes st1)) (vars st1))
      (MkState (<[size_name k2 := zlen lv]> (sizes st2)) vs) (zlen lv))
      as (vs' & Hw' & Hc'); [done..| by eapply read_write |].
    eexists _, _, vs'. split; [by rewrite <- (write_write _ _ _ _ _ Hw) |].
    eapply run_cons_codec; [apply Hc |]. apply run_text_codec.
    eapply run_cons_codec; [|apply run_nil_codec]. cbn [exec].
    eapply need_w; [exact P1 |]. eapply need_r; [exact P2 |].
    cbn [extent sizes]. by rewrite !lookup_insert_eq.
  - clear Hv. destruct (gen true buf1 t0 _ None (k1 + 1)) as [[b1 i1]|] eqn:G1; [|done].
    destruct (gen false buf2 t0 _ None (k2 + 1)) as [[b2 i2]|] eqn:G2; [|done].
    unfold gen_size in E1, E2. simplify_eq.
    destruct (size_codec k1 k2 e1 e2 sc1 sc2 st1 st2 p1 p2 t0 loops lv lw)
      as (lw' & vs & Hlen & T2' & Hw & Hc); [exact Hp | exact P1 | exact P2 | done..|].
    set (st1' := MkState (<[size_name k1 := zlen lv]> (sizes st1)) (vars st1)) in *.
    set (st2' := MkState (<[size_name k2 := zlen lv]> (sizes st2)) vs) in *.
    destruct (sequence_codec (vars st1) p2 lv lw'
      (λ i st, run true b1 (sc1 <| iters := <[k1 := extend p1 [Idx i]]> (iters sc1) |>) st)
      (λ i st, run false b2 (sc2 <| iters := <[k2 := extend p2 [Idx i]]> (iters sc2) |>) st) st1' st2')
      as (z1 & z2 & vs' & Hw' & Hcd); try done.
    { intros j x w s1 s2 Ex Ew Hvs Hr.
      assert (Hx : has_type t0 x ∧ fits t0 x ∧ has_type t0 w)
        by exact (conj (proj1 (Forall_lookup _ _) T1 j x Ex) (conj (proj1 (Forall_lookup _ _) F1 j x Ex)
          (proj1 (Forall_lookup _ _) T2' j w Ew))).
      destruct Hx as (Hx & Hfx & Htw). rewrite <- Hvs.
      eapply (IH loops); [done | | exact G1 | exact G2 | apply lookup_insert_eq | apply lookup_insert_eq
        | | done | done | exact Hr | done]; [done |].
      rewrite Hvs, (read_extend _ _ _ _ R1). cbn. by rewrite Ex. }
    { by eapply read_write. }
    exists z1, z2, vs'. split; [by rewrite <- (write_write _ _ _ _ _ Hw) |].
    eapply run_cons_codec; [apply Hc |]. apply run_text_codec.
    eapply run_cons_codec; [|apply run_nil_codec]. cbn [exec].
    eapply need_w; [exact P1 |]. eapply need_r; [exact P2 |].
    eapply need_w; [exact R1 |]. eapply need_r; [by eapply read_write |].
    eapply need_w; [reflexivity |]. eapply need_r; [reflexivity |].
    rewrite Hlen. exact Hcd.
Qed.

Theorem gen_codec t : gen_ok t.
Proof.
  induction t as [n|n t IH|n k t cp IH|n c t IH|n l IH|n l|n l IH|n|n] using DataType_rect'.
  - apply gen_ok_base.
  - exact IH.
  - by intros loops ???????????????????.
  - by apply gen_ok_array.
  - by apply gen_ok_struct.
  - by eapply gen_ok_serial.
  - by apply gen_ok_template.
  - by eapply gen_ok_serial.
  - by intros loops ???????????????????.
Qed.
End RunCodec.

(** ** Arrays of structures in arrays of structures *)
Section Nested.
Context {B : Type} `{PopBuffer B} {O : Type}.
Context (Serialize : string → bool → O → M B O) (new_object : string → O) (constant : string → Z).
Context (expression : gmap string (cval O) → string → Z)
  (procs : string → bool → cval O → Z → M B (cval O)).

(** An array of structures that hold an array of structures. The compiler takes such a type and
    the two loops of the code it generates use one name: the inner loop starts from its own
    variable, which has no value. Neither side of a call gets past the first element. *)
Theorem nested_arrays_undefined pack buf na ca ns nb cb u f fs e k cs k' sc st p :
  let t := TArray na ca (TStruct ns ((TArray nb cb u, f) :: fs)) in
  IsStandardType (TStruct ns ((TArray nb cb u, f) :: fs)) = false → IsStandardType u = false →
  GetCardinalSize ca ≠ "1" → GetCardinalSize cb ≠ "1" → 1 ≤ constant (GetCardinalSize ca) →
  gen pack buf t e None k = Some (cs, k') → no_elem e = true → eval sc e = Some p →
  ∀ b, run Serialize new_object constant expression procs pack cs sc st b = Stuck.
Proof.
  intros t Hs Hu Ha Hb Hc G Hn P b. unfold t in G. cbn [gen] in G. unfold gen_array in G. cbn [default] in G. rewrite Hs in G.
  cbn [gen] in G. unfold gen_struct in G. cbn [gen_fields gen] in G. unfold gen_array in G. cbn [default] in G.
  rewrite Hu in G. unfold one_size in G. cbn [print_count] in G.
  rewrite !bool_decide_false in G by done. cbn [orb] in G.
  destruct (gen pack buf u (Elem k) None k) as [[c1 k1]|]; [|done].
  destruct (gen_fields _ (Elem k) fs (k1 + 1)) as [[c2 k2]|]; [|done]. simplify_eq.
  unfold run. cbn [run_list exec].
  rewrite (pointee_eval (sc <| elems := delete k (elems sc) |>) e p) by (by rewrite eval_without).
  cbn [need extent]. rewrite decide_False by done.
  destruct (Z.to_nat (constant (GetCardinalSize ca))) as [|n] eqn:En; [lia |].
  unfold mbind, mret. cbn [iterate]. unfold mbind at 1, need.
  cbn [rbind fst snd]. rewrite shift_idx. cbn. by rewrite lookup_delete_eq.
Qed.
End Nested.
