(* ===== verification/Typing.v ===== *)
(** * The types of the variables of generated code

    Whatever bytes a message holds, the code that [DeMarshal] generates (Generated.v) leaves values
    of their type in the variables it reads into: a malformed message can stop it, but not break the
    invariant that the typing of the C++ program rests on. *)

From S2P Require Import Prelude Machine Buffer Exceptions Message BufferRaw Types Generated.

Section Typing.
Context {B : Type} `{PopBuffer B} {O : Type}.
Context (Serialize : string → bool → O → M B O) (new_object : string → O) (constant : string → Z).
Context (Hconstant : ∀ s, 0 ≤ constant s).
Context (expression : gmap string (cval O) → string → Z)
  (procs : string → bool → cval O → Z → M B (cval O)).

#[local] Abbreviation run := (run Serialize new_object constant expression procs).
#[local] Abbreviation exec := (exec Serialize new_object constant expression procs).
#[local] Abbreviation has_type := (has_type (O := O) constant).

Lemma mbind_Ok {X Y : Type} (m : M B X) (k : X → M B Y) b y b' :
  mbind m k b = Ok (y, b') → ∃ x b1, m b = Ok (x, b1) ∧ k x b1 = Ok (y, b').
Proof. intros E. apply rbind_Ok in E as ([x b1] & E1 & E2). by exists x, b1. Qed.
Lemma need_Ok {X Y : Type} (o : option X) (k : X → M B Y) b y b' :
  mbind (need o) k b = Ok (y, b') → ∃ x, o = Some x ∧ k x b = Ok (y, b').
Proof. destruct o as [x|]; [|done]. intros E. by exists x. Qed.

Lemma run_cons_Ok pack c cs sc st b st' b' :
  run pack (c :: cs) sc st b = Ok (st', b') →
  ∃ st1 b1, exec pack c sc st b = Ok (st1, b1) ∧ run pack cs sc st1 b1 = Ok (st', b').
Proof. apply mbind_Ok. Qed.
Lemma run_app_Ok pack c1 c2 sc st b st' b' :
  run pack (c1 ++ c2) sc st b = Ok (st', b') →
  ∃ st1 b1, run pack c1 sc st b = Ok (st1, b1) ∧ run pack c2 sc st1 b1 = Ok (st', b').
Proof. rewrite run_app. apply mbind_Ok. Qed.
(** A statement between texts. *)
Lemma run_framed_Ok pack a1 c b1 sc st b st' b' :
  run pack [Text a1; c; Text b1] sc st b = Ok (st', b') → exec pack c sc st b = Ok (st', b').
Proof.
  intros (s1 & u1 & [= <- <-] & E)%run_cons_Ok. apply run_cons_Ok in E as (s2 & u2 & E & E').
  apply run_cons_Ok in E' as (s3 & u3 & [= <- <-] & [= <- <-]). exact E.
Qed.

Lemma iterate_Ok (R : nat → cstate O → Prop) n i (f : nat → cstate O → M B (cstate O)) st b st' b' :
  (∀ j st b st1 b1, (i ≤ j < i + n)%nat → R j st → f j st b = Ok (st1, b1) → R (S j) st1) →
  R i st → iterate n i f st b = Ok (st', b') → R (i + n)%nat st'.
Proof.
  revert i st b. induction n as [|n IH]; intros i st b Hf Hr E; cbn [iterate] in E.
  - injection E as <- <-. by rewrite Nat.add_0_r.
  - apply mbind_Ok in E as (s1 & u1 & E1 & E2). replace (i + S n)%nat with (S i + n)%nat by lia.
    eapply IH; [| |exact E2].
    + intros j s u s' u' Hj. apply Hf. lia.
    + eapply Hf; [|exact Hr|exact E1]. lia.
Qed.

(** Blocks *)
Lemma unpack_block_typed m o n b vs b' :
  overload m = Some o → unpack_block (O := O) o n b = Ok (vs, b') → Forall (has_type (TBase m)) vs.
Proof.
  intros Ho E. unfold unpack_block in E. destruct o as [p|].
  - apply mbind_Ok in E as (l & b1 & _ & [= <- <-]). apply Forall_fmap, Forall_forall.
    intros x _. cbn. rewrite Ho. by exists x.
  - apply mbind_Ok in E as (l & b1 & _ & [= <- <-]). apply Forall_fmap, Forall_forall.
    intros x _. cbn. rewrite Ho. by exists x.
Qed.

Lemma move_block_typed m p n st b st' b' :
  move_block (O := O) false m p n st b = Ok (st', b') →
  ∃ ps xs, places p (Z.to_nat n) = Some ps ∧ length xs = length ps ∧ Forall (has_type (TBase m)) xs ∧
    write_all (vars st) (zip ps xs) = Some (vars st').
Proof.
  intros E. unfold move_block in E. apply need_Ok in E as (o & Ho & E). apply need_Ok in E as (ps & Hps & E).
  apply mbind_Ok in E as (xs & b1 & Ex & E). destruct (decide (length xs = length ps)) as [Hl|]; [|done].
  apply need_Ok in E as (vs & Hw & [= <- <-]). exists ps, xs. split_and!; try done.
  by eapply unpack_block_typed.
Qed.

Lemma sequence_block_typed m p n st b st' b' (l : list (cval O)) :
  move_block false m (extend p [Idx 0]) n st b = Ok (st', b') →
  read (vars st) p = Some (VSeq l) → length l = Z.to_nat n →
  ∃ l', write (vars st) p (VSeq l') = Some (vars st') ∧ length l' = length l ∧ Forall (has_type (TBase m)) l'.
Proof.
  intros (ps & xs & Hps & Hl & Ht & Hw)%move_block_typed Hr Hn. rewrite places_elements in Hps. simplify_eq.
  unfold elements in Hl. rewrite length_fmap, length_seq in Hl.
  exists xs. split; [|by rewrite Hn]. rewrite <- Hl in Hw.
  rewrite <- Hw. symmetry. apply (write_elements _ _ [] l xs Hr). by rewrite Hn.
Qed.

(** A loop over the elements of a sequence, each of which is written in its place. *)
Lemma sequence_typed t p (l : list (cval O)) (f : nat → cstate O → M B (cstate O)) st b st' b' :
  (∀ j st b st1 b1 w, read (vars st) (extend p [Idx j]) = Some w → has_type t w → f j st b = Ok (st1, b1) →
     ∃ w', write (vars st) (extend p [Idx j]) w' = Some (vars st1) ∧ has_type t w') →
  read (vars st) p = Some (VSeq l) → Forall (has_type t) l →
  iterate (length l) 0 f st b = Ok (st', b') →
  ∃ l', write (vars st) p (VSeq l') = Some (vars st') ∧ length l' = length l ∧ Forall (has_type t) l'.
Proof.
  intros Hf Hr Ht E.
  apply (iterate_Ok (λ j s, ∃ l', write (vars st) p (VSeq l') = Some (vars s) ∧ length l' = length l ∧
    Forall (has_type t) l')) in E; [done | |].
  - intros j s u s1 u1 Hj (l' & Hw & Hl & Hty) Ej. pose proof (read_write _ _ _ _ Hw) as Hr'.
    destruct (lookup_lt_is_Some_2 l' j) as [x Ex]; [lia |].
    assert (Hx : read (vars s) (extend p [Idx j]) = Some x) by (rewrite (read_extend _ _ _ _ Hr'); cbn; by rewrite Ex).
    destruct (Hf j s u s1 u1 x Hx) as (x' & Hw' & Hx'); [by eapply Forall_lookup_1 | done |].
    rewrite (write_extend _ _ _ x' _ (VSeq (<[j := x']> l')) Hr') in Hw' by (cbn; by rewrite Ex).
    exists (<[j := x']> l'). split; [by rewrite (write_write _ _ _ _ _ Hw) in Hw' |].
    split; [by rewrite length_insert | by apply Forall_insert].
  - exists l. split; [by apply write_same | by split].
Qed.

(** ** The statements of a type *)
Definition gen_typed (t : DataType) : Prop :=
  ∀ loops buf e k c k' sc st p w b st' b',
  plain loops t = true → (loops = true → no_elem e = true) →
  gen false buf t e None k = Some (c, k') → eval sc e = Some p →
  read (vars st) p = Some w → has_type t w → run false c sc st b = Ok (st', b') →
  ∃ w', write (vars st) p w' = Some (vars st') ∧ has_type t w'.

Lemma gen_typed_base n : gen_typed (TBase n).
Proof.
  intros loops buf e k c k' sc st p w b st' b' Hp _ G P R T E.
  destruct (plain_base _ _ Hp) as (o & Ho & _). cbn [gen] in G. unfold gen_base in G.
  rewrite (overload_not_void _ _ Ho) in G. simplify_eq.
  apply run_framed_Ok in E. cbn [Generated.exec] in E. apply need_Ok in E as (q & Eq & E).
  rewrite P in Eq. injection Eq as <-.
  apply move_block_typed in E as (ps & xs & Hps & Hl & Ht & Hw).
  assert (E1 : places p (Z.to_nat (extent constant st (default (Given "1") None))) = Some [p]) by reflexivity.
  rewrite E1 in Hps. injection Hps as <-.
  destruct xs as [|x [|? ?]]; [discriminate Hl | | discriminate Hl]. cbn in Hw. exists x. apply Forall_cons in Ht as [Hx _].
  split; [by destruct (write (vars st) p x) | done].
Qed.

Lemma gen_typed_serial t tname cl b0 :
  (∀ buf e k, gen false buf t e None k = Some (gen_serial false buf tname cl b0 e, k)) →
  (∀ o : O, has_type t (VObj o)) → gen_typed t.
Proof.
  intros Hg Ht loops buf e k c k' sc st p w b st' b' _ _ G P R T E. rewrite Hg in G. simplify_eq.
  apply run_framed_Ok in E. cbn [Generated.exec] in E. apply need_Ok in E as (q & Eq & E).
  rewrite P in Eq. injection Eq as <-. apply need_Ok in E as (v & _ & E). apply need_Ok in E as (o & _ & E).
  apply mbind_Ok in E as (o' & b1 & _ & E). apply need_Ok in E as (vs & Hw & [= <- <-]). by exists (VObj o').
Qed.

Lemma fields_typed l loops buf e sc p :
  Forall (λ a, gen_typed a.1) l → forallb (λ a, plain loops a.1) l = true →
  (loops = true → no_elem e = true) → eval sc e = Some p →
  ∀ k c k' st b st' b' lw pre,
  NoDup (pre.*1 ++ l.*2) →
  gen_fields (λ t' e', gen false buf t' e' None) e l k = Some (c, k') →
  read (vars st) p = Some (VRec (pre ++ lw)) → fields_rel has_type l lw →
  run false c sc st b = Ok (st', b') →
  ∃ lv, write (vars st) p (VRec (pre ++ lv)) = Some (vars st') ∧ fields_rel has_type l lv.
Proof.
  intros Hl Hp Hn P. induction Hl as [|[t f] l Ht _ IH]; intros k c k' st b st' b' lw pre Hd G R T E; cbn in G.
  - destruct lw; [|done]. simplify_eq. injection E as <- <-. exists []. split; [by apply write_same | done].
  - cbn in Hp. apply andb_true_iff in Hp as [Hp Hp']. destruct lw as [|[g w] lw]; [done |].
    cbn in T. destruct T as (<- & T & T').
    destruct (gen false buf t (Field e f) None k) as [[a i]|] eqn:G1; [|done].
    destruct (gen_fields _ e l i) as [[a2 j]|] eqn:G2; [|done]. simplify_eq.
    assert (Hf : f ∉ pre.*1).
    { apply NoDup_app in Hd as (_ & Hd & _). intros Hin. by apply (Hd f Hin), list_elem_of_here. }
    apply run_app_Ok in E as (s1 & u1 & E1 & E2).
    destruct (Ht loops buf (Field e f) k a i sc st (extend p [Fld f]) w b s1 u1) as (w' & Hw & Tw); try done.
    { cbn. by rewrite P. }
    { rewrite (read_extend _ _ _ _ R). cbn. by rewrite field_middle. }
    rewrite (write_extend _ _ _ w' _ (VRec (pre ++ (f, w') :: lw)) R) in Hw.
    2: { cbn. rewrite field_middle by done. by rewrite set_field_middle. }
    destruct (IH Hp' i a2 k' s1 u1 st' b' lw (pre ++ [(f, w')])) as (lv & Hv & Tv); try done.
    { by rewrite fmap_app, <- app_assoc. }
    { rewrite <- app_assoc. by eapply read_write. }
    exists ((f, w') :: lv). rewrite <- app_assoc in Hv. cbn in Hv.
    split; [by rewrite (write_write _ _ _ _ _ Hw) in Hv | done].
Qed.

Lemma gen_typed_struct n l : Forall (λ a, gen_typed a.1) l → gen_typed (TStruct n l).
Proof.
  intros Hl loops buf e k c k' sc st p w b st' b' Hp Hn G P R T E.
  cbn in Hp. apply andb_true_iff in Hp as [Hp Hd%bool_decide_eq_true].
  cbn in T. destruct T as (lw & -> & T). cbn [gen] in G. unfold gen_struct in G.
  destruct (gen_fields _ e l k) as [[a i]|] eqn:G1; [|done]. simplify_eq.
  apply run_cons_Ok in E as (s1 & u1 & [= <- <-] & E). apply run_app_Ok in E as (s2 & u2 & E & E').
  apply run_cons_Ok in E' as (s3 & u3 & [= <- <-] & [= <- <-]).
  destruct (fields_typed l loops buf e sc p Hl Hp Hn P k a k' st b s2 u2 lw [] Hd G1 R T E) as (lv & Hw & Tv).
  exists (VRec lv). split; [done |]. by exists lv.
Qed.

Lemma gen_typed_array n c t : gen_typed t → gen_typed (TArray n c t).
Proof.
  intros IH loops buf e k cs k' sc st p w b st' b' Hp Hn G P R T E.
  apply plain_array in Hp as (Hc & Hp). cbn in T. destruct T as (l & -> & Hlen & T).
  assert (Hl : length l = Z.to_nat (constant (GetCardinalSize c))) by lia.
  cbn [gen] in G. unfold gen_array in G. cbn [default] in G.
  assert (Ho : one_size (Given (GetCardinalSize c)) = false) by by apply bool_decide_eq_false.
  assert (Hres : ∃ l', write (vars st) p (VSeq l') = Some (vars st') ∧ length l' = length l ∧ Forall (has_type t) l').
  { destruct Hp as [(m & -> & Hp)|(Hs & -> & Hp)].
    - destruct (plain_base _ _ Hp) as (o & Hov & _).
      rewrite (overload_standard _ _ Hov) in G. cbn [orb gen] in G. unfold gen_base in G.
      rewrite (overload_not_void _ _ Hov) in G. simplify_eq. apply run_framed_Ok in E.
      cbn [Generated.exec default Datatypes.id] in E. apply need_Ok in E as (q & Eq & E).
      change (pointee sc e = Some q) in Eq. rewrite (pointee_eval _ _ _ P) in Eq. injection Eq as <-.
      rewrite extent_given in E by done. by eapply sequence_block_typed.
    - rewrite Hs, Ho in G. cbn [orb] in G.
      destruct (gen false buf t (Elem k) None k) as [[a i]|] eqn:G1; [|done]. simplify_eq.
      apply run_cons_Ok in E as (s1 & u1 & E & E').
      apply run_cons_Ok in E' as (s3 & u3 & [= <- <-] & [= <- <-]).
      cbn [Generated.exec] in E. apply need_Ok in E as (q & Eq & E).
      rewrite (pointee_eval _ _ p) in Eq by (rewrite eval_without; [exact P | by apply Hn]).
      injection Eq as <-. rewrite extent_given, <- Hl in E by done.
      eapply sequence_typed; [|exact R|exact T|exact E].
      intros j s u s1' u1' w' Hw Tw Ej. apply need_Ok in Ej as (q & Eq & Ej). rewrite shift_idx in Eq.
      injection Eq as <-.
      apply (IH false buf (Elem k) k a i (sc <| elems := <[k := extend p [Idx j]]> (elems sc) |>) s
        (extend p [Idx j]) w' u s1' u1'); try done. cbn. apply lookup_insert_eq. }
  destruct Hres as (l' & Hw & Hl' & T'). exists (VSeq l'). split; [done |]. exists l'. split_and!; [done | lia | done].
Qed.

(** The size of a container, which [resize] then gives it. *)
Lemma size_typed txt k e sc st b st' b' p t loops (l : list (cval O)) :
  plain loops t = true → eval sc e = Some p → read (vars st) p = Some (VSeq l) → Forall (has_type t) l →
  exec false (SizeOf txt k e (Some t)) sc st b = Ok (st', b') →
  ∃ n l', sizes st' !! size_name k = Some n ∧ length l' = Z.to_nat n ∧ Forall (has_type t) l' ∧
    write (vars st) p (VSeq l') = Some (vars st').
Proof.
  intros Hp P R T E. destruct (new_value_typed new_object constant Hconstant t loops Hp) as (d & Hd & Td).
  cbn [Generated.exec] in E. apply need_Ok in E as (q & Eq & E). rewrite P in Eq. injection Eq as <-.
  apply mbind_Ok in E as (n & b1 & _ & E). unfold resize_seq in E.
  destruct (n <? 0) eqn:En; [done |]. apply Z.ltb_ge in En.
  apply need_Ok in E as (v & Ev & E). cbn [vars] in Ev. rewrite R in Ev. injection Ev as <-.
  apply need_Ok in E as (l0 & [= <-] & E). apply need_Ok in E as (d' & Ed & E). rewrite Hd in Ed.
  injection Ed as <-. apply need_Ok in E as (vs & Hw & [= <- <-]).
  eexists n, _. split_and!; [apply lookup_insert_eq | | | exact Hw].
  - rewrite length_app, length_take, length_replicate. lia.
  - apply Forall_app. split; [by apply Forall_take | by apply Forall_replicate].
Qed.

Lemma gen_typed_template n l : Forall (λ a, gen_typed a.1) l → gen_typed (TTemplate n l).
Proof.
  intros Hall loops buf e k c k' sc st p w b st' b' Hp Hn G P R T E.
  destruct l as [|[t0 r] others]; [done |]. apply plain_template in Hp as (Hm & Hp & Hv).
  pose proof (Forall_inv Hall) as IH. cbn in IH. clear Hall.
  cbn [Generated.has_type] in T. rewrite Hm in T. destruct T as (lw & -> & T).
  assert (Hres : ∃ l', write (vars st) p (VSeq l') = Some (vars st') ∧ Forall (has_type t0) l').
  { cbn [gen] in G. unfold gen_vector, gen_container in G. rewrite Hm in G. destruct (is_vector n && IsStandardType t0) eqn:Ev.
    - destruct (Hv eq_refl) as [m ->]. unfold gen_size in G. simplify_eq.
      apply run_cons_Ok in E as (s1 & u1 & E1 & E). apply run_cons_Ok in E as (s2 & u2 & [= <- <-] & E).
      apply run_cons_Ok in E as (s3 & u3 & E & [= <- <-]).
      destruct (size_typed _ _ _ _ _ _ _ _ _ _ _ _ Hp P R T E1) as (z & l1 & Hz & Hl & T1 & Hw).
      cbn [Generated.exec] in E. apply need_Ok in E as (q & Eq & E). rewrite P in Eq. injection Eq as <-.
      cbn [extent] in E. rewrite Hz in E. cbn [default Datatypes.id] in E.
      destruct (sequence_block_typed m p z s1 u1 s3 u3 l1 E (read_write _ _ _ _ Hw) Hl) as (l2 & Hw2 & _ & T2).
      exists l2. split; [by rewrite <- (write_write _ _ _ _ _ Hw) | done].
    - destruct (gen false buf t0 _ None (k + 1)) as [[a i]|] eqn:G1; [|done]. unfold gen_size in G. simplify_eq.
      apply run_cons_Ok in E as (s1 & u1 & E1 & E). apply run_cons_Ok in E as (s2 & u2 & [= <- <-] & E).
      apply run_cons_Ok in E as (s3 & u3 & E & [= <- <-]).
      destruct (size_typed _ _ _ _ _ _ _ _ _ _ _ _ Hp P R T E1) as (z & l1 & _ & _ & T1 & Hw).
      cbn [Generated.exec] in E. apply need_Ok in E as (q & Eq & E). rewrite P in Eq. injection Eq as <-.
      pose proof (read_write _ _ _ _ Hw) as R1.
      apply need_Ok in E as (v & Ev' & E). rewrite R1 in Ev'. injection Ev' as <-.
      apply need_Ok in E as (l0 & [= <-] & E).
      assert (Hseq : ∃ l2, write (vars s1) p (VSeq l2) = Some (vars s3) ∧ length l2 = length l1 ∧
        Forall (has_type t0) l2).
      { eapply sequence_typed; [|exact R1|exact T1|exact E]. intros j s u s1' u1' w' Hw' Tw Ej.
        apply (IH loops buf (IterRef (or_null (GetDeclaration t0 None)) k) (k + 1) a k'
          (sc <| iters := <[k := extend p [Idx j]]> (iters sc) |>) s (extend p [Idx j]) w' u s1' u1'); try done.
        cbn. apply lookup_insert_eq. }
      destruct Hseq as (l2 & Hw2 & _ & T2).
      exists l2. split; [by rewrite <- (write_write _ _ _ _ _ Hw) | done]. }
  destruct Hres as (l' & Hw & T'). exists (VSeq l'). split; [done |]. exists l'. split; [done |]. by rewrite Hm.
Qed.

End Typing.

(** ** Examples *)
Module Example.
Definition constant (s : string) : Z := if decide (s = "(2)") then 2 else if decide (s = "(3)") then 3 else 0.
Lemma constant_nonneg s : 0 ≤ constant s.
Proof. unfold constant. repeat case_decide; lia. Qed.
Abbreviation run := (run (B := buffer_raw) (O := unit) (λ _ _ o, mret o) (λ _, tt) constant (λ _ _, 0)
  (λ _ _ v _, mret v)).
Definition vector : DataType := TTemplate "std::vector" [(TBase "int", false)].
Definition vector_code : list code := Eval vm_compute in
  match DeMarshal "buf" vector (Var "v") None 0 with Some (c, _) => c | None => [] end.
(** A message with another content: a size, two floats, a character. *)
Definition message : buffer_raw := Eval vm_compute in
  match (Pack1 PInt 2 ;;; Pack PFloat [zero PFloat; zero PFloat] 2 ;;; Pack1 PChar x41) raw_new with
  | Ok (_, b) => b
  | _ => raw_new
  end.
Definition start : cstate unit := MkState ∅ (<["v" := VSeq []]> ∅).
Definition after := Eval vm_compute in
  match run false vector_code scope_new start message with Ok r => r | _ => (start, message) end.
Lemma after_ok : run false vector_code scope_new start message = Ok after.
Proof. vm_compute. reflexivity. Qed.

Definition point : DataType := TStruct (Some "Point") [(TBase "int", "x")].
Definition line : DataType := TStruct (Some "Line") [(TArray None "[2]" point, "ends")].
Definition lines : DataType := TArray None "[3]" line.
Definition lines_code : list code := Eval vm_compute in
  match gen true "buf" lines (Var "lines") None 0 with Some (c, _) => c | None => [] end.
Lemma lines_generated : gen true "buf" lines (Var "lines") None 0 = Some (lines_code, 2).
Proof. vm_compute. reflexivity. Qed.
End Example.


Lemma nested_arrays_undefined_witness :
  CanMarshal Example.lines = 1 ∧
  ∀ st b, Example.run true Example.lines_code scope_new st b = Stuck.
Proof.
  split; [reflexivity |]. intros st b.
  apply (nested_arrays_undefined (B := buffer_raw) (O := unit) (λ _ _ o, mret o) (λ _, tt)
    Example.constant (λ _ _, 0) (λ _ _ v _, mret v) true "buf" None "[3]" (Some "Line") None "[2]"
    Example.point "ends" [] (Var "lines") 0 Example.lines_code 2 scope_new st ("lines", [])).
  - reflexivity.
  - reflexivity.
  - intros E. vm_compute in E. discriminate E.
  - intros E. vm_compute in E. discriminate E.
  - change (1 ≤ 3). lia.
  - exact Example.lines_generated.
  - reflexivity.
  - reflexivity.
Defined.
