(* ===== verification/Stubs.v ===== *)
(** * Parameters of parallel methods

    [Param] (parser/classmember.cc): which way a parameter travels, the variable the broker
    declares for it, and the code both sides generate for it. The theorems run that code: what the
    stub marshals is what the broker hands to the method, and what the method leaves in its output
    parameters is what the caller finds. *)

From S2P Require Import Prelude Machine Buffer Types Generated.

Record Param : Type := MkParam {
  name : string;
  mytype : option DataType;
  isVoid : bool; isRef : bool; isConst : bool; isInput : bool; isOutput : bool;
  paramSize : option string;
  marshalProc : option string;
  defaultVal : option string }.
#[export] Instance Param_eta : Eta Param := λ p,
  MkParam (name p) (mytype p) (isVoid p) (isRef p) (isConst p) (isInput p) (isOutput p)
    (paramSize p) (marshalProc p) (defaultVal p).

Definition param_new (ptype : option DataType) : Param :=
  MkParam "" ptype false false false false false None None None.

Definition type_pointer (t : option DataType) : Z := match t with Some t => IsPointer t | None => 0 end.
Definition IsPointer (p : Param) : bool := 0 <? type_pointer (mytype p).

Definition InParam (p : Param) : bool :=
  if isInput p || isConst p then true else negb (isOutput p).
Definition OutParam (p : Param) : bool :=
  if isConst p then false
  else if isOutput p then true
  else if isInput p then false
  else isRef p || IsPointer p || match mytype p with Some t => IsArray t | None => false end.

Definition CanMarshal (p : Param) : bool :=
  match mytype p with
  | None => false
  | Some t =>
      let stat := Types.CanMarshal t in
      bool_decide (is_Some (marshalProc p)) || (stat =? 1) ||
      ((stat =? 2) && bool_decide (is_Some (paramSize p)))
  end.

(** [DeclareParam]; [None] is the answer false. *)
Definition DeclareParam (header : bool) (p : Param) : option string :=
  match mytype p with
  | None => None
  | Some t =>
      match GetDeclaration t (Some (if isRef p then "&" +:+ name p else name p)) with
      | None => None
      | Some d =>
          Some (text [if isConst p then "const " else ""; d;
                      match defaultVal p with
                      | Some v => if header then "=" +:+ v else ""
                      | None => ""
                      end])
      end
  end.

(** [DeclareVariable(output)], for attributes. *)
Definition DeclareAttribute (p : Param) : option string :=
  match mytype p with
  | None => None
  | Some t =>
      match GetDeclaration t (Some (if isRef p && negb (IsParClass t) then "&" +:+ name p else name p)) with
      | Some d => Some (text [d; ";"; nl])
      | None => None
      end
  end.

Definition nobind (t : DataType) : string := if IsParClass t then "(pop_interface::_pop_nobind)" else "".

(** The array of a pointer parameter. *)
Definition container (base : DataType) (nptr : Z) (x size lead trail : string) : string :=
  if (nptr =? 1) && IsParClass base then
    text ["pop_interface_container<"; or_null (GetDeclaration base None); "> __pop_container_"; x; "(";
          size; ");"; nl; lead; x; trail; "=__pop_container_"; x; ";"; nl]
  else
    text ["pop_container<"; or_null (GetName base); text (replicate (Z.to_nat (nptr - 1)) "*");
          "> __pop_container_"; x; "("; size; ");"; nl; x; "=__pop_container_"; x; ";"; nl].

(** The variable of a parameter in the broker, and whether it holds what the pointer points to. *)
Definition DeclareVariable (allocmem : bool) (p : Param) : option (list code * bool) :=
  match mytype p with
  | None => None
  | Some t =>
      if isVoid p then None
      else
        let nptr := Types.IsPointer t in
        if (nptr =? 1) && bool_decide (paramSize p = None) then
          match GetBaseType t with
          | Some base =>
              match GetDeclaration base (Some (name p)) with
              | Some d => Some ([LocalVar (text [d; nobind base; ";"; nl]) (name p) base], true)
              | None => None
              end
          | None => None
          end
        else
          match GetDeclaration t (Some (name p)) with
          | None => None
          | Some d =>
              Some (LocalVar (text [d; nobind t; ";"; nl]) (name p) t ::
                match paramSize p, GetBaseType t with
                | Some size, Some base =>
                    if allocmem && negb (nptr =? 0) then
                      [Allocate (container base nptr (name p) size "" " ") (name p) (Given size) base]
                    else []
                | _, _ => []
                end, false)
          end
  end.

Definition param_expr (reformat : bool) (p : Param) : expr :=
  if reformat then AddrOf (Var (name p)) else Var (name p).

(** The size that goes with a parameter. *)
Definition sized (reformat : bool) (p : Param) : option string := if reformat then None else paramSize p.
Definition size1 (p : Param) : string := "__pop_size1_" +:+ name p.
Definition size2 (p : Param) : string := "__pop_size2_" +:+ name p.

Definition Marshal (buf : string) (reformat inf_side : bool) (p : Param) : ostate (list code) := λ k,
  match mytype p with
  | None => Some ([], k)
  | Some t =>
      let decl := match sized reformat p with
        | Some size =>
            [SizeParam (text ["int "; size1 p; "="; size; ";"; nl; buf; ".Push("; dq; name p; "Size"; dq; ",";
                              dq; "int"; dq; ",1);"; nl; buf; ".Pack(& "; size1 p; ",1);"; nl; buf; ".Pop();"; nl])
               (size1 p) size]
        | None => []
        end in
      let n := match sized reformat p with Some _ => Some (Counted (size1 p)) | None => None end in
      let flags := Z.lor (if inf_side then FLAG_INPUT else 0) FLAG_MARSHAL in
      match marshalProc p with
      | Some proc =>
          Some (decl ++
            [UserProc (text [proc; "("; buf; ","; print_expr (param_expr reformat p); ", ";
                             match n with Some n => print_count n | None => "0" end; ", "; num flags; ", 0);"; nl])
               proc (param_expr reformat p) n], k)
      | None =>
          match gen true buf t (param_expr reformat p) n k with
          | Some (cs, k) => Some (decl ++ cs, k)
          | None => None
          end
      end
  end.

Definition UnMarshal (buf : string) (reformat alloc_mem inf_side : bool) (p : Param) :
    ostate (list code) := λ k,
  match mytype p with
  | None => Some ([], k)
  | Some t =>
      let nptr := Types.IsPointer t in
      let decl := match sized reformat p with
        | Some size =>
            SizeParam (text ["int "; size2 p; ";"; nl; buf; ".Push("; dq; name p; "Size"; dq; ","; dq; "int"; dq;
                             ",1);"; nl; " "; nl; buf; ".UnPack(& "; size2 p; ",1);"; nl; buf; ".Pop();"; nl])
              (size2 p) size ::
            match GetBaseType t with
            | Some base =>
                if alloc_mem && negb (nptr =? 0) then
                  [Allocate (container base nptr (name p) (size2 p) " " "") (name p) (Counted (size2 p)) base]
                else []
            | None => []
            end
        | None => []
        end in
      let n := match sized reformat p with Some _ => Some (Counted (size2 p)) | None => None end in
      let flags := if inf_side then 0 else FLAG_INPUT in
      match marshalProc p with
      | Some proc =>
          Some (decl ++
            [UserProc (text [proc; "("; buf; ","; print_expr (param_expr reformat p); ",";
                             match n with Some n => print_count n | None => "0" end; ","; num flags; ",";
                             if inf_side then "0" else "&_internal_mem"; ");"])
               proc (param_expr reformat p) n], k)
      | None =>
          match gen false buf t (param_expr reformat p) n k with
          | Some (cs, k) => Some (decl ++ cs, k)
          | None => None
          end
      end
  end.

(** [UserProc]: the declaration of a marshalling procedure. *)
Definition UserProc_declaration (p : Param) : option string :=
  match mytype p, marshalProc p with
  | Some t, Some proc =>
      Some (text ["void "; proc; "(pop_buffer &buf, "; default "" (GetDeclaration t (Some "param"));
                  ", int hint,  bool marshal);"])
  | _, _ => None
  end.

(** ** The parameters of a method

    What the loops of [Method::GenerateClient] and [GenerateBroker] generate for them. *)
Definition gbind {A A' : Type} (m : option (A * Z)) (f : A → Z → option (A' * Z)) : option (A' * Z) :=
  match m with Some (a, k) => f a k | None => None end.

(** The stub marshals its input parameters. *)
Fixpoint marshal_in (buf : string) (ps : list Param) : ostate (list code) := λ k,
  match ps with
  | [] => Some ([], k)
  | p :: ps' =>
      gbind (if InParam p then Marshal buf false true p k else Some ([], k)) (λ c k,
      gbind (marshal_in buf ps' k) (λ cs k, Some (c ++ cs, k)))
  end.

(** The broker declares and reads them; the memory of the procedures of the user is declared
    before the first of them. The booleans are the array [reformat]. *)
Definition memspool : code := Text (nl +:+ "pop_memspool _internal_mem;").
Fixpoint unmarshal_in (buf : string) (have_memspool : bool) (ps : list Param) :
    ostate (list code * list bool) := λ k,
  match ps with
  | [] => Some (([], []), k)
  | p :: ps' =>
      if InParam p then
        let '(decl, reformat) := default ([], false) (DeclareVariable false p) in
        let proc := bool_decide (is_Some (marshalProc p)) in
        gbind (UnMarshal buf reformat true false p k) (λ c k,
        gbind (unmarshal_in buf (have_memspool || proc) ps' k) (λ r k,
          Some ((decl ++ (if proc && negb have_memspool then [memspool] else []) ++ c ++ r.1,
                 reformat :: r.2), k)))
      else gbind (unmarshal_in buf have_memspool ps' k) (λ r k, Some ((r.1, false :: r.2), k))
  end.

(** The variables of the parameters that are only output. *)
Fixpoint declare_out (ps : list Param) (reformat : list bool) : list code * list bool :=
  match ps, reformat with
  | p :: ps', r :: reformat' =>
      let '(cs, rs) := declare_out ps' reformat' in
      if InParam p then (cs, r :: rs)
      else let '(decl, r') := default ([], r) (DeclareVariable true p) in (decl ++ cs, r' :: rs)
  | _, _ => ([], [])
  end.

(** The results: the broker marshals the output parameters, the stub reads them. *)
Fixpoint marshal_out (buf : string) (ps : list Param) (reformat : list bool) : ostate (list code) := λ k,
  match ps, reformat with
  | p :: ps', r :: reformat' =>
      gbind (if OutParam p then Marshal buf r false p k else Some ([], k)) (λ c k,
      gbind (marshal_out buf ps' reformat' k) (λ cs k, Some (c ++ cs, k)))
  | _, _ => Some ([], k)
  end.
Fixpoint unmarshal_out (buf : string) (ps : list Param) : ostate (list code) := λ k,
  match ps with
  | [] => Some ([], k)
  | p :: ps' =>
      gbind (if OutParam p then UnMarshal buf false false true p k else Some ([], k)) (λ c k,
      gbind (unmarshal_out buf ps' k) (λ cs k, Some (c ++ cs, k)))
  end.

(** ** What travels *)
Section Travel.
Context {B : Type} `{PopBufferLaws B} {O : Type}.
Context (Serialize : string → bool → O → M B O) (new_object : string → O) (constant : string → Z).
Context (deliverable : string → O → Prop).
Context (expression : gmap string (cval O) → string → Z)
  (procs : string → bool → cval O → Z → M B (cval O)) (proc_ok : string → cval O → Prop).
Context (Hconstant : ∀ s, 0 ≤ constant s).
Context (Hserial : ∀ cl o o', deliverable cl o → codec (Serialize cl true o) o (Serialize cl false o') o).
(** A procedure of the user reads what it wrote, for the values it is meant for. *)
Context (Hprocs : ∀ proc v w, proc_ok proc v → codec (procs proc true v 0) v (procs proc false w 0) v).

#[local] Abbreviation run := (run Serialize new_object constant expression procs).
#[local] Abbreviation new_value := (new_value new_object constant).
#[local] Abbreviation has_type := (has_type constant).
#[local] Abbreviation fits := (fits deliverable).
#[local] Abbreviation gen_codec :=
  (gen_codec Serialize new_object constant deliverable Hconstant expression procs Hserial).

(** [sends vs p v]: the value [v] of the parameter [p], among the variables [vs], can be sent: a value
    of its type; the array of a pointer with its size; a value the user marshals. A pointer without
    a size is no parameter the compiler takes. *)
Inductive sends (vs : gmap string (cval O)) (p : Param) : cval O → Prop :=
  | sends_value t v :
      mytype p = Some t → marshalProc p = None → paramSize p = None →
      plain true t = true → has_type t v → fits t v → sends vs p v
  | sends_array nm t cp size l :
      mytype p = Some (TPtr nm 1 t cp) → marshalProc p = None → paramSize p = Some size →
      plain true t = true → (IsStandardType t = true → ∃ m, t = TBase m) →
      zlen l = expression vs size → zlen l ≤ int_max → block_fits t l →
      Forall (has_type t) l → Forall (fits t) l → sends vs p (VSeq l)
  | sends_proc t proc v :
      mytype p = Some t → marshalProc p = Some proc → paramSize p = None → Types.IsPointer t = 0 →
      is_Some (new_value t) → proc_ok proc v → sends vs p v.

(** [accepts p v w]: a variable that holds [w] can receive [v]. The array of a pointer has the size
    of the array that is sent. *)
Definition accepts (p : Param) (v w : cval O) : Prop :=
  marshalProc p = None → ∀ t, mytype p = Some t → has_type t w ∧
    (Types.IsPointer t ≠ 0 → ∀ l l', v = VSeq l → w = VSeq l' → length l' = length l).

Lemma plain_no_pointer t loops : plain loops t = true → Types.IsPointer t = 0.
Proof. induction t; cbn; intros Hp; try done. by apply IHt. Qed.
Lemma plain_base_value t loops b :
  plain loops t = true → GetBaseType t = Some b → new_value b = new_value t.
Proof.
  revert b. induction t; cbn; intros b Hp; try done. destruct (GetBaseType t) as [b'|] eqn:E.
  - intros [= <-]. by apply IHt.
  - by intros [= <-].
Qed.
Lemma pointer_base nm k t cp loops :
  plain loops t = true →
  ∃ b, GetBaseType (TPtr nm k t cp) = Some b ∧ new_value b = new_value t.
Proof.
  intros Hp. cbn. destruct (GetBaseType t) as [b|] eqn:E; [|by exists t].
  exists b. split; [done | by eapply plain_base_value].
Qed.

Lemma run_declare_r {X : Type} (w : M B X) x txt y t d cs sc st a :
  new_value t = Some d →
  codec w x (run false cs sc (MkState (sizes st) (<[y := d]> (vars st)))) a →
  codec w x (run false (LocalVar txt y t :: cs) sc st) a.
Proof. intros Hd Hc. eapply need_r; [|exact Hc]. cbn. by rewrite Hd. Qed.

Lemma read_var (vs : gmap string (cval O)) x v : vs !! x = Some v → read vs (x, []) = Some v.
Proof. intros E. unfold read. cbn. by rewrite E. Qed.
Lemma write_var (vs : gmap string (cval O)) x d v : write (<[x := d]> vs) (x, []) v = Some (<[x := v]> vs).
Proof. unfold write. cbn. by rewrite lookup_insert_eq, insert_insert_eq. Qed.

Lemma size_param_codec txt1 txt2 x1 x2 n cs1 cs2 sc st1 st2 a b z :
  z = expression (vars st1) n → in_sint 32 z = true →
  codec (run true cs1 sc (MkState (<[x1 := z]> (sizes st1)) (vars st1))) a
        (run false cs2 sc (MkState (<[x2 := z]> (sizes st2)) (vars st2))) b →
  codec (run true (SizeParam txt1 x1 n :: cs1) sc st1) a (run false (SizeParam txt2 x2 n :: cs2) sc st2) b.
Proof.
  intros -> Hz Hc. eapply run_cons_codec; [|exact Hc]. cbn [exec]. rewrite swrap_small by done.
  eapply codec_bind; [by apply codec_int |]. apply codec_ret.
Qed.

(** The elements of the array of a pointer, one by one. *)
Lemma items_codec t buf1 buf2 k1 k2 c1 c2 k1' k2' x h1 h2 tl1 tl2 n1 n2 (l l2 : list (cval O)) st1 st2 :
  plain true t = true → Forall (has_type t) l → Forall (fits t) l → Forall (has_type t) l2 →
  gen true buf1 t (Item (Var x)) None k1 = Some (c1, k1') →
  gen false buf2 t (Item (Var x)) None k2 = Some (c2, k2') →
  read (vars st1) (x, []) = Some (VSeq l) → read (vars st2) (x, []) = Some (VSeq l2) →
  length l2 = length l → sizes st1 !! n1 = Some (zlen l) → sizes st2 !! n2 = Some (zlen l) →
  ∃ z1 z2 vs, write (vars st2) (x, []) (VSeq l) = Some vs ∧
    codec (exec Serialize new_object constant expression procs true (ForItem h1 (Counted n1) c1 tl1) scope_new st1)
            (MkState z1 (vars st1))
          (exec Serialize new_object constant expression procs false (ForItem h2 (Counted n2) c2 tl2) scope_new st2)
            (MkState z2 vs).
Proof.
  intros Hp T1 F1 T2 G1 G2 R1 R2 Hlen S1 S2. cbn [exec extent]. rewrite S1, S2. cbn [default id].
  rewrite Nat2Z.id. eapply sequence_codec; [|done|exact R2|done].
  intros j x' w s1 s2 Ex Ew Hv Hr. rewrite <- Hv.
  eapply (gen_codec t true buf1 buf2 (Item (Var x)) (Item (Var x))); [done | done | exact G1 | exact G2
    | exact (shift_idx (x, []) 0 j) | exact (shift_idx (x, []) 0 j) | | | | exact Hr |].
  - rewrite Hv. change (x, [Idx (0 + j)]) with (extend (x, []) [Idx j]).
    rewrite (read_extend _ _ _ _ R1). cbn. by rewrite Ex.
  - by apply (proj1 (Forall_lookup _ _) T1 j).
  - by apply (proj1 (Forall_lookup _ _) F1 j).
  - by apply (proj1 (Forall_lookup _ _) T2 j).
Qed.

Lemma sized_not_one x : one_size (Counted ("__pop_size" +:+ x)) = false.
Proof. by apply bool_decide_eq_false. Qed.

(** The array of a pointer with its size, into an array of that size. *)
Lemma array_codec nm cp t size buf1 buf2 p k1 k2 c1 c2 k1' k2' (l l2 : list (cval O)) st1 st2 n1 n2 :
  plain true t = true → (IsStandardType t = true → ∃ m, t = TBase m) →
  zlen l ≤ int_max → block_fits t l → Forall (has_type t) l → Forall (fits t) l → Forall (has_type t) l2 →
  paramSize p = Some size →
  gen true buf1 (TPtr nm 1 t cp) (Var (name p)) (Some (Counted ("__pop_size" +:+ n1))) k1 = Some (c1, k1') →
  gen false buf2 (TPtr nm 1 t cp) (Var (name p)) (Some (Counted ("__pop_size" +:+ n2))) k2 = Some (c2, k2') →
  vars st1 !! name p = Some (VSeq l) → vars st2 !! name p = Some (VSeq l2) → length l2 = length l →
  sizes st1 !! ("__pop_size" +:+ n1) = Some (zlen l) → sizes st2 !! ("__pop_size" +:+ n2) = Some (zlen l) →
  ∃ z1 z2, codec (run true c1 scope_new st1) (MkState z1 (vars st1))
                 (run false c2 scope_new st2) (MkState z2 (<[name p := VSeq l]> (vars st2))).
Proof.
  intros Hp Hs Hl Hb T1 F1 T2 _ G1 G2 V1 V2 Hlen S1 S2.
  pose proof (read_var _ _ _ V1) as R1. pose proof (read_var _ _ _ V2) as R2.
  assert (Hw : write (vars st2) (name p, []) (VSeq l) = Some (<[name p := VSeq l]> (vars st2))).
  { unfold write. cbn. by rewrite V2. }
  cbn [gen] in G1, G2. unfold gen_ptr in G1, G2. rewrite !sized_not_one, orb_false_r in G1, G2.
  destruct (IsStandardType t) eqn:Es.
  - destruct (Hs eq_refl) as [m ->]. cbn [gen] in G1, G2. unfold gen_base in G1, G2.
    destruct (plain_base _ _ Hp) as (o & Ho & _).
    rewrite (overload_not_void _ _ Ho) in G1, G2. simplify_eq.
    destruct (sequence_block constant deliverable m true (name p, []) (name p, []) l l2 st1 st2 (zlen l))
      as (vs & Hw' & Hc); try done.
    rewrite Hw in Hw'. injection Hw' as <-. exists (sizes st1), (sizes st2).
    replace (MkState (sizes st1) (vars st1)) with st1 by by destruct st1.
    apply run_framed. cbn [exec default id]. eapply need_w; [reflexivity |]. eapply need_r; [reflexivity |].
    cbn [extent]. rewrite S1, S2. exact Hc.
  - destruct (gen true buf1 t (Item (Var (name p))) None k1) as [[b1 i1]|] eqn:H1; [|done].
    destruct (gen false buf2 t (Item (Var (name p))) None k2) as [[b2 i2]|] eqn:H2; [|done]. simplify_eq.
    edestruct (items_codec t buf1 buf2 k1 k2 b1 b2 k1' k2' (name p)) as (z1 & z2 & vs & Hw' & Hc);
      [exact Hp | exact T1 | exact F1 | exact T2 | exact H1 | exact H2 | exact R1 | exact R2 | exact Hlen
      | exact S1 | exact S2 |].
    rewrite Hw in Hw'. injection Hw' as <-. exists z1, z2. by apply run_framed.
Qed.

(** A parameter of a request: the broker declares its variable and reads it. The value a method
    returns goes the other way. *)
Lemma in_param_codec buf1 buf2 inf1 inf2 p v d rf c1 c2 k1 k2 k1' k2' st1 st2 :
  sends (vars st1) p v → vars st1 !! name p = Some v →
  DeclareVariable false p = Some (d, rf) →
  Marshal buf1 false inf1 p k1 = Some (c1, k1') → UnMarshal buf2 rf true inf2 p k2 = Some (c2, k2') →
  ∃ z1 z2, codec (run true c1 scope_new st1) (MkState z1 (vars st1))
                 (run false (d ++ c2) scope_new st2) (MkState z2 (<[name p := v]> (vars st2))).
Proof.
  intros Hsend V1 Hd G1 G2. unfold Marshal, UnMarshal, DeclareVariable in *.
  destruct Hsend as [t v Em Eu Es Hp Ht Hf
    |nm t cp size l Em Eu Es Hp Hs Hz Hl Hb Ht Hf|t proc v Em Eu Es Hn [w Hw] Hok];
    rewrite Em, Eu, ?Es in *.
  - rewrite (plain_no_pointer _ _ Hp) in Hd. cbn [Z.eqb andb] in Hd.
    destruct (isVoid p); [done |]. destruct (GetDeclaration t _) as [dt|]; [|done].
    assert (Hd' : d = [LocalVar (text [dt; nobind t; ";"; nl]) (name p) t] ∧ rf = false)
      by (by destruct (GetBaseType t); simplify_eq).
    destruct Hd' as [-> ->]. cbn [sized param_expr app] in *. rewrite Es in G1, G2.
    destruct (gen true buf1 t _ None k1) as [[b1 i1]|] eqn:H1; [|done].
    destruct (gen false buf2 t _ None k2) as [[b2 i2]|] eqn:H2; [|done]. simplify_eq.
    destruct (new_value_typed new_object constant Hconstant t true Hp) as (dv & Hdv & Tdv).
    edestruct (gen_codec t true buf1 buf2 (Var (name p)) (Var (name p)) k1 k2 _ _ _ _ scope_new scope_new
      st1 (MkState (sizes st2) (<[name p := dv]> (vars st2))) (name p, []) (name p, []) v dv
      Hp (λ _, conj eq_refl eq_refl) H1 H2)
      as (z1 & z2 & vs & Hw & Hc); try done; [by apply read_var | by apply read_var, lookup_insert_eq |].
    cbn [vars] in Hw. rewrite write_var in Hw. injection Hw as <-. exists z1, z2.
    by eapply run_declare_r.
  - rewrite bool_decide_false in Hd by done. rewrite andb_false_r in Hd. destruct (isVoid p); [done |].
    destruct (pointer_base nm 1 t cp true Hp) as (b & Eb & Hbv). rewrite Eb in Hd, G2.
    destruct (GetDeclaration (TPtr nm 1 t cp) _) as [dt|]; [|done]. cbn [andb] in Hd. simplify_eq.
    cbn [sized param_expr] in G1, G2. rewrite Es in G1, G2. cbn [Types.IsPointer] in G2.
    rewrite (plain_no_pointer _ _ Hp) in G2. change (1 + 0 =? 0) with false in G2. cbn [andb negb] in G2.
    destruct (gen true buf1 _ _ _ k1) as [[b1 i1]|] eqn:H1; [|done].
    destruct (gen false buf2 _ _ _ k2) as [[b2 i2]|] eqn:H2; [|done]. simplify_eq.
    destruct (new_value_typed new_object constant Hconstant t true Hp) as (dv & Hdv & Tdv).
    set (arr := VSeq (replicate (length l) dv)).
    edestruct (array_codec nm cp t size buf1 buf2 p k1 k2 b1 b2 k1' k2' l (replicate (length l) dv)
      (MkState (<[size1 p := zlen l]> (sizes st1)) (vars st1))
      (MkState (<[size2 p := zlen l]> (sizes st2)) (<[name p := arr]> (<[name p := VSeq []]> (vars st2))))
      ("1_" +:+ name p) ("2_" +:+ name p)) as (z1 & z2 & Hc);
      [exact Hp | exact Hs | exact Hl | exact Hb | exact Ht | exact Hf | by apply Forall_replicate | exact Es
      | exact H1 | exact H2 | exact V1 | apply lookup_insert_eq | apply length_replicate
      | apply lookup_insert_eq | apply lookup_insert_eq |].
    exists z1, z2. cbn [vars] in Hc. rewrite !insert_insert_eq in Hc.
    eapply run_declare_r; [reflexivity |]. eapply size_param_codec; [exact Hz | |].
    { unfold int_max in Hl. apply in_sint32. lia. }
    eapply need_r; [|exact Hc]. cbn. rewrite lookup_insert_eq. cbn.
    unfold allocate. rewrite Hbv, Hdv, Nat2Z.id. cbn. by rewrite insert_insert_eq.
  - rewrite Hn in Hd. cbn [Z.eqb andb] in Hd.
    destruct (isVoid p); [done |]. destruct (GetDeclaration t _) as [dt|]; [|done].
    assert (Hd' : d = [LocalVar (text [dt; nobind t; ";"; nl]) (name p) t] ∧ rf = false)
      by (by destruct (GetBaseType t); simplify_eq).
    destruct Hd' as [-> ->]. cbn [sized param_expr app] in *. rewrite Es in G1, G2. simplify_eq.
    exists (sizes st1), (sizes st2). eapply run_declare_r; [exact Hw |].
    eapply run_cons_codec; [|apply run_nil_codec]. cbn [exec target eval].
    eapply need_w; [reflexivity |]. eapply need_r; [reflexivity |].
    eapply need_w; [by apply read_var |]. eapply need_r; [by apply read_var, lookup_insert_eq |].
    eapply codec_bind; [by apply Hprocs |]. cbv beta.
    eapply need_w; [apply write_same; by apply read_var |].
    eapply need_r; [apply write_var |]. apply codec_ret.
Qed.

(** An output parameter: the caller has its variable, and what it holds is replaced. *)
Lemma out_param_codec buf1 buf2 inf1 inf2 p v w c1 c2 k1 k2 k1' k2' st1 st2 :
  sends (vars st1) p v → vars st1 !! name p = Some v → vars st2 !! name p = Some w → accepts p v w →
  Marshal buf1 false inf1 p k1 = Some (c1, k1') → UnMarshal buf2 false false inf2 p k2 = Some (c2, k2') →
  ∃ z1 z2, codec (run true c1 scope_new st1) (MkState z1 (vars st1))
                 (run false c2 scope_new st2) (MkState z2 (<[name p := v]> (vars st2))).
Proof.
  intros Hsend V1 V2 Hacc G1 G2. unfold Marshal, UnMarshal in *.
  assert (Hwr : ∀ x, write (vars st2) (name p, []) x = Some (<[name p := x]> (vars st2)))
    by (intros x; unfold write; cbn; by rewrite V2).
  destruct Hsend as [t v Em Eu Es Hp Ht Hf
    |nm t cp size l Em Eu Es Hp Hs Hz Hl Hb Ht Hf|t proc v Em Eu Es Hn _ Hok];
    cbn [sized param_expr] in *; rewrite Em, Eu, Es in *; cbn [app] in *.
  - destruct (gen true buf1 t _ None k1) as [[b1 i1]|] eqn:H1; [|done].
    destruct (gen false buf2 t _ None k2) as [[b2 i2]|] eqn:H2; [|done]. simplify_eq.
    destruct (Hacc Eu t Em) as [Tw _].
    destruct (gen_codec t true buf1 buf2 (Var (name p)) (Var (name p)) k1 k2 c1 c2 k1' k2' scope_new
      scope_new st1 st2 (name p, []) (name p, []) v w Hp (λ _, conj eq_refl eq_refl) H1 H2)
      as (z1 & z2 & vs & Hw & Hc); try done; [by apply read_var | by apply read_var |].
    rewrite Hwr in Hw. injection Hw as <-. by exists z1, z2.
  - destruct (gen true buf1 _ _ _ k1) as [[b1 i1]|] eqn:H1; [|done].
    destruct (gen false buf2 _ _ _ k2) as [[b2 i2]|] eqn:H2; [|done].
    destruct (Hacc Eu _ Em) as [(l2 & -> & T2) Hlen].
    assert (Hlen' : length l2 = length l).
    { apply Hlen; [|done..]. cbn. by rewrite (plain_no_pointer _ _ Hp). }
    assert (E2 : c2 = SizeParam _ (size2 p) size :: b2 ∧ k2' = i2)
      by (destruct (GetBaseType _); cbn [andb] in G2; by simplify_eq).
    destruct E2 as [-> ->]. simplify_eq.
    edestruct (array_codec nm cp t size buf1 buf2 p k1 k2 b1 b2 k1' i2 l l2
      (MkState (<[size1 p := zlen l]> (sizes st1)) (vars st1))
      (MkState (<[size2 p := zlen l]> (sizes st2)) (vars st2))
      ("1_" +:+ name p) ("2_" +:+ name p)) as (z1 & z2 & Hc);
      [exact Hp | exact Hs | exact Hl | exact Hb | exact Ht | exact Hf | exact T2 | exact Es
      | exact H1 | exact H2 | exact V1 | exact V2 | exact Hlen'
      | apply lookup_insert_eq | apply lookup_insert_eq |].
    exists z1, z2. eapply size_param_codec; [exact Hz | | exact Hc].
    unfold int_max in Hl. apply in_sint32. lia.
  - simplify_eq. exists (sizes st1), (sizes st2).
    eapply run_cons_codec; [|apply run_nil_codec]. cbn [exec target eval].
    eapply need_w; [reflexivity |]. eapply need_r; [reflexivity |].
    eapply need_w; [by apply read_var |]. eapply need_r; [by apply read_var |].
    eapply codec_bind; [by apply Hprocs |]. cbv beta.
    eapply need_w; [apply write_same; by apply read_var |].
    eapply need_r; [apply Hwr |]. apply codec_ret.
Qed.

(** The variables after the parameters have been received. *)
Definition receive (flag : Param → bool) (u : Param → cval O) (vs : gmap string (cval O)) (ps : list Param) :
    gmap string (cval O) :=
  foldl (λ vs p, if flag p then <[name p := u p]> vs else vs) vs ps.

Lemma receive_other flag u vs ps x :
  Forall (λ p, flag p = true → name p ≠ x) ps → receive flag u vs ps !! x = vs !! x.
Proof.
  revert vs. induction ps as [|p ps IH]; intros vs Hall; [done |]. apply Forall_cons in Hall as [Hp Hps].
  cbn. unfold receive in IH. rewrite IH by done. destruct (flag p); [|done].
  by rewrite lookup_insert_ne by auto.
Qed.
Lemma receive_spec flag u vs ps p :
  NoDup (name <$> ps) → p ∈ ps → flag p = true → receive flag u vs ps !! name p = Some (u p).
Proof.
  revert vs. induction ps as [|q ps IH]; intros vs Hd Hin Hf; [by apply elem_of_nil in Hin |].
  cbn in Hd. apply NoDup_cons in Hd as [Hq Hd]. apply elem_of_cons in Hin as [->|Hin].
  - cbn. rewrite Hf. fold (receive flag u (<[name q := u q]> vs) ps).
    rewrite receive_other; [apply lookup_insert_eq |]. apply Forall_forall. intros r Hr _ Er.
    apply Hq. rewrite <- Er. by apply list_elem_of_fmap_2.
  - cbn. by apply IH.
Qed.

(** Text between statements runs as nothing. *)
Lemma run_skip pack d s l sc st b : run pack (d ++ Text s :: l) sc st b = run pack (d ++ l) sc st b.
Proof. by rewrite !run_app. Qed.

Lemma in_params_codec buf1 buf2 (v : Param → cval O) ps c1 c2 rfs k1 k2 k1' k2' st1 st2 hm :
  Forall (λ p, InParam p = true → vars st1 !! name p = Some (v p) ∧ sends (vars st1) p (v p) ∧
                is_Some (DeclareVariable false p)) ps →
  marshal_in buf1 ps k1 = Some (c1, k1') → unmarshal_in buf2 hm ps k2 = Some ((c2, rfs), k2') →
  ∃ z1 z2, codec (run true c1 scope_new st1) (MkState z1 (vars st1))
                 (run false c2 scope_new st2) (MkState z2 (receive InParam v (vars st2) ps)).
Proof.
  intros Hall. revert k1 k2 c1 c2 rfs k1' k2' st1 st2 hm Hall.
  induction ps as [|p ps IH]; intros k1 k2 c1 c2 rfs k1' k2' st1 st2 hm Hall G1 G2; cbn in G1, G2.
  { simplify_eq. exists (sizes st1), (sizes st2). destruct st1, st2. apply run_nil_codec. }
  apply Forall_cons in Hall as [Hp Hall]. destruct (InParam p) eqn:Ei.
  - destruct (Hp eq_refl) as (Hv & Hs & [[d rf] Hd]). rewrite Hd in G2. cbn [default id] in G2.
    destruct (Marshal buf1 false true p k1) as [[a1 i1]|] eqn:M1; [|done]. cbn [gbind] in G1.
    destruct (marshal_in buf1 ps i1) as [[b1 j1]|] eqn:L1; [|done]. cbn [gbind] in G1.
    destruct (UnMarshal buf2 rf true false p k2) as [[a2 i2]|] eqn:M2; [|done]. cbn [gbind] in G2.
    destruct (unmarshal_in buf2 _ ps i2) as [[[b2 r2] j2]|] eqn:L2; [|done]. cbn [gbind fst snd] in G2.
    simplify_eq.
    destruct (in_param_codec buf1 buf2 true false p (v p) d rf a1 a2 k1 k2 i1 i2 st1 st2 Hs Hv Hd M1 M2)
      as (z1 & z2 & Hc).
    destruct (IH i1 i2 b1 b2 r2 k1' k2' (MkState z1 (vars st1))
      (MkState z2 (<[name p := v p]> (vars st2))) _ Hall L1 L2) as (y1 & y2 & Hc').
    exists y1, y2. cbn [receive foldl]. rewrite Ei.
    eapply codec_ext; [done | | exact (run_app_codec _ _ _ _ _ a1 (d ++ a2) b1 b2 _ _ _ _ _ _ _ _ Hc Hc')].
    intros b. rewrite <- app_assoc. destruct (_ && _); [symmetry; apply run_skip | reflexivity].
  - cbn [gbind] in G1, G2. destruct (marshal_in buf1 ps k1) as [[b1 j1]|] eqn:L1; [|done]. cbn [gbind] in G1.
    destruct (unmarshal_in buf2 hm ps k2) as [[[b2 r2] j2]|] eqn:L2; [|done]. cbn [gbind fst snd] in G2.
    simplify_eq. destruct (IH _ _ _ _ _ _ _ st1 st2 _ Hall L1 L2) as (y1 & y2 & Hc').
    exists y1, y2. cbn [receive foldl]. by rewrite Ei.
Qed.

(** A pointer has its size, so that no variable is the object itself. *)
Definition direct (p : Param) : Prop := ¬ (type_pointer (mytype p) = 1 ∧ paramSize p = None).

Lemma DeclareVariable_direct alloc p d rf :
  direct p → DeclareVariable alloc p = Some (d, rf) → rf = false.
Proof.
  unfold direct, DeclareVariable. destruct (mytype p) as [t|]; [|done]. cbn.
  destruct (isVoid p); [done |]. intros Hd E.
  destruct ((Types.IsPointer t =? 1) && bool_decide (paramSize p = None)) eqn:Ep.
  - apply andb_true_iff in Ep as [Ep%Z.eqb_eq Es%bool_decide_eq_true]. by destruct Hd.
  - destruct (GetDeclaration t _); [|done]. by destruct (paramSize p), (GetBaseType t); simplify_eq.
Qed.

Lemma unmarshal_in_direct buf hm ps k c rfs k' :
  Forall direct ps → unmarshal_in buf hm ps k = Some ((c, rfs), k') → rfs = replicate (length ps) false.
Proof.
  intros Hd. revert hm k c rfs k'. induction Hd as [|p ps Hp _ IH]; intros hm k c rfs k' G; cbn in G.
  { by simplify_eq. }
  destruct (InParam p).
  - destruct (DeclareVariable false p) as [[d rf]|] eqn:Ed; cbn [default id] in G.
    + rewrite (DeclareVariable_direct _ _ _ _ Hp Ed) in G. cbn [gbind] in G.
      destruct (UnMarshal _ _ _ _ _ _) as [[a i]|]; [|done]. cbn [gbind] in G.
      destruct (unmarshal_in _ _ ps _) as [[[b r] j]|] eqn:E; [|done]. cbn in G. simplify_eq.
      cbn. f_equal. by eapply IH.
    + destruct (UnMarshal _ _ _ _ _ _) as [[a i]|]; [|done]. cbn [gbind] in G.
      destruct (unmarshal_in _ _ ps _) as [[[b r] j]|] eqn:E; [|done]. cbn in G. simplify_eq.
      cbn. f_equal. by eapply IH.
  - cbn [gbind] in G. destruct (unmarshal_in _ _ ps _) as [[[b r] j]|] eqn:E; [|done]. cbn in G. simplify_eq.
    cbn. f_equal. by eapply IH.
Qed.

Lemma declare_out_direct ps :
  Forall direct ps → (declare_out ps (replicate (length ps) false)).2 = replicate (length ps) false.
Proof.
  induction 1 as [|p ps Hp _ IH]; cbn; [done |].
  destruct (declare_out ps _) as [cs rs]. cbn in IH. subst rs. destruct (InParam p); [done |].
  destruct (DeclareVariable true p) as [[d rf]|] eqn:Ed; [|done].
  by rewrite (DeclareVariable_direct _ _ _ _ Hp Ed).
Qed.

(** The variables of the output parameters: made without the message, and no other variable
    changes. *)
Definition declarable (p : Param) : Prop :=
  ∀ t, mytype p = Some t → is_Some (new_value t) ∧ ∀ b, GetBaseType t = Some b → is_Some (new_value b).

Lemma declare_run alloc p d rf st :
  declarable p → DeclareVariable alloc p = Some (d, rf) →
  ∃ st', (∀ b, run false d scope_new st b = Ok (st', b)) ∧ ∀ x, x ≠ name p → vars st' !! x = vars st !! x.
Proof.
  unfold declarable, DeclareVariable. destruct (mytype p) as [t|]; [|done]. intros Hv E.
  destruct (Hv t eq_refl) as [[v Ev] Hb]. destruct (isVoid p); [done |]. cbv zeta in E.
  assert (Hdecl : ∀ txt b, is_Some (new_value b) → ∃ st',
    (∀ buf, run false [LocalVar txt (name p) b] scope_new st buf = Ok (st', buf)) ∧
    ∀ x, x ≠ name p → vars st' !! x = vars st !! x).
  { intros txt b [bv Eb]. exists (MkState (sizes st) (<[name p := bv]> (vars st))).
    split; [intros buf; cbn; by rewrite Eb | intros x Hx; cbn; by rewrite lookup_insert_ne]. }
  destruct ((Types.IsPointer t =? 1) && bool_decide (paramSize p = None)).
  - destruct (GetBaseType t) as [b|]; [|done]. destruct (GetDeclaration b _); [|done]. simplify_eq.
    exact (Hdecl _ _ (Hb b eq_refl)).
  - destruct (GetDeclaration t _) as [dt|]; [|done]. simplify_eq.
    assert (Hv' : is_Some (new_value t)) by by exists v.
    destruct (paramSize p) as [n|]; [|exact (Hdecl _ _ Hv')].
    destruct (GetBaseType t) as [b|]; [|exact (Hdecl _ _ Hv')].
    destruct (alloc && negb (Types.IsPointer t =? 0)); [|exact (Hdecl _ _ Hv')].
    destruct (Hb b eq_refl) as [bv Ebv].
    set (arr := VSeq (replicate (Z.to_nat (expression (<[name p := v]> (vars st)) n)) bv)).
    exists (MkState (sizes st) (<[name p := arr]> (<[name p := v]> (vars st)))).
    split; [intros buf; cbn; rewrite Ev; cbn; unfold allocate; by rewrite Ebv |].
    intros x Hx. cbn. by rewrite !lookup_insert_ne.
Qed.

Lemma declare_out_run ps rfs st :
  Forall (λ p, InParam p = false → declarable p) ps →
  ∃ st', (∀ b, run false (declare_out ps rfs).1 scope_new st b = Ok (st', b)) ∧
    ∀ x, Forall (λ p, InParam p = false → x ≠ name p) ps → vars st' !! x = vars st !! x.
Proof.
  intros Hall. revert rfs st. induction Hall as [|p ps Hp _ IH]; intros rfs st.
  { exists st. by split. }
  destruct rfs as [|r rfs]; [by exists st |]. cbn.
  destruct (declare_out ps rfs) as [cs rs] eqn:Eo. destruct (InParam p) eqn:Ei.
  - destruct (IH rfs st) as (st' & Hr & Hx). rewrite Eo in Hr. exists st'. split; [done |].
    intros x [_ Ha]%Forall_cons. by apply Hx.
  - destruct (DeclareVariable true p) as [[d rf]|] eqn:Ed; cbn [default id].
    + destruct (declare_run true p d rf st (Hp eq_refl) Ed) as (st1 & Hr1 & Hx1).
      destruct (IH rfs st1) as (st' & Hr & Hx). rewrite Eo in Hr. exists st'. split.
      * intros b. cbn [fst]. rewrite run_app. unfold mbind. rewrite Hr1. apply Hr.
      * intros x [Hne Ha]%Forall_cons. rewrite Hx by done. by apply Hx1, Hne.
    + destruct (IH rfs st) as (st' & Hr & Hx). rewrite Eo in Hr. exists st'. split; [done |].
      intros x [_ Ha]%Forall_cons. by apply Hx.
Qed.

(** The results. *)
Lemma out_params_codec buf1 buf2 (v w : Param → cval O) ps c1 c2 k1 k2 k1' k2' st1 st2 :
  Forall (λ p, OutParam p = true → vars st1 !! name p = Some (v p) ∧ sends (vars st1) p (v p) ∧
                vars st2 !! name p = Some (w p) ∧ accepts p (v p) (w p)) ps →
  NoDup (name <$> ps) →
  marshal_out buf1 ps (replicate (length ps) false) k1 = Some (c1, k1') →
  unmarshal_out buf2 ps k2 = Some (c2, k2') →
  ∃ z1 z2, codec (run true c1 scope_new st1) (MkState z1 (vars st1))
                 (run false c2 scope_new st2) (MkState z2 (receive OutParam v (vars st2) ps)).
Proof.
  revert k1 k2 c1 c2 k1' k2' st1 st2.
  induction ps as [|p ps IH]; intros k1 k2 c1 c2 k1' k2' st1 st2 Hall Hd G1 G2; cbn in G1, G2.
  { simplify_eq. exists (sizes st1), (sizes st2). destruct st1, st2. apply run_nil_codec. }
  apply Forall_cons in Hall as [Hp Hall]. cbn in Hd. apply NoDup_cons in Hd as [Hn Hd].
  destruct (OutParam p) eqn:Eo.
  - destruct (Hp eq_refl) as (Hv & Hs & Hw & Ha).
    destruct (Marshal buf1 false false p k1) as [[a1 i1]|] eqn:M1; [|done]. cbn [gbind] in G1.
    destruct (marshal_out buf1 ps _ i1) as [[b1 j1]|] eqn:L1; [|done]. cbn [gbind] in G1.
    destruct (UnMarshal buf2 false false true p k2) as [[a2 i2]|] eqn:M2; [|done]. cbn [gbind] in G2.
    destruct (unmarshal_out buf2 ps i2) as [[b2 j2]|] eqn:L2; [|done]. cbn [gbind] in G2.
    simplify_eq.
    destruct (out_param_codec buf1 buf2 false true p (v p) (w p) a1 a2 k1 k2 i1 i2 st1 st2 Hs Hv Hw Ha M1 M2)
      as (z1 & z2 & Hc).
    destruct (IH i1 i2 b1 b2 k1' k2' (MkState z1 (vars st1))
      (MkState z2 (<[name p := v p]> (vars st2)))) as (y1 & y2 & Hc'); try done.
    { apply Forall_forall. intros q Hq Hoq. rewrite Forall_forall in Hall.
      destruct (Hall q Hq Hoq) as (? & ? & ? & ?). split_and!; try done. cbn [vars].
      rewrite lookup_insert_ne; [done |]. intros En. apply Hn. rewrite En. by apply list_elem_of_fmap_2. }
    exists y1, y2. cbn [receive foldl]. rewrite Eo. by eapply run_app_codec.
  - cbn [gbind] in G1, G2. destruct (marshal_out buf1 ps _ k1) as [[b1 j1]|] eqn:L1; [|done].
    destruct (unmarshal_out buf2 ps k2) as [[b2 j2]|] eqn:L2; [|done]. cbn [gbind] in G1, G2.
    simplify_eq. destruct (IH _ _ _ _ _ _ st1 st2 Hall Hd L1 L2) as (y1 & y2 & Hc').
    exists y1, y2. cbn [receive foldl]. by rewrite Eo.
Qed.
End Travel.
