(* ===== verification/Compiler.v ===== *)
(** * Methods and parallel classes of the compiler

    [Method], [Constructor], [Destructor] (parser/classmember.cc), [Class] (parser/class.cc) and the
    search for base classes of [CodeFile] (parser/codefile.cc): the numbers of the methods, which
    of them have a stub and an entry in the broker, how the broker of a class finds the method of a
    request, and the text of both sides. The marshalling in these texts is that of Stubs.v;
    Invocation.v says what a call does.

    Buffers of characters are taken to be long enough; [exit(1)] after an error message is the
    answer [inl] with the message. *)

From S2P Require Import Prelude Machine Utils.
From S2P Require Broker.
From S2P Require Import Types Stubs.

(** ** Methods *)
Inductive AccessType : Type := PUBLIC | PROTECTED | PRIVATE.
Inductive MethodType : Type := METHOD_NORMAL | METHOD_CONSTRUCTOR | METHOD_DESTRUCTOR.
Inductive InvokeType : Type := autoselect | invokesync | invokeasync.
#[export] Instance AccessType_dec : EqDecision AccessType.
Proof. solve_decision. Defined.
#[export] Instance MethodType_dec : EqDecision MethodType.
Proof. solve_decision. Defined.
#[export] Instance InvokeType_dec : EqDecision InvokeType.
Proof. solve_decision. Defined.

Record Method : Type := MkMethod {
  method_name : string;
  access : AccessType;
  method_type : MethodType;
  id : Z;
  params : list Param;
  returnparam : Param;
  invoketype : InvokeType;
  isConcurrent : bool; isMutex : bool; isHidden : bool;
  isVirtual : bool; isPureVirtual : bool; isGlobalConst : bool; collective_method : bool;
  od : option string;       (* of a constructor *)
  identifier : Z }.         (* of a constructor *)
#[export] Instance Method_eta : Eta Method := λ m,
  MkMethod (method_name m) (access m) (method_type m) (id m) (params m) (returnparam m) (invoketype m)
    (isConcurrent m) (isMutex m) (isHidden m) (isVirtual m) (isPureVirtual m) (isGlobalConst m)
    (collective_method m) (od m) (identifier m).

Definition Method_new (access : AccessType) : Method :=
  MkMethod "" access METHOD_NORMAL 0 [] (param_new None) invokesync
    false false false false false false false None 0.

Definition isDefault (m : Method) : bool := bool_decide (params m = []).

Definition is_void (t : option DataType) : bool :=
  match t with Some t => Same_name t "void" | None => false end.

Definition hasInput (m : Method) : bool := existsb InParam (params m).
Definition hasOutput (m : Method) : bool :=
  if bool_decide (method_type m = METHOD_NORMAL) && negb (is_void (mytype (returnparam m))) then true
  else existsb OutParam (params m).

(** [CheckMarshal]: 0, -1 for the value returned, or the number of the first parameter that cannot
    be marshalled. *)
Definition bad_param (p : Param) : bool :=
  match mytype p with
  | Some t => (IsParClass t && negb (isRef p)) || negb (Stubs.CanMarshal p)
  | None => true
  end.
Fixpoint check_params (i : Z) (ps : list Param) : Z :=
  match ps with
  | [] => 0
  | p :: ps' => if bad_param p then i + 1 else check_params (i + 1) ps'
  end.
Definition CheckMarshal (m : Method) : Z :=
  if negb (bool_decide (access m = PUBLIC)) || isHidden m then 0
  else if bool_decide (method_type m = METHOD_NORMAL) && negb (Stubs.CanMarshal (returnparam m)) then -1
  else check_params 0 (params m).

(** [operator==]. The types of two constructors, which have none, are not compared: only virtual
    methods are looked for. *)
Definition same_type (t1 t2 : option DataType) : bool :=
  match t1, t2 with Some t1, Some t2 => Same t1 t2 | _, _ => false end.
Fixpoint same_params (ps qs : list Param) : bool :=
  match ps, qs with
  | [], [] => true
  | p :: ps', q :: qs' => same_type (mytype p) (mytype q) && same_params ps' qs'
  | _, _ => false
  end.
Definition same_method (m other : Method) : bool :=
  bool_decide (isVirtual m = isVirtual other) && bool_decide (access m = access other) &&
  bool_decide (method_type m = method_type other) &&
  isEqual (Some (string_bytes (method_name m))) (Some (string_bytes (method_name other))) &&
  same_type (mytype (returnparam m)) (mytype (returnparam other)) &&
  same_params (params m) (params other).

(** The semantics in the header of a request, and whether the stub waits for the answer. *)
Definition invoke_code (m : Method) : Z * bool :=
  if bool_decide (method_type m = METHOD_CONSTRUCTOR) then
    (Z.lor Broker.INVOKE_CONSTRUCTOR (Z.lor Broker.INVOKE_SYNC Broker.INVOKE_MUTEX), true)
  else
    let waitreturn := bool_decide (invoketype m = invokesync) ||
                      (bool_decide (invoketype m = autoselect) && hasOutput m) in
    (Z.lor (if waitreturn then Broker.INVOKE_SYNC else 0)
       (if isMutex m then Broker.INVOKE_MUTEX else if isConcurrent m then Broker.INVOKE_CONC else 0),
     waitreturn).

(** ** Classes *)
Inductive Member : Type :=
  | MMethod (m : Method)
  | MOther (access : AccessType).

(** A base class: its access and whether it is a virtual base. The hierarchy is a tree: a class is
    in it once for each way to inherit from it. *)
Inductive Class : Type := MkClass {
  class_name : string;
  classid : option string;
  memberList : list Member;
  baseClass : list (AccessType * bool * Class);
  endid : Z;
  noConstructor : bool;
  pureVirtual : bool;
  basePureVirtual : bool;
  isCoreCompilation : bool;
  asyncAllocationEnabled : bool;
  is_collective : bool }.
#[export] Instance Class_eta : Eta Class := λ c,
  MkClass (class_name c) (classid c) (memberList c) (baseClass c) (endid c) (noConstructor c)
    (pureVirtual c) (basePureVirtual c) (isCoreCompilation c) (asyncAllocationEnabled c) (is_collective c).

Definition Class_new (clname : string) : Class :=
  MkClass clname None [] [] 11 true false false false false false.

(** The constructor of a class that declares none. *)
Definition default_constructor (c : Class) : Method :=
  (Method_new PUBLIC) <| method_name := class_name c |> <| method_type := METHOD_CONSTRUCTOR |> <| id := 10 |>.

Definition AddMember (t : Member) (c : Class) : Class :=
  match t with
  | MMethod m =>
      let ctor := bool_decide (method_type m = METHOD_CONSTRUCTOR) in
      let c := if ctor then c <| noConstructor := false |> else c in
      if ctor && isDefault m then c <| memberList := memberList c ++ [MMethod (m <| id := 10 |>)] |>
      else c <| memberList := memberList c ++ [MMethod (m <| id := endid c |>)] |>
             <| endid := endid c + 1 |>
  | MOther _ => c <| memberList := memberList c ++ [t] |>
  end.
(** The members in the order of the source text. *)
Definition AddMembers (l : list Member) (c : Class) : Class := foldl (λ c t, AddMember t c) c l.

Definition methods (c : Class) : list Method :=
  omap (λ t, match t with MMethod m => Some m | MOther _ => None end) (memberList c).

Definition hasMethod (c : Class) (x : Method) : bool := existsb (λ t, same_method t x) (methods c).

Fixpoint methodInBaseClass (c : Class) (x : Method) : bool :=
  existsb (λ b, bool_decide (b.1.1 = PUBLIC) && (hasMethod b.2 x || methodInBaseClass b.2 x))
    (baseClass c).

(** [findPureVirtual]: the pure virtual methods that are left without a body, and whether the class
    has no public base. *)
Definition pure_step (lst : list Method) (t : Method) : list Method :=
  if isPureVirtual t then lst ++ [t] else List.filter (λ v, negb (same_method v t)) lst.
Fixpoint findPureVirtual (c : Class) (lst : list Method) : list Method * bool :=
  let r := foldl (λ r b, if bool_decide (b.1.1 = PUBLIC) then ((findPureVirtual b.2 r.1).1, false) else r)
             (lst, true) (baseClass c) in
  (foldl pure_step r.1 (methods c), r.2).

(** What [GenerateCode] computes before the headers. *)
Definition settle (c : Class) : Class :=
  if pureVirtual c then c
  else
    let '(puremethods, flag) := findPureVirtual c [] in
    if 0 <? zlen puremethods then c <| pureVirtual := true |> <| basePureVirtual := flag |> else c.

(** ** Class identifiers *)
Definition MIN_CLASSID : Z := 1000.

(** [IDFromString]; the comparisons are those of the source: [A] to [Y] give nothing, and all from
    [Z] on, small letters and the underscore too, is in the first case. *)
Definition digit (c : Z) : option Z :=
  let starta := 26 in
  if (65 <=? c) && (90 <=? c) then Some (c - 65)
  else if (97 <=? c) && (122 <=? c) then Some (c - 97 + starta)
  else if c =? 95 then Some (2 * starta)
  else if (48 <=? c) && (c <=? 57) then Some (c - 48 + 2 * starta + 1)
  else None.
Definition id_digits (s : chars) : list Z := omap (λ c, digit (swrap 8 (Z.of_N (Byte.to_N c)))) (take 256 s).

Definition IDFromString (s : string) : Z :=
  let tmp := id_digits (string_bytes s) in
  match last tmp with
  | None => 999 + MIN_CLASSID
  | Some id =>
      uwrap 32 (foldl (λ id d, uwrap 32 (id * 63 + d)) (uwrap 32 id) (removelast tmp) + MIN_CLASSID)
  end.

(** ** What a class has on both sides

    The methods with a stub ([GenerateClient]) and the entries of the broker ([GenerateBroker]),
    which [methodinfo] lists too. *)
Definition inherited (c : Class) (m : Method) : bool := isVirtual m && methodInBaseClass c m.

Definition stubs (c : Class) : list (Z * string) :=
  let own := List.filter (λ m,
    bool_decide (access m = PUBLIC) &&
    negb (pureVirtual c && bool_decide (method_type m = METHOD_CONSTRUCTOR) && isCoreCompilation c) &&
    (* Destructor::GenerateClient is no call; Method::GenerateClient *)
    negb (bool_decide (method_type m = METHOD_DESTRUCTOR)) && negb (inherited c m || isHidden m)) (methods c) in
  ((λ m, (id m, method_name m)) <$> own) ++
  (if noConstructor c && negb (pureVirtual c) then [(10, class_name c)] else []).

Definition served (c : Class) (m : Method) : bool :=
  bool_decide (access m = PUBLIC) &&
  negb (bool_decide (method_type m = METHOD_DESTRUCTOR) || isHidden m ||
        (pureVirtual c && bool_decide (method_type m = METHOD_CONSTRUCTOR) && isCoreCompilation c) ||
        inherited c m).
Definition entries (c : Class) : list (Z * string) :=
  ((λ m, (id m, method_name m)) <$> List.filter (served c) (methods c)) ++
  (if noConstructor c && negb (pureVirtual c)
   then [(id (default_constructor c), method_name (default_constructor c))] else []).

(** *** The generated [Invoke] *)
Section Dispatch.
(** The number a text of a class identifier is, and the answer of [pop_broker::Invoke] at the root
    of the hierarchy: [PopCall]. *)
Context (constant : string → Z) (PopCall : Z → bool).

Definition CLASSUID (c : Class) : Z :=
  match classid c with Some s => uwrap 32 (constant s) | None => IDFromString (class_name c) end.

Inductive invoked : Type :=
  | Wrapper (class : string) (mid : Z) (name : string)   (* Invoke_name_mid of the class *)
  | Runtime.                                              (* PopCall *)

Definition find_entry (mid : Z) (l : list (Z * string)) : option (Z * string) :=
  List.find (λ e, e.1 =? mid) l.

(** [else if (base::Invoke(method, ...)) return true;] for each base in turn. *)
Definition first_answer {A : Type} (f : Class → option A) : list (AccessType * bool * Class) → option A :=
  fix go l := match l with
              | [] => None
              | b :: l' => match f b.2 with Some a => Some a | None => go l' end
              end.

Fixpoint Invoke (cid mid : Z) (c : Class) : option invoked :=
  if cid =? CLASSUID c then
    match find_entry mid (entries c) with
    | Some e => Some (Wrapper (class_name c) e.1 e.2)
    | None => None
    end
  else
    match baseClass c with
    | [] => if PopCall mid then Some Runtime else None
    | bases => first_answer (Invoke cid mid) bases
    end.

(** *** The names of the methods of a broker

    [AddMethodInfo], [FindMethodName], [FindMethodInfo] (lib/core/broker.cc). The count of a class
    is a [char]. *)
Record pop_class_info : Type := MkClassInfo { cid : Z; infos : list (Z * string) }.

Definition AddMethodInfo (cid : Z) (l : list (Z * string)) (methodnames : list pop_class_info) :
    list pop_class_info :=
  if swrap 8 (zlen l) <=? 0 then methodnames
  else methodnames ++ [MkClassInfo cid (take (Z.to_nat (swrap 8 (zlen l))) l)].

(** The constructor of the generated broker, after those of its bases; a virtual base that is
    reached in several ways is built once. *)
Definition broker_infos (hierarchy : list Class) : list pop_class_info :=
  foldl (λ l c, AddMethodInfo (CLASSUID c) (entries c) l) [] hierarchy.

Fixpoint FindMethodName (methodnames : list pop_class_info) (classID methodID : Z) : option string :=
  match methodnames with
  | [] => None
  | t :: rest =>
      if cid t =? classID then
        match find_entry methodID (infos t) with
        | Some e => Some e.2
        | None => FindMethodName rest classID methodID
        end
      else FindMethodName rest classID methodID
  end.

Fixpoint FindMethodInfo (methodnames : list pop_class_info) (name : string) : option (Z * Z) :=
  match methodnames with
  | [] => None
  | t :: rest =>
      match List.find (λ e, isEqual (Some (string_bytes name)) (Some (string_bytes e.2))) (infos t) with
      | Some e => Some (cid t, e.1)
      | None => FindMethodInfo rest name
      end
  end.

(** The part of [Initialize] that calls the default constructor of an object that has its code. *)
Definition find_default_constructor (methodnames : list pop_class_info) (classname : string) :
    option (Z * Z) :=
  match FindMethodInfo methodnames classname with
  | Some (c, m) => if negb (m =? 10) then None else Some (c, m)
  | None => None
  end.
End Dispatch.

(** ** The stub and the wrapper of a method

    The decisions and the marshalling code of [Method::GenerateClient] and [GenerateBroker]. *)
Record stub : Type := MkStub {
  request_id : Z;
  request_code : Z;
  request_name : string;
  signal_rank : bool;               (* a message with the rank goes first *)
  stub_in : list code;
  waitreturn : bool;
  stub_out : list code;
  stub_return : option (list code * bool) }.   (* the code, and whether the address is returned *)

(** What stops the compiler. *)
Inductive compile_error : Type :=
  | IllegalReturn                    (* the return argument is an illegal pointer *)
  | UnmarshalableReturn
  | IllegalPointer (arg : Z)
  | UnmarshalableArgument (arg : Z)
  | AsyncOutput (param : string)
  | AsyncReturn
  | MarshalError.                    (* an exit of the marshalling of a type *)

Definition marshal_error (m : Method) (t : Z) : compile_error :=
  if t =? -1 then if Stubs.IsPointer (returnparam m) then IllegalReturn else UnmarshalableReturn
  else match params m !! Z.to_nat (t - 1) with
       | Some p => if Stubs.IsPointer p then IllegalPointer t else UnmarshalableArgument t
       | None => UnmarshalableArgument t
       end.

Definition has_return (m : Method) : bool :=
  bool_decide (method_type m = METHOD_NORMAL) && negb (is_void (mytype (returnparam m))).

(** The value returned, in the stub. *)
Definition return_in (buf : string) (m : Method) : ostate (option (list code * bool)) := λ k,
  if has_return m then
    let '(decl, reformat) := default ([], false) (DeclareVariable false (returnparam m)) in
    gbind (UnMarshal buf reformat true true (returnparam m) k) (λ c k, Some (Some (decl ++ c, reformat), k))
  else Some (None, k).

(** An output parameter an asynchronous call cannot have. *)
Definition async_output (m : Method) : option string :=
  name <$> List.find (λ p, OutParam p && negb match mytype p with Some t => IsParClass t | None => false end)
             (params m).

(** [GenerateClient]; [None] when the method has no stub. *)
Definition GenerateClient (c : Class) (m : Method) (k : Z) : compile_error + option (stub * Z) :=
  if inherited c m || isHidden m then inr None
  else if negb (CheckMarshal m =? 0) then inl (marshal_error m (CheckMarshal m))
  else
    let buf := if is_collective c then "  (" +:+ "*_popc_buffer)" else "(" +:+ "*__pop_buf)" in
    let buf_return := if is_collective c then "(" +:+ "*_popc_buffer)" else "(" +:+ "*__pop_buf)" in
    let signal := is_collective c && negb (collective_method m) &&
                  negb (bool_decide (method_type m = METHOD_CONSTRUCTOR)) in
    match marshal_in buf (params m) k with
    | None => inl MarshalError
    | Some (cin, k) =>
        if (invoke_code m).2 then
          match gbind (unmarshal_out buf (params m) k) (λ cout k,
                gbind (return_in buf_return m k) (λ ret k, Some ((cout, ret), k))) with
          | Some (r, k) =>
              inr (Some (MkStub (id m) (invoke_code m).1 (method_name m) signal cin true r.1 r.2, k))
          | None => inl MarshalError
          end
        else
          match async_output m with
          | Some p => inl (AsyncOutput p)
          | None =>
              if has_return m then inl AsyncReturn
              else inr (Some (MkStub (id m) (invoke_code m).1 (method_name m) signal cin false [] None, k))
          end
    end.

(** The wrapper [Invoke_name_id]: what it reads, the variables it makes, the arguments of the call
    (with their [&]), and what it sends back when there is a connection. *)
Record wrapper : Type := MkWrapper {
  wrapper_name : string;
  wrapper_in : list code;
  wrapper_decl : list code;
  call_args : list (bool * string);
  wrapper_out : list code;
  wrapper_return : list code }.

(** [GenerateBroker]: no wrapper, an empty one (of an abstract class), or the wrapper. *)
Inductive generated : Type := NoWrapper | EmptyWrapper | TheWrapper (w : wrapper).

Definition GenerateBroker (c : Class) (m : Method) (k : Z) : option (generated * Z) :=
  if bool_decide (method_type m = METHOD_DESTRUCTOR) || negb (bool_decide (access m = PUBLIC)) || isHidden m
  then Some (NoWrapper, k)
  else if inherited c m then Some (NoWrapper, k)
  else if isCoreCompilation c || negb (basePureVirtual c) then
    let buf := if is_collective c then "  _popc_buffer" else "__pop_buf" in
    let buf_out := if is_collective c then "    _popc_buffer" else "__pop_buf" in
    gbind (unmarshal_in buf false (params m) k) (λ r k,
    let '(decl, reformat) := declare_out (params m) r.2 in
    gbind (marshal_out buf_out (params m) reformat k) (λ out k,
    gbind (if has_return m then Marshal buf_out false false (returnparam m) k else Some ([], k)) (λ ret k,
    Some (TheWrapper (MkWrapper (method_name m) r.1 decl
            (zip_with (λ p rf, (rf && negb (isVoid p), name p)) (params m) reformat) out ret), k))))
  else Some (EmptyWrapper, k).

(** ** The base classes of a class

    [CodeFile::FindAllBaseClass]. A class is known by its name. *)
Definition same_class (a b : Class) : bool := bool_decide (class_name a = class_name b).

(** The bases of [cl] that were not there, and those of them that are virtual. *)
Definition new_bases (allbases : list Class) (cl : Class) : list (AccessType * bool * Class) :=
  List.filter (λ b, negb (existsb (same_class b.2) allbases)) (baseClass cl).

Fixpoint base_loop (fuel : nat) (virtualBaseOnly : bool) (cl : Class) (index : nat)
    (allbases bases : list Class) : option (list Class * list Class) :=
  match fuel with
  | O => None
  | S fuel' =>
      let new := new_bases allbases cl in
      let allbases := allbases ++ (snd <$> new) in
      let bases := if virtualBaseOnly then bases ++ (snd <$> List.filter (λ b, b.1.2) new) else bases in
      match allbases !! index with
      | Some cl' => base_loop fuel' virtualBaseOnly cl' (S index) allbases bases
      | None => Some (allbases, bases)
      end
  end.

Definition FindAllBaseClass (fuel : nat) (t : Class) (bases : list Class) (virtualBaseOnly : bool) :
    option (list Class) :=
  match base_loop fuel virtualBaseOnly t 0 bases bases with
  | Some (allbases, bases) => Some (if virtualBaseOnly then bases else allbases)
  | None => None
  end.

(** ** Numbers of methods *)
Definition default_ctor (t : Member) : bool :=
  match t with
  | MMethod m => bool_decide (method_type m = METHOD_CONSTRUCTOR) && isDefault m
  | MOther _ => false
  end.

Definition ids (c : Class) : list Z := id <$> methods c.

Lemma ids_app c c' t :
  memberList c' = memberList c ++ [t] →
  ids c' = ids c ++ match t with MMethod m => [id m] | MOther _ => [] end.
Proof.
  intros E. unfold ids, methods at 1. rewrite E, omap_app, fmap_app. by destruct t.
Qed.

(** The numbers given so far: 10 to the default constructor only, then 11, 12, ... *)
Record ids_inv (c : Class) : Prop := {
  inv_fresh : Forall (λ i, i = 10 ∨ 11 ≤ i < endid c) (ids c);
  inv_nodup : NoDup (ids c);
  inv_next : 11 ≤ endid c;
  inv_ctor : noConstructor c = true → 10 ∉ ids c }.

Lemma ids_inv_step c c' i :
  ids_inv c → ids c' = ids c ++ [i] → i ∉ ids c → endid c ≤ endid c' →
  (i = 10 ∨ 11 ≤ i < endid c') → (noConstructor c' = true → noConstructor c = true ∧ i ≠ 10) → ids_inv c'.
Proof.
  intros [F N E K] Hids Hi He Hr Hk. split; rewrite ?Hids; [| |lia|].
  - apply Forall_app. split; [|by constructor]. eapply Forall_impl; [exact F |]. cbn. lia.
  - apply NoDup_app. split_and!; [done | | apply NoDup_singleton].
    intros x Hx ->%list_elem_of_singleton. done.
  - intros Hn. destruct (Hk Hn) as [Hn' Hne]. intros [Hin|Hin%list_elem_of_singleton]%elem_of_app.
    + by apply K.
    + by apply Hne.
Qed.

Lemma AddMember_inv t c :
  ids_inv c → (default_ctor t = true → 10 ∉ ids c) →
  ids_inv (AddMember t c) ∧ (10 ∈ ids (AddMember t c) → 10 ∈ ids c ∨ default_ctor t = true).
Proof.
  intros Hinv Hd. destruct t as [m|a]; cbn [AddMember default_ctor] in *.
  2: { assert (E : ids (c <| memberList := memberList c ++ [MOther a] |>) = ids c).
       { by rewrite (ids_app c (c <| memberList := memberList c ++ [MOther a] |>) (MOther a)), app_nil_r. }
       destruct Hinv. split; [split; by rewrite ?E | rewrite E; auto]. }
  assert (E : ∀ c' i, memberList c' = memberList c ++ [MMethod (m <| id := i |>)] → ids c' = ids c ++ [i]).
  { intros c' i Em. by rewrite (ids_app _ _ _ Em). }
  assert (Hnext : endid c ∉ ids c).
  { intros Hin. destruct Hinv as [F _ Hn _]. rewrite Forall_forall in F. specialize (F _ Hin). lia. }
  pose proof (inv_next _ Hinv) as Hn.
  destruct (bool_decide (method_type m = METHOD_CONSTRUCTOR)) eqn:Ec; cbn [andb] in *.
  - destruct (isDefault m).
    + split; [|by right]. eapply (ids_inv_step c _ 10); [done | by apply E | by apply Hd | done | by left | done].
    + rewrite (E _ (endid c)) by done. split.
      * eapply (ids_inv_step c _ (endid c)); [done | by apply E | done | cbn; lia | right; cbn; lia | done].
      * intros [Hin|Hin%list_elem_of_singleton]%elem_of_app; [by left | lia].
  - rewrite (E _ (endid c)) by done. split.
    + eapply (ids_inv_step c _ (endid c)); [done | by apply E | done | cbn; lia | right; cbn; lia |].
      cbn. intros Hk. split; [done | lia].
    + intros [Hin|Hin%list_elem_of_singleton]%elem_of_app; [by left | lia].
Qed.

Lemma AddMembers_inv l c :
  ids_inv c → (length (List.filter default_ctor l) ≤ 1)%nat →
  (10 ∈ ids c → List.filter default_ctor l = []) → ids_inv (AddMembers l c).
Proof.
  revert c. induction l as [|t l IH]; intros c Hinv Hone Hd; [done |]. cbn [AddMembers foldl].
  cbn [List.filter] in Hone, Hd.
  destruct (AddMember_inv t c Hinv) as [Hinv' H10].
  { intros Et Hin. rewrite Et in Hd. by specialize (Hd Hin). }
  apply IH; [done | |].
  - destruct (default_ctor t); [cbn in Hone; lia | done].
  - intros Hin. destruct (H10 Hin) as [Hin'|Et].
    + specialize (Hd Hin'). by destruct (default_ctor t).
    + rewrite Et in Hone. destruct (List.filter default_ctor l); [done | cbn in Hone; lia].
Qed.

Lemma NoDup_filter_fmap {A B : Type} (f : A → B) (p : A → bool) l :
  NoDup (f <$> l) → NoDup (f <$> List.filter p l).
Proof.
  induction l as [|a l IH]; cbn; [done |]. intros [Ha Hl]%NoDup_cons.
  destruct (p a); cbn; [|auto]. apply NoDup_cons. split; [|auto].
  intros (b & Hb & Hin)%list_elem_of_fmap. apply Ha. rewrite Hb. apply list_elem_of_fmap.
  exists b. split; [done |]. apply list_elem_of_In in Hin. apply List.filter_In in Hin as [Hin _].
  by apply list_elem_of_In.
Qed.

Lemma entries_ids c : ids_inv c → NoDup (entries c).*1 ∧ Forall (λ e, 10 ≤ e.1) (entries c).
Proof.
  intros [F N E K]. unfold entries.
  assert (Hsub : ∀ i, i ∈ (λ m, id m) <$> List.filter (served c) (methods c) → i ∈ ids c).
  { intros i (m & -> & Hin)%list_elem_of_fmap. apply list_elem_of_fmap. exists m. split; [done |].
    apply list_elem_of_In in Hin. apply List.filter_In in Hin as [Hin _]. by apply list_elem_of_In. }
  assert (Hown : ((λ m, (id m, method_name m)) <$> List.filter (served c) (methods c)).*1
                 = (λ m, id m) <$> List.filter (served c) (methods c)) by by rewrite <- list_fmap_compose.
  split.
  - rewrite fmap_app, Hown. apply NoDup_app. split_and!.
    + by apply NoDup_filter_fmap.
    + intros i Hi. destruct (noConstructor c && negb (pureVirtual c)) eqn:En; [|by apply not_elem_of_nil].
      cbn. intros ->%list_elem_of_singleton. apply andb_true_iff in En as [En _]. by apply (K En), Hsub.
    + destruct (noConstructor c && negb (pureVirtual c)); [apply NoDup_singleton | apply NoDup_nil_2].
  - apply Forall_app. split.
    + apply Forall_fmap, Forall_forall. intros m Hm. cbn. rewrite Forall_forall in F.
      assert (Hi : id m ∈ ids c) by (apply Hsub, list_elem_of_fmap; by exists m).
      specialize (F _ Hi). lia.
    + destruct (noConstructor c && negb (pureVirtual c)); repeat constructor. cbn. lia.
Qed.

(** C36: the numbers of the methods. However a class is declared, with one default constructor at
    most, no two methods of its broker have the same number, and none has a number of the calls of
    the run-time (below 10). *)
Theorem method_ids_distinct n l :
  (length (List.filter default_ctor l) ≤ 1)%nat →
  let c := AddMembers l (Class_new n) in
  NoDup (ids c) ∧ NoDup (entries c).*1 ∧ Forall (λ e, 10 ≤ e.1) (entries c).
Proof.
  intros Hone c. assert (Hinv : ids_inv c).
  { apply AddMembers_inv; [|done | by intros Hin%elem_of_nil].
    split; cbn; [constructor | apply NoDup_nil_2 | lia | intros _; apply not_elem_of_nil]. }
  split; [apply Hinv | by apply entries_ids].
Qed.

(** ** From a stub to its wrapper *)
Section ClassInduction.
Context (P : Class → Prop) (H : ∀ c, Forall (λ b, P b.2) (baseClass c) → P c).
Fixpoint Class_rect' (c : Class) : P c :=
  H c (let fix all (l : list (AccessType * bool * Class)) : Forall (λ b, P b.2) l :=
         match l with
         | [] => Forall_nil_2 _
         | b :: l' => Forall_cons_2 _ b l' (Class_rect' b.2) (all l')
         end in all (baseClass c)).
End ClassInduction.

(** The class and all it inherits from. *)
Fixpoint hierarchy (c : Class) : list Class := c :: mjoin ((λ b, hierarchy b.2) <$> baseClass c).

Lemma hierarchy_cons c b : b ∈ hierarchy c ↔ b = c ∨ ∃ x, x ∈ baseClass c ∧ b ∈ hierarchy x.2.
Proof.
  assert (E : hierarchy c = c :: mjoin ((λ b, hierarchy b.2) <$> baseClass c)) by by destruct c.
  rewrite E, elem_of_cons. f_equiv. rewrite list_elem_of_join. split.
  - intros (l & Hb & (x & -> & Hx)%list_elem_of_fmap). by exists x.
  - intros (x & Hx & Hb). exists (hierarchy x.2). split; [done |]. apply list_elem_of_fmap. by exists x.
Qed.
Lemma hierarchy_trans c b a : a ∈ hierarchy b → b ∈ hierarchy c → a ∈ hierarchy c.
Proof.
  revert b a. induction c as [c IH] using Class_rect'. intros b a Ha Hb.
  apply hierarchy_cons in Hb as [->|(x & Hx & Hb)]; [done |]. apply hierarchy_cons. right. exists x.
  split; [done |]. rewrite Forall_forall in IH. by eapply IH.
Qed.

(** Both sides take the same methods. *)
Lemma stubs_entries c : stubs c = entries c.
Proof.
  unfold stubs, entries. f_equal. f_equal. apply List.filter_ext. intros m. unfold served.
  destruct (bool_decide (access m = PUBLIC)), (bool_decide (method_type m = METHOD_DESTRUCTOR)),
    (isHidden m), (inherited c m), (pureVirtual c), (bool_decide (method_type m = METHOD_CONSTRUCTOR)),
    (isCoreCompilation c); done.
Qed.

Section DispatchFacts.
Context (constant : string → Z) (PopCall : Z → bool).
#[local] Abbreviation CLASSUID := (CLASSUID constant).
#[local] Abbreviation Invoke := (Invoke constant PopCall).

Lemma find_entry_nodup i n l : NoDup l.*1 → (i, n) ∈ l → find_entry i l = Some (i, n).
Proof.
  induction l as [|[j o] l IH]; cbn; [by intros _ Hin%elem_of_nil |]. intros [Hj Hl]%NoDup_cons [E|Hin]%elem_of_cons.
  - injection E as <- <-. by rewrite Z.eqb_refl.
  - rewrite (proj2 (Z.eqb_neq _ _)); [by apply IH |]. intros ->. apply Hj.
    change i with ((i, n).1). by apply list_elem_of_fmap_2.
Qed.

Lemma Invoke_unfold cid mid c :
  Invoke cid mid c =
    if cid =? CLASSUID c then
      match find_entry mid (entries c) with
      | Some e => Some (Wrapper (class_name c) e.1 e.2)
      | None => None
      end
    else
      match baseClass c with
      | [] => if PopCall mid then Some Runtime else None
      | bases => first_answer (Invoke cid mid) bases
      end.
Proof. by destruct c. Qed.

(** No class of the hierarchy answers to the identifier. *)
Lemma Invoke_foreign cid mid c :
  PopCall mid = false → (∀ b, b ∈ hierarchy c → CLASSUID b ≠ cid) → Invoke cid mid c = None.
Proof.
  intros Hp. induction c as [c IH] using Class_rect'. intros Hu. rewrite Invoke_unfold.
  rewrite (proj2 (Z.eqb_neq _ _)); [|intros E; symmetry in E; revert E; apply Hu, hierarchy_cons; by left].
  assert (Hb : ∀ b x, x ∈ baseClass c → b ∈ hierarchy x.2 → CLASSUID b ≠ cid).
  { intros b x Hx Hb. apply Hu, hierarchy_cons. right. by exists x. }
  destruct (baseClass c) as [|b0 l] eqn:El; [by rewrite Hp |].
  clear El Hu. induction (b0 :: l) as [|x l' IHl]; [done |]. cbn.
  apply Forall_cons in IH as [Hx IH]. rewrite Hx.
  - apply IHl; [done |]. intros b y Hy. apply Hb. by right.
  - intros b Hin. eapply Hb; [by left | done].
Qed.

Lemma Invoke_reaches B mid a c :
  PopCall mid = false → (∀ b, b ∈ hierarchy c → CLASSUID b = CLASSUID B → b = B) →
  Invoke (CLASSUID B) mid B = Some a → B ∈ hierarchy c → Invoke (CLASSUID B) mid c = Some a.
Proof.
  intros Hp. induction c as [c IH] using Class_rect'. intros Hu Ha Hin. rewrite Invoke_unfold.
  destruct (CLASSUID B =? CLASSUID c) eqn:E.
  { apply Z.eqb_eq in E. rewrite <- (Hu c), Invoke_unfold, Z.eqb_refl in Ha; [done | | done].
    apply hierarchy_cons. by left. }
  apply hierarchy_cons in Hin as [->|(x & Hx & Hin)]; [by rewrite Z.eqb_refl in E |].
  assert (Hu' : ∀ y b, y ∈ baseClass c → b ∈ hierarchy y.2 → CLASSUID b = CLASSUID B → b = B).
  { intros y b Hy Hb. apply Hu, hierarchy_cons. right. by exists y. }
  clear Hu E. destruct (baseClass c) as [|b0 l] eqn:El; [by apply elem_of_nil in Hx |].
  clear El. induction (b0 :: l) as [|y l' IHl]; [by apply elem_of_nil in Hx |]. cbn.
  apply Forall_cons in IH as [Hy IH].
  destruct (decide (Exists (λ b, CLASSUID b = CLASSUID B) (hierarchy y.2))) as [Hex|Hex].
  - rewrite Hy; [done | | done |].
    + intros b. apply Hu'. by left.
    + apply Exists_exists in Hex as (b & Hb & Eb). by rewrite <- (Hu' y b) by (done || by left).
  - rewrite Invoke_foreign; [|done|].
    + apply elem_of_cons in Hx as [->|Hx].
      * destruct Hex. apply Exists_exists. by exists B.
      * apply IHl; [done | done |]. intros z b Hz. apply Hu'. by right.
    + intros b Hb Eb. apply Hex, Exists_exists. by exists b.
Qed.

(** C35: a stub reaches its wrapper. A class [D] inherits the stubs of its base classes; whatever
    class [B] of its hierarchy a stub comes from, the request that carries the identifier of [B]
    and the number of the method runs the wrapper of that method, in the broker of [D], when the
    identifiers of the classes are different. *)
Theorem stub_reaches_wrapper D B l i n :
  (∀ a, a ∈ hierarchy D → CLASSUID a = CLASSUID B → a = B) → B ∈ hierarchy D →
  memberList B = memberList (AddMembers l (Class_new (class_name B))) →
  noConstructor B = noConstructor (AddMembers l (Class_new (class_name B))) →
  (length (List.filter default_ctor l) ≤ 1)%nat →
  (∀ mid, 10 ≤ mid → PopCall mid = false) → (i, n) ∈ stubs B →
  Invoke (CLASSUID B) i D = Some (Wrapper (class_name B) i n).
Proof.
  intros Hu Hin Hmem Hno Hone Hp Hs. rewrite stubs_entries in Hs.
  set (C := AddMembers l (Class_new (class_name B))) in *.
  assert (HC : ids_inv (C <| pureVirtual := pureVirtual B |> <| isCoreCompilation := isCoreCompilation B |>)).
  { assert (Hinv : ids_inv C).
    { apply AddMembers_inv; [|done | by intros ?%elem_of_nil].
      split; cbn; [constructor | apply NoDup_nil_2 | lia | intros _; apply not_elem_of_nil]. }
    by destruct Hinv. }
  assert (HB : ids_inv (B <| endid := endid C |>)).
  { destruct HC as [F N E K]. unfold ids, methods in *. split; cbn in *; by rewrite ?Hmem, ?Hno. }
  destruct (entries_ids _ HB) as [Hnd H10].
  assert (Ee : entries (B <| endid := endid C |>) = entries B).
  { unfold entries, served, inherited. f_equal. by destruct B. }
  rewrite Ee in Hnd, H10. rewrite Forall_forall in H10. specialize (H10 _ Hs). cbn in H10.
  apply Invoke_reaches; [by apply Hp | done | | done].
  rewrite Invoke_unfold, Z.eqb_refl. by rewrite (find_entry_nodup i n).
Qed.
End DispatchFacts.

(** ** Identifiers that collide *)
Definition capital (a : Ascii.ascii) : bool :=
  let c := Z.of_N (Ascii.N_of_ascii a) in (65 <=? c) && (c <=? 89).

Lemma string_bytes_cons a s : string_bytes (String a s) = Ascii.byte_of_ascii a :: string_bytes s.
Proof. done. Qed.
Lemma string_bytes_app s1 s2 : string_bytes (s1 +:+ s2) = string_bytes s1 ++ string_bytes s2.
Proof.
  induction s1 as [|a s1 IH]; [done |]. change (String a s1 +:+ s2) with (String a (s1 +:+ s2)).
  by rewrite !string_bytes_cons, IH.
Qed.
Lemma string_bytes_length s : length (string_bytes s) = String.length s.
Proof. induction s as [|a s IH]; [done |]. rewrite string_bytes_cons. cbn. by f_equal. Qed.

Lemma capital_no_digit a :
  capital a = true → digit (swrap 8 (Z.of_N (Byte.to_N (Ascii.byte_of_ascii a)))) = None.
Proof. destruct a as [[] [] [] [] [] [] [] []]; vm_compute; done. Qed.

Lemma capital_ignored s1 a s2 :
  capital a = true → (String.length s1 + String.length s2 < 256)%nat →
  IDFromString (s1 +:+ String a s2) = IDFromString (s1 +:+ s2).
Proof.
  intros Ha Hl. unfold IDFromString.
  assert (E : id_digits (string_bytes (s1 +:+ String a s2)) = id_digits (string_bytes (s1 +:+ s2))); [|by rewrite E].
  unfold id_digits. rewrite !string_bytes_app, string_bytes_cons.
  rewrite !take_ge; [| rewrite length_app, !string_bytes_length; lia
    | rewrite length_app; cbn [length]; rewrite !string_bytes_length; lia].
  rewrite !omap_app. f_equal. cbn [omap list_omap]. by rewrite (capital_no_digit a Ha).
Qed.

(** Class identifiers that are not declared can be the same. Two classes whose names differ by
    one capital letter have one identifier; when one inherits from the other, no request for a
    method of the base class reaches the base class: the derived class answers, with the method of
    its own that has the same number, or with an error. *)
Theorem capitals_collide constant PopCall s1 a b s2 D B :
  class_name D = s1 +:+ String a s2 → class_name B = s1 +:+ String b s2 →
  classid D = None → classid B = None → capital a = true → capital b = true →
  (String.length s1 + String.length s2 < 256)%nat →
  CLASSUID constant D = CLASSUID constant B ∧
  ∀ mid, Invoke constant PopCall (CLASSUID constant B) mid D =
    (λ e, Wrapper (class_name D) e.1 e.2) <$> find_entry mid (entries D).
Proof.
  intros Nd Nb Id Ib Ha Hb Hl.
  assert (E : CLASSUID constant D = CLASSUID constant B).
  { unfold CLASSUID. by rewrite Id, Ib, Nd, Nb, !capital_ignored. }
  split; [done |]. intros mid. rewrite Invoke_unfold, E, Z.eqb_refl. by destruct (find_entry mid (entries D)).
Qed.

(** ** The default constructor of a broker *)
Lemma entries_cons c k rest :
  methods c = k :: rest → served c k = true → ∃ l, entries c = (id k, method_name k) :: l.
Proof. intros Em Es. unfold entries. rewrite Em. cbn [List.filter]. rewrite Es. cbn. by eexists. Qed.

Lemma AddMembers_app l c :
  ∃ rest, methods (AddMembers l c) = methods c ++ rest ∧ pureVirtual (AddMembers l c) = pureVirtual c.
Proof.
  revert c. induction l as [|t l IH]; intros c; [exists []; by rewrite app_nil_r |].
  destruct (IH (AddMember t c)) as (rest & Em & Ep).
  change (AddMembers (t :: l) c) with (AddMembers l (AddMember t c)).
  assert (Ht : ∃ r, memberList (AddMember t c) = memberList c ++ r ∧ pureVirtual (AddMember t c) = pureVirtual c).
  { destruct t as [m|a]; cbn; [|by eexists].
    destruct (bool_decide _); [destruct (isDefault m) |]; by eexists. }
  destruct Ht as (r & Er & Epr). eexists. unfold methods in *. rewrite Em, Er, omap_app, <- app_assoc.
  split; [done |]. by rewrite Ep.
Qed.

(** The default constructor is found only if it is declared first. When the first method of a
    class is another constructor, an object that starts with [-constructor] does not: [Initialize]
    finds that other constructor by the name of the class and gives up, even if the class has a
    default constructor. *)
Theorem default_constructor_hidden constant n k l :
  method_type k = METHOD_CONSTRUCTOR → isDefault k = false → method_name k = n →
  access k = PUBLIC → isHidden k = false → isVirtual k = false →
  let c := AddMembers (MMethod k :: l) (Class_new n) in
  zlen (entries c) ≤ 127 →
  find_default_constructor (broker_infos constant [c]) n = None.
Proof.
  intros Ht Hd Hn Ha Hh Hv c Hlen.
  destruct (AddMembers_app l (AddMember (MMethod k) (Class_new n))) as (rest & Em & Ep).
  change (AddMembers l _) with c in Em, Ep. clearbody c.
  assert (E0 : methods (AddMember (MMethod k) (Class_new n)) = [k <| id := 11 |>] ∧
               pureVirtual (AddMember (MMethod k) (Class_new n)) = false)
    by (unfold AddMember; by rewrite Ht, Hd).
  destruct E0 as [E0 E1]. rewrite E0 in Em. rewrite E1 in Ep.
  destruct (entries_cons c (k <| id := 11 |>) rest) as [es Ees]; [done | |].
  { unfold served, inherited. rewrite Ep. cbn. by rewrite Ht, Ha, Hh, Hv. }
  cbn in Ees. rewrite Hn in Ees. rewrite Ees in Hlen.
  unfold broker_infos. cbn [foldl]. unfold AddMethodInfo. rewrite Ees.
  rewrite swrap_small; [| done | unfold in_sint; change (2 ^ (8 - 1)) with 128; lia].
  rewrite (proj2 (Z.leb_gt _ _)) by (cbn; lia). rewrite Nat2Z.id, take_ge by done.
  unfold find_default_constructor. cbn. by rewrite (proj2 (isEqual_loop_correct _ _) eq_refl).
Qed.

(** ** All base classes *)
Definition direct_bases (c : Class) : list Class := snd <$> baseClass c.
Definition ancestors (c : Class) : list Class := mjoin (hierarchy <$> direct_bases c).

Lemma elem_of_ancestors t b : b ∈ ancestors t ↔ ∃ x, x ∈ direct_bases t ∧ b ∈ hierarchy x.
Proof.
  unfold ancestors. rewrite list_elem_of_join. split.
  - intros (l & Hb & (x & -> & Hx)%list_elem_of_fmap). by exists x.
  - intros (x & Hx & Hb). exists (hierarchy x). split; [done |]. by apply list_elem_of_fmap_2.
Qed.
Lemma hierarchy_ancestors t b : b ∈ hierarchy t ↔ b = t ∨ b ∈ ancestors t.
Proof.
  rewrite hierarchy_cons, elem_of_ancestors. f_equiv. unfold direct_bases. split.
  - intros (x & Hx & Hb). exists x.2. split; [by apply list_elem_of_fmap_2 | done].
  - intros (y & (x & -> & Hx)%list_elem_of_fmap & Hb). by exists x.
Qed.
Lemma bases_ancestors t a b : a ∈ hierarchy t → b ∈ direct_bases a → b ∈ ancestors t.
Proof.
  intros Ha Hb. assert (Hb' : b ∈ ancestors a).
  { apply elem_of_ancestors. exists b. split; [done |]. apply hierarchy_cons. by left. }
  apply hierarchy_ancestors in Ha as [->|Ha]; [done |]. apply elem_of_ancestors in Ha as (x & Hx & Ha).
  apply elem_of_ancestors. exists x. split; [done |]. eapply hierarchy_trans; [|exact Ha].
  apply hierarchy_ancestors. by right.
Qed.

Section AllBases.
Context (t : Class) (virtualBaseOnly : bool).
(** A name is a class, no class has a base twice, and a class is a virtual base everywhere or
    nowhere. *)
Definition virtual_base (b : Class) : Prop :=
  ∃ a acc, a ∈ hierarchy t ∧ (acc, true, b) ∈ baseClass a.
Context (Hname : ∀ a b, a ∈ hierarchy t → b ∈ hierarchy t → class_name a = class_name b → a = b)
  (Hbases : ∀ a, a ∈ hierarchy t → NoDup (class_name <$> direct_bases a))
  (Hvirtual : ∀ a x, a ∈ hierarchy t → x ∈ baseClass a → virtual_base x.2 → x.1.2 = true).

Lemma existsb_same (all : list Class) (b : Class) :
  b ∈ hierarchy t → (∀ a, a ∈ all → a ∈ ancestors t) → existsb (same_class b) all = true → b ∈ all.
Proof.
  intros Hb Hall (a & Ha & E%bool_decide_eq_true)%existsb_exists. apply list_elem_of_In in Ha.
  rewrite (Hname b a); [done | done | | done]. apply hierarchy_ancestors. right. by apply Hall.
Qed.

Record bases_inv (cl : Class) (index : nat) (all : list Class) : Prop := {
  bi_nodup : NoDup (class_name <$> all);
  bi_sound : ∀ a, a ∈ all → a ∈ ancestors t;
  bi_cl : cl ∈ hierarchy t;
  bi_index : (index ≤ length all)%nat;
  bi_closed : ∀ a, a = t ∨ a ∈ take index all → a = cl ∨ ∀ b, b ∈ direct_bases a → b ∈ all }.

Lemma new_bases_spec (cl : Class) (all : list Class) (b : Class) :
  cl ∈ hierarchy t → (∀ a, a ∈ all → a ∈ ancestors t) → b ∈ direct_bases cl →
  b ∈ all ++ (snd <$> new_bases all cl).
Proof.
  intros Hcl Hall (x & -> & Hx)%list_elem_of_fmap. apply elem_of_app.
  destruct (existsb (same_class x.2) all) eqn:E.
  - left. apply existsb_same; [|done..]. apply hierarchy_ancestors. right.
    apply (bases_ancestors t cl); [done | by apply list_elem_of_fmap_2].
  - right. apply list_elem_of_fmap_2, list_elem_of_In, List.filter_In. split; [by apply list_elem_of_In |].
    by rewrite E.
Qed.

Lemma bases_inv_step cl index all :
  bases_inv cl index all → let all' := all ++ (snd <$> new_bases all cl) in
  NoDup (class_name <$> all') ∧ (∀ a, a ∈ all' → a ∈ ancestors t) ∧
  ∀ a, a = t ∨ a ∈ take index all' → ∀ b, b ∈ direct_bases a → b ∈ all'.
Proof.
  intros [Hn Hs Hcl Hi Hc] all'.
  assert (Hnew : ∀ x, x ∈ new_bases all cl → x ∈ baseClass cl ∧ existsb (same_class x.2) all = false).
  { intros x Hx%list_elem_of_In%List.filter_In. destruct Hx as [Hx E%negb_true_iff].
    split; [by apply list_elem_of_In | done]. }
  split_and!.
  - unfold all'. rewrite fmap_app. apply NoDup_app. split_and!; [done | |].
    + intros n (a & -> & Ha)%list_elem_of_fmap (y & Ey & (x & -> & Hx)%list_elem_of_fmap)%list_elem_of_fmap.
      destruct (Hnew x Hx) as [_ E]. apply not_true_iff_false in E. apply E.
      apply existsb_exists. exists a. split; [by apply list_elem_of_In |]. by apply bool_decide_eq_true.
    + rewrite <- list_fmap_compose. apply NoDup_filter_fmap.
      rewrite (list_fmap_compose snd class_name). by apply Hbases.
  - intros a [Ha|(x & -> & Hx)%list_elem_of_fmap]%elem_of_app; [by apply Hs |].
    apply (bases_ancestors t cl); [done | apply list_elem_of_fmap_2; by apply Hnew].
  - intros a Ha b Hb.
    assert (Ha' : a = t ∨ a ∈ take index all).
    { destruct Ha as [->|Ha]; [by left | right]. unfold all' in Ha. by rewrite take_app_le in Ha. }
    destruct (Hc a Ha') as [->|Hin]; [by apply new_bases_spec |].
    apply elem_of_app. left. by apply Hin.
Qed.

Lemma closed_all (all : list Class) :
  (∀ b, b ∈ direct_bases t → b ∈ all) → (∀ a, a ∈ all → ∀ b, b ∈ direct_bases a → b ∈ all) →
  ∀ b, b ∈ ancestors t → b ∈ all.
Proof.
  intros Ht Hall.
  assert (Hx : ∀ x, x ∈ all → ∀ b, b ∈ hierarchy x → b ∈ all).
  { intros x. induction x as [x IH] using Class_rect'. intros Hx b [->|(y & Hy & Hb)]%hierarchy_cons; [done |].
    rewrite Forall_forall in IH. apply (IH y Hy); [|done]. apply (Hall x Hx). by apply list_elem_of_fmap_2. }
  intros b (x & Hd & Hb)%elem_of_ancestors. by apply (Hx x (Ht x Hd)).
Qed.

Lemma bases_length (all : list Class) :
  NoDup (class_name <$> all) → (∀ a, a ∈ all → a ∈ ancestors t) → (length all ≤ length (ancestors t))%nat.
Proof.
  intros Hn Hs. rewrite <- (length_fmap class_name all), <- (length_fmap class_name (ancestors t)).
  apply submseteq_length, NoDup_submseteq; [done |].
  intros n (a & -> & Ha)%list_elem_of_fmap. by apply list_elem_of_fmap_2, Hs.
Qed.

(** The answer when only virtual bases are wanted besides those given first. *)
Definition wanted (bases0 all bases : list Class) : Prop :=
  (bases `sublist_of` all) ∧ ∀ b, b ∈ bases ↔ b ∈ bases0 ∨ (b ∈ all ∧ virtual_base b).

Lemma wanted_step bases0 cl all bases :
  cl ∈ hierarchy t → wanted bases0 all bases →
  wanted bases0 (all ++ (snd <$> new_bases all cl))
    (bases ++ (snd <$> List.filter (λ b, b.1.2) (new_bases all cl))).
Proof.
  intros Hcl [Hsub Hw]. split.
  { apply sublist_app; [done |]. induction (new_bases all cl) as [|x l IH]; [done |]. cbn.
    destruct x.1.2; cbn; by constructor. }
  intros b. rewrite !elem_of_app, (Hw b). split.
  - intros [[Hb|[Hb Hv]]|(x & -> & Hx%list_elem_of_In)%list_elem_of_fmap]; [by left | by right; auto |].
    apply List.filter_In in Hx as [Hx Ex]. right. split; [right; by apply list_elem_of_fmap_2, list_elem_of_In |].
    apply List.filter_In in Hx as [Hx%list_elem_of_In _]. exists cl. destruct x as [[acc v] y].
    cbn in Ex |- *. subst v. by exists acc.
  - intros [Hb|[[Hb|(x & -> & Hx)%list_elem_of_fmap] Hv]]; [by auto | by auto |]. right.
    apply list_elem_of_fmap_2, list_elem_of_In, List.filter_In. split; [by apply list_elem_of_In |].
    apply list_elem_of_In, List.filter_In in Hx as [Hx%list_elem_of_In _]. by eapply Hvirtual.
Qed.

Lemma base_loop_correct fuel bases0 cl index all bases :
  bases_inv cl index all → (length (ancestors t) + 1 ≤ fuel + index)%nat →
  (virtualBaseOnly = true → wanted bases0 all bases) →
  ∃ l k, base_loop fuel virtualBaseOnly cl index all bases = Some (l, k) ∧
    NoDup (class_name <$> l) ∧ (∀ b, b ∈ l ↔ b ∈ ancestors t) ∧
    (virtualBaseOnly = true → wanted bases0 l k).
Proof.
  revert cl index all bases. induction fuel as [|fuel IH]; intros cl index all bases Hinv Hf Hw.
  { pose proof (bases_length all (bi_nodup _ _ _ Hinv) (bi_sound _ _ _ Hinv)).
    pose proof (bi_index _ _ _ Hinv). lia. }
  destruct (bases_inv_step _ _ _ Hinv) as (Hn & Hs & Hc). cbn [base_loop].
  set (all' := all ++ (snd <$> new_bases all cl)) in *.
  set (bases' := if virtualBaseOnly then _ else bases).
  assert (Hw' : virtualBaseOnly = true → wanted bases0 all' bases').
  { intros Ev. unfold bases'. rewrite Ev. apply wanted_step; [apply Hinv | by apply Hw]. }
  assert (Hidx : (index ≤ length all')%nat).
  { pose proof (bi_index _ _ _ Hinv). unfold all'. rewrite length_app. lia. }
  destruct (all' !! index) as [cl'|] eqn:El.
  - pose proof (lookup_lt_Some _ _ _ El) as Hlt. apply IH; [|lia|done]. split; [done | done | | lia |].
    + apply hierarchy_ancestors. right. apply Hs. by eapply list_elem_of_lookup_2.
    + intros a Ha. rewrite (take_S_r _ _ _ El), elem_of_app, list_elem_of_singleton in Ha.
      destruct Ha as [Ha|[Ha|Ha]]; [right; apply Hc; by left | right; apply Hc; by right | by left].
  - apply lookup_ge_None in El. exists all', bases'. split_and!; [done | done | | done].
    intros b. split; [by apply Hs |]. apply closed_all; [apply Hc; by left |].
    intros a Ha. apply Hc. right. by rewrite take_ge.
Qed.
End AllBases.

(** The search for base classes ends and is complete. From the direct bases of a class it finds
    all the classes it inherits from, each once; when only virtual bases are wanted, it finds the
    classes a constructor of C++ initialises: the direct bases and all virtual bases. As many steps
    as there are ancestors, and one more, are enough. *)
Theorem FindAllBaseClass_complete t virtualBaseOnly fuel :
  (∀ a b, a ∈ hierarchy t → b ∈ hierarchy t → class_name a = class_name b → a = b) →
  (∀ a, a ∈ hierarchy t → NoDup (class_name <$> direct_bases a)) →
  (∀ a x, a ∈ hierarchy t → x ∈ baseClass a → virtual_base t x.2 → x.1.2 = true) →
  (length (ancestors t) < fuel)%nat →
  ∃ l, FindAllBaseClass fuel t (direct_bases t) virtualBaseOnly = Some l ∧ NoDup (class_name <$> l) ∧
    ∀ b, b ∈ l ↔
      if virtualBaseOnly then b ∈ direct_bases t ∨ (b ∈ ancestors t ∧ virtual_base t b)
      else b ∈ ancestors t.
Proof.
  intros Hname Hbases Hvirtual Hf.
  assert (Ht : t ∈ hierarchy t) by (apply hierarchy_cons; by left).
  destruct (base_loop_correct t virtualBaseOnly Hname Hbases Hvirtual fuel (direct_bases t) t 0
    (direct_bases t) (direct_bases t)) as (l & k & E & Hn & Hl & Hk); [| lia | |].
  - split; [by apply Hbases | | done | lia | intros a [->|Ha]; [by left | by apply elem_of_nil in Ha]].
    intros a Ha. by apply (bases_ancestors t t).
  - intros _. split; [done |]. intros b. split; [by left | by intros [Hb|[Hb _]]].
  - unfold FindAllBaseClass. rewrite E. eexists. split; [reflexivity |].
    destruct virtualBaseOnly; [|done]. destruct (Hk eq_refl) as [Hsub Hw]. split.
    + eapply sublist_NoDup; [exact Hn | by apply fmap_sublist].
    + intros b. by rewrite Hw, Hl.
Qed.

(** ** Examples *)
Definition int_param (x : string) : Param := (param_new (Some (TBase "int"))) <| Stubs.name := x |>.
Definition void_method (n : string) (ps : list Param) : Method :=
  (Method_new PUBLIC) <| method_name := n |> <| params := ps |> <| returnparam := param_new (Some (TBase "void")) |>.
Definition int_constructor (n : string) : Method :=
  (Method_new PUBLIC) <| method_name := n |> <| method_type := METHOD_CONSTRUCTOR |> <| params := [int_param "x"] |>.
Definition no_constructor (n : string) : Method :=
  (Method_new PUBLIC) <| method_name := n |> <| method_type := METHOD_CONSTRUCTOR |>.

Definition pet_members : list Member :=
  [MMethod (int_constructor "Pet"); MMethod (no_constructor "Pet"); MMethod (void_method "feed" [int_param "n"])].
Definition Pet : Class := Eval vm_compute in AddMembers pet_members (Class_new "Pet").
Definition Dog : Class := Eval vm_compute in
  (AddMembers [MMethod (void_method "bark" [])] (Class_new "Dog")) <| baseClass := [(PUBLIC, false, Pet)] |>.

Lemma method_ids_distinct_witness :
  (length (List.filter default_ctor pet_members) ≤ 1)%nat ∧
  ids Pet = [11; 10; 12] ∧ NoDup (entries Pet).*1.
Proof.
  assert (H : (length (List.filter default_ctor pet_members) ≤ 1)%nat) by (vm_compute; lia).
  split; [exact H |]. split; [reflexivity |]. apply (method_ids_distinct "Pet" pet_members H).
Defined.

Lemma pets_hierarchy a : a ∈ hierarchy Dog → a = Dog ∨ a = Pet.
Proof.
  intros [->|(x & Hx & [->|(y & Hy & Ha)]%hierarchy_cons)]%hierarchy_cons; [by left | |].
  - right. by apply list_elem_of_singleton in Hx as ->.
  - apply list_elem_of_singleton in Hx as ->. by apply elem_of_nil in Hy.
Qed.
Lemma pets_differ : CLASSUID (λ _, 0) Dog ≠ CLASSUID (λ _, 0) Pet.
Proof. apply Z.eqb_neq. vm_compute. reflexivity. Qed.
Lemma pets_stub : (12, "feed") ∈ stubs Pet.
Proof. apply (bool_decide_unpack _). vm_compute. exact I. Qed.

Lemma stub_reaches_wrapper_witness :
  (12, "feed") ∈ stubs Pet ∧
  Invoke (λ _, 0) (λ mid, mid <? 10) (CLASSUID (λ _, 0) Pet) 12 Dog = Some (Wrapper "Pet" 12 "feed").
Proof.
  split; [exact pets_stub |].
  apply (stub_reaches_wrapper (λ _, 0) (λ mid, mid <? 10) Dog Pet pet_members 12 "feed").
  - intros a [->| ->]%pets_hierarchy E; [by destruct (pets_differ E) | reflexivity].
  - apply hierarchy_cons. right. exists (PUBLIC, false, Pet). split; [by left | apply hierarchy_cons; by left].
  - reflexivity.
  - reflexivity.
  - vm_compute. lia.
  - intros mid Hm. apply Z.ltb_ge. exact Hm.
  - exact pets_stub.
Defined.

Definition CatB : Class := Eval vm_compute in AddMembers [MMethod (void_method "meow" [])] (Class_new "CatB").
Definition CatA : Class := Eval vm_compute in
  (AddMembers [MMethod (void_method "scratch" [])] (Class_new "CatA")) <| baseClass := [(PUBLIC, false, CatB)] |>.

(** The request for [meow] runs [scratch]. *)
Lemma capitals_collide_witness :
  (11, "meow") ∈ stubs CatB ∧
  Invoke (λ _, 0) (λ mid, mid <? 10) (CLASSUID (λ _, 0) CatB) 11 CatA = Some (Wrapper "CatA" 11 "scratch").
Proof.
  split; [apply list_elem_of_In; vm_compute; auto |].
  destruct (capitals_collide (λ _, 0) (λ mid, mid <? 10) "Cat" (Ascii.ascii_of_nat 65)
    (Ascii.ascii_of_nat 66) "" CatA CatB) as [_ H];
    [reflexivity | reflexivity | reflexivity | reflexivity | reflexivity | reflexivity | cbn; lia |].
  rewrite (H 11). reflexivity.
Defined.

Lemma default_constructor_hidden_witness :
  (10, "Pet") ∈ entries Pet ∧ find_default_constructor (broker_infos (λ _, 0) [Pet]) "Pet" = None.
Proof.
  split; [apply list_elem_of_In; vm_compute; auto |].
  apply (default_constructor_hidden (λ _, 0) "Pet" (int_constructor "Pet")
    [MMethod (no_constructor "Pet"); MMethod (void_method "feed" [int_param "n"])]);
    [reflexivity | reflexivity | reflexivity | reflexivity | reflexivity | reflexivity | vm_compute; discriminate].
Defined.

(** A diamond. *)
Definition class_of (n : string) (bases : list (AccessType * bool * Class)) : Class :=
  (Class_new n) <| baseClass := bases |>.
Definition Top : Class := Eval vm_compute in class_of "Top" [].
Definition Left : Class := Eval vm_compute in class_of "Left" [(PUBLIC, true, Top)].
Definition Right : Class := Eval vm_compute in class_of "Right" [(PUBLIC, true, Top)].
Definition Bottom : Class := Eval vm_compute in class_of "Bottom" [(PUBLIC, false, Left); (PUBLIC, false, Right)].

Lemma FindAllBaseClass_complete_witness :
  ∃ l, FindAllBaseClass 5 Bottom [Left; Right] true = Some l ∧ class_name <$> l = ["Left"; "Right"; "Top"] ∧
    Top ∈ l.
Proof.
  assert (Hh : ∀ a, a ∈ hierarchy Bottom → a = Bottom ∨ a = Left ∨ a = Right ∨ a = Top).
  { intros a Ha. change (hierarchy Bottom) with [Bottom; Left; Top; Right; Top] in Ha.
    rewrite !elem_of_cons, elem_of_nil in Ha. tauto. }
  assert (Hb : ∀ a x, a ∈ hierarchy Bottom → x ∈ baseClass a →
    x = (PUBLIC, true, Top) ∨ x = (PUBLIC, false, Left) ∨ x = (PUBLIC, false, Right)).
  { intros a x [->|[->|[->| ->]]]%Hh; cbn; rewrite ?elem_of_cons, ?elem_of_nil; tauto. }
  destruct (FindAllBaseClass_complete Bottom true 5) as (l & E & _ & Hl).
  - intros a b [->|[->|[->| ->]]]%Hh [->|[->|[->| ->]]]%Hh En; first [reflexivity | discriminate En].
  - intros a [->|[->|[->| ->]]]%Hh; apply (bool_decide_unpack _); vm_compute; exact I.
  - intros a x Ha Hx (a' & acc & Ha' & Hv).
    destruct (Hb a x Ha Hx) as [->|[->| ->]]; [done | |];
      destruct (Hb _ _ Ha' Hv) as [E|[E|E]]; discriminate E.
  - vm_compute. lia.
  - exists l. split; [exact E |]. split; [vm_compute in E; by injection E as <- |]. apply Hl. right.
    split; [change (ancestors Bottom) with [Left; Top; Right; Top]; rewrite !elem_of_cons; tauto |].
    exists Left, PUBLIC. split; [change (hierarchy Bottom) with [Bottom; Left; Top; Right; Top]; rewrite !elem_of_cons; tauto |].
    by left.
Defined.
