(* ===== verification/Invocation.v ===== *)
(** * Calling a method of a parallel object

    The stub a class has for a method ([Method::GenerateClient], parser/classmember.cc) and the
    wrapper its broker has ([Method::GenerateBroker]), run against each other over a connection:
    the code both generate, between the operations of the buffers and of the connection that the
    generated texts call. The specification is the call of the method on the variables of the
    caller. *)

From S2P Require Import Prelude Machine Buffer Exceptions Message BufferRaw ExceptionProtocol.
From S2P Require Broker CoreCalls.
From S2P Require Import Types Generated Stubs Compiler.

Lemma NoDup_fmap_inj_elem {A C : Type} (f : A → C) (l : list A) a b :
  NoDup (f <$> l) → a ∈ l → b ∈ l → f a = f b → a = b.
Proof.
  induction l as [|x l IH]; [by intros _ ?%elem_of_nil |].
  intros [Hx Hl]%NoDup_cons [->|Ha]%elem_of_cons [->|Hb]%elem_of_cons E; [done | | | by apply IH].
  - destruct Hx. rewrite E. by apply list_elem_of_fmap_2.
  - destruct Hx. rewrite <- E. by apply list_elem_of_fmap_2.
Qed.

Lemma uwrap_swrap w z : 0 ≤ z < 2 ^ w → uwrap w (swrap w z) = z.
Proof.
  intros Hz. unfold uwrap, swrap. rewrite Zminus_mod_idemp_l.
  replace (z + 2 ^ (w - 1) - 2 ^ (w - 1)) with z by lia. by apply Z.mod_small.
Qed.

Section Invocation.
Context {B : Type} `{PopTransport B} {O : Type}.
Context (Serialize : string → bool → O → M B O) (new_object : string → O) (constant : string → Z).
Context (expression : gmap string (cval O) → string → Z)
  (procs : string → bool → cval O → Z → M B (cval O)).
Context {I : Type} (interface_Serialize : bool → I → M B I) (interface_new : I).

#[local] Abbreviation run := (Generated.run Serialize new_object constant expression procs).

(** ** The stub

    The class identifier goes into an [int] of the header. *)
Definition request_header (uid : Z) (s : stub) : message_header :=
  header_request (swrap 32 uid) (request_id s) (request_code s) (Some (request_name s)).

(** Up to [popc_send_request]. *)
Definition stub_send {S : Type} (cb : combox S) (uid : Z) (s : stub) (st : cstate O) (buf : B) (sb : S) :
    result (cstate O * B * S) :=
  let! r := run true (stub_in s) scope_new st (SetHeader (request_header uid s) (Reset buf)) in
  let! t := CoreCalls.popc_send_request cb r.2 sb in
  Ok (r.1, t.1, t.2).

Definition return_code (s : stub) : list code :=
  match stub_return s with Some (c, _) => c | None => [] end.

(** From the [Recv] of a synchronous call to the end: an exception, or the variables with the
    output parameters and the value returned. *)
Definition stub_receive {S : Type} (cb : combox S) (s : stub) (st : cstate O) (buf : B) (sb : S) :
    result ((thrown I + cstate O) * B * S) :=
  let! t := Recv cb buf sb in
  if negb t.1.1 then pop_throw_reason "Buffer receive"
  else
    let! c := CheckAndThrow interface_Serialize interface_new t.1.2 in
    match c.1 with
    | Some e => Ok (inl e, c.2, t.2)
    | None =>
        let! r := run false (stub_out s ++ return_code s) scope_new st c.2 in
        Ok (inr r.1, Reset r.2, t.2)
    end.

(** ** The wrapper *)

(** The variables of the wrapper before the call. *)
Definition wrapper_args (w : wrapper) : M B (cstate O) :=
  run false (wrapper_in w ++ wrapper_decl w) scope_new (MkState ∅ ∅).

(** What it sends back when there is a connection. *)
Definition wrapper_reply {S : Type} (cb : combox S) (w : wrapper) (st : cstate O) (buf : B) (sb : S) :
    result (B * S) :=
  let! r := run true (wrapper_out w ++ wrapper_return w) scope_new st
              (SetHeader (header_response (Some (wrapper_name w))) (Reset buf)) in
  let! t := Send cb r.2 sb in
  if t.1.1 then Ok (t.1.2, t.2) else pop_throw_reason "buffer send".

(** [Invoke_name_id], with what the method does to the object and to the variables. *)
Definition invoke_wrapper {S T : Type} (cb : combox S) (connected : bool) (w : wrapper)
    (method : T → gmap string (cval O) → result (T * gmap string (cval O))) (obj : T) (buf : B) (sb : S) :
    result (T * B * S) :=
  let! r := wrapper_args w buf in
  let! m := method obj (vars r.1) in
  if connected then
    let! t := wrapper_reply cb w (MkState (sizes r.1) m.2) r.2 sb in
    Ok (m.1, t.1, t.2)
  else Ok (m.1, r.2, sb).

(** ** The call in place

    The variables of the caller after a method that left [vs'] in its own. *)
Definition after_call (m : Method) (vs vs' : gmap string (cval O)) : gmap string (cval O) :=
  let value (p : Param) := default (VSeq []) (vs' !! name p) in
  let vs := receive OutParam value vs (params m) in
  if has_return m then <[name (returnparam m) := value (returnparam m)]> vs else vs.

(** ** A call through the stub and the wrapper is the call *)
Context (deliverable : string → O → Prop) (proc_ok : string → cval O → Prop).
Context (Hconstant : ∀ s, 0 ≤ constant s).
Context (Hserial : ∀ cl o o', deliverable cl o → codec (Serialize cl true o) o (Serialize cl false o') o).
Context (Hprocs : ∀ proc v w, proc_ok proc v → codec (procs proc true v 0) v (procs proc false w 0) v).

#[local] Abbreviation sends := (sends new_object constant deliverable expression proc_ok).
#[local] Abbreviation accepts := (accepts constant).
#[local] Abbreviation declarable := (declarable new_object constant).

(** Arguments that can be sent. *)
Definition arguments_ok (m : Method) (vs : gmap string (cval O)) : Prop :=
  Forall (λ p, InParam p = true → is_Some (DeclareVariable false p) ∧
                ∃ v, vs !! name p = Some v ∧ sends vs p v) (params m) ∧
  Forall (λ p, InParam p = false → declarable p) (params m).
(** Results that can be sent, and that the variables of the caller can take. *)
Definition results_ok (m : Method) (vs vs' : gmap string (cval O)) : Prop :=
  Forall (λ p, OutParam p = true → ∃ v w, vs' !! name p = Some v ∧ sends vs' p v ∧
                                          vs !! name p = Some w ∧ accepts p v w) (params m) ∧
  (has_return m = true → is_Some (DeclareVariable false (returnparam m)) ∧
     ∃ v, vs' !! name (returnparam m) = Some v ∧ sends vs' (returnparam m) v).
(** Names that are different, and sizes for the pointers. *)
Definition names_ok (m : Method) : Prop :=
  NoDup (name <$> returnparam m :: params m) ∧ Forall direct (params m).

(** A message that was sent is received, and what was written into it is read. *)
Lemma exchange {S : Type} (cb : combox S) `{!ComboxStream cb} `{!ComboxChannel cb} {X A : Type}
    (w : M B X) x (r : M B A) a h (buf b0 : B) y b1 b2 s s1 :
  codec w x r a → w (SetHeader h (Reset buf)) = Ok (y, b1) →
  header_ranged (GetHeader buf) → header_ranged h → incoming s = [] → Send cb b1 s = Ok (true, b2, s1) →
  y = x ∧ ∃ b3 s2 b4, Recv cb b0 s1 = Ok (true, b3, s2) ∧ incoming s2 = [] ∧
    header_agree (header_assign (GetHeader buf) h) (GetHeader b3) ∧
    (header_ranged (GetHeader b0) → header_ranged (GetHeader b3)) ∧
    r b3 = Ok (a, b4) ∧ GetHeader b4 = GetHeader b3.
Proof.
  intros (bs & W & R) Hw Hrb Hrh Hin Hs. pose proof (Send_size _ _ _ _ _ Hs) as Hsz.
  destruct (CoreCalls.start_ok h buf) as (Hwf & Hl & Hcur & Hh).
  destruct (proj2 (W _) _ _ Hw) as (-> & C1 & P1 & G1 & F1). split; [done |].
  destruct (Recv_Send cb b1 b0 b2 s s1) as (b3 & s2 & E & Hs2 & F3 & U3 & S3 & A3 & G3); [by apply F1 | | | done | done |].
  { rewrite C1, length_app, Hl in Hsz |- *. lia. }
  { rewrite G1, Hh. by apply header_assign_ranged. }
  destruct (R b3 []) as (b4 & E4 & _ & _ & G4 & _); try done.
  { rewrite U3, C1, app_nil_r, <- Hl. by rewrite drop_app_length. }
  exists b3, s2, b4. rewrite G1, Hh in A3. by split_and!.
Qed.

Lemma GenerateClient_spec c m k stb k' :
  GenerateClient c m k = inr (Some (stb, k')) → is_collective c = false →
  let buf := "(" +:+ "*__pop_buf)" in
  request_id stb = id m ∧ request_code stb = (invoke_code m).1 ∧ waitreturn stb = (invoke_code m).2 ∧
  ∃ k1, marshal_in buf (params m) k = Some (stub_in stb, k1) ∧
    (waitreturn stb = true → ∃ k2, unmarshal_out buf (params m) k1 = Some (stub_out stb, k2) ∧
       return_in buf m k2 = Some (stub_return stb, k')).
Proof.
  intros E Hc buf. unfold GenerateClient in E. rewrite Hc in E.
  destruct (inherited c m || isHidden m); [done |]. destruct (negb (CheckMarshal m =? 0)); [done |].
  cbn zeta in E. fold buf in E. destruct (marshal_in buf (params m) k) as [[cin k1]|] eqn:E1; [|done].
  destruct (invoke_code m).2 eqn:Ew.
  - destruct (unmarshal_out buf (params m) k1) as [[cout k2]|] eqn:E2; [|done]. cbn [gbind] in E.
    destruct (return_in buf m k2) as [[ret k3]|] eqn:E3; [|done]. cbn [gbind fst snd] in E. simplify_eq.
    split_and!; try done. eexists. split; [done |]. intros _. by eexists.
  - destruct (async_output m); [done |]. destruct (has_return m); [done |]. simplify_eq.
    split_and!; try done. eexists. by split.
Qed.

Lemma GenerateBroker_spec c m k w k' :
  GenerateBroker c m k = Some (TheWrapper w, k') → is_collective c = false →
  ∃ rfs k1 k2 decl reformat, unmarshal_in "__pop_buf" false (params m) k = Some ((wrapper_in w, rfs), k1) ∧
    declare_out (params m) rfs = (decl, reformat) ∧ wrapper_decl w = decl ∧
    marshal_out "__pop_buf" (params m) reformat k1 = Some (wrapper_out w, k2) ∧
    (if has_return m then Marshal "__pop_buf" false false (returnparam m) k2 else Some ([], k2))
      = Some (wrapper_return w, k').
Proof.
  intros E Hc. unfold GenerateBroker in E. rewrite Hc in E.
  destruct (_ || isHidden m); [done |]. destruct (inherited c m); [done |].
  destruct (isCoreCompilation c || _); [|done]. cbn zeta in E.
  destruct (unmarshal_in _ _ _ k) as [[[cin rfs] k1]|] eqn:E1; [|done]. cbn [gbind fst snd] in E.
  destruct (declare_out (params m) rfs) as [decl reformat] eqn:E2.
  destruct (marshal_out _ _ _ k1) as [[out k2]|] eqn:E3; [|done]. cbn [gbind] in E.
  destruct (if has_return m then _ else _) as [[ret k3]|] eqn:E4; [|done]. cbn [gbind] in E. simplify_eq.
  exists rfs, k1, k2, decl, reformat. by split_and!.
Qed.

Lemma codec_after {X A C : Type} (w : M B X) x (r : M B A) a (k : A → M B C) c :
  codec w x r a → (∀ b, k a b = Ok (c, b)) → codec w x (mbind r k) c.
Proof.
  intros (bs & W & R) Hk. exists bs. split; [done |]. rewrite <- (app_nil_r bs).
  eapply reads_bind; [exact R |]. intros b rest Hwf _ Hu. exists b. rewrite Hk. by split_and!.
Qed.

(** The request. *)
Lemma request_codec c m k1 k2 stb w k1' k2' st :
  GenerateClient c m k1 = inr (Some (stb, k1')) → GenerateBroker c m k2 = Some (TheWrapper w, k2') →
  is_collective c = false → names_ok m → arguments_ok m (vars st) →
  ∃ z1 st2, codec (run true (stub_in stb) scope_new st) (MkState z1 (vars st)) (wrapper_args w) st2 ∧
    ∀ p, p ∈ params m → InParam p = true → vars st2 !! name p = vars st !! name p.
Proof.
  intros Hs Hb Hc [Hnd _] [Hin Hdecl].
  destruct (GenerateClient_spec _ _ _ _ _ Hs Hc) as (_ & _ & _ & j1 & G1 & _).
  destruct (GenerateBroker_spec _ _ _ _ _ Hb Hc) as (rfs & j2 & j3 & decl & reformat & G2 & Ed & Ew & _ & _).
  cbn in Hnd. apply NoDup_cons in Hnd as [_ Hnd].
  destruct (in_params_codec Serialize new_object constant deliverable expression procs proc_ok Hconstant
    Hserial Hprocs ("(" +:+ "*__pop_buf)") "__pop_buf" (λ p, default (VSeq []) (vars st !! name p)) (params m)
    (stub_in stb) (wrapper_in w) rfs k1 k2 j1 j2 st (MkState ∅ ∅) false) as (z1 & z2 & Hcd); [|done..|].
  { eapply Forall_impl; [exact Hin |]. cbn. intros p Hp Hi. destruct (Hp Hi) as (Hd & v & -> & Hv). done. }
  destruct (declare_out_run Serialize new_object constant expression procs (params m) rfs
    (MkState z2 (receive InParam (λ p, default (VSeq []) (vars st !! name p)) ∅ (params m))) Hdecl)
    as (st2 & Hr & Hx). rewrite Ed in Hr. cbn [fst] in Hr.
  exists z1, st2. split.
  - eapply codec_ext; [done | intros b; symmetry; apply run_app |]. rewrite Ew. by eapply codec_after.
  - intros p Hp Hi. rewrite Hx.
    + cbn [vars]. rewrite receive_spec by done. rewrite Forall_forall in Hin.
      by destruct (Hin p Hp Hi) as (_ & v & -> & _).
    + apply Forall_forall. intros q Hq Hiq En.
      assert (p = q) as ->; [|congruence]. by eapply NoDup_fmap_inj_elem.
Qed.

(** The response. *)
Lemma response_codec c m k1 k2 stb w k1' k2' st z st2 :
  GenerateClient c m k1 = inr (Some (stb, k1')) → GenerateBroker c m k2 = Some (TheWrapper w, k2') →
  is_collective c = false → waitreturn stb = true → names_ok m → results_ok m (vars st) (vars st2) →
  ∃ z1 z2, codec (run true (wrapper_out w ++ wrapper_return w) scope_new st2) (MkState z1 (vars st2))
    (run false (stub_out stb ++ return_code stb) scope_new (MkState z (vars st)))
    (MkState z2 (after_call m (vars st) (vars st2))).
Proof.
  intros Hs Hb Hc Hwait [Hnd Hdir] [Hout Hret].
  destruct (GenerateClient_spec _ _ _ _ _ Hs Hc) as (_ & _ & _ & j1 & _ & G1).
  destruct (G1 Hwait) as (j2 & G2 & G3).
  destruct (GenerateBroker_spec _ _ _ _ _ Hb Hc) as (rfs & i1 & i2 & decl & reformat & E1 & E2 & _ & E3 & E4).
  pose proof (unmarshal_in_direct _ _ _ _ _ _ _ Hdir E1) as ->.
  pose proof (declare_out_direct _ Hdir) as Er. rewrite E2 in Er. cbn [snd] in Er. subst reformat.
  cbn in Hnd. apply NoDup_cons in Hnd as [Hr Hnd].
  set (v := λ p, default (VSeq []) (vars st2 !! name p)).
  destruct (out_params_codec Serialize new_object constant deliverable expression procs proc_ok Hconstant
    Hserial Hprocs "__pop_buf" ("(" +:+ "*__pop_buf)") v (λ p, default (VSeq []) (vars st !! name p)) (params m)
    (wrapper_out w) (stub_out stb) i1 j1 i2 j2 st2 (MkState z (vars st))) as (z1 & z2 & Hcd); [|done..|].
  { eapply Forall_impl; [exact Hout |]. cbn. intros p Hp Ho. unfold v.
    by destruct (Hp Ho) as (x & y & -> & Hx & -> & Hy). }
  cbn [vars] in Hcd. unfold return_in in G3. unfold after_call.
  destruct (has_return m) eqn:Eh.
  - destruct (Hret eq_refl) as ([[d rf] Hd] & x & Hx & Hsx). rewrite Hd in G3. cbn [default Datatypes.id] in G3.
    destruct (UnMarshal ("(" +:+ "*__pop_buf)") rf true true (returnparam m) j2) as [[a2 j3]|] eqn:U2; [|done].
    cbn [gbind] in G3. injection G3 as G3 _.
    destruct (in_param_codec Serialize new_object constant deliverable expression procs proc_ok Hconstant
      Hserial Hprocs "__pop_buf" ("(" +:+ "*__pop_buf)") false true (returnparam m) x d rf (wrapper_return w) a2
      i2 j2 k2' j3 (MkState z1 (vars st2)) (MkState z2 (receive OutParam v (vars st) (params m))) Hsx Hx Hd E4 U2)
      as (y1 & y2 & Hcd').
    exists y1, y2. unfold return_code. rewrite <- G3, Hx. by eapply run_app_codec.
  - injection G3 as G3 _. injection E4 as E4 _. exists z1, z2. unfold return_code.
    by rewrite <- G3, <- E4, !app_nil_r.
Qed.

Lemma invoke_code_range m : in_sint 32 (invoke_code m).1 = true.
Proof.
  unfold invoke_code. destruct (bool_decide (method_type m = METHOD_CONSTRUCTOR)); [done |].
  destruct (bool_decide (invoketype m = invokesync) || _), (isMutex m), (isConcurrent m); done.
Qed.

Lemma stub_send_inv {S : Type} (cb : combox S) uid s st (buf : B) sb st' buf' sb' :
  stub_send cb uid s st buf sb = Ok (st', buf', sb') →
  ∃ b1, run true (stub_in s) scope_new st (SetHeader (request_header uid s) (Reset buf)) = Ok (st', b1) ∧
    Send cb b1 sb = Ok (true, buf', sb').
Proof.
  intros E. unfold stub_send in E. apply rbind_Ok in E as ([x b1] & E1 & E). cbn [fst snd] in E.
  apply rbind_Ok in E as ([b2 s2] & E2 & E). cbn [fst snd] in E. simplify_eq. exists b1. split; [done |].
  unfold CoreCalls.popc_send_request in E2. apply rbind_Ok in E2 as ([[ok b3] s3] & E3 & E2).
  cbn [fst snd] in E2. by destruct ok; simplify_eq.
Qed.

Lemma wrapper_reply_inv {S : Type} (cb : combox S) w st (buf : B) sb buf' sb' :
  wrapper_reply cb w st buf sb = Ok (buf', sb') →
  ∃ st' b1, run true (wrapper_out w ++ wrapper_return w) scope_new st
           (SetHeader (header_response (Some (wrapper_name w))) (Reset buf)) = Ok (st', b1) ∧
    Send cb b1 sb = Ok (true, buf', sb').
Proof.
  intros E. unfold wrapper_reply in E. apply rbind_Ok in E as ([x b1] & E1 & E). cbn [fst snd] in E.
  apply rbind_Ok in E as ([[ok b3] s3] & E3 & E). cbn [fst snd] in E.
  destruct ok; [|done]. simplify_eq. by exists x, b1.
Qed.

Section Connected.
Context {S1 S2 : Type} (cb1 : combox S1) `{!ComboxStream cb1} `{!ComboxChannel cb1}
  (cb2 : combox S2) `{!ComboxStream cb2} `{!ComboxChannel cb2}.

Lemma request_delivered c m k1 k2 stb w k1' k2' uid conn (bc fresh : B) st st' bc' s1 s1' :
  GenerateClient c m k1 = inr (Some (stb, k1')) → GenerateBroker c m k2 = Some (TheWrapper w, k2') →
  is_collective c = false → names_ok m → arguments_ok m (vars st) → in_sint 32 (id m) = true →
  header_ranged (GetHeader bc) → header_ranged (GetHeader fresh) → incoming s1 = [] →
  stub_send cb1 uid stb st bc s1 = Ok (st', bc', s1') →
  vars st' = vars st ∧ ∃ buf s1'' va buf',
    CoreCalls.ReceiveRequest cb1 conn fresh s1' =
      Ok (Some (Broker.MkPopRequest (Some conn) (uwrap 32 (swrap 32 uid)) (uwrap 32 (id m))
                  (uwrap 32 (invoke_code m).1) 0, buf), s1'') ∧
    incoming s1'' = [] ∧ wrapper_args w buf = Ok (va, buf') ∧ header_ranged (GetHeader buf') ∧
    ∀ p, p ∈ params m → InParam p = true → vars va !! name p = vars st !! name p.
Proof.
  intros Hs Hb Hc Hn Ha Hid Hrb Hrf Hin Hsend.
  destruct (request_codec _ _ _ _ _ _ _ _ _ Hs Hb Hc Hn Ha) as (z1 & va & Hcd & Hva).
  destruct (GenerateClient_spec _ _ _ _ _ Hs Hc) as (Ei & Ecode & _ & _).
  destruct (stub_send_inv _ _ _ _ _ _ _ _ _ Hsend) as (b1 & Hw & Hsd).
  assert (Hrh : header_ranged (request_header uid stb)).
  { unfold request_header. rewrite Ei, Ecode. repeat constructor; cbn; try done.
    - by apply swrap_range.
    - apply invoke_code_range. }
  destruct (exchange cb1 _ _ _ _ _ _ fresh _ _ _ _ _ Hcd Hw Hrb Hrh Hin Hsd)
    as (-> & b3 & s2 & b4 & E & Hs2 & (_ & Hreq & _) & Hr3 & E4 & Hg).
  split; [done |]. exists b3, s2, va, b4.
  destruct Hreq as (I0 & I1 & I2); [done |]. cbn in I0, I1, I2. rewrite Ei in I1. rewrite Ecode in I2.
  split_and!; try done.
  - unfold CoreCalls.ReceiveRequest. rewrite E. cbn [rbind fst snd negb].
    by rewrite <- I0, <- I1, <- I2.
  - rewrite Hg. by apply Hr3.
Qed.

Lemma response_delivered c m k1 k2 stb w k1' k2' (bc buf buf' : B) st st2 z s2 s2' :
  GenerateClient c m k1 = inr (Some (stb, k1')) → GenerateBroker c m k2 = Some (TheWrapper w, k2') →
  is_collective c = false → waitreturn stb = true → names_ok m → results_ok m (vars st) (vars st2) →
  header_ranged (GetHeader buf) → incoming s2 = [] →
  wrapper_reply cb2 w st2 buf s2 = Ok (buf', s2') →
  ∃ z' bc'' s2'', stub_receive cb2 stb (MkState z (vars st)) bc s2'
      = Ok (inr (MkState z' (after_call m (vars st) (vars st2))), bc'', s2'') ∧ incoming s2'' = [].
Proof.
  intros Hs Hb Hc Hwait Hn Hres Hrb Hin Hrep.
  destruct (response_codec _ _ _ _ _ _ _ _ _ z _ Hs Hb Hc Hwait Hn Hres) as (z1 & z2 & Hcd).
  destruct (wrapper_reply_inv _ _ _ _ _ _ _ Hrep) as (st' & b1 & Hw & Hsd).
  assert (Hrh : header_ranged (header_response (Some (wrapper_name w)))) by repeat constructor.
  destruct (exchange cb2 _ _ _ _ _ _ bc _ _ _ _ _ Hcd Hw Hrb Hrh Hin Hsd)
    as (_ & b3 & s3 & b4 & E & Hs3 & (Ht & _) & _ & E4 & _).
  exists z2, (Reset b4), s3. split; [|done]. unfold stub_receive. rewrite E. cbn [rbind fst snd negb].
  unfold CheckAndThrow. rewrite <- Ht. cbn [header_assign]. cbn. by rewrite E4.
Qed.

(** C2: a remote call is the call. The request a stub sends is received as a request for the class
    and the method; the wrapper of the broker reads from it the variables of the method, the input
    parameters as the caller has them. Whatever the method then does, it is what happens to the
    object, and if the caller waits and the results can be sent, the stub reads the reply and the
    caller has its variables as after a call in place: the output parameters and the value
    returned are those of the method, the rest is unchanged. Nothing is left on the connections. *)
Theorem remote_call_is_call {T : Type} c m k1 k2 stb w k1' k2' uid conn (bc fresh : B) st st' bc' s1 s1' s2 :
  GenerateClient c m k1 = inr (Some (stb, k1')) → GenerateBroker c m k2 = Some (TheWrapper w, k2') →
  is_collective c = false → names_ok m → arguments_ok m (vars st) →
  in_sint 32 (id m) = true → 0 ≤ uid < 2 ^ 32 →
  header_ranged (GetHeader bc) → header_ranged (GetHeader fresh) → incoming s1 = [] → incoming s2 = [] →
  stub_send cb1 uid stb st bc s1 = Ok (st', bc', s1') →
  ∃ req buf s1'' va buf',
    CoreCalls.ReceiveRequest cb1 conn fresh s1' = Ok (Some (req, buf), s1'') ∧ incoming s1'' = [] ∧
    Broker.classId req = uid ∧ Broker.methodId req = uwrap 32 (id m) ∧
    wrapper_args w buf = Ok (va, buf') ∧
    (∀ p, p ∈ params m → InParam p = true → vars va !! name p = vars st !! name p) ∧
    ∀ (method : T → gmap string (cval O) → result (T * gmap string (cval O))) obj obj' vs',
      method obj (vars va) = Ok (obj', vs') →
      invoke_wrapper cb2 false w method obj buf s2 = Ok (obj', buf', s2) ∧
      ∀ obj'' b s2', waitreturn stb = true → results_ok m (vars st) vs' →
        invoke_wrapper cb2 true w method obj buf s2 = Ok (obj'', b, s2') →
        obj'' = obj' ∧ ∃ st'' bc'' s2'',
          stub_receive cb2 stb st' bc' s2' = Ok (inr st'', bc'', s2'') ∧ incoming s2'' = [] ∧
          vars st'' = after_call m (vars st) vs'.
Proof.
  intros Hs Hb Hc Hn Ha Hid Hu Hrb Hrf Hin1 Hin2 Hsend.
  destruct (request_delivered _ _ _ _ _ _ _ _ uid conn _ _ _ _ _ _ _ Hs Hb Hc Hn Ha Hid Hrb Hrf Hin1 Hsend)
    as (Ev & buf & s1'' & va & buf' & Er & Hi & Ew & Hrb' & Hva).
  eexists _, buf, s1'', va, buf'. split; [exact Er |]. cbn [Broker.classId Broker.methodId].
  split_and!; try done; [by apply uwrap_swrap |].
  intros method obj obj' vs' Hm. unfold invoke_wrapper. rewrite Ew. cbn [rbind fst snd]. rewrite Hm.
  cbn [rbind fst snd]. split; [done |]. intros obj'' b s2' Hwait Hres E.
  apply rbind_Ok in E as ([b' s'] & E & Eq). cbn [fst snd] in Eq. simplify_eq. split; [done |].
  destruct st' as [z vs]. cbn [vars] in Ev. subst vs.
  destruct (response_delivered _ _ _ _ _ _ _ _ bc' _ _ st (MkState (sizes va) vs') z _ _ Hs Hb Hc Hwait Hn Hres
    Hrb' Hin2 E) as (z' & bc'' & s2'' & Ee & Hi'').
  eexists _, bc'', s2''. by split_and!.
Qed.
End Connected.
End Invocation.

(** ** An example

    [int total(int n, [size=n] int* data, int& calls)] on an object that counts. *)
Module Example.
Definition n_param : Param := (param_new (Some (TBase "int"))) <| Stubs.name := "n" |>.
Definition data_param : Param :=
  (param_new (Some (TPtr None 1 (TBase "int") [false]))) <| Stubs.name := "data" |>
    <| Stubs.isInput := true |> <| Stubs.paramSize := Some "n" |>.
Definition calls_param : Param :=
  (param_new (Some (TBase "int"))) <| Stubs.name := "calls" |> <| Stubs.isRef := true |>.
Definition total : Method :=
  (Method_new PUBLIC) <| method_name := "total" |> <| id := 12 |>
    <| params := [n_param; data_param; calls_param] |>
    <| returnparam := (param_new (Some (TBase "int"))) <| Stubs.name := "_RemoteRet" |> |>.
Definition counter : Class := Class_new "Counter".

Definition the_stub : stub := Eval vm_compute in
  match GenerateClient counter total 0 with
  | inr (Some (s, _)) => s
  | _ => MkStub 0 0 "" false [] false [] None
  end.
Definition the_wrapper : wrapper := Eval vm_compute in
  match GenerateBroker counter total 0 with
  | Some (TheWrapper w, _) => w
  | _ => MkWrapper "" [] [] [] [] []
  end.
Lemma stub_generated : GenerateClient counter total 0 = inr (Some (the_stub, 0)).
Proof. vm_compute. reflexivity. Qed.
Lemma wrapper_generated : GenerateBroker counter total 0 = Some (TheWrapper the_wrapper, 0).
Proof. vm_compute. reflexivity. Qed.

Abbreviation val := (cval unit).
Definition int_val (z : Z) : val := VPrim PInt z.
Definition as_int (o : option val) : Z :=
  match o with Some v => default 0 (as_prim PInt v) | None => 0 end.
Definition expression (vs : gmap string val) (s : string) : Z := as_int (vs !! s).
Definition Serialize (cl : string) (pack : bool) (o : unit) : M buffer_raw unit := mret o.
Definition procs (proc : string) (pack : bool) (v : val) (n : Z) : M buffer_raw val := mret v.
Definition send := stub_send (B := buffer_raw) Serialize (λ _, tt) (λ _, 0) expression procs (loop_box 7).
Definition receive_reply := stub_receive (B := buffer_raw) Serialize (λ _, tt) (λ _, 0) expression procs
  (I := unit) (λ _ _, mret tt) tt (loop_box 5).
Definition invoke := invoke_wrapper (B := buffer_raw) (T := Z) Serialize (λ _, tt) (λ _, 0) expression procs (loop_box 5).

Definition caller : cstate unit := Eval vm_compute in
  MkState ∅ (<["n" := int_val 2]> (<["data" := VSeq [int_val 30; int_val 12]]> (<["calls" := int_val 4]> ∅))).
(** The method: the sum, one more call, and the object counts both. *)
Definition body (obj : Z) (vs : gmap string val) : result (Z * gmap string val) :=
  let sum := match vs !! "data" with
             | Some (VSeq l) => foldl (λ s v, s + as_int (Some v)) 0 l
             | _ => 0
             end in
  Ok (obj + sum, <["_RemoteRet" := int_val sum]> (<["calls" := int_val (as_int (vs !! "calls") + 1)]> vs)).

Definition sent := Eval vm_compute in
  match send 4242 the_stub caller raw_new [] with Ok r => r | _ => (caller, raw_new, []) end.
Lemma sent_ok : send 4242 the_stub caller raw_new [] = Ok sent.
Proof. vm_compute. reflexivity. Qed.
Definition received := Eval vm_compute in
  match CoreCalls.ReceiveRequest (loop_box 7) 3 raw_new sent.2 with
  | Ok (Some r, _) => r | _ => (Broker.MkPopRequest None 0 0 0 0, raw_new) end.
Lemma received_ok : CoreCalls.ReceiveRequest (loop_box 7) 3 raw_new sent.2 = Ok (Some received, []).
Proof. vm_compute. reflexivity. Qed.
Definition arguments := wrapper_args (B := buffer_raw) Serialize (λ _, tt) (λ _, 0) expression procs.
Definition read := Eval vm_compute in
  match arguments the_wrapper received.2 with Ok r => r | _ => (caller, raw_new) end.
Lemma read_ok : arguments the_wrapper received.2 = Ok read.
Proof. vm_compute. reflexivity. Qed.
Definition after := Eval vm_compute in match body 100 (vars read.1) with Ok r => r.2 | _ => ∅ end.
Lemma body_ok : body 100 (vars read.1) = Ok (142, after).
Proof. vm_compute. reflexivity. Qed.
Definition invoked := Eval vm_compute in
  match invoke true the_wrapper body 100 received.2 [] with Ok r => r | _ => (0, raw_new, []) end.
Lemma invoked_ok : invoke true the_wrapper body 100 received.2 [] = Ok invoked.
Proof. vm_compute. reflexivity. Qed.

Definition deliverable (cl : string) (o : unit) : Prop := True.
Definition proc_ok (proc : string) (v : val) : Prop := False.
Abbreviation sends := (Stubs.sends (O := unit) (λ _, tt) (λ _, 0) deliverable expression proc_ok).

Lemma Serialize_codec cl (o o' : unit) :
  deliverable cl o → codec (Serialize cl true o) o (Serialize cl false o') o.
Proof. intros _. destruct o, o'. apply codec_ret. Qed.
Lemma int_sends vs p z :
  mytype p = Some (TBase "int") → marshalProc p = None → paramSize p = None → in_sint 32 z = true →
  sends vs p (int_val z).
Proof.
  intros Ht Hm Hs Hz. eapply sends_value; [exact Ht | exact Hm | exact Hs | reflexivity | by exists z | exact Hz].
Qed.
Lemma total_names : names_ok total.
Proof.
  split; [apply (bool_decide_unpack _); vm_compute; exact I |].
  repeat (apply Forall_cons; split); [..| apply Forall_nil_2]; intros [? ?]; done.
Qed.
Lemma total_arguments :
  arguments_ok (λ _, tt) (λ _, 0) expression deliverable proc_ok total (vars caller).
Proof.
  split.
  - repeat (apply Forall_cons; split); [..| apply Forall_nil_2];
      intros _; (split; [by eexists |]); eexists; (split; [reflexivity |]).
    + by apply int_sends.
    + eapply sends_array; [reflexivity | reflexivity | reflexivity | reflexivity | by eexists | reflexivity
        | vm_compute; discriminate | | |].
      * split; [vm_compute; discriminate | done].
      * repeat constructor; by eexists.
      * repeat constructor.
    + by apply int_sends.
  - repeat (apply Forall_cons; split); [..| apply Forall_nil_2]; intros [=].
Qed.
Lemma total_results vs :
  in_sint 32 (as_int (vs !! "calls")) = true → in_sint 32 (as_int (vs !! "_RemoteRet")) = true →
  vs !! "calls" = Some (int_val (as_int (vs !! "calls"))) →
  vs !! "_RemoteRet" = Some (int_val (as_int (vs !! "_RemoteRet"))) →
  results_ok (λ _, tt) (λ _, 0) expression deliverable proc_ok total (vars caller) vs.
Proof.
  intros R1 R2 E1 E2. split.
  - repeat (apply Forall_cons; split); [..| apply Forall_nil_2]; intros Ho; try discriminate Ho. eexists _, (int_val 4).
    split; [exact E1 |]. split; [by apply int_sends |]. split; [reflexivity |].
    intros _ t [= <-]. split; [by exists 4 | done].
  - intros _. split; [by eexists |]. eexists. split; [exact E2 |]. by apply int_sends.
Qed.
End Example.

Lemma remote_call_is_call_witness :
  ∃ b s2' st'' bc'' s2'',
    Example.invoke true Example.the_wrapper Example.body 100 Example.received.2 [] = Ok (142, b, s2') ∧
    Example.receive_reply Example.the_stub Example.sent.1.1 Example.sent.1.2 s2' = Ok (inr st'', bc'', s2'') ∧
    vars st'' !! "calls" = Some (Example.int_val 5) ∧ vars st'' !! "_RemoteRet" = Some (Example.int_val 42).
Proof.
  destruct (remote_call_is_call (B := buffer_raw) Example.Serialize (λ _, tt) (λ _, 0) Example.expression
    Example.procs (λ _ _, mret tt) tt Example.deliverable Example.proc_ok (λ _, Z.le_refl 0)
    Example.Serialize_codec (λ _ _ _ H, False_ind _ H) (loop_box 7) (loop_box 5) (T := Z)
    Example.counter Example.total 0 0 Example.the_stub Example.the_wrapper 0 0 4242 3 raw_new raw_new
    Example.caller Example.sent.1.1 Example.sent.1.2 [] Example.sent.2 [])
    as (req & buf & s1'' & va & buf' & Er & _ & _ & _ & Ew & Hva & Hall).
  - exact Example.stub_generated.
  - exact Example.wrapper_generated.
  - reflexivity.
  - exact Example.total_names.
  - exact Example.total_arguments.
  - reflexivity.
  - lia.
  - repeat constructor.
  - repeat constructor.
  - reflexivity.
  - reflexivity.
  - exact Example.sent_ok.
  - change Example.sent.2 with (snd Example.sent) in Er.
    rewrite Example.received_ok in Er. injection Er as _ Er _. subst buf.
    pose proof (eq_trans (eq_sym Ew) Example.read_ok) as Ea. injection Ea as Ea _. subst va.
    destruct (Hall Example.body 100 142 Example.after Example.body_ok) as [_ Hr].
    destruct Example.invoked as [[o b] s2'] eqn:Ei. pose proof Example.invoked_ok as Hi. rewrite Ei in Hi.
    destruct (Hr o b s2' eq_refl) as (Eo & st'' & bc'' & s2'' & Erec & _ & Ev).
    + by apply Example.total_results.
    + exact Hi.
    + exists b, s2', st'', bc'', s2''. subst o. split; [exact Hi |]. split; [exact Erec |].
      rewrite Ev. split; vm_compute; reflexivity.
Defined.
